(** * kaipy: tiled reads and restart rescaling

    A shallow embedding of the array code of
    [kaipy/gamera/magsphereRescale.py] and [kaipy/gamera/gampp.py].

    numpy arrays are modelled as a shape together with a cell function;
    floating-point cells are modelled by exact rationals ([Qc]), so every
    statement below is a statement in exact arithmetic.  Python exceptions
    are modelled by a [result] type. *)

From Stdlib Require Import List Arith ZArith QArith Qcanon Lia ZifyNat Bool.
From Stdlib Require Import String Ascii DecimalString Permutation.
Import ListNotations.

Close Scope Qc_scope.
Close Scope Q_scope.
Local Open Scope nat_scope.

(** ** Python exceptions *)

Inductive exn : Type :=
| ValueError
| IndexError
| KeyError
| OSError
| ZeroDivisionError
| UnboundLocalError
| QhullError.

Inductive result (A : Type) : Type :=
| Ok (a : A)
| Raise (e : exn).
Arguments Ok {A} a.
Arguments Raise {A} e.

Definition bind {A B : Type} (c : result A) (k : A -> result B) : result B :=
  match c with
  | Ok a => k a
  | Raise e => Raise e
  end.

Notation "'let*' x ':=' c 'in' k" := (bind c (fun x => k))
  (at level 10, x name, c at level 100, k at level 200).
Notation "'let*' ' p ':=' c 'in' k" :=
  (bind c (fun x => match x with p => k end))
  (at level 10, p pattern, c at level 100, k at level 200).

(** [try: ... except: ...] with a bare [except]. *)
Definition try_except {A : Type} (c : result A) (handler : result A) : result A :=
  match c with
  | Ok a => Ok a
  | Raise _ => handler
  end.

(** A [for] loop over the list [l], with loop state [s]; the body may raise. *)
Fixpoint forM {A S : Type} (l : list A) (s : S) (body : A -> S -> result S)
  : result S :=
  match l with
  | [] => Ok s
  | x :: l' => let* s' := body x s in forM l' s' body
  end.

(** [range(n)] for a natural and for a Python integer. *)
Definition range (n : nat) : list nat := seq 0 n.
Definition rangeZ (n : Z) : list nat := seq 0 (Z.to_nat n).

(** ** numpy arrays *)

Definition index := list nat.

(** An array is its shape and the value of every cell.  The cells are
    exact rationals: the overflow, underflow and rounding of float64 are not
    modelled, and what is proved of the values of cells holds in exact
    arithmetic. *)
Record ndarray : Type := mkArr { shape : list nat; data : index -> Qc }.

Definition zeros (sh : list nat) : ndarray := mkArr sh (fun _ => Q2Qc 0).

Fixpoint in_bounds (idx : index) (sh : list nat) : bool :=
  match idx, sh with
  | [], [] => true
  | x :: idx', n :: sh' => (x <? n) && in_bounds idx' sh'
  | _, _ => false
  end.

(** Two arrays are the same array when they have the same shape and the same
    value in every cell. *)
Definition arr_eq (a b : ndarray) : Prop :=
  shape a = shape b /\
  forall idx, in_bounds idx (shape a) = true -> data a idx = data b idx.

(** One subscript of a numpy index expression: an integer, a slice
    [lo:hi], or a full slice [:]. *)
Inductive sel : Type :=
| At (n : nat)
| Rng (lo hi : nat)
| All.

(** Shape of [a[ss]]: an integer drops its axis, a slice is clipped to the
    extent of its axis. *)
Fixpoint sel_shape (ss : list sel) (sh : list nat) : list nat :=
  match ss, sh with
  | [], _ => sh
  | _ :: _, [] => []
  | At _ :: ss', _ :: sh' => sel_shape ss' sh'
  | Rng lo hi :: ss', n :: sh' => (Nat.min hi n - lo) :: sel_shape ss' sh'
  | All :: ss', n :: sh' => n :: sel_shape ss' sh'
  end.

(** The cell of [a] that cell [sub] of [a[ss]] views. *)
Fixpoint sel_index (ss : list sel) (sub : index) : index :=
  match ss with
  | [] => sub
  | At n :: ss' => n :: sel_index ss' sub
  | Rng lo _ :: ss' =>
      match sub with
      | x :: sub' => (lo + x) :: sel_index ss' sub'
      | [] => []
      end
  | All :: ss' =>
      match sub with
      | x :: sub' => x :: sel_index ss' sub'
      | [] => []
      end
  end.

(** Whether cell [idx] of [a] is viewed by [a[ss]], and as which cell. *)
Fixpoint sel_inv (ss : list sel) (idx : index) : option index :=
  match ss with
  | [] => Some idx
  | s :: ss' =>
      match idx with
      | [] => None
      | x :: idx' =>
          match s with
          | At n => if x =? n then sel_inv ss' idx' else None
          | Rng lo hi =>
              if (lo <=? x) && (x <? hi)
              then option_map (cons (x - lo)) (sel_inv ss' idx')
              else None
          | All => option_map (cons x) (sel_inv ss' idx')
          end
      end
  end.

Definition selected (ss : list sel) (idx : index) : bool :=
  match sel_inv ss idx with Some _ => true | None => false end.

(** Whether [ss] is a legal subscript of an array of shape [sh]: no more
    subscripts than axes, and every integer below the extent of its axis
    (otherwise numpy raises [IndexError]). *)
Fixpoint sel_ok (ss : list sel) (sh : list nat) : bool :=
  match ss, sh with
  | [], _ => true
  | _ :: _, [] => false
  | At n :: ss', d :: sh' => (n <? d) && sel_ok ss' sh'
  | _ :: ss', _ :: sh' => sel_ok ss' sh'
  end.

(** *** Broadcasting *)

Definition pad (n : nat) (sh : list nat) : list nat :=
  repeat 1 (n - List.length sh) ++ sh.

Fixpoint bc_dims (a b : list nat) : option (list nat) :=
  match a, b with
  | [], [] => Some []
  | x :: a', y :: b' =>
      match bc_dims a' b' with
      | Some r =>
          if x =? y then Some (x :: r)
          else if x =? 1 then Some (y :: r)
          else if y =? 1 then Some (x :: r)
          else None
      | None => None
      end
  | _, _ => None
  end.

(** The shape of [a op b], when the operands can be broadcast together. *)
Definition bc_shape (a b : list nat) : option (list nat) :=
  let n := Nat.max (List.length a) (List.length b) in
  bc_dims (pad n a) (pad n b).

Fixpoint pick (dims : list nat) (xs : index) : index :=
  match dims, xs with
  | d :: dims', x :: xs' => (if d =? 1 then 0 else x) :: pick dims' xs'
  | _, _ => []
  end.

(** The cell of an operand of shape [src] that is used at cell [idx] of the
    broadcast result. *)
Definition bc_idx (src : list nat) (idx : index) : index :=
  let extra := List.length src - List.length idx in
  repeat 0 extra ++ pick (skipn extra src) (skipn (List.length idx - List.length src) idx).

Fixpoint strip_ones (n : nat) (sh : list nat) : list nat :=
  match n, sh with
  | S n', 1 :: sh' => strip_ones n' sh'
  | _, _ => sh
  end.

Fixpoint list_eqb (a b : list nat) : bool :=
  match a, b with
  | [], [] => true
  | x :: a', y :: b' => (x =? y) && list_eqb a' b'
  | _, _ => false
  end.

(** Whether a block of shape [src] can be stored into a view of shape
    [dst]. *)
Definition assignable (src dst : list nat) : bool :=
  let src' := strip_ones (List.length src - List.length dst) src in
  (List.length src' <=? List.length dst) &&
  match bc_dims (pad (List.length dst) src') dst with
  | Some r => list_eqb r dst
  | None => false
  end.

(** *** Reading and writing *)

(** [a[ss]] as a view of [a], without the legality check. *)
Definition getsel (a : ndarray) (ss : list sel) : ndarray :=
  mkArr (sel_shape ss (shape a)) (fun sub => data a (sel_index ss sub)).

(** [a[ss]]. *)
Definition getitem (a : ndarray) (ss : list sel) : result ndarray :=
  if sel_ok ss (shape a) then Ok (getsel a ss) else Raise IndexError.

(** [a[i0,...,in]] with one integer per axis: a scalar. *)
Definition item (a : ndarray) (idx : index) : result Qc :=
  if in_bounds idx (shape a) then Ok (data a idx) else Raise IndexError.

(** [a[ss] = b] for an array [b]. *)
Definition setitem (a : ndarray) (ss : list sel) (b : ndarray) : result ndarray :=
  if sel_ok ss (shape a) then
    if assignable (shape b) (sel_shape ss (shape a)) then
      Ok (mkArr (shape a)
                (fun idx => match sel_inv ss idx with
                            | Some sub => data b (bc_idx (shape b) sub)
                            | None => data a idx
                            end))
    else Raise ValueError
  else Raise IndexError.

(** [a[ss] = v] for a scalar [v]. *)
Definition setitem_scalar (a : ndarray) (ss : list sel) (v : Qc) : result ndarray :=
  if sel_ok ss (shape a) then
    Ok (mkArr (shape a) (fun idx => if selected ss idx then v else data a idx))
  else Raise IndexError.

(** All cells of an array of shape [sh], in row-major order. *)
Fixpoint indices (sh : list nat) : list index :=
  match sh with
  | [] => [[]]
  | n :: sh' => flat_map (fun i => map (cons i) (indices sh')) (seq 0 n)
  end.

Definition Qc_of_nat (n : nat) : Qc := Q2Qc (inject_Z (Z.of_nat n)).

(** [a.sum()], [a.size] and [a.mean()]. *)
Definition asum (a : ndarray) : Qc :=
  fold_right (fun idx acc => Qcplus (data a idx) acc) (Q2Qc 0) (indices (shape a)).

Definition asize (a : ndarray) : nat := List.length (indices (shape a)).

Definition amean (a : ndarray) : Qc := Qcdiv (asum a) (Qc_of_nat (asize a)).

(** Elementwise operations of two arrays, with broadcasting. *)
Definition zipwith (op : Qc -> Qc -> Qc) (a b : ndarray) : result ndarray :=
  match bc_shape (shape a) (shape b) with
  | Some sh =>
      Ok (mkArr sh (fun idx => op (data a (bc_idx (shape a) idx))
                                  (data b (bc_idx (shape b) idx))))
  | None => Raise ValueError
  end.

Definition amul : ndarray -> ndarray -> result ndarray := zipwith Qcmult.
Definition adiv : ndarray -> ndarray -> result ndarray := zipwith Qcdiv.
Definition aadd : ndarray -> ndarray -> result ndarray := zipwith Qcplus.

(** [c * a] and [a / c] for a scalar [c]. *)
Definition ascale (c : Qc) (a : ndarray) : ndarray :=
  mkArr (shape a) (fun idx => Qcmult c (data a idx)).

Definition adivs (a : ndarray) (c : Qc) : ndarray :=
  mkArr (shape a) (fun idx => Qcdiv (data a idx) c).

(** [a.flatten()] as a list. *)
Definition flatten (a : ndarray) : list Qc := map (data a) (indices (shape a)).

(** [np.zeros] of Python integers: a negative extent raises [ValueError]. *)
Definition zerosZ (dims : list Z) : result ndarray :=
  if forallb (fun d => (0 <=? d)%Z) dims
  then Ok (zeros (map Z.to_nat dims))
  else Raise ValueError.

(** Unpacking [a.shape] into a fixed number of names raises [ValueError]
    when the rank differs. *)
Definition unpack3 (sh : list nat) : result (nat * nat * nat) :=
  match sh with
  | [a; b; c] => Ok (a, b, c)
  | _ => Raise ValueError
  end.

Definition unpack4 (sh : list nat) : result (nat * nat * nat * nat) :=
  match sh with
  | [a; b; c; d] => Ok (a, b, c, d)
  | _ => Raise ValueError
  end.

Definition unpack5 (sh : list nat) : result (nat * nat * nat * nat * nat) :=
  match sh with
  | [a; b; c; d; e] => Ok (a, b, c, d, e)
  | _ => Raise ValueError
  end.

(** The float literals [0.5] and [0.25]. *)
Definition half : Qc := Q2Qc (1 # 2).
Definition quarter : Qc := Q2Qc (1 # 4).

(** * magsphereRescale.py *)

Definition NumG : nat := 4.
Definition IDIR : nat := 0.
Definition JDIR : nat := 1.
Definition KDIR : nat := 2.

(** ** downVolt, upVolt *)

Definition downVolt (G : ndarray) : result ndarray :=
  let* '(Nd, Nk, Nj, Ni) := unpack4 (shape G) in
  let Gu := zeros [Nd; Nk / 2; Nj / 2; Ni] in
  (* Loop over fine grid *)
  forM (range Nd) Gu (fun d Gu =>
  forM (range Ni) Gu (fun i Gu =>
  forM (range (Nk / 2)) Gu (fun k Gu =>
  forM (range (Nj / 2)) Gu (fun j Gu =>
    let j0 := 2 * j in
    let k0 := 2 * k in
    let* blk := getitem G [At d; Rng k0 (k0 + 2); Rng j0 (j0 + 2); At i] in
    let Gjk := amean blk in
    setitem_scalar Gu [At d; At k; At j; At i] Gjk)))).

(** The body of the [try] block of [upVolt]. *)
Definition upVolt_4d (G : ndarray) : result ndarray :=
  let* '(Nd, Nk, Nj, Ni) := unpack4 (shape G) in
  let Gu := zeros [Nd; 2 * Nk; 2 * Nj; Ni] in
  (* Loop over coarse grid *)
  forM (range Nd) Gu (fun d Gu =>
  forM (range Ni) Gu (fun i Gu =>
  forM (range Nk) Gu (fun k Gu =>
  forM (range Nj) Gu (fun j Gu =>
    let* Gjk := item G [d; k; j; i] in
    let j0 := 2 * j in
    let k0 := 2 * k in
    setitem_scalar Gu [At d; Rng k0 (k0 + 2); Rng j0 (j0 + 2); At i] Gjk)))).

(** The body of the [except] block of [upVolt]. *)
Definition upVolt_5d (G : ndarray) : result ndarray :=
  let* '(Nd, Nk, Nj, Ni, Nh) := unpack5 (shape G) in
  let Gu := zeros [Nd; 2 * Nk; 2 * Nj; Ni; Nh] in
  (* Loop over coarse grid *)
  forM (range Nh) Gu (fun h Gu =>
  forM (range Nd) Gu (fun d Gu =>
  forM (range Ni) Gu (fun i Gu =>
  forM (range Nk) Gu (fun k Gu =>
  forM (range Nj) Gu (fun j Gu =>
    let* Gjk := item G [d; k; j; i; h] in
    let j0 := 2 * j in
    let k0 := 2 * k in
    setitem_scalar Gu [At d; Rng k0 (k0 + 2); Rng j0 (j0 + 2); At i; At h] Gjk))))).

(** [upVolt]: the nested function of the same name in the source is never
    called; the function is the [try]/[except] that follows it. *)
Definition upVolt (G : ndarray) : result ndarray :=
  try_except (upVolt_4d G) (upVolt_5d G).

(** ** Volume *)

Section Geometry.

(** [scipy.spatial.ConvexHull(ijkPts, incremental=False).volume] of an
    (8,3) array of points: a collaborator outside the repository.  It
    returns the volume of the hull, or raises: [QhullError] when the points
    span no volume, as the nodes of a flat cell or coincident nodes do. *)
Variable ConvexHull_volume : ndarray -> result Qc.

(** [Ag[NumG:-NumG, NumG:-NumG, NumG:-NumG]] *)
Definition strip_ghosts (Ag : ndarray) : result ndarray :=
  match shape Ag with
  | n0 :: n1 :: n2 :: _ =>
      getitem Ag [Rng NumG (n0 - NumG); Rng NumG (n1 - NumG); Rng NumG (n2 - NumG)]
  | _ => Raise IndexError
  end.

(** [a.flatten()] as a one-dimensional array. *)
Definition aflatten (a : ndarray) : ndarray :=
  mkArr [asize a]
        (fun idx => match idx with
                    | [n] => nth n (flatten a) (Q2Qc 0)
                    | _ => Q2Qc 0
                    end).

Definition Volume (Xg Yg Zg : ndarray) : result ndarray :=
  let* '(Ngk, Ngj, Ngi) := unpack3 (shape Xg) in
  let Nk := (Z.of_nat Ngk - 2 * Z.of_nat NumG - 1)%Z in
  let Nj := (Z.of_nat Ngj - 2 * Z.of_nat NumG - 1)%Z in
  let Ni := (Z.of_nat Ngi - 2 * Z.of_nat NumG - 1)%Z in
  let* X := strip_ghosts Xg in
  let* Y := strip_ghosts Yg in
  let* Z := strip_ghosts Zg in
  let* dV := zerosZ [Nk; Nj; Ni] in
  let ijkPts := zeros [8; 3] in
  (* Assuming LFM-like symmetry *)
  let k := 0 in
  let* '(dV, _) :=
    forM (rangeZ Nj) (dV, ijkPts) (fun j st =>
    forM (rangeZ Ni) st (fun i '(dV, ijkPts) =>
      let cell := [Rng k (k + 2); Rng j (j + 2); Rng i (i + 2)] in
      let* bx := getitem X cell in
      let* ijkPts := setitem ijkPts [All; At 0] (aflatten bx) in
      let* by_ := getitem Y cell in
      let* ijkPts := setitem ijkPts [All; At 1] (aflatten by_) in
      let* bz := getitem Z cell in
      let* ijkPts := setitem ijkPts [All; At 2] (aflatten bz) in
      let* vol := ConvexHull_volume ijkPts in
      let* dV := setitem_scalar dV [All; At j; At i] vol in
      Ok (dV, ijkPts))) in
  Ok dV.

(** ** downGas, upGas *)

Definition downGas (X Y Z G Xd Yd Zd : ndarray) : result ndarray :=
  let* '(Ns, Nv, Nk, Nj, Ni) := unpack5 (shape G) in
  let* dV := Volume X Y Z in
  let* dVd := Volume Xd Yd Zd in
  let Gd := zeros [Ns; Nv; Nk / 2; Nj / 2; Ni / 2] in
  (* Loop over coarse grid *)
  forM (range Ns) Gd (fun s Gd =>
  forM (range Nv) Gd (fun v Gd =>
    let* Gd :=
      forM (range (Nk / 2)) Gd (fun k Gd =>
      forM (range (Nj / 2)) Gd (fun j Gd =>
      forM (range (Ni / 2)) Gd (fun i Gd =>
        let blk := [Rng (2 * k) (2 * k + 2); Rng (2 * j) (2 * j + 2);
                    Rng (2 * i) (2 * i + 2)] in
        (* Volumes of the finer subgrid *)
        let* dVijk := getitem dV blk in
        (* stuff density in finer subgrid *)
        let* dQijk := getitem G (At s :: At v :: blk) in
        (* Stuff in the subchunk *)
        let* prod := amul dVijk dQijk in
        let QdV := asum prod in
        let* vd := item dVd [k; j; i] in
        (* Scale back to density *)
        setitem_scalar Gd [At s; At v; At k; At j; At i] (Qcdiv QdV vd)))) in
    (* Test conservation: the two totals that are printed *)
    let* Gd_sv := getitem Gd [At s; At v; All; All; All] in
    let* _ := amul Gd_sv dVd in
    let* G_sv := getitem G [At s; At v; All; All; All] in
    let* _ := amul G_sv dV in
    Ok Gd)).

Definition upGas (X Y Z G Xu Yu Zu : ndarray) : result ndarray :=
  let* '(Ns, Nv, Nk, Nj, Ni) := unpack5 (shape G) in
  let* dV := Volume X Y Z in
  let* dVu := Volume Xu Yu Zu in
  let Gu := zeros [Ns; Nv; 2 * Nk; 2 * Nj; 2 * Ni] in
  (* Loop over coarse grid *)
  forM (range Ns) Gu (fun s Gu =>
  forM (range Nv) Gu (fun v Gu =>
    let* Gu :=
      forM (range Nk) Gu (fun k Gu =>
      forM (range Nj) Gu (fun j Gu =>
      forM (range Ni) Gu (fun i Gu =>
        let blk := [Rng (2 * k) (2 * k + 2); Rng (2 * j) (2 * j + 2);
                    Rng (2 * i) (2 * i + 2)] in
        let* g := item G [s; v; k; j; i] in
        let* vol := item dV [k; j; i] in
        let QdV := Qcmult g vol in
        (* Volumes of the finer subgrid *)
        let* dVijk := getitem dVu blk in
        (* Total volume of the finer subchunks *)
        let vScl := asum dVijk in
        (* Give weighted contribution to each subcell *)
        let QdVu := ascale QdV (adivs dVijk vScl) in
        (* Scale back to density *)
        let* dens := adiv QdVu dVijk in
        setitem Gu (At s :: At v :: blk) dens))) in
    (* Test conservation: the two totals that are printed *)
    let* G_sv := getitem G [At s; At v; All; All; All] in
    let* _ := amul G_sv dV in
    let* Gu_sv := getitem Gu [At s; At v; All; All; All] in
    let* _ := amul Gu_sv dVu in
    Ok Gu)).

End Geometry.

(** ** downFlux, upFlux, MaxDiv *)

(** [Nkc - 1] as a Python integer. *)
Definition cells (Nc : nat) : Z := (Z.of_nat Nc - 1)%Z.

(** The grids [X,Y,Z,Xu,Yu,Zu] are arguments of the source function that it
    never reads. *)
Definition downFlux (X Y Z M Xu Yu Zu : ndarray) : result ndarray :=
  let* '(Nd, Nkc, Njc, Nic) := unpack4 (shape M) in
  let Nk := cells Nkc in
  let Nj := cells Njc in
  let Ni := cells Nic in
  let* Md := zerosZ [Z.of_nat Nd; Nk / 2 + 1; Nj / 2 + 1; Ni / 2 + 1]%Z in
  (* Loop over coarse grid cells *)
  forM (rangeZ (Nk / 2)) Md (fun k Md =>
  forM (rangeZ (Nj / 2)) Md (fun j Md =>
  forM (rangeZ (Ni / 2)) Md (fun i Md =>
    let ip := 2 * i in
    let jp := 2 * j in
    let kp := 2 * k in
    (* West/east i faces *)
    let* w := getitem M [At IDIR; Rng kp (kp + 2); Rng jp (jp + 2); At ip] in
    let* Md := setitem_scalar Md [At IDIR; At k; At j; At i] (asum w) in
    let* e := getitem M [At IDIR; Rng kp (kp + 2); Rng jp (jp + 2); At (ip + 2)] in
    let* Md := setitem_scalar Md [At IDIR; At k; At j; At (i + 1)] (asum e) in
    (* South/north j faces *)
    let* s := getitem M [At JDIR; Rng kp (kp + 2); At jp; Rng ip (ip + 2)] in
    let* Md := setitem_scalar Md [At JDIR; At k; At j; At i] (asum s) in
    let* n := getitem M [At JDIR; Rng kp (kp + 2); At (jp + 2); Rng ip (ip + 2)] in
    let* Md := setitem_scalar Md [At JDIR; At k; At (j + 1); At i] (asum n) in
    (* Bottom/top k faces *)
    let* b := getitem M [At KDIR; At kp; Rng jp (jp + 2); Rng ip (ip + 2)] in
    let* Md := setitem_scalar Md [At KDIR; At k; At j; At i] (asum b) in
    let* t := getitem M [At KDIR; At (kp + 2); Rng jp (jp + 2); Rng ip (ip + 2)] in
    setitem_scalar Md [At KDIR; At (k + 1); At j; At i] (asum t)))).

Definition upFlux (X Y Z M Xu Yu Zu : ndarray) : result ndarray :=
  let* '(Nd, Nkc, Njc, Nic) := unpack4 (shape M) in
  let Nk := cells Nkc in
  let Nj := cells Njc in
  let Ni := cells Nic in
  let* Mu := zerosZ [Z.of_nat Nd; 2 * Nk + 1; 2 * Nj + 1; 2 * Ni + 1]%Z in
  (* Loop over coarse grid *)
  forM (rangeZ Nk) Mu (fun k Mu =>
  forM (rangeZ Nj) Mu (fun j Mu =>
  forM (rangeZ Ni) Mu (fun i Mu =>
    let ip := 2 * i in
    let jp := 2 * j in
    let kp := 2 * k in
    let kk := Rng kp (kp + 2) in
    let jj := Rng jp (jp + 2) in
    let ii := Rng ip (ip + 2) in
    (* West i face (4) *)
    let* m := item M [IDIR; k; j; i] in
    let* Mu := setitem_scalar Mu [At IDIR; kk; jj; At ip] (Qcmult quarter m) in
    (* East i face (4) *)
    let* m := item M [IDIR; k; j; i + 1] in
    let* Mu := setitem_scalar Mu [At IDIR; kk; jj; At (ip + 2)] (Qcmult quarter m) in
    (* South j face (4) *)
    let* m := item M [JDIR; k; j; i] in
    let* Mu := setitem_scalar Mu [At JDIR; kk; At jp; ii] (Qcmult quarter m) in
    (* North j face (4) *)
    let* m := item M [JDIR; k; j + 1; i] in
    let* Mu := setitem_scalar Mu [At JDIR; kk; At (jp + 2); ii] (Qcmult quarter m) in
    (* Bottom k face (4) *)
    let* m := item M [KDIR; k; j; i] in
    let* Mu := setitem_scalar Mu [At KDIR; At kp; jj; ii] (Qcmult quarter m) in
    (* Top k face (4) *)
    let* m := item M [KDIR; k + 1; j; i] in
    let* Mu := setitem_scalar Mu [At KDIR; At (kp + 2); jj; ii] (Qcmult quarter m) in
    (* Now all exterior faces are done; 12 remaining interior faces *)
    (* Interior i faces (4) *)
    let* a := getitem Mu [At IDIR; kk; jj; At ip] in
    let* b := getitem Mu [At IDIR; kk; jj; At (ip + 2)] in
    let* ab := aadd a b in
    let* Mu := setitem Mu [At IDIR; kk; jj; At (ip + 1)] (ascale half ab) in
    (* Interior j faces (4) *)
    let* a := getitem Mu [At JDIR; kk; At jp; ii] in
    let* b := getitem Mu [At JDIR; kk; At (jp + 2); ii] in
    let* ab := aadd a b in
    let* Mu := setitem Mu [At JDIR; kk; At (jp + 1); ii] (ascale half ab) in
    (* Interior k faces (4) *)
    let* a := getitem Mu [At KDIR; At kp; jj; ii] in
    let* b := getitem Mu [At KDIR; At (kp + 2); jj; ii] in
    let* ab := aadd a b in
    setitem Mu [At KDIR; At (kp + 1); jj; ii] (ascale half ab)))).

(** The signed sum of the six face fluxes of cell [(k,j,i)], as [MaxDiv]
    writes it. *)
Definition cell_div (M : ndarray) (k j i : nat) : result Qc :=
  let* e := item M [IDIR; k; j; i + 1] in
  let* w := item M [IDIR; k; j; i] in
  let* n := item M [JDIR; k; j + 1; i] in
  let* s := item M [JDIR; k; j; i] in
  let* t := item M [KDIR; k + 1; j; i] in
  let* b := item M [KDIR; k; j; i] in
  Ok (Qcminus (Qcplus (Qcminus (Qcplus (Qcminus e w) n) s) t) b).

(** [MaxDiv] returns the array [Div].  The maximum and the mean that it
    prints are not modelled, except that [max()] of an array without cells
    raises [ValueError]. *)
Definition MaxDiv (M : ndarray) : result ndarray :=
  let* '(Nd, Nkc, Njc, Nic) := unpack4 (shape M) in
  let Nk := cells Nkc in
  let Nj := cells Njc in
  let Ni := cells Nic in
  let* Div := zerosZ [Nk; Nj; Ni] in
  let* Div :=
    forM (rangeZ Nk) Div (fun k Div =>
    forM (rangeZ Nj) Div (fun j Div =>
    forM (rangeZ Ni) Div (fun i Div =>
      let* d := cell_div M k j i in
      setitem_scalar Div [At k; At j; At i] d))) in
  if asize Div =? 0 then Raise ValueError else Ok Div.

(** * Definitions used to state the properties *)

(** [writes W F S S']: the array [S'] has the shape of [S], holds [F] in
    the cells that [W] marks, and is [S] elsewhere. *)
Definition writes (W : index -> bool) (F : index -> Qc) (S S' : ndarray) : Prop :=
  shape S' = shape S /\
  forall idx, in_bounds idx (shape S) = true ->
              data S' idx = if W idx then F idx else data S idx.

(** What a subscript selects along its axis. *)
Definition sel_has (s : sel) (x : nat) : Prop :=
  match s with
  | At n => x = n
  | Rng lo hi => lo <= x < hi
  | All => True
  end.

Definition eighth : Qc := Q2Qc (1 # 8).

(** ** Small concrete inputs *)

(** A plain 4D accumulator field of shape (1,2,4,1) and one with a history
    axis, of shape (1,2,2,1,2). *)
Definition volt4 : ndarray :=
  mkArr [1; 2; 4; 1]
        (fun idx => match idx with
                    | [d; k; j; i] => Qc_of_nat (10 * k + j)
                    | _ => Q2Qc 0
                    end).

Definition volt5 : ndarray :=
  mkArr [1; 2; 2; 1; 2]
        (fun idx => match idx with
                    | [d; k; j; i; h] => Qc_of_nat (100 * k + 10 * j + h)
                    | _ => Q2Qc 0
                    end).

(** ** Grids and blocks *)

(** The three node arrays of a grid of [Nk] x [Nj] x [Ni] cells with its
    ghost layers, in k-j-i order. *)
Definition grid_shape (X Y Z : ndarray) (Nk Nj Ni : nat) : Prop :=
  let sh := [Nk + 2 * NumG + 1; Nj + 2 * NumG + 1; Ni + 2 * NumG + 1] in
  shape X = sh /\ shape Y = sh /\ shape Z = sh.

(** The sum of [f] over the 2x2x2 block of fine cells of the coarse cell
    [(k,j,i)]. *)
Definition block222 (f : nat -> nat -> nat -> Qc) (k j i : nat) : Qc :=
  let k0 := 2 * k in
  let j0 := 2 * j in
  let i0 := 2 * i in
  Qcplus (Qcplus (Qcplus (Qcplus (Qcplus (Qcplus (Qcplus
    (f k0 j0 i0) (f k0 j0 (i0 + 1)))
    (f k0 (j0 + 1) i0)) (f k0 (j0 + 1) (i0 + 1)))
    (f (k0 + 1) j0 i0)) (f (k0 + 1) j0 (i0 + 1)))
    (f (k0 + 1) (j0 + 1) i0)) (f (k0 + 1) (j0 + 1) (i0 + 1)).

(** ** Observing results *)

(** The shape of a returned array, and the value of one of its cells as a
    fraction. *)
Definition result_shape (r : result ndarray) : option (list nat) :=
  match r with
  | Ok a => Some (shape a)
  | Raise _ => None
  end.

Definition result_cell (r : result ndarray) (idx : index) : option Q :=
  match r with
  | Ok a => if in_bounds idx (shape a) then Some (this (data a idx)) else None
  | Raise _ => None
  end.

(** A grid of [Nk] x [Nj] x [Ni] cells with its ghost layers whose nodes
    are numbered along each axis, and a stand-in for the hull volume that
    gives every cell the volume one. *)
Definition axis_grid (axis Nk Nj Ni : nat) : ndarray :=
  mkArr [Nk + 2 * NumG + 1; Nj + 2 * NumG + 1; Ni + 2 * NumG + 1]
        (fun idx => Qc_of_nat (nth axis idx 0)).

Definition unit_hull (pts : ndarray) : result Qc := Ok (Q2Qc 1).

(** A stand-in for the hull of points that span no volume. *)
Definition flat_hull (pts : ndarray) : result Qc := Raise QhullError.

(** A gas state of shape (1,1,2,2,2) whose eight cells hold 1..8. *)
Definition gas222 : ndarray :=
  mkArr [1; 1; 2; 2; 2]
        (fun idx => match idx with
                    | [s; v; k; j; i] => Qc_of_nat (1 + 4 * k + 2 * j + i)
                    | _ => Q2Qc 0
                    end).

(** A gas state of shape (1,1,1,1,1) that holds 3. *)
Definition gas111 : ndarray := mkArr [1; 1; 1; 1; 1] (fun _ => Qc_of_nat 3).

(** The fine (2x2x2 cells) and coarse (1x1x1 cell) grids of the examples. *)
Definition Xfine : ndarray := axis_grid 2 2 2 2.
Definition Yfine : ndarray := axis_grid 1 2 2 2.
Definition Zfine : ndarray := axis_grid 0 2 2 2.
Definition Xcoarse : ndarray := axis_grid 2 1 1 1.
Definition Ycoarse : ndarray := axis_grid 1 1 1 1.
Definition Zcoarse : ndarray := axis_grid 0 1 1 1.

(** The volumes that [Volume] computes with [unit_hull] on the example
    grid of [Nk] x [Nj] x [Ni] cells. *)
Definition unit_volumes (Nk Nj Ni : nat) : ndarray :=
  match Volume unit_hull (axis_grid 2 Nk Nj Ni) (axis_grid 1 Nk Nj Ni)
               (axis_grid 0 Nk Nj Ni) with
  | Ok dV => dV
  | Raise _ => zeros []
  end.

(** ** Discrete divergence *)

(** The value that [cell_div] computes when its six reads are in range. *)
Definition div6 (M : ndarray) (k j i : nat) : Qc :=
  Qcminus (Qcplus (Qcminus (Qcplus (Qcminus
    (data M [IDIR; k; j; i + 1]) (data M [IDIR; k; j; i]))
    (data M [JDIR; k; j + 1; i])) (data M [JDIR; k; j; i]))
    (data M [KDIR; k + 1; j; i])) (data M [KDIR; k; j; i]).

(** The four fine faces that abut a coarse face: an i-face at fine index
    [i], a j-face at fine index [j], a k-face at fine index [k]; the two
    other indices are those of the coarse cell. *)
Definition sumI (M : ndarray) (k j i : nat) : Qc :=
  Qcplus (Qcplus (Qcplus (data M [IDIR; 2 * k; 2 * j; i])
                         (data M [IDIR; 2 * k; 2 * j + 1; i]))
                 (data M [IDIR; 2 * k + 1; 2 * j; i]))
         (data M [IDIR; 2 * k + 1; 2 * j + 1; i]).

Definition sumJ (M : ndarray) (k j i : nat) : Qc :=
  Qcplus (Qcplus (Qcplus (data M [JDIR; 2 * k; j; 2 * i])
                         (data M [JDIR; 2 * k; j; 2 * i + 1]))
                 (data M [JDIR; 2 * k + 1; j; 2 * i]))
         (data M [JDIR; 2 * k + 1; j; 2 * i + 1]).

Definition sumK (M : ndarray) (k j i : nat) : Qc :=
  Qcplus (Qcplus (Qcplus (data M [KDIR; k; 2 * j; 2 * i])
                         (data M [KDIR; k; 2 * j; 2 * i + 1]))
                 (data M [KDIR; k; 2 * j + 1; 2 * i]))
         (data M [KDIR; k; 2 * j + 1; 2 * i + 1]).

(** The flux that [upFlux] gives to the fine face [idx]: a quarter of the
    coarse face that it lies on, or the mean of its two neighbours on coarse
    faces when it lies between two coarse faces. *)
Definition fine_face (M : ndarray) (idx : index) : Qc :=
  match idx with
  | [d; kk; jj; ii] =>
      let k := kk / 2 in
      let j := jj / 2 in
      let i := ii / 2 in
      if d =? 0 then
        if ii mod 2 =? 0 then Qcmult quarter (data M [0; k; j; i])
        else Qcmult half (Qcplus (Qcmult quarter (data M [0; k; j; i]))
                                 (Qcmult quarter (data M [0; k; j; i + 1])))
      else if d =? 1 then
        if jj mod 2 =? 0 then Qcmult quarter (data M [1; k; j; i])
        else Qcmult half (Qcplus (Qcmult quarter (data M [1; k; j; i]))
                                 (Qcmult quarter (data M [1; k; j + 1; i])))
      else if d =? 2 then
        if kk mod 2 =? 0 then Qcmult quarter (data M [2; k; j; i])
        else Qcmult half (Qcplus (Qcmult quarter (data M [2; k; j; i]))
                                 (Qcmult quarter (data M [2; k + 1; j; i])))
      else Q2Qc 0
  | _ => Q2Qc 0
  end.

(** A fine flux state on 2x2x2 cells without divergence: the flux grows
    along I as it falls along J.  And a coarse flux state on one cell whose
    divergence is 13. *)
Definition flux_solenoidal : ndarray :=
  mkArr [3; 3; 3; 3]
        (fun idx => match idx with
                    | [0; k; j; i] => Qc_of_nat (i + 3 * k)
                    | [1; k; j; i] => Qc_of_nat (10 - j)
                    | [2; k; j; i] => Qc_of_nat (7 * j + i)
                    | _ => Q2Qc 0
                    end).

Definition flux_coarse : ndarray :=
  mkArr [3; 2; 2; 2]
        (fun idx => match idx with
                    | [d; k; j; i] => Qc_of_nat (100 * d + 10 * k + 2 * j + i * i)
                    | _ => Q2Qc 0
                    end).

(** The array that a call returned, for stating what it holds. *)
Definition returned (r : result ndarray) : ndarray :=
  match r with
  | Ok a => a
  | Raise _ => zeros []
  end.

(** * gampp.py *)

Module Gampp.

(** The fields of a [GameraPipe] that the readers use. *)
Record GameraPipe : Type := mkPipe {
  fdir : string;
  ftag : string;
  isMPI : bool;
  doParallel : bool;
  nWorkers : nat;
  is2D : bool;
  Ri : nat; Rj : nat; Rk : nat;
  Nr : nat;
  Ni : nat; Nj : nat; Nk : nat;
  dNi : nat; dNj : nat; dNk : nat
}.

(** [itertools.product(range(a), range(b), range(c))] *)
Definition product3 (a b c : nat) : list (nat * nat * nat) :=
  flat_map (fun i => flat_map (fun j => map (fun k => (i, j, k)) (range c))
                              (range b))
           (range a).

(** [for future in as_completed(futures)]: the futures, each once, in the
    order in which the workers finish; [order] lists their positions in that
    order. *)
Definition as_completed {A : Type} (order : list nat) (futures : list A) : list A :=
  flat_map (fun n => match nth_error futures n with
                     | Some f => [f]
                     | None => []
                     end) order.

(** [V[np]] along an axis of extent [dim] for a Python integer [np]:
    negative indices count from the end. *)
Definition wrap_index (np : Z) (dim : nat) : result nat :=
  if ((0 <=? np) && (np <? Z.of_nat dim))%Z then Ok (Z.to_nat np)
  else if ((- Z.of_nat dim <=? np) && (np <? 0))%Z
       then Ok (Z.to_nat (np + Z.of_nat dim))
       else Raise IndexError.

(** [s.upper()] for a [str] of ASCII characters: the letters a-z are
    mapped to A-Z.  A string holds the bytes of its UTF-8 encoding; outside
    ASCII [str.upper] maps further letters (U+0131 to I, for one), which
    [upper] leaves as they are, so that [upper] stands for [str.upper] on the
    strings for which [isascii] holds, and the statements about a direction
    string in any letter case assume it. *)
Definition upper_ascii (c : ascii) : ascii :=
  let n := nat_of_ascii c in
  if (97 <=? n) && (n <=? 122) then ascii_of_nat (n - 32) else c.

Fixpoint upper (s : string) : string :=
  match s with
  | EmptyString => EmptyString
  | String c s' => String (upper_ascii c) (upper s')
  end.


(** ["%d" % n] *)
Definition fmt_d (n : Z) : string := NilZero.string_of_int (Z.to_int n).

Section Readers.

(** Collaborators in [kaipy.kaiH5], which is outside this embedding:
    [genName(tag,i,j,k,Ri,Rj,Rk)] names the file of a rank, and
    [PullVar(fIn,vID,sID)] reads a dataset, or raises. *)
Variable genName : string -> nat -> nat -> nat -> nat -> nat -> nat -> string.
Variable PullVar : string -> string -> option Z -> result ndarray.

(** Modelled from the spec: [kh5.PullVarLoc], the task of one worker, is
    in [kaipy.kaiH5]; it opens and reads one rank file and returns the data
    with the rank tuple. *)
Definition PullVarLoc (fIn vID : string) (sID : option Z) (loc : nat * nat * nat)
  : result (ndarray * (nat * nat * nat)) :=
  let* dataset := PullVar fIn vID sID in
  Ok (dataset, loc).

Variable gp : GameraPipe.

(** The sub-block of rank [(i,j,k)] in the global array. *)
Definition tile (i j k : nat) : list sel :=
  let iS := i * dNi gp in
  let jS := j * dNj gp in
  let kS := k * dNk gp in
  let iE := iS + dNi gp in
  let jE := jS + dNj gp in
  let kE := kS + dNk gp in
  if is2D gp then [Rng iS iE; Rng jS jE]
  else [Rng iS iE; Rng jS jE; Rng kS kE].

Definition alloc_V : ndarray :=
  if is2D gp then zeros [Ni gp; Nj gp] else zeros [Ni gp; Nj gp; Nk gp].

(** [GetVarParallel]: the progress bar is not modelled; [order] is the
    order in which the reads complete. *)
Definition GetVarParallel (order : list nat) (vID : string) (sID : option Z)
    (vScl : option Qc) (doVerb : bool) : result ndarray :=
  let V := alloc_V in
  let files :=
    map (fun '(i, j, k) =>
           ((fdir gp ++ "/" ++ genName (ftag gp) i j k (Ri gp) (Rj gp) (Rk gp))%string,
            (i, j, k)))
        (product3 (Ri gp) (Rj gp) (Rk gp)) in
  (* ProcessPoolExecutor(max_workers=0) raises *)
  let* _ := if nWorkers gp =? 0 then Raise ValueError else Ok tt in
  let futures := map (fun '(fIn, loc) => PullVarLoc fIn vID sID loc) files in
  let* datasets :=
    forM (as_completed order futures) []
         (fun future datasets =>
            let* r := future in Ok (datasets ++ [r])) in
  let* V :=
    forM datasets V (fun '(dataset, (i, j, k)) V => setitem V (tile i j k) dataset) in
  match vScl with
  | Some c => Ok (ascale c V)
  | None => Ok V
  end.

(** [GetVar] *)
Definition GetVar (order : list nat) (vID : string) (sID : option Z)
    (vScl : option Qc) (doVerb : bool) : result ndarray :=
  let V := alloc_V in
  if isMPI gp && doParallel gp then
    GetVarParallel order vID sID vScl doVerb
  else
    forM (product3 (Ri gp) (Rj gp) (Rk gp)) V
         (fun '(i, j, k) V =>
            let fIn :=
              if isMPI gp
              then (fdir gp ++ "/" ++ genName (ftag gp) i j k (Ri gp) (Rj gp) (Rk gp))%string
              else (fdir gp ++ "/" ++ ftag gp ++ ".h5")%string in
            let* dataset := PullVar fIn vID sID in
            setitem V (tile i j k) dataset).

(** [GetSlice]: returns the lines that it writes with [print], and the
    slice or the exception; the progress bar of its [GetVar] is disabled. *)
Definition GetSlice (order : list nat) (vID : string) (sID : option Z)
    (ijkdir : string) (n : Z) (vScl : option Qc) (doVerb : bool)
  : list string * result ndarray :=
  let sDirs := ["IDIR"; "JDIR"; "KDIR"]%string in
  let ijkdir := upper ijkdir in
  let '(out, ijkdir) :=
    if negb (existsb (String.eqb ijkdir) sDirs)
    then (["Invalid slice direction, defaulting to I"%string], "IDIR"%string)
    else ([], ijkdir) in
  let cStr :=
    match sID with
    | None => ("Reading " ++ ftag gp ++ "/" ++ vID)%string
    | Some s => ("Reading " ++ ftag gp ++ "/Step#" ++ fmt_d s ++ "/" ++ vID)%string
    end in
  match GetVar order vID sID vScl false with
  | Raise e => (out, Raise e)
  | Ok V =>
      (* Now slice *)
      let np := (n - 1)%Z in  (* Convert from Fortran to Python indexing *)
      let sliced :=
        if String.eqb ijkdir "IDIR" then
          match shape V with
          | d0 :: _ =>
              let* m := wrap_index np d0 in
              let* Vs := getitem V [At m; All; All] in
              Ok (Vs, ("(" ++ fmt_d n ++ ",:,:)")%string)
          | _ => Raise IndexError
          end
        else if String.eqb ijkdir "JDIR" then
          match shape V with
          | _ :: d1 :: _ =>
              let* m := wrap_index np d1 in
              let* Vs := getitem V [All; At m; All] in
              Ok (Vs, ("(:," ++ fmt_d n ++ ",:)")%string)
          | _ => Raise IndexError
          end
        else if String.eqb ijkdir "KDIR" then
          match shape V with
          | _ :: _ :: d2 :: _ =>
              let* m := wrap_index np d2 in
              let* Vs := getitem V [All; All; At m] in
              Ok (Vs, ("(:,:," ++ fmt_d n ++ ")")%string)
          | _ => Raise IndexError
          end
        else Raise UnboundLocalError in
      match sliced with
      | Raise e => (out, Raise e)
      | Ok (Vs, sStr) =>
          (if doVerb then out ++ [(cStr ++ sStr)%string] else out, Ok Vs)
      end
  end.

(** Wrappers for root variables *)
Definition GetRootVar (order : list nat) (vID : string) (vScl : option Qc)
    (doVerb : bool) : result ndarray :=
  GetVar order vID None vScl doVerb.

Definition GetRootSlice (order : list nat) (vID : string) (ijkdir : string)
    (n : Z) (vScl : option Qc) (doVerb : bool) : list string * result ndarray :=
  GetSlice order vID None ijkdir n vScl doVerb.

(** ** The grid *)

(** The grid attributes of a pipe.  [X], [Y] and [Z] are empty lists
    until the grid is read, and [dV] is no attribute of the pipe until the
    sequential reader sets it: [None] stands for both. *)
Record grid : Type := mkGrid {
  gridX : option ndarray;
  gridY : option ndarray;
  gridZ : option ndarray;
  griddV : option ndarray;
  gridLoaded : bool
}.

(** The grid attributes that [__init__] sets. *)
Definition no_grid : grid := mkGrid None None None None false.

(** The nodes of rank [(i,j,k)] in a global node array: one more than its
    cells along every axis. *)
Definition node_tile (i j k : nat) : list sel :=
  let iS := i * dNi gp in
  let jS := j * dNj gp in
  let kS := k * dNk gp in
  let iE := iS + dNi gp in
  let jE := jS + dNj gp in
  let kE := kS + dNk gp in
  if is2D gp then [Rng iS (iE + 1); Rng jS (jE + 1)]
  else [Rng iS (iE + 1); Rng jS (jE + 1); Rng kS (kE + 1)].

(** [data, vID = a] for an array [a] with at least one axis: its rows, when
    there are two. *)
Definition unpack_rows (a : ndarray) : result (ndarray * ndarray) :=
  match shape a with
  | 2 :: _ => Ok (getsel a [At 0], getsel a [At 1])
  | _ => Raise ValueError
  end.

(** [kh5.PullVarLoc(fIn, vID, loc=loc)] when [vID] is not a string but a
    row of an array, as in the 2D branch of [GetGridParallel]: what the
    collaborator does with it. *)
Variable PullVarLoc_row :
  string -> ndarray -> nat * nat * nat -> result (ndarray * (nat * nat * nat)).

(** One pass of [for data,vID in coords] in [GetGridParallel]: the pool of
    workers reads [vID] from every rank file, and the datasets are stored
    into [data] in the order in which the reads complete. *)
Definition read_coord
    (submit : string -> nat * nat * nat -> result (ndarray * (nat * nat * nat)))
    (order : list nat) (data : ndarray) : result ndarray :=
  let files :=
    map (fun '(i, j, k) =>
           ((fdir gp ++ "/" ++ genName (ftag gp) i j k (Ri gp) (Rj gp) (Rk gp))%string,
            (i, j, k)))
        (product3 (Ri gp) (Rj gp) (Rk gp)) in
  let* _ := if nWorkers gp =? 0 then Raise ValueError else Ok tt in
  let futures := map (fun '(fIn, loc) => submit fIn loc) files in
  let* datasets :=
    forM (as_completed order futures) []
         (fun future datasets =>
            let* r := future in Ok (datasets ++ [r])) in
  forM datasets data
       (fun '(dataset, (i, j, k)) data => setitem data (node_tile i j k) dataset).

(** [GetGridParallel]: [orderX], [orderY], [orderZ] are the orders in
    which the reads of the three pools complete.  In the 2D branch the list
    [coords] holds the arrays themselves and not pairs, so that each array is
    unpacked into its rows.  The progress bars, which write to the terminal
    whatever [doVerbose] is, are not modelled. *)
Definition GetGridParallel (orderX orderY orderZ : list nat) (doVerbose : bool)
    (g : grid) : result grid :=
  if is2D gp then
    let X := zeros [Ni gp + 1; Nj gp + 1] in
    let Y := zeros [Ni gp + 1; Nj gp + 1] in
    let pass (a : ndarray) (order : list nat) : result ndarray :=
      let* '(data, vID) := unpack_rows a in
      let* data := read_coord (fun fIn loc => PullVarLoc_row fIn vID loc) order data in
      (* data is a view of the first row of a *)
      setitem a [At 0] data in
    let* X := pass X orderX in
    let* Y := pass Y orderY in
    Ok (mkGrid (Some X) (Some Y) (gridZ g) (griddV g) (gridLoaded g))
  else
    let X := zeros [Ni gp + 1; Nj gp + 1; Nk gp + 1] in
    let Y := zeros [Ni gp + 1; Nj gp + 1; Nk gp + 1] in
    let Z := zeros [Ni gp + 1; Nj gp + 1; Nk gp + 1] in
    let* X := read_coord (fun fIn loc => PullVarLoc fIn "X" None loc) orderX X in
    let* Y := read_coord (fun fIn loc => PullVarLoc fIn "Y" None loc) orderY Y in
    let* Z := read_coord (fun fIn loc => PullVarLoc fIn "Z" None loc) orderZ Z in
    Ok (mkGrid (Some X) (Some Y) (Some Z) (griddV g) (gridLoaded g)).

(** [GetGrid]: returns the lines that it writes with [print], and the grid
    attributes or the exception; the attributes that an exception leaves
    behind are not modelled.  The progress bar of the loading branch is not
    modelled either: [alive_bar] is opened without [disable] and writes its
    own line to the terminal whatever [doVerbose] is, so that the list of
    lines says what [print] wrote and not that the terminal stayed empty.  In
    2D the last two arrays of the loop state stand for nothing: the pipe keeps
    its [Z] and has no [dV]. *)
Definition GetGrid (orderX orderY orderZ : list nat) (doVerbose : bool)
    (g : grid) : list string * result grid :=
  if negb (gridLoaded g) then
    let loaded :=
      if isMPI gp && doParallel gp then
        GetGridParallel orderX orderY orderZ doVerbose g
      else
        let nodes := if is2D gp then zeros [Ni gp + 1; Nj gp + 1]
                     else zeros [Ni gp + 1; Nj gp + 1; Nk gp + 1] in
        let cells := zeros [Ni gp; Nj gp; Nk gp] in
        let* '(X, Y, Z, dV) :=
          forM (product3 (Ri gp) (Rj gp) (Rk gp)) (nodes, nodes, nodes, cells)
               (fun '(i, j, k) '(X, Y, Z, dV) =>
                  let fIn :=
                    if isMPI gp
                    then (fdir gp ++ "/" ++ genName (ftag gp) i j k
                                (Ri gp) (Rj gp) (Rk gp))%string
                    else (fdir gp ++ "/" ++ ftag gp ++ ".h5")%string in
                  if is2D gp then
                    let* x := PullVar fIn "X" None in
                    let* X := setitem X (node_tile i j k) x in
                    let* y := PullVar fIn "Y" None in
                    let* Y := setitem Y (node_tile i j k) y in
                    Ok (X, Y, Z, dV)
                  else
                    let* x := PullVar fIn "X" None in
                    let* X := setitem X (node_tile i j k) x in
                    let* y := PullVar fIn "Y" None in
                    let* Y := setitem Y (node_tile i j k) y in
                    let* z := PullVar fIn "Z" None in
                    let* Z := setitem Z (node_tile i j k) z in
                    let* dv := PullVar fIn "dV" None in
                    let* dV := setitem dV (tile i j k) dv in
                    Ok (X, Y, Z, dV)) in
        if is2D gp
        then Ok (mkGrid (Some X) (Some Y) (gridZ g) (griddV g) (gridLoaded g))
        else Ok (mkGrid (Some X) (Some Y) (Some Z) (Some dV) (gridLoaded g)) in
    ([], let* g' := loaded in
         Ok (mkGrid (gridX g') (gridY g') (gridZ g') (griddV g') true))
  else
    (["Grid Previously Loaded"%string],
     Ok (mkGrid (gridX g) (gridY g) (gridZ g) (griddV g) true)).

End Readers.

End Gampp.

(** * magsphereRescale.py: PushRestartMPI, PullRestartMPI *)

Module Restart.

(** An HDF5 file as the code uses it: named datasets and root attributes.
    The file system maps a path to the file stored there. *)
Record h5file : Type := mkH5 {
  datasets : list (string * ndarray);
  attrs : list (string * string)
}.

Definition filesystem := string -> option h5file.

Definition empty_h5 : h5file := mkH5 [] [].

Fixpoint lookup {A : Type} (key : string) (l : list (string * A)) : option A :=
  match l with
  | [] => None
  | (k, v) :: l' => if String.eqb k key then Some v else lookup key l'
  end.

(** [f[name]]: [KeyError] when there is no such dataset. *)
Definition dataset (f : h5file) (name : string) : result ndarray :=
  match lookup name (datasets f) with
  | Some a => Ok a
  | None => Raise KeyError
  end.

(** [f.create_dataset(name, data=a)]: raises when the name is taken. *)
Definition create_dataset (f : h5file) (name : string) (a : ndarray)
  : result h5file :=
  match lookup name (datasets f) with
  | Some _ => Raise ValueError
  | None => Ok (mkH5 (datasets f ++ [(name, a)]) (attrs f))
  end.

(** [f.attrs.create(key, value)] *)
Definition attrs_create (f : h5file) (key value : string) : h5file :=
  mkH5 (datasets f)
       ((key, value) :: filter (fun kv => negb (String.eqb (fst kv) key)) (attrs f)).

(** Copy every attribute of [src] to [dst], in the order of the keys. *)
Definition copy_attrs (src dst : h5file) : h5file :=
  fold_left (fun f kv => attrs_create f (fst kv) (snd kv)) (attrs src) dst.

(** [h5py.File(path, 'r')] *)
Definition open_r (fs : filesystem) (path : string) : result h5file :=
  match fs path with
  | Some f => Ok f
  | None => Raise OSError
  end.

(** The file system after the file written at [path] is closed. *)
Definition store (fs : filesystem) (path : string) (f : h5file) : filesystem :=
  fun p => if String.eqb p path then Some f else fs p.

(** [a - g + g] on Python integers, for the start of a slice. *)
Definition minus_plus (a g : nat) : nat :=
  Z.to_nat (Z.of_nat a - Z.of_nat g + Z.of_nat g).

(** [a // b] for naturals: division by zero raises. *)
Definition floordiv (a b : nat) : result nat :=
  if b =? 0 then Raise ZeroDivisionError else Ok (a / b).

Section RestartFiles.

(** [kh5.genName(tag,i,j,k,Ri,Rj,Rk,nRes)], in [kaipy.kaiH5], which is
    outside this embedding. *)
Variable genName :
  string -> nat -> nat -> nat -> nat -> nat -> nat -> Z -> string.

(** The slices of one rank. *)
Definition cell_tile (kS kE jS jE iS iE : nat) : list sel :=
  [All; All; Rng kS kE; Rng jS jE; Rng iS iE].

Definition face_tile (kS kE jS jE iS iE : nat) : list sel :=
  [All; Rng kS (kE + 1); Rng jS (jE + 1); Rng iS (iE + 1)].

Definition PushRestartMPI (outid : string) (nRes : Z) (Ri Rj Rk : nat)
    (X Y Z G M oG oM : ndarray) (fInA : string) (G0 : option ndarray)
    (fs : filesystem) : result filesystem :=
  let doGas0 := match G0 with Some _ => true | None => false end in
  let* iH5 := open_r fs fInA in
  let* '(Ns, Nv, Nk, Nj, Ni) := unpack5 (shape G) in
  (* Create output files *)
  let* Nkp := floordiv Nk Rk in
  let* Njp := floordiv Nj Rj in
  let* Nip := floordiv Ni Ri in
  (* Loop over output slices and create restarts *)
  forM (Gampp.product3 Ri Rj Rk) fs (fun '(i, j, k) fs =>
    let fOut := genName outid i j k Ri Rj Rk nRes in
    (* Open output file: the input file is still open *)
    let* oH5 := if String.eqb fOut fInA then Raise OSError else Ok empty_h5 in
    let iS := i * Nip in
    let iE := iS + Nip in
    let jS := j * Njp in
    let jE := jS + Njp in
    let kS := k * Nkp in
    let kE := kS + Nkp in
    (* Indices for offset ghost grid *)
    let iSg := minus_plus iS NumG in
    let iEg := iS + Nip + NumG + 1 + NumG in
    let jSg := minus_plus jS NumG in
    let jEg := jS + Njp + NumG + 1 + NumG in
    let kSg := minus_plus kS NumG in
    let kEg := kS + Nkp + NumG + 1 + NumG in
    (* Slice subgrids *)
    let ghost := [Rng kSg kEg; Rng jSg jEg; Rng iSg iEg] in
    let* ijkX := getitem X ghost in
    let* ijkY := getitem Y ghost in
    let* ijkZ := getitem Z ghost in
    (* Slice pieces out of gas and magflux *)
    let* ijkG := getitem G (cell_tile kS kE jS jE iS iE) in
    let* ijkM := getitem M (face_tile kS kE jS jE iS iE) in
    let* ijkoG := getitem oG (cell_tile kS kE jS jE iS iE) in
    let* ijkoM := getitem oM (face_tile kS kE jS jE iS iE) in
    let* ijkG0 :=
      match G0 with
      | Some g0 => let* t := getitem g0 (cell_tile kS kE jS jE iS iE) in Ok (Some t)
      | None => Ok None
      end in
    (* Write heavy variables *)
    let* oH5 := create_dataset oH5 "Gas" ijkG in
    let* oH5 := create_dataset oH5 "magFlux" ijkM in
    let* oH5 := create_dataset oH5 "oGas" ijkoG in
    let* oH5 := create_dataset oH5 "omagFlux" ijkoM in
    let* oH5 :=
      match ijkG0 with
      | Some t => create_dataset oH5 "Gas0" t
      | None => Ok oH5
      end in
    (* Write subgrid *)
    let* oH5 := create_dataset oH5 "X" ijkX in
    let* oH5 := create_dataset oH5 "Y" ijkY in
    let* oH5 := create_dataset oH5 "Z" ijkZ in
    (* Transfer attributes to output *)
    let oH5 := copy_attrs iH5 oH5 in
    (* Close this output file *)
    Ok (store fs fOut oH5)).

(** The arrays that [PullRestartMPI] fills, once the first file has been
    read. *)
Record pulled : Type := mkPulled {
  p_Nkp : nat; p_Njp : nat; p_Nip : nat;
  p_doGas0 : bool;
  p_G : ndarray; p_oG : ndarray; p_G0 : option ndarray;
  p_M : ndarray; p_oM : ndarray;
  p_oH5 : option h5file
}.

Definition PullRestartMPI (bStr : string) (nRes : Z) (Ri Rj Rk : nat)
    (dIn : option string) (oH5 : option h5file) (fs : filesystem)
  : result (ndarray * ndarray * option ndarray * ndarray * ndarray
            * option h5file) :=
  let* st :=
    forM (Gampp.product3 Ri Rj Rk) None (fun '(i, j, k) st =>
      let fID := genName bStr i j k Ri Rj Rk nRes in
      (* Start with input data *)
      let fIn := match dIn with
                 | Some d => (d ++ "/" ++ fID)%string
                 | None => fID
                 end in
      let* iH5 := open_r fs fIn in
      let* p :=
        match st with
        | Some p => Ok p
        | None =>
            (* doInit *)
            let* gas := dataset iH5 "Gas" in
            let* '(Ns, Nv, Nkp, Njp, Nip) := unpack5 (shape gas) in
            let doGas0 := match lookup "Gas0" (datasets iH5) with
                          | Some _ => true
                          | None => false
                          end in
            let Nk := Rk * Nkp in
            let Nj := Rj * Njp in
            let Ni := Ri * Nip in
            Ok (mkPulled Nkp Njp Nip doGas0
                  (zeros [Ns; Nv; Nk; Nj; Ni])
                  (zeros [Ns; Nv; Nk; Nj; Ni])
                  (if doGas0 then Some (zeros [Ns; Nv; Nk; Nj; Ni]) else None)
                  (zeros [3; Nk + 1; Nj + 1; Ni + 1])
                  (zeros [3; Nk + 1; Nj + 1; Ni + 1])
                  (match oH5 with
                   | Some o => Some (copy_attrs iH5 o)
                   | None => None
                   end))
        end in
      let iS := i * p_Nip p in
      let iE := iS + p_Nip p in
      let jS := j * p_Njp p in
      let jE := jS + p_Njp p in
      let kS := k * p_Nkp p in
      let kE := kS + p_Nkp p in
      let* gas := dataset iH5 "Gas" in
      let* G := setitem (p_G p) (cell_tile kS kE jS jE iS iE) gas in
      let* ogas := dataset iH5 "oGas" in
      let* oG := setitem (p_oG p) (cell_tile kS kE jS jE iS iE) ogas in
      let* G0 :=
        match p_G0 p with
        | Some g0 =>
            let* gas0 := dataset iH5 "Gas0" in
            let* g0' := setitem g0 (cell_tile kS kE jS jE iS iE) gas0 in
            Ok (Some g0')
        | None => Ok None
        end in
      let* flux := dataset iH5 "magFlux" in
      let* M := setitem (p_M p) (face_tile kS kE jS jE iS iE) flux in
      let* oflux := dataset iH5 "omagFlux" in
      let* oM := setitem (p_oM p) (face_tile kS kE jS jE iS iE) oflux in
      Ok (Some (mkPulled (p_Nkp p) (p_Njp p) (p_Nip p) (p_doGas0 p)
                         G oG G0 M oM (p_oH5 p)))) in
  match st with
  | None => Raise UnboundLocalError
  | Some p => Ok (p_G p, p_M p, p_G0 p, p_oG p, p_oM p, p_oH5 p)
  end.

End RestartFiles.

End Restart.

(** * Rank files for the examples *)

(** ["%04d" % n] *)
Definition fmt_04d (n : nat) : string :=
  let digits := NilZero.string_of_uint (Nat.to_uint n) in
  (concat "" (repeat "0" (4 - String.length digits)) ++ digits)%string.

(** Modelled from the spec: [genName] is in [kaipy.kaiH5]; the name of a
    rank file is [{tag}_{Ri:04d}_{Rj:04d}_{Rk:04d}_{i:04d}_{j:04d}_{k:04d}.gam.h5],
    with the restart number as a further tag for restart files. *)
Definition rank_stem (tag : string) (i j k Ri Rj Rk : nat) : string :=
  (tag ++ "_" ++ fmt_04d Ri ++ "_" ++ fmt_04d Rj ++ "_" ++ fmt_04d Rk
       ++ "_" ++ fmt_04d i ++ "_" ++ fmt_04d j ++ "_" ++ fmt_04d k)%string.

Definition genName_gam (tag : string) (i j k Ri Rj Rk : nat) : string :=
  (rank_stem tag i j k Ri Rj Rk ++ ".gam.h5")%string.

Definition genName_res (tag : string) (i j k Ri Rj Rk : nat) (nRes : Z) : string :=
  (rank_stem tag i j k Ri Rj Rk ++ ".gam.Res." ++ Gampp.fmt_d nRes ++ ".h5")%string.

(** An array of one shape that holds one value everywhere. *)
Definition full (sh : list nat) (v : Qc) : ndarray := mkArr sh (fun _ => v).

(** Two rank files along I, one cell each: the variable is 1 on rank
    (0,0,0) and 3 on rank (1,0,0); any other read fails. *)
Definition two_rank_files (fIn vID : string) (sID : option Z) : result ndarray :=
  if String.eqb fIn ("run/" ++ genName_gam "msphere" 0 0 0 2 1 1)%string
  then Ok (full [1; 1; 1] (Qc_of_nat 1))
  else if String.eqb fIn ("run/" ++ genName_gam "msphere" 1 0 0 2 1 1)%string
       then Ok (full [1; 1; 1] (Qc_of_nat 3))
       else Raise OSError.

(** The pipe over these files, reading sequentially, and reading with a
    pool of workers. *)
Definition pipe_sequential : Gampp.GameraPipe :=
  Gampp.mkPipe "run" "msphere" true false 4 false 2 1 1 2 2 1 1 1 1 1.

Definition pipe_parallel : Gampp.GameraPipe :=
  Gampp.mkPipe "run" "msphere" true true 4 false 2 1 1 2 2 1 1 1 1 1.

(** The scale factor 2.0. *)
Definition two : Qc := Qc_of_nat 2.

(** [gp.doParallel = b] *)
Definition with_doParallel (b : bool) (gp : Gampp.GameraPipe) : Gampp.GameraPipe :=
  Gampp.mkPipe (Gampp.fdir gp) (Gampp.ftag gp) (Gampp.isMPI gp) b
               (Gampp.nWorkers gp) (Gampp.is2D gp)
               (Gampp.Ri gp) (Gampp.Rj gp) (Gampp.Rk gp) (Gampp.Nr gp)
               (Gampp.Ni gp) (Gampp.Nj gp) (Gampp.Nk gp)
               (Gampp.dNi gp) (Gampp.dNj gp) (Gampp.dNk gp).

(** ** Ranks of a cell or face index *)

(** The rank, among [R] ranks of [N] cells each, whose tile holds the cell
    or the face of index [x] along one axis; a face on the upper boundary
    belongs to the last rank. *)
Definition rank_of (x N R : nat) : nat := Nat.min (x / N) (R - 1).

(** ** The file of one rank *)

Section RankFile.

Variables (Nkp Njp Nip : nat).

(** The subscripts of the tile of rank [(i,j,k)] in a cell-centered and in
    a face-centered array. *)
Definition rank_cells (i j k : nat) : list sel :=
  Restart.cell_tile (k * Nkp) (k * Nkp + Nkp) (j * Njp) (j * Njp + Njp)
                    (i * Nip) (i * Nip + Nip).

Definition rank_faces (i j k : nat) : list sel :=
  Restart.face_tile (k * Nkp) (k * Nkp + Nkp) (j * Njp) (j * Njp + Njp)
                    (i * Nip) (i * Nip + Nip).

(** The state datasets that the file of rank [(i,j,k)] holds after the
    split of [G], [M], [oG], [oM] and the optional [G0]. *)
Definition holds_tile (G M oG oM : ndarray) (G0 : option ndarray)
    (f : Restart.h5file) (i j k : nat) : Prop :=
  let ds := Restart.datasets f in
  Restart.lookup "Gas" ds = Some (getsel G (rank_cells i j k)) /\
  Restart.lookup "magFlux" ds = Some (getsel M (rank_faces i j k)) /\
  Restart.lookup "oGas" ds = Some (getsel oG (rank_cells i j k)) /\
  Restart.lookup "omagFlux" ds = Some (getsel oM (rank_faces i j k)) /\
  Restart.lookup "Gas0" ds
  = option_map (fun g0 => getsel g0 (rank_cells i j k)) G0.

End RankFile.

(** Whether the optional third gas array came back as it went in. *)
Definition same_optional (a b : option ndarray) : Prop :=
  match a, b with
  | Some x, Some y => arr_eq x y
  | None, None => True
  | _, _ => False
  end.

(** ** A restart image for two ranks along I *)

(** Two cells along I, with the face-centered fluxes, the older copies and
    a third gas array; a file system that holds the file of the
    attributes. *)
Definition image_gas (c : nat) : ndarray :=
  mkArr [1; 1; 1; 1; 2]
        (fun idx => Qc_of_nat (c + nth 4 idx 0)).

Definition image_flux (c : nat) : ndarray :=
  mkArr [3; 2; 2; 3]
        (fun idx => Qc_of_nat (c + 100 * nth 0 idx 0 + 10 * nth 1 idx 0
                               + 5 * nth 2 idx 0 + nth 3 idx 0)).

Definition attrs_only : Restart.filesystem :=
  fun path => if String.eqb path "in.h5"
              then Some (Restart.mkH5 [] [("UnitsID", "CODE")]%string)
              else None.

(** * magsphereRescale.py: the RCM and MIX variables *)

Definition unpack2 (sh : list nat) : result (nat * nat) :=
  match sh with
  | [a; b] => Ok (a, b)
  | _ => Raise ValueError
  end.

(** The bound [z] of a slice on an axis of extent [dim]: a negative bound
    counts from the end of the axis, and no bound lies before its start. *)
Definition slice_bound (z : Z) (dim : nat) : nat :=
  if (z <? 0)%Z then Z.to_nat (z + Z.of_nat dim) else Z.to_nat z.

(** ** upRCM1D, upRCM1Dw, upRCMCpl, upRCM *)

(** Upscale just first dimension of 2D array *)
Definition upRCM1D (Q : ndarray) : result ndarray :=
  let* '(Ni, Nj) := unpack2 (shape Q) in
  let Qr := zeros [Ni * 2; Nj] in
  forM (range Nj) Qr (fun j Qr =>
  forM (range Ni) Qr (fun i Qr =>
    let* Qij := item Q [i; j] in
    let i0 := 2 * i in
    let j0 := j in
    setitem_scalar Qr [Rng i0 (i0 + 2); At j0] Qij)).

(** Upscale first dimension of 2D array w/ strange rcm-wrap *)
Definition upRCM1Dw (Q : ndarray) : result ndarray :=
  let* '(Ni, Nj) := unpack2 (shape Q) in
  let Nip := (Z.of_nat Ni - 2)%Z in
  let Nri := (Nip * 2 + 2)%Z in
  let* Qr := zerosZ [Nri; Z.of_nat Nj] in
  let rows := hd 0 (shape Qr) in
  let* head := getitem Q [Rng 0 (slice_bound (-2) Ni); All] in
  let* up := upRCM1D head in
  let* Qr := setitem Qr [Rng 0 (slice_bound (Nri - 2) rows); All] up in
  let* row0 := getitem Qr [At 0; All] in
  let* r := Gampp.wrap_index (Nri - 2) rows in
  let* Qr := setitem Qr [At r; All] row0 in
  let* row1 := getitem Qr [At 1; All] in
  let* r := Gampp.wrap_index (Nri - 1) rows in
  setitem Qr [At r; All] row1.

(** Upscale RCMCPL variable *)
Definition upRCMCpl (Q : ndarray) (N : Z) : result ndarray :=
  let Nd := List.length (shape Q) in
  if 3 <=? Nd then
    let* '(Nk, Ni, Nj) := unpack3 (shape Q) in
    let Qr := zeros [Nk; Ni * 2; Nj] in
    forM (range Nk) Qr (fun n Qr =>
      let* Qn := getitem Q [At n; All; All] in
      let* up := upRCM1D Qn in
      setitem Qr [At n; All; All] up)
  else if Nd =? 1 then
    (* Just leave it alone *)
    if (Z.of_nat (hd 0%nat (shape Q)) =? N)%Z then
      (* Upscale the one dimension *)
      let* Q2D := zerosZ [N; 1%Z] in
      let* Q2D := setitem Q2D [All; At 0] Q in
      let* Qr2D := upRCM1D Q2D in
      getitem Qr2D [All; At 0]
    else Ok Q
  else
    (* 2D *)
    upRCM1D Q.

(** Upscale RCM variable *)
Definition upRCM (Q : ndarray) (Ni Nj Nk : Z) : result ndarray :=
  let Nd := List.length (shape Q) in
  if 3 <=? Nd then
    let Nk := hd 0 (shape Q) in
    let* Qr := zerosZ [Z.of_nat Nk; (Nj - 2) * 2 + 2; Ni]%Z in
    forM (range Nk) Qr (fun n Qr =>
      let* Qn := getitem Q [At n; All; All] in
      let* up := upRCM1Dw Qn in
      setitem Qr [At n; All; All] up)
  else if Nd =? 1 then
    if (Z.of_nat (hd 0%nat (shape Q)) =? Nj)%Z then
      let* Q2D := zerosZ [Nj; 1%Z] in
      let* Q2D := setitem Q2D [All; At 0] Q in
      let* Qr2D := upRCM1Dw Q2D in
      getitem Qr2D [All; At 0]
    else Ok Q
  else
    upRCM1Dw Q.

(** ** upMIX, downMIX *)

(** Upscale mix variable *)
Definition upMIX (Q : ndarray) : result ndarray :=
  let* '(Ni, Nj) := unpack2 (shape Q) in
  let Qr := zeros [2 * Ni; 2 * Nj] in
  forM (range Nj) Qr (fun j Qr =>
  forM (range Ni) Qr (fun i Qr =>
    let* Qij := item Q [i; j] in
    let i0 := 2 * i in
    let j0 := 2 * j in
    setitem_scalar Qr [Rng i0 (i0 + 2); Rng j0 (j0 + 2)] Qij)).

(** Downscale mix variable *)
Definition downMIX (Q : ndarray) : result ndarray :=
  let* '(Ni, Nj) := unpack2 (shape Q) in
  let Qr := zeros [Ni / 2; Nj / 2] in
  (* Loop over coarse grid *)
  forM (range (Nj / 2)) Qr (fun j Qr =>
  forM (range (Ni / 2)) Qr (fun i Qr =>
    let i0 := 2 * i in
    let j0 := 2 * j in
    let* blk := getitem Q [Rng i0 (i0 + 2); Rng j0 (j0 + 2)] in
    let Qij := amean blk in
    setitem_scalar Qr [At i; At j] Qij)).

(** * magsphere.py: GamsphPipe.EggSlice *)

Module Magsphere.

Section GamsphPipe.

(** [GamsphPipe] extends [GameraPipe] and reads through its [GetVar]. *)
Variable genName : string -> nat -> nat -> nat -> nat -> nat -> nat -> string.
Variable PullVar : string -> string -> option Z -> result ndarray.
Variable gp : Gampp.GameraPipe.

(** [Q[:, jp, k]] for a Python integer [k]. *)
Definition column (Q : ndarray) (jp : nat) (k : Z) : result ndarray :=
  match shape Q with
  | _ :: _ :: d2 :: _ =>
      let* m := Gampp.wrap_index k d2 in
      getitem Q [All; At jp; At m]
  | _ => Raise IndexError
  end.

(** Get "egg" slice, variable matched to stretched polar grid.  Either
    equatorial or meridional. *)
Definition EggSlice (order : list nat) (vID : string) (sID : option Z)
    (vScl : option Qc) (doEq doVerb : bool) (numGhost : Z) : result ndarray :=
  (* Get full 3D variable first *)
  let* Q := Gampp.GetVar genName PullVar gp order vID sID vScl doVerb in
  (* For upper/lower half planes, average above/below *)
  let Nk := Z.of_nat (Gampp.Nk gp) in
  let Nk2 := ((Nk - 2 * numGhost) / 2)%Z in
  let Nk4 := ((Nk - 2 * numGhost) / 4)%Z in
  let '(ku1, ku2, kl1, kl2) :=
    if doEq
    then (Nk - numGhost - 1, numGhost, numGhost + Nk2 - 1, numGhost + Nk2)%Z
    else (numGhost + Nk4 - 1, numGhost + Nk4,
          numGhost + 3 * Nk4 - 1, numGhost + 3 * Nk4)%Z in
  let Nr := Gampp.Ni gp in
  let Np := 2 * Gampp.Nj gp in
  let Qk := zeros [Nr; Np] in
  forM (range Np) Qk (fun j Qk =>
    if Gampp.Nj gp <=? j then
      (* Lower half plane *)
      let jp := Np - j - 1 in
      let* a := column Q jp kl1 in
      let* b := column Q jp kl2 in
      let* ab := aadd a b in
      setitem Qk [All; At j] (ascale half ab)
    else
      let jp := j in
      let* a := column Q jp ku1 in
      let* b := column Q jp ku2 in
      let* ab := aadd a b in
      setitem Qk [All; At j] (ascale half ab)).

End GamsphPipe.

End Magsphere.

(** * Further small inputs *)

(** A matrix of shape (3,2) that holds 1..6, row by row. *)
Definition mat32 : ndarray :=
  mkArr [3; 2]
        (fun idx => match idx with
                    | [i; j] => Qc_of_nat (1 + 2 * i + j)
                    | _ => Q2Qc 0
                    end).

(** A matrix of shape (4,3) that holds 10*i + j. *)
Definition mat43 : ndarray :=
  mkArr [4; 3]
        (fun idx => match idx with
                    | [i; j] => Qc_of_nat (10 * i + j)
                    | _ => Q2Qc 0
                    end).

(** The matrix [[1, 2], [3, 4]] of the docstring of [upRCMCpl]. *)
Definition mat22 : ndarray :=
  mkArr [2; 2]
        (fun idx => match idx with
                    | [i; j] => Qc_of_nat (1 + 2 * i + j)
                    | _ => Q2Qc 0
                    end).

(** The vector [5, 6, 7, 8]. *)
Definition vec4 : ndarray :=
  mkArr [4]
        (fun idx => match idx with
                    | [i] => Qc_of_nat (5 + i)
                    | _ => Q2Qc 0
                    end).

(** An array of shape (2,4,3) that holds 100*n + 10*i + j. *)
Definition cube243 : ndarray :=
  mkArr [2; 4; 3]
        (fun idx => match idx with
                    | [n; i; j] => Qc_of_nat (100 * n + 10 * i + j)
                    | _ => Q2Qc 0
                    end).

(** * Further definitions used to state the properties *)

(** The total that [downGas] and [upGas] print for species [s] and
    variable [v] of a gas state on cells of volume [dV]:
    [(G[s,v,:,:,:]*dV).sum()]. *)
Definition total (G dV : ndarray) (s v : nat) : result Qc :=
  let* G_sv := getitem G [At s; At v; All; All; All] in
  let* p := amul G_sv dV in
  Ok (asum p).

(** The datasets of [two_rank_files], by rank. *)
Definition two_rank_data (t : nat * nat * nat) : ndarray :=
  let '(i, j, k) := t in full [1; 1; 1] (Qc_of_nat (1 + 2 * i)).

(** A pipe that expects three rank files along I, none of which is among
    [two_rank_files]. *)
Definition pipe_three : Gampp.GameraPipe :=
  Gampp.mkPipe "run" "msphere" true true 4 false 3 1 1 3 3 1 1 1 1 1.

(** The plane [m] along the axis of a slice direction, and the extent of
    that axis in an array of shape (N0,N1,N2). *)
Definition slice_plane (ijkdir : string) (m : nat) : list sel :=
  if String.eqb ijkdir "IDIR" then [At m; All; All]
  else if String.eqb ijkdir "JDIR" then [All; At m; All]
  else [All; All; At m].

Definition slice_extent (ijkdir : string) (N0 N1 N2 : nat) : nat :=
  if String.eqb ijkdir "IDIR" then N0
  else if String.eqb ijkdir "JDIR" then N1
  else N2.

(** * Grids and planes for the examples *)

(** The K planes that [EggSlice] averages, for [Nk] cells along K and
    [g] ghost cells: the two planes of the upper half and the two of the
    lower half. *)
Definition egg_planes (Nk g : nat) (doEq : bool) : nat * nat * nat * nat :=
  let Nk2 := (Nk - 2 * g) / 2 in
  let Nk4 := (Nk - 2 * g) / 4 in
  if doEq then (Nk - g - 1, g, g + Nk2 - 1, g + Nk2)
  else (g + Nk4 - 1, g + Nk4, g + 3 * Nk4 - 1, g + 3 * Nk4).

(** The nodes of a grid of 2 x 1 x 1 cells: every node holds its own
    coordinates; and the volumes of its cells. *)
Definition grid_X : ndarray := mkArr [3; 2; 2] (fun idx => Qc_of_nat (nth 0 idx 0)).
Definition grid_Y : ndarray := mkArr [3; 2; 2] (fun idx => Qc_of_nat (nth 1 idx 0)).
Definition grid_Z : ndarray := mkArr [3; 2; 2] (fun idx => Qc_of_nat (nth 2 idx 0)).
Definition grid_dV : ndarray := full [2; 1; 1] (Qc_of_nat 1).

(** The grid datasets of the file of rank [(i,0,0)] of [pipe_sequential]. *)
Definition grid_rank (i : nat) (vID : string) : result ndarray :=
  if String.eqb vID "X"
  then Ok (getsel grid_X (Gampp.node_tile pipe_sequential i 0 0))
  else if String.eqb vID "Y"
  then Ok (getsel grid_Y (Gampp.node_tile pipe_sequential i 0 0))
  else if String.eqb vID "Z"
  then Ok (getsel grid_Z (Gampp.node_tile pipe_sequential i 0 0))
  else if String.eqb vID "dV"
  then Ok (getsel grid_dV (Gampp.tile pipe_sequential i 0 0))
  else Raise KeyError.

(** Two rank files along I that hold the grid. *)
Definition grid_files (fIn vID : string) (sID : option Z) : result ndarray :=
  if String.eqb fIn ("run/" ++ genName_gam "msphere" 0 0 0 2 1 1)%string
  then grid_rank 0 vID
  else if String.eqb fIn ("run/" ++ genName_gam "msphere" 1 0 0 2 1 1)%string
       then grid_rank 1 vID
       else Raise OSError.

(** Other files, none of which can be opened. *)
Definition no_files (fIn vID : string) (sID : option Z) : result ndarray :=
  Raise OSError.

(** A reader that finds no dataset named by a row of numbers. *)
Definition row_reader (fIn : string) (vID : ndarray) (loc : nat * nat * nat)
    : result (ndarray * (nat * nat * nat)) :=
  Raise KeyError.

(** A reader that returns the row it was given as the dataset. *)
Definition row_echo (fIn : string) (vID : ndarray) (loc : nat * nat * nat)
    : result (ndarray * (nat * nat * nat)) :=
  Ok (vID, loc).

(** A 2D pipe over one serial file of 2 x 2 cells, and its file. *)
Definition pipe_2D : Gampp.GameraPipe :=
  Gampp.mkPipe "run" "msphere" false false 4 true 1 1 1 0 2 2 0 2 2 0.

Definition flat_file (fIn vID : string) (sID : option Z) : result ndarray :=
  if String.eqb fIn "run/msphere.h5" then Ok mat22 else Raise OSError.

(** A 2D pipe over one rank file of 1 x 2 cells, read by a pool of workers. *)
Definition pipe_2D_parallel : Gampp.GameraPipe :=
  Gampp.mkPipe "run" "msphere" true true 4 true 1 1 1 1 1 2 0 1 2 0.

(** A serial pipe of 1 x 2 x 4 cells, and its file: the cell (0,j,k) holds
    10*j + k. *)
Definition pipe_egg : Gampp.GameraPipe :=
  Gampp.mkPipe "run" "msphere" false false 4 false 1 1 1 0 1 2 4 1 2 4.

Definition egg_file (fIn vID : string) (sID : option Z) : result ndarray :=
  if String.eqb fIn "run/msphere.h5"
  then Ok (mkArr [1; 2; 4]
                 (fun idx => Qc_of_nat (10 * nth 1 idx 0 + nth 2 idx 0)))
  else Raise OSError.

(** * Reasoning about loops and array stores *)

Lemma bind_Ok {A B : Type} (a : A) (k : A -> result B) : bind (Ok a) k = k a.
Proof. reflexivity. Qed.

Lemma bind_Raise {A B : Type} (e : exn) (k : A -> result B) :
  bind (Raise e) k = Raise e.
Proof. reflexivity. Qed.

Section Loops.

Context {A S : Type}.

(** A loop whose body keeps an invariant, and does not raise while the
    invariant holds, does not raise. *)
Lemma forM_inv (P : A -> Prop) (I : S -> Prop) (body : A -> S -> result S) :
  (forall t s, P t -> I s -> exists s', body t s = Ok s' /\ I s') ->
  forall l s, Forall P l -> I s -> exists s', forM l s body = Ok s' /\ I s'.
Proof.
  intros Hbody l. induction l as [|x l IH]; intros s HP HI; simpl.
  - now exists s.
  - inversion HP as [|? ? Hx Hl]; subst.
    destruct (Hbody x s Hx HI) as [s1 [E1 I1]].
    rewrite E1. simpl. now apply IH.
Qed.

Lemma forM_ext (body body' : A -> S -> result S) l :
  (forall t s, In t l -> body t s = body' t s) ->
  forall s, forM l s body = forM l s body'.
Proof.
  induction l as [|x l IH]; intros H s; simpl; [reflexivity|].
  rewrite H by now left. destruct (body' x s); simpl; [|reflexivity].
  apply IH. intros; apply H; now right.
Qed.

End Loops.

Lemma Forall_range n : Forall (fun i => i < n) (range n).
Proof. apply Forall_forall. intros i Hi. apply in_seq in Hi. lia. Qed.

Lemma existsb_range (f : nat -> bool) n :
  existsb f (range n) = true <-> exists i, i < n /\ f i = true.
Proof.
  unfold range. rewrite existsb_exists. split.
  - intros [i [Hi Hf]]. apply in_seq in Hi. exists i. split; [lia|assumption].
  - intros [i [Hi Hf]]. exists i. split; [apply in_seq; lia|assumption].
Qed.

(** ** Stores that agree with a target function *)

Lemma writes_none F S : writes (fun _ => false) F S S.
Proof. split; auto. Qed.

Lemma writes_seq W1 W2 F S S1 S2 :
  writes W1 F S S1 -> writes W2 F S1 S2 ->
  writes (fun idx => W1 idx || W2 idx) F S S2.
Proof.
  intros [Hs1 H1] [Hs2 H2]. split; [congruence|].
  intros idx Hb. rewrite H2 by (rewrite Hs1; exact Hb). rewrite H1 by exact Hb.
  destruct (W1 idx), (W2 idx); reflexivity.
Qed.

Lemma writes_ext W W' F S S' :
  (forall idx, W idx = W' idx) -> writes W F S S' -> writes W' F S S'.
Proof.
  intros E [Hs H]. split; [exact Hs|]. intros idx Hb. rewrite <- E. now apply H.
Qed.

Lemma writes_shape W F S S' : writes W F S S' -> shape S' = shape S.
Proof. now intros [H _]. Qed.

Lemma writes_hit W F S S' idx :
  writes W F S S' -> in_bounds idx (shape S) = true -> W idx = true ->
  data S' idx = F idx.
Proof. intros [_ H] Hb Hw. rewrite H by exact Hb. now rewrite Hw. Qed.

(** A loop whose every iteration stores cells of [F] stores cells of [F]. *)
Lemma forM_writes {A : Type} (P : A -> Prop) (W : A -> index -> bool)
      (F : index -> Qc) (sh : list nat) (body : A -> ndarray -> result ndarray) :
  (forall t S, P t -> shape S = sh ->
               exists S', body t S = Ok S' /\ writes (W t) F S S') ->
  forall l S, Forall P l -> shape S = sh ->
    exists S', forM l S body = Ok S' /\
               writes (fun idx => existsb (fun t => W t idx) l) F S S'.
Proof.
  intros Hbody l. induction l as [|x l IH]; intros S HP Hsh; simpl.
  - exists S. split; [reflexivity|apply writes_none].
  - inversion HP as [|? ? Hx Hl]; subst.
    destruct (Hbody x S Hx eq_refl) as [S1 [E1 W1]].
    rewrite E1. simpl.
    destruct (IH S1 Hl (writes_shape _ _ _ _ W1)) as [S2 [E2 W2]].
    exists S2. split; [exact E2|].
    exact (writes_seq _ _ _ _ _ _ W1 W2).
Qed.

(** ** Bounds *)

Lemma in_bounds_length idx sh :
  in_bounds idx sh = true -> List.length idx = List.length sh.
Proof.
  revert sh. induction idx as [|x idx IH]; intros [|n sh] H; simpl in *;
    try discriminate; auto.
  apply andb_true_iff in H. destruct H as [_ H]. f_equal. now apply IH.
Qed.

Lemma in_bounds_cons x idx n sh :
  in_bounds (x :: idx) (n :: sh) = true <-> x < n /\ in_bounds idx sh = true.
Proof. simpl. rewrite andb_true_iff, Nat.ltb_lt. tauto. Qed.

Lemma indices_in_bounds sh idx :
  In idx (indices sh) <-> in_bounds idx sh = true.
Proof.
  revert idx. induction sh as [|n sh IH]; intros idx; simpl.
  - split.
    + intros [<-|[]]. reflexivity.
    + destruct idx; [now left|discriminate].
  - rewrite in_flat_map. split.
    + intros [i [Hi Hm]]. apply in_map_iff in Hm. destruct Hm as [t [<- Ht]].
      apply in_seq in Hi. apply in_bounds_cons. split; [lia|now apply IH].
    + destruct idx as [|x idx]; [discriminate|]. intros H.
      apply in_bounds_cons in H. destruct H as [Hx Hb].
      exists x. split; [apply in_seq; lia|]. apply in_map. now apply IH.
Qed.

(** ** Subscripts *)

Lemma selected_nil : selected [] [] = true.
Proof. reflexivity. Qed.

Lemma selected_cons s ss x idx :
  selected (s :: ss) (x :: idx) = true <-> sel_has s x /\ selected ss idx = true.
Proof.
  unfold selected. simpl. destruct s as [n|lo hi|]; simpl.
  - destruct (Nat.eqb_spec x n); [tauto|]. split; [discriminate|tauto].
  - destruct (Nat.leb_spec lo x), (Nat.ltb_spec x hi); simpl;
      try (split; [discriminate|lia]).
    destruct (sel_inv ss idx); simpl; split; auto; try tauto.
  - destruct (sel_inv ss idx); simpl; tauto.
Qed.

Lemma selected_length ss idx :
  selected ss idx = true -> List.length ss <= List.length idx.
Proof.
  revert idx. induction ss as [|s ss IH]; intros idx H; simpl; [lia|].
  destruct idx as [|x idx]; [discriminate|].
  apply selected_cons in H. destruct H as [_ H]. apply IH in H. simpl. lia.
Qed.

Lemma sel_inv_selected ss idx sub :
  sel_inv ss idx = Some sub -> selected ss idx = true.
Proof. unfold selected. now intros ->. Qed.

Lemma sel_inv_index ss idx sub :
  sel_inv ss idx = Some sub -> sel_index ss sub = idx.
Proof.
  revert idx sub. induction ss as [|s ss IH]; intros idx sub H; simpl in *.
  - congruence.
  - destruct idx as [|x idx]; [discriminate|].
    destruct s as [n|lo hi|].
    + destruct (Nat.eqb_spec x n); [|discriminate]. subst. f_equal. now apply IH.
    + destruct (Nat.leb_spec lo x), (Nat.ltb_spec x hi); simpl in H; try discriminate.
      destruct (sel_inv ss idx) as [t|] eqn:E; [|discriminate]. simpl in H.
      injection H as <-. f_equal; [lia|now apply IH].
    + destruct (sel_inv ss idx) as [t|] eqn:E; [|discriminate]. simpl in H.
      injection H as <-. f_equal. now apply IH.
Qed.

Lemma sel_inv_in_bounds ss idx sh sub :
  in_bounds idx sh = true -> sel_inv ss idx = Some sub ->
  in_bounds sub (sel_shape ss sh) = true.
Proof.
  revert idx sh sub. induction ss as [|s ss IH]; intros idx sh sub Hb H; simpl in *.
  - injection H as <-. exact Hb.
  - destruct idx as [|x idx]; [discriminate|].
    destruct sh as [|n sh]; [discriminate|].
    apply in_bounds_cons in Hb. destruct Hb as [Hx Hb].
    destruct s as [m|lo hi|].
    + destruct (Nat.eqb_spec x m); [|discriminate]. eapply IH; eauto.
    + destruct (Nat.leb_spec lo x), (Nat.ltb_spec x hi); simpl in H; try discriminate.
      destruct (sel_inv ss idx) as [t|] eqn:E; [|discriminate]. simpl in H.
      injection H as <-. apply in_bounds_cons. split; [lia|eapply IH; eauto].
    + destruct (sel_inv ss idx) as [t|] eqn:E; [|discriminate]. simpl in H.
      injection H as <-. apply in_bounds_cons. split; [lia|eapply IH; eauto].
Qed.

Lemma selected_sel_inv ss idx :
  selected ss idx = true -> exists sub, sel_inv ss idx = Some sub.
Proof. unfold selected. destruct (sel_inv ss idx); [eauto|discriminate]. Qed.

(** ** Broadcasting between arrays of one shape *)

Lemma pad_same sh : pad (List.length sh) sh = sh.
Proof. unfold pad. now rewrite Nat.sub_diag. Qed.

Lemma bc_dims_same sh : bc_dims sh sh = Some sh.
Proof.
  induction sh as [|x sh IH]; simpl; [reflexivity|].
  rewrite IH. now rewrite Nat.eqb_refl.
Qed.

Lemma bc_shape_same sh : bc_shape sh sh = Some sh.
Proof.
  unfold bc_shape. rewrite Nat.max_id, pad_same. apply bc_dims_same.
Qed.

Lemma list_eqb_refl sh : list_eqb sh sh = true.
Proof. induction sh; simpl; [reflexivity|]. now rewrite Nat.eqb_refl. Qed.

Lemma assignable_same sh : assignable sh sh = true.
Proof.
  unfold assignable. rewrite Nat.sub_diag.
  replace (strip_ones 0 sh) with sh by (destruct sh; reflexivity).
  rewrite Nat.leb_refl, pad_same, bc_dims_same. apply list_eqb_refl.
Qed.

Lemma pick_in_bounds sh idx : in_bounds idx sh = true -> pick sh idx = idx.
Proof.
  revert sh. induction idx as [|x idx IH]; intros [|n sh] H; simpl in *;
    try discriminate; auto.
  apply andb_true_iff in H. destruct H as [Hx H]. apply Nat.ltb_lt in Hx.
  rewrite (IH _ H). destruct (Nat.eqb_spec n 1); [|reflexivity].
  f_equal. lia.
Qed.

Lemma bc_idx_same sh idx : in_bounds idx sh = true -> bc_idx sh idx = idx.
Proof.
  intros H. unfold bc_idx. rewrite (in_bounds_length _ _ H), Nat.sub_diag.
  simpl. now apply pick_in_bounds.
Qed.

Lemma zipwith_same op a b :
  shape a = shape b ->
  exists c, zipwith op a b = Ok c /\ shape c = shape a /\
            forall idx, in_bounds idx (shape a) = true ->
                        data c idx = op (data a idx) (data b idx).
Proof.
  intros E. unfold zipwith. rewrite <- E, bc_shape_same.
  eexists. split; [reflexivity|]. split; [reflexivity|].
  intros idx Hb. simpl. now rewrite bc_idx_same.
Qed.

(** ** Reads and writes that do not raise *)

Lemma getitem_ok a ss :
  sel_ok ss (shape a) = true -> getitem a ss = Ok (getsel a ss).
Proof. unfold getitem. now intros ->. Qed.

Lemma item_ok a idx :
  in_bounds idx (shape a) = true -> item a idx = Ok (data a idx).
Proof. unfold item. now intros ->. Qed.

Lemma setitem_scalar_writes S ss v F :
  sel_ok ss (shape S) = true ->
  (forall idx, in_bounds idx (shape S) = true -> selected ss idx = true ->
               v = F idx) ->
  exists S', setitem_scalar S ss v = Ok S' /\ writes (selected ss) F S S'.
Proof.
  intros Hok HF. unfold setitem_scalar. rewrite Hok.
  eexists. split; [reflexivity|]. split; [reflexivity|].
  intros idx Hb. simpl. destruct (selected ss idx) eqn:E; [|reflexivity].
  now apply HF.
Qed.

Lemma setitem_writes S ss b F :
  sel_ok ss (shape S) = true ->
  shape b = sel_shape ss (shape S) ->
  (forall idx sub, in_bounds idx (shape S) = true -> sel_inv ss idx = Some sub ->
                   in_bounds sub (shape b) = true -> data b sub = F idx) ->
  exists S', setitem S ss b = Ok S' /\ writes (selected ss) F S S'.
Proof.
  intros Hok Hsh HF. unfold setitem. rewrite Hok, Hsh, assignable_same.
  eexists. split; [reflexivity|]. split; [reflexivity|].
  intros idx Hb. simpl. unfold selected.
  destruct (sel_inv ss idx) as [sub|] eqn:E; [|reflexivity].
  assert (Hsub : in_bounds sub (shape b) = true)
    by (rewrite Hsh; eapply sel_inv_in_bounds; eauto).
  rewrite <- Hsh. rewrite bc_idx_same by exact Hsub. now apply HF.
Qed.

(** ** Sums *)

Lemma asum_ext a b :
  shape a = shape b ->
  (forall idx, in_bounds idx (shape a) = true -> data a idx = data b idx) ->
  asum a = asum b.
Proof.
  intros Hs H. unfold asum. rewrite <- Hs.
  assert (Hin : forall idx, In idx (indices (shape a)) ->
                            data a idx = data b idx)
    by (intros idx Hi; apply H; now apply indices_in_bounds).
  induction (indices (shape a)) as [|x l IH]; simpl; [reflexivity|].
  rewrite Hin by now left. f_equal. apply IH. intros; apply Hin; now right.
Qed.

Local Open Scope Qc_scope.

Lemma asum_22 a :
  shape a = [2; 2]%nat ->
  asum a = data a [0; 0]%nat + data a [0; 1]%nat
           + data a [1; 0]%nat + data a [1; 1]%nat.
Proof. intros H. unfold asum. rewrite H. simpl. ring. Qed.

Lemma asum_222 a :
  shape a = [2; 2; 2]%nat ->
  asum a = data a [0; 0; 0]%nat + data a [0; 0; 1]%nat
           + data a [0; 1; 0]%nat + data a [0; 1; 1]%nat
           + data a [1; 0; 0]%nat + data a [1; 0; 1]%nat
           + data a [1; 1; 0]%nat + data a [1; 1; 1]%nat.
Proof. intros H. unfold asum. rewrite H. simpl. ring. Qed.

(** ** The constants *)

Lemma half_inv : half = / (1 + 1).
Proof. apply Qc_is_canon. reflexivity. Qed.

Lemma quarter_inv : quarter = / (1 + 1) * / (1 + 1).
Proof. apply Qc_is_canon. reflexivity. Qed.

Lemma eighth_inv : eighth = / (1 + 1) * / (1 + 1) * / (1 + 1).
Proof. apply Qc_is_canon. reflexivity. Qed.

Lemma two_neq_0 : (1 + 1 : Qc) <> 0.
Proof. intro H. apply (f_equal this) in H. vm_compute in H. discriminate. Qed.

Lemma four_eq : Qc_of_nat 4 = (1 + 1) * (1 + 1).
Proof. apply Qc_is_canon. reflexivity. Qed.

Lemma Qc_pos_add (a b : Qc) : 0 < a -> 0 < b -> 0 < a + b.
Proof.
  intros Ha Hb. apply Qclt_le_trans with (0 + b).
  - now rewrite Qcplus_0_l.
  - apply Qcplus_le_compat; [now apply Qclt_le_weak|apply Qcle_refl].
Qed.

Lemma Qc_pos_neq (a : Qc) : 0 < a -> a <> 0.
Proof. intros H E. rewrite E in H. now apply Qclt_not_eq in H. Qed.

Close Scope Qc_scope.

(** ** Cells of arrays of a known rank *)

Lemma in_bounds_2 idx a b :
  in_bounds idx [a; b] = true -> exists x y, idx = [x; y] /\ x < a /\ y < b.
Proof.
  intros H. pose proof (in_bounds_length _ _ H) as L.
  destruct idx as [|x [|y [|? ?]]]; try discriminate L.
  simpl in H. rewrite !andb_true_iff, !Nat.ltb_lt in H.
  exists x, y. intuition.
Qed.

Lemma in_bounds_3 idx a b c :
  in_bounds idx [a; b; c] = true ->
  exists x y z, idx = [x; y; z] /\ x < a /\ y < b /\ z < c.
Proof.
  intros H. pose proof (in_bounds_length _ _ H) as L.
  destruct idx as [|x [|y [|z [|? ?]]]]; try discriminate L.
  simpl in H. rewrite !andb_true_iff, !Nat.ltb_lt in H.
  exists x, y, z. intuition.
Qed.

Lemma in_bounds_4 idx a b c d :
  in_bounds idx [a; b; c; d] = true ->
  exists x y z w, idx = [x; y; z; w] /\ x < a /\ y < b /\ z < c /\ w < d.
Proof.
  intros H. pose proof (in_bounds_length _ _ H) as L.
  destruct idx as [|x [|y [|z [|w [|? ?]]]]]; try discriminate L.
  simpl in H. rewrite !andb_true_iff, !Nat.ltb_lt in H.
  exists x, y, z, w. intuition.
Qed.

Lemma in_bounds_5 idx a b c d e :
  in_bounds idx [a; b; c; d; e] = true ->
  exists x y z w u,
    idx = [x; y; z; w; u] /\ x < a /\ y < b /\ z < c /\ w < d /\ u < e.
Proof.
  intros H. pose proof (in_bounds_length _ _ H) as L.
  destruct idx as [|x [|y [|z [|w [|u [|? ?]]]]]]; try discriminate L.
  simpl in H. rewrite !andb_true_iff, !Nat.ltb_lt in H.
  exists x, y, z, w, u. intuition.
Qed.

(** [in_bounds] and [sel_ok] goals on explicit lists, by arithmetic. *)
Ltac bounds :=
  cbn [in_bounds sel_ok];
  repeat (rewrite (proj2 (Nat.ltb_lt _ _)) by lia);
  reflexivity.

(** [selected ss idx = true] on explicit lists, by arithmetic. *)
Ltac pick_cell :=
  repeat (apply selected_cons; split;
          [cbv beta iota delta [sel_has]; try lia; auto|]);
  try apply selected_nil.

(** The facts held by a hypothesis [selected ss idx = true]. *)
Ltac unpick H :=
  repeat (let H1 := fresh "Hsel" in
          apply selected_cons in H; destruct H as [H1 H];
          cbv beta iota delta [sel_has] in H1).

(** State the store property of the loop in the goal as a fact [H] to prove. *)
Ltac loop_writes W F H :=
  match goal with
  | |- exists Gu, forM ?l ?S ?body = Ok Gu /\ _ =>
      assert (H : exists Gu, forM l S body = Ok Gu /\ writes W F S Gu)
  end.

Lemma setitem_ok_shape a ss b :
  sel_ok ss (shape a) = true ->
  assignable (shape b) (sel_shape ss (shape a)) = true ->
  exists a', setitem a ss b = Ok a' /\ shape a' = shape a.
Proof.
  intros H1 H2. unfold setitem. rewrite H1, H2. eexists. split; reflexivity.
Qed.

Lemma setitem_scalar_ok_shape a ss v :
  sel_ok ss (shape a) = true ->
  exists a', setitem_scalar a ss v = Ok a' /\ shape a' = shape a.
Proof.
  intros H1. unfold setitem_scalar. rewrite H1. eexists. split; reflexivity.
Qed.

Lemma rangeZ_of_nat n : rangeZ (Z.of_nat n) = range n.
Proof. unfold rangeZ, range. now rewrite Nat2Z.id. Qed.

(** Sequencing two stores. *)
Lemma bind_writes W1 W2 F S (c : result ndarray) (k : ndarray -> result ndarray) :
  (exists S1, c = Ok S1 /\ writes W1 F S S1) ->
  (forall S1, shape S1 = shape S -> writes W1 F S S1 ->
              exists S', k S1 = Ok S' /\ writes W2 F S1 S') ->
  exists S', bind c k = Ok S' /\ writes (fun idx => W1 idx || W2 idx) F S S'.
Proof.
  intros [S1 [E1 H1]] Hk. rewrite E1, bind_Ok.
  destruct (Hk S1 (writes_shape _ _ _ _ H1) H1) as [S' [E2 H2]].
  exists S'. split; [exact E2|]. exact (writes_seq _ _ _ _ _ _ H1 H2).
Qed.

(** A cell that holds its target value keeps it under later stores. *)
Lemma writes_keep W F S S' idx :
  writes W F S S' -> in_bounds idx (shape S) = true ->
  data S idx = F idx -> data S' idx = F idx.
Proof.
  intros [_ H] Hb E. rewrite H by exact Hb. now destruct (W idx).
Qed.

Lemma asize_pos sh idx : in_bounds idx sh = true -> List.length (indices sh) <> 0.
Proof.
  intros H. apply indices_in_bounds in H.
  destruct (indices sh); [contradiction|discriminate].
Qed.

Lemma zerosZ_of_nat dims :
  zerosZ (map Z.of_nat dims) = Ok (zeros dims).
Proof.
  unfold zerosZ.
  assert (H : forallb (fun d => (0 <=? d)%Z) (map Z.of_nat dims) = true).
  { apply forallb_forall. intros z Hz. apply in_map_iff in Hz.
    destruct Hz as [n [<- _]]. apply Z.leb_le. lia. }
  rewrite H. f_equal. f_equal. rewrite map_map.
  rewrite <- (map_id dims) at 2. apply map_ext. intros; apply Nat2Z.id.
Qed.

(** One of the alternatives of a disjunction of subscripts holds. *)
Ltac orb_pick :=
  first [ solve [pick_cell]
        | apply orb_true_iff; first [ left; solve [pick_cell] | right; orb_pick ] ].

(** The extent of a slice of two cells that lies inside its axis. *)
Lemma blk_len lo n : lo + 2 <= n -> Nat.min (lo + 2) n - lo = 2.
Proof. lia. Qed.

(** * downVolt and upVolt *)

Section Volt.

Variable G : ndarray.

(** The cell of the doubled field: the coarse cell that contains it. *)
Let Fup4 (idx : index) : Qc :=
  match idx with
  | [d; kk; jj; i] => data G [d; kk / 2; jj / 2; i]
  | _ => Q2Qc 0
  end.

Let Wup4 (d i k j : nat) : index -> bool :=
  selected [At d; Rng (2 * k) (2 * k + 2); Rng (2 * j) (2 * j + 2); At i].

Lemma upVolt_4d_spec Nd Nk Nj Ni :
  shape G = [Nd; Nk; Nj; Ni] ->
  exists Gu, upVolt_4d G = Ok Gu /\ shape Gu = [Nd; 2 * Nk; 2 * Nj; Ni] /\
    forall d kk jj i, d < Nd -> kk < 2 * Nk -> jj < 2 * Nj -> i < Ni ->
      data Gu [d; kk; jj; i] = data G [d; kk / 2; jj / 2; i].
Proof.
  intros HG. unfold upVolt_4d. rewrite HG. cbn [unpack4 unpack5]. rewrite bind_Ok.
  set (sh := [Nd; 2 * Nk; 2 * Nj; Ni]).
  loop_writes
    (fun idx => existsb (fun d => existsb (fun i => existsb (fun k =>
       existsb (fun j => Wup4 d i k j idx) (range Nj)) (range Nk)) (range Ni))
       (range Nd)) Fup4 Hloop.
  - apply (forM_writes (fun d => d < Nd)
      (fun d idx => existsb (fun i => existsb (fun k => existsb (fun j =>
         Wup4 d i k j idx) (range Nj)) (range Nk)) (range Ni)) Fup4 sh);
      [|apply Forall_range|reflexivity].
    intros d S Hd HS.
    apply (forM_writes (fun i => i < Ni)
      (fun i idx => existsb (fun k => existsb (fun j =>
         Wup4 d i k j idx) (range Nj)) (range Nk)) Fup4 sh);
      [|apply Forall_range|exact HS].
    clear S HS. intros i S Hi HS.
    apply (forM_writes (fun k => k < Nk)
      (fun k idx => existsb (fun j => Wup4 d i k j idx) (range Nj)) Fup4 sh);
      [|apply Forall_range|exact HS].
    clear S HS. intros k S Hk HS.
    apply (forM_writes (fun j => j < Nj) (fun j => Wup4 d i k j) Fup4 sh);
      [|apply Forall_range|exact HS].
    clear S HS. intros j S Hj HS.
    rewrite item_ok by (rewrite HG; bounds). rewrite bind_Ok.
    apply setitem_scalar_writes; [rewrite HS; unfold sh; bounds|].
    rewrite HS. intros idx Hb Hsel.
    apply in_bounds_4 in Hb. destruct Hb as (x & y & z & w & -> & Hb).
    unpick Hsel. subst. unfold Fup4. repeat f_equal; lia.
  - destruct Hloop as [Gu [E Wr]].
    exists Gu. split; [exact E|]. split; [now rewrite (writes_shape _ _ _ _ Wr)|].
    intros d kk jj i Hd Hk Hj Hi.
    rewrite (writes_hit _ _ _ _ [d; kk; jj; i] Wr); [reflexivity|unfold sh; cbn [shape zeros]; bounds|].
    apply existsb_range. exists d. split; [lia|].
    apply existsb_range. exists i. split; [lia|].
    apply existsb_range. exists (kk / 2). split; [lia|].
    apply existsb_range. exists (jj / 2). split; [lia|].
    unfold Wup4. pick_cell.
Qed.

(** The same proof over the five loops of the [except] block. *)
Let Fup5 (idx : index) : Qc :=
  match idx with
  | [d; kk; jj; i; h] => data G [d; kk / 2; jj / 2; i; h]
  | _ => Q2Qc 0
  end.

Let Wup5 (h d i k j : nat) : index -> bool :=
  selected [At d; Rng (2 * k) (2 * k + 2); Rng (2 * j) (2 * j + 2); At i; At h].

Lemma upVolt_5d_spec Nd Nk Nj Ni Nh :
  shape G = [Nd; Nk; Nj; Ni; Nh] ->
  exists Gu, upVolt_5d G = Ok Gu /\ shape Gu = [Nd; 2 * Nk; 2 * Nj; Ni; Nh] /\
    forall d kk jj i h,
      d < Nd -> kk < 2 * Nk -> jj < 2 * Nj -> i < Ni -> h < Nh ->
      data Gu [d; kk; jj; i; h] = data G [d; kk / 2; jj / 2; i; h].
Proof.
  intros HG. unfold upVolt_5d. rewrite HG. cbn [unpack4 unpack5]. rewrite bind_Ok.
  set (sh := [Nd; 2 * Nk; 2 * Nj; Ni; Nh]).
  loop_writes
    (fun idx => existsb (fun h => existsb (fun d => existsb (fun i =>
       existsb (fun k => existsb (fun j => Wup5 h d i k j idx) (range Nj))
       (range Nk)) (range Ni)) (range Nd)) (range Nh)) Fup5 Hloop.
  - apply (forM_writes (fun h => h < Nh)
      (fun h idx => existsb (fun d => existsb (fun i => existsb (fun k =>
         existsb (fun j => Wup5 h d i k j idx) (range Nj)) (range Nk))
         (range Ni)) (range Nd)) Fup5 sh);
      [|apply Forall_range|reflexivity].
    intros h S Hh HS.
    apply (forM_writes (fun d => d < Nd)
      (fun d idx => existsb (fun i => existsb (fun k => existsb (fun j =>
         Wup5 h d i k j idx) (range Nj)) (range Nk)) (range Ni)) Fup5 sh);
      [|apply Forall_range|exact HS].
    clear S HS. intros d S Hd HS.
    apply (forM_writes (fun i => i < Ni)
      (fun i idx => existsb (fun k => existsb (fun j =>
         Wup5 h d i k j idx) (range Nj)) (range Nk)) Fup5 sh);
      [|apply Forall_range|exact HS].
    clear S HS. intros i S Hi HS.
    apply (forM_writes (fun k => k < Nk)
      (fun k idx => existsb (fun j => Wup5 h d i k j idx) (range Nj)) Fup5 sh);
      [|apply Forall_range|exact HS].
    clear S HS. intros k S Hk HS.
    apply (forM_writes (fun j => j < Nj) (fun j => Wup5 h d i k j) Fup5 sh);
      [|apply Forall_range|exact HS].
    clear S HS. intros j S Hj HS.
    rewrite item_ok by (rewrite HG; bounds). rewrite bind_Ok.
    apply setitem_scalar_writes; [rewrite HS; unfold sh; bounds|].
    rewrite HS. intros idx Hb Hsel.
    apply in_bounds_5 in Hb. destruct Hb as (x & y & z & w & u & -> & Hb).
    unpick Hsel. subst. unfold Fup5. repeat f_equal; lia.
  - destruct Hloop as [Gu [E Wr]].
    exists Gu. split; [exact E|]. split; [now rewrite (writes_shape _ _ _ _ Wr)|].
    intros d kk jj i h Hd Hk Hj Hi Hh.
    rewrite (writes_hit _ _ _ _ [d; kk; jj; i; h] Wr);
      [reflexivity|unfold sh; cbn [shape zeros]; bounds|].
    apply existsb_range. exists h. split; [lia|].
    apply existsb_range. exists d. split; [lia|].
    apply existsb_range. exists i. split; [lia|].
    apply existsb_range. exists (kk / 2). split; [lia|].
    apply existsb_range. exists (jj / 2). split; [lia|].
    unfold Wup5. pick_cell.
Qed.

(** [downVolt]: the mean of each 2x2 block of the two middle axes. *)
Let Fdown (idx : index) : Qc :=
  match idx with
  | [d; k; j; i] =>
      Qcdiv (Qcplus (Qcplus (Qcplus (data G [d; 2 * k; 2 * j; i])
                                    (data G [d; 2 * k; 2 * j + 1; i]))
                            (data G [d; 2 * k + 1; 2 * j; i]))
                    (data G [d; 2 * k + 1; 2 * j + 1; i]))
            (Qc_of_nat 4)
  | _ => Q2Qc 0
  end.

Let Wdown (d i k j : nat) : index -> bool :=
  selected [At d; At k; At j; At i].

Lemma downVolt_4d_spec Nd Nk Nj Ni :
  shape G = [Nd; Nk; Nj; Ni] ->
  exists Gd, downVolt G = Ok Gd /\ shape Gd = [Nd; Nk / 2; Nj / 2; Ni] /\
    forall d k j i, d < Nd -> k < Nk / 2 -> j < Nj / 2 -> i < Ni ->
      data Gd [d; k; j; i] =
      Qcdiv (Qcplus (Qcplus (Qcplus (data G [d; 2 * k; 2 * j; i])
                                    (data G [d; 2 * k; 2 * j + 1; i]))
                            (data G [d; 2 * k + 1; 2 * j; i]))
                    (data G [d; 2 * k + 1; 2 * j + 1; i]))
            (Qc_of_nat 4).
Proof.
  intros HG. unfold downVolt. rewrite HG. cbn [unpack4 unpack5]. rewrite bind_Ok.
  set (sh := [Nd; Nk / 2; Nj / 2; Ni]).
  loop_writes
    (fun idx => existsb (fun d => existsb (fun i => existsb (fun k =>
       existsb (fun j => Wdown d i k j idx) (range (Nj / 2))) (range (Nk / 2)))
       (range Ni)) (range Nd)) Fdown Hloop.
  - apply (forM_writes (fun d => d < Nd)
      (fun d idx => existsb (fun i => existsb (fun k => existsb (fun j =>
         Wdown d i k j idx) (range (Nj / 2))) (range (Nk / 2))) (range Ni))
      Fdown sh); [|apply Forall_range|reflexivity].
    intros d S Hd HS.
    apply (forM_writes (fun i => i < Ni)
      (fun i idx => existsb (fun k => existsb (fun j =>
         Wdown d i k j idx) (range (Nj / 2))) (range (Nk / 2))) Fdown sh);
      [|apply Forall_range|exact HS].
    clear S HS. intros i S Hi HS.
    apply (forM_writes (fun k => k < Nk / 2)
      (fun k idx => existsb (fun j => Wdown d i k j idx) (range (Nj / 2)))
      Fdown sh); [|apply Forall_range|exact HS].
    clear S HS. intros k S Hk HS.
    apply (forM_writes (fun j => j < Nj / 2) (fun j => Wdown d i k j) Fdown sh);
      [|apply Forall_range|exact HS].
    clear S HS. intros j S Hj HS. cbv zeta.
    rewrite getitem_ok by (rewrite HG; bounds). rewrite bind_Ok.
    apply setitem_scalar_writes; [rewrite HS; unfold sh; bounds|].
    rewrite HS. intros idx Hb Hsel.
    apply in_bounds_4 in Hb. destruct Hb as (x & y & z & w & -> & Hb).
    unpick Hsel. subst. unfold Fdown, amean, asize.
    assert (Hblk : shape (getsel G [At d; Rng (2 * k) (2 * k + 2);
                                    Rng (2 * j) (2 * j + 2); At i]) = [2; 2]).
    { cbn [getsel shape]. rewrite HG. cbn [sel_shape]. f_equal; [lia|f_equal; lia]. }
    rewrite (asum_22 _ Hblk), Hblk.
    cbn [getsel data sel_index indices]. rewrite !Nat.add_0_r. reflexivity.
  - destruct Hloop as [Gd [E Wr]].
    exists Gd. split; [exact E|]. split; [now rewrite (writes_shape _ _ _ _ Wr)|].
    intros d k j i Hd Hk Hj Hi.
    rewrite (writes_hit _ _ _ _ [d; k; j; i] Wr); [reflexivity|unfold sh; cbn [shape zeros]; bounds|].
    apply existsb_range. exists d. split; [lia|].
    apply existsb_range. exists i. split; [lia|].
    apply existsb_range. exists k. split; [lia|].
    apply existsb_range. exists j. split; [lia|].
    unfold Wdown. pick_cell.
Qed.

Lemma downVolt_5d_raises Nd Nk Nj Ni Nh :
  shape G = [Nd; Nk; Nj; Ni; Nh] -> downVolt G = Raise ValueError.
Proof. intros HG. unfold downVolt. now rewrite HG. Qed.

Lemma upVolt_4d_raises Nd Nk Nj Ni Nh :
  shape G = [Nd; Nk; Nj; Ni; Nh] -> upVolt_4d G = Raise ValueError.
Proof. intros HG. unfold upVolt_4d. now rewrite HG. Qed.

End Volt.

(** C7, as the spec states it, at a concrete input: [downVolt] does not
    accept a 5D field with a trailing history axis; the field [volt5] of
    shape (1,2,2,1,2) makes it raise, and no result of shape (1,1,1,1,2) comes
    back. *)
Lemma downVolt_rejects_history_axis :
  downVolt volt5 = Raise ValueError /\
  ~ (exists Gd, downVolt volt5 = Ok Gd /\ shape Gd = [1; 1; 1; 1; 2]).
Proof.
  split; [reflexivity|]. intros [Gd [E _]]. discriminate E.
Qed.

(** C7, amended: [upVolt] accepts a plain 4D field and a 5D field with a
    trailing history axis, tells them apart by the rank of the input, and
    replicates each cell over its 2x2 block of the two middle axes, for every
    history index when there is one; the results have shapes
    (Nd,2Nk,2Nj,Ni) and (Nd,2Nk,2Nj,Ni,Nh).  [downVolt] accepts the plain 4D
    field only: it returns the 2x2 block means in shape (Nd,Nk/2,Nj/2,Ni),
    and raises on a 5D field. *)
Theorem volt_rank_dispatch (G : ndarray) :
  (forall Nd Nk Nj Ni, shape G = [Nd; Nk; Nj; Ni] ->
     (exists Gu, upVolt G = Ok Gu /\ shape Gu = [Nd; 2 * Nk; 2 * Nj; Ni] /\
        forall d kk jj i, d < Nd -> kk < 2 * Nk -> jj < 2 * Nj -> i < Ni ->
          data Gu [d; kk; jj; i] = data G [d; kk / 2; jj / 2; i]) /\
     (exists Gd, downVolt G = Ok Gd /\ shape Gd = [Nd; Nk / 2; Nj / 2; Ni] /\
        forall d k j i, d < Nd -> k < Nk / 2 -> j < Nj / 2 -> i < Ni ->
          data Gd [d; k; j; i] =
          Qcdiv (Qcplus (Qcplus (Qcplus (data G [d; 2 * k; 2 * j; i])
                                        (data G [d; 2 * k; 2 * j + 1; i]))
                                (data G [d; 2 * k + 1; 2 * j; i]))
                        (data G [d; 2 * k + 1; 2 * j + 1; i]))
                (Qc_of_nat 4))) /\
  (forall Nd Nk Nj Ni Nh, shape G = [Nd; Nk; Nj; Ni; Nh] ->
     (exists Gu, upVolt G = Ok Gu /\ shape Gu = [Nd; 2 * Nk; 2 * Nj; Ni; Nh] /\
        forall d kk jj i h,
          d < Nd -> kk < 2 * Nk -> jj < 2 * Nj -> i < Ni -> h < Nh ->
          data Gu [d; kk; jj; i; h] = data G [d; kk / 2; jj / 2; i; h]) /\
     downVolt G = Raise ValueError).
Proof.
  split.
  - intros Nd Nk Nj Ni HG. split.
    + destruct (upVolt_4d_spec G Nd Nk Nj Ni HG) as [Gu [E H]].
      exists Gu. split; [|exact H]. unfold upVolt. now rewrite E.
    + exact (downVolt_4d_spec G Nd Nk Nj Ni HG).
  - intros Nd Nk Nj Ni Nh HG. split.
    + destruct (upVolt_5d_spec G Nd Nk Nj Ni Nh HG) as [Gu [E H]].
      exists Gu. split; [|exact H]. unfold upVolt.
      now rewrite (upVolt_4d_raises G Nd Nk Nj Ni Nh HG).
    + exact (downVolt_5d_raises G Nd Nk Nj Ni Nh HG).
Qed.

(** The amended C7 at the fields [volt4] and [volt5]. *)
Lemma volt_rank_dispatch_witness :
  (exists Gu, upVolt volt4 = Ok Gu /\ shape Gu = [1; 4; 8; 1] /\
              data Gu [0; 3; 5; 0] = Qc_of_nat 12) /\
  (exists Gd, downVolt volt4 = Ok Gd /\ shape Gd = [1; 1; 2; 1]) /\
  (exists Gu, upVolt volt5 = Ok Gu /\ shape Gu = [1; 4; 4; 1; 2] /\
              data Gu [0; 3; 2; 0; 1] = Qc_of_nat 111) /\
  downVolt volt5 = Raise ValueError.
Proof.
  destruct (volt_rank_dispatch volt4) as [H4 _].
  destruct (H4 1 2 4 1 eq_refl) as [[Gu [E [Hs Hc]]] [Gd [Ed [Hsd _]]]].
  destruct (volt_rank_dispatch volt5) as [_ H5].
  destruct (H5 1 2 2 1 2 eq_refl) as [[Gu5 [E5 [Hs5 Hc5]]] Hr].
  split.
  { exists Gu. split; [exact E|]. split; [exact Hs|].
    rewrite (Hc 0 3 5 0) by lia. reflexivity. }
  split.
  { exists Gd. split; [exact Ed|exact Hsd]. }
  split.
  { exists Gu5. split; [exact E5|]. split; [exact Hs5|].
    rewrite (Hc5 0 3 2 0 1) by lia. reflexivity. }
  exact Hr.
Defined.

(** * Volume, downGas and upGas *)

Lemma selected_All ss x idx : selected (All :: ss) (x :: idx) = selected ss idx.
Proof. unfold selected. simpl. now destruct (sel_inv ss idx). Qed.

Lemma setitem_scalar_ok a ss v :
  sel_ok ss (shape a) = true ->
  setitem_scalar a ss v
  = Ok (mkArr (shape a) (fun idx => if selected ss idx then v else data a idx)).
Proof. intros H. unfold setitem_scalar. now rewrite H. Qed.

(** A loop that returns has kept every invariant that its body keeps. *)
Lemma forM_returned {A S : Type} (I : S -> Prop) (body : A -> S -> result S) :
  (forall x s s', I s -> body x s = Ok s' -> I s') ->
  forall l s s', I s -> forM l s body = Ok s' -> I s'.
Proof.
  intros Hbody l. induction l as [|x l IH]; intros s s' Hs H; cbn [forM] in H.
  - injection H as <-. exact Hs.
  - destruct (body x s) as [s1|e] eqn:E; [|discriminate H].
    rewrite bind_Ok in H. exact (IH s1 s' (Hbody x s s1 Hs E) H).
Qed.

Section Gas.

Variable hull : ndarray -> result Qc.

(** The start of [Volume] on a grid with its ghost layers: the extents and
    the arrays without ghosts. *)
Lemma Volume_start Xg Yg Zg Nk Nj Ni :
  grid_shape Xg Yg Zg Nk Nj Ni ->
  Volume hull Xg Yg Zg
  = let X := getsel Xg [Rng 4 (Nk + 2 * 4 + 1 - 4); Rng 4 (Nj + 2 * 4 + 1 - 4);
                        Rng 4 (Ni + 2 * 4 + 1 - 4)] in
    let Y := getsel Yg [Rng 4 (Nk + 2 * 4 + 1 - 4); Rng 4 (Nj + 2 * 4 + 1 - 4);
                        Rng 4 (Ni + 2 * 4 + 1 - 4)] in
    let Z := getsel Zg [Rng 4 (Nk + 2 * 4 + 1 - 4); Rng 4 (Nj + 2 * 4 + 1 - 4);
                        Rng 4 (Ni + 2 * 4 + 1 - 4)] in
    let* '(dV, _) :=
      forM (range Nj) (zeros [Nk; Nj; Ni], zeros [8; 3]) (fun j st =>
      forM (range Ni) st (fun i '(dV, ijkPts) =>
        let cell := [Rng 0 (0 + 2); Rng j (j + 2); Rng i (i + 2)] in
        let* bx := getitem X cell in
        let* ijkPts := setitem ijkPts [All; At 0] (aflatten bx) in
        let* by_ := getitem Y cell in
        let* ijkPts := setitem ijkPts [All; At 1] (aflatten by_) in
        let* bz := getitem Z cell in
        let* ijkPts := setitem ijkPts [All; At 2] (aflatten bz) in
        let* vol := hull ijkPts in
        let* dV := setitem_scalar dV [All; At j; At i] vol in
        Ok (dV, ijkPts))) in
    Ok dV.
Proof.
  intros (HX & HY & HZ). unfold Volume, strip_ghosts.
  rewrite HX, HY, HZ. cbn [unpack3]. rewrite bind_Ok.
  rewrite !getitem_ok by (rewrite ?HX, ?HY, ?HZ; reflexivity). rewrite !bind_Ok.
  unfold NumG in *.
  replace (Z.of_nat (Nk + 2 * 4 + 1) - 2 * Z.of_nat 4 - 1)%Z with (Z.of_nat Nk) by lia.
  replace (Z.of_nat (Nj + 2 * 4 + 1) - 2 * Z.of_nat 4 - 1)%Z with (Z.of_nat Nj) by lia.
  replace (Z.of_nat (Ni + 2 * 4 + 1) - 2 * Z.of_nat 4 - 1)%Z with (Z.of_nat Ni) by lia.
  change [Z.of_nat Nk; Z.of_nat Nj; Z.of_nat Ni] with (map Z.of_nat [Nk; Nj; Ni]).
  rewrite zerosZ_of_nat, bind_Ok, !rangeZ_of_nat. reflexivity.
Qed.

(** Whenever [Volume] returns on a grid with its ghost layers, it returns
    one volume per cell, and the same volumes in every layer in k. *)
Lemma Volume_returned Xg Yg Zg Nk Nj Ni dV :
  grid_shape Xg Yg Zg Nk Nj Ni ->
  Volume hull Xg Yg Zg = Ok dV ->
  shape dV = [Nk; Nj; Ni] /\
  forall k j i, data dV [k; j; i] = data dV [0; j; i].
Proof.
  intros Hg E. rewrite (Volume_start _ _ _ _ _ _ Hg) in E. cbv zeta in E.
  set (I := fun st : ndarray * ndarray =>
              shape (fst st) = [Nk; Nj; Ni] /\
              forall k j i, data (fst st) [k; j; i] = data (fst st) [0; j; i]).
  match type of E with
  | bind (forM ?l ?s ?body) _ = _ =>
      destruct (forM l s body) as [[dV' pts]|e] eqn:Eloop; [|discriminate E];
      assert (HI : I (dV', pts))
  end.
  { revert Eloop. apply forM_returned; [|split; reflexivity].
    intros j st st'. apply forM_returned.
    clear. intros i [dV pts] st' [HdV Hlay] H. cbn [fst] in HdV, Hlay.
    repeat match type of H with
           | bind ?c _ = Ok _ =>
               destruct c eqn:?; [rewrite bind_Ok in H|discriminate H]
           end.
    match goal with
    | Hs : setitem_scalar dV _ _ = Ok _ |- _ =>
        unfold setitem_scalar in Hs;
        destruct (sel_ok _ (shape dV)); [|discriminate Hs];
        injection Hs as <-
    end.
    injection H as <-. split; cbn [fst shape data]; [exact HdV|].
    intros k j' i'. rewrite !selected_All.
    destruct (selected [At j; At i] [j'; i']); [reflexivity|apply Hlay]. }
  rewrite bind_Ok in E. injection E as <-. exact HI.
Qed.

(** On a grid with its ghost layers and at least one layer of cells in k,
    [Volume] returns when the hull returns for every cell. *)
Lemma Volume_ok Xg Yg Zg Nk Nj Ni :
  (forall pts, shape pts = [8; 3] -> exists vol, hull pts = Ok vol) ->
  grid_shape Xg Yg Zg Nk Nj Ni -> 1 <= Nk ->
  exists dV, Volume hull Xg Yg Zg = Ok dV /\ shape dV = [Nk; Nj; Ni].
Proof.
  intros Hhull Hg HNk. rewrite (Volume_start _ _ _ _ _ _ Hg). cbv zeta.
  destruct Hg as (HX & HY & HZ).
  set (I := fun st : ndarray * ndarray =>
              shape (fst st) = [Nk; Nj; Ni] /\ shape (snd st) = [8; 3]).
  match goal with
  | |- exists dV, bind (forM ?l ?s ?body) _ = _ /\ _ =>
      assert (Hloop : exists st, forM l s body = Ok st /\ I st)
  end.
  { apply (forM_inv (fun j => j < Nj) I);
      [|apply Forall_range|split; reflexivity].
    intros j st Hj Hst.
    apply (forM_inv (fun i => i < Ni) I); [|apply Forall_range|exact Hst].
    clear st Hst. intros i [dV pts] Hi [HdV Hpts]. simpl in HdV, Hpts.
    assert (Hflat : forall A,
      shape A = [Nk + 2 * NumG + 1; Nj + 2 * NumG + 1; Ni + 2 * NumG + 1] ->
      shape (aflatten
        (getsel (getsel A [Rng 4 (Nk + 2 * 4 + 1 - 4); Rng 4 (Nj + 2 * 4 + 1 - 4);
                           Rng 4 (Ni + 2 * 4 + 1 - 4)])
                [Rng 0 (0 + 2); Rng j (j + 2); Rng i (i + 2)])) = [8]).
    { intros A HA. cbn [aflatten shape]. unfold asize. cbn [getsel shape].
      rewrite HA. unfold NumG. cbn [sel_shape].
      replace (Nat.min (0 + 2) (Nat.min (Nk + 2 * 4 + 1 - 4) (Nk + 2 * 4 + 1) - 4) - 0)
        with 2 by lia.
      replace (Nat.min (j + 2) (Nat.min (Nj + 2 * 4 + 1 - 4) (Nj + 2 * 4 + 1) - 4) - j)
        with 2 by lia.
      replace (Nat.min (i + 2) (Nat.min (Ni + 2 * 4 + 1 - 4) (Ni + 2 * 4 + 1) - 4) - i)
        with 2 by lia.
      reflexivity. }
    rewrite getitem_ok by (cbn [getsel shape]; rewrite HX; reflexivity).
    rewrite bind_Ok.
    match goal with
    | |- context [setitem pts [All; At 0] ?b] =>
        destruct (setitem_ok_shape pts [All; At 0] b) as [p1 [E1 H1]]
    end;
      [rewrite Hpts; reflexivity|rewrite (Hflat Xg HX), Hpts; reflexivity|].
    rewrite E1, bind_Ok. rewrite Hpts in H1.
    rewrite getitem_ok by (cbn [getsel shape]; rewrite HY; reflexivity).
    rewrite bind_Ok.
    match goal with
    | |- context [setitem p1 [All; At 1] ?b] =>
        destruct (setitem_ok_shape p1 [All; At 1] b) as [p2 [E2 H2]]
    end;
      [rewrite H1; reflexivity|rewrite (Hflat Yg HY), H1; reflexivity|].
    rewrite E2, bind_Ok. rewrite H1 in H2.
    rewrite getitem_ok by (cbn [getsel shape]; rewrite HZ; reflexivity).
    rewrite bind_Ok.
    match goal with
    | |- context [setitem p2 [All; At 2] ?b] =>
        destruct (setitem_ok_shape p2 [All; At 2] b) as [p3 [E3 H3]]
    end;
      [rewrite H2; reflexivity|rewrite (Hflat Zg HZ), H2; reflexivity|].
    rewrite E3, bind_Ok. rewrite H2 in H3.
    destruct (Hhull p3 H3) as [vol Evol]. rewrite Evol, bind_Ok.
    destruct (setitem_scalar_ok_shape dV [All; At j; At i] vol)
      as [dV' [E4 H4]]; [rewrite HdV; bounds|].
    rewrite E4, bind_Ok. eexists. split; [reflexivity|].
    split; simpl; congruence. }
  destruct Hloop as [[dV pts] [E [HdV Hpts]]].
  rewrite E, bind_Ok. exists dV. split; [reflexivity|exact HdV].
Qed.

(** ** downGas *)

Section DownGas.

Variables (X Y Z G Xd Yd Zd dV dVd : ndarray) (Ns Nv Nk Nj Ni : nat).
Hypothesis HG : shape G = [Ns; Nv; Nk; Nj; Ni].
Hypothesis EdV : Volume hull X Y Z = Ok dV.
Hypothesis HdV : shape dV = [Nk; Nj; Ni].
Hypothesis EdVd : Volume hull Xd Yd Zd = Ok dVd.
Hypothesis HdVd : shape dVd = [Nk / 2; Nj / 2; Ni / 2].

Let Fdg (idx : index) : Qc :=
  match idx with
  | [s; v; k; j; i] =>
      Qcdiv (block222 (fun kk jj ii =>
                         Qcmult (data dV [kk; jj; ii]) (data G [s; v; kk; jj; ii]))
                      k j i)
            (data dVd [k; j; i])
  | _ => Q2Qc 0
  end.

Let Wdg (s v k j i : nat) : index -> bool :=
  selected [At s; At v; At k; At j; At i].

Lemma downGas_cells :
  exists Gd, downGas hull X Y Z G Xd Yd Zd = Ok Gd /\
    shape Gd = [Ns; Nv; Nk / 2; Nj / 2; Ni / 2] /\
    forall s v k j i, s < Ns -> v < Nv -> k < Nk / 2 -> j < Nj / 2 -> i < Ni / 2 ->
      data Gd [s; v; k; j; i] =
      Qcdiv (block222 (fun kk jj ii =>
                         Qcmult (data dV [kk; jj; ii]) (data G [s; v; kk; jj; ii]))
                      k j i)
            (data dVd [k; j; i]).
Proof.
  unfold downGas. rewrite HG. cbn [unpack5]. rewrite bind_Ok.
  rewrite EdV, bind_Ok, EdVd, bind_Ok.
  set (sh := [Ns; Nv; Nk / 2; Nj / 2; Ni / 2]).
  loop_writes
    (fun idx => existsb (fun s => existsb (fun v => existsb (fun k =>
       existsb (fun j => existsb (fun i => Wdg s v k j i idx) (range (Ni / 2)))
       (range (Nj / 2))) (range (Nk / 2))) (range Nv)) (range Ns)) Fdg Hloop.
  - apply (forM_writes (fun s => s < Ns)
      (fun s idx => existsb (fun v => existsb (fun k => existsb (fun j =>
         existsb (fun i => Wdg s v k j i idx) (range (Ni / 2)))
         (range (Nj / 2))) (range (Nk / 2))) (range Nv)) Fdg sh);
      [|apply Forall_range|reflexivity].
    intros s S Hs HS.
    apply (forM_writes (fun v => v < Nv)
      (fun v idx => existsb (fun k => existsb (fun j =>
         existsb (fun i => Wdg s v k j i idx) (range (Ni / 2)))
         (range (Nj / 2))) (range (Nk / 2))) Fdg sh);
      [|apply Forall_range|exact HS].
    clear S HS. intros v S Hv HS.
    match goal with
    | |- exists S', bind (forM ?l ?S0 ?body) _ = _ /\ _ =>
        assert (Hin : exists S1, forM l S0 body = Ok S1 /\
          writes (fun idx => existsb (fun k => existsb (fun j =>
            existsb (fun i => Wdg s v k j i idx) (range (Ni / 2)))
            (range (Nj / 2))) (range (Nk / 2))) Fdg S0 S1)
    end.
    { apply (forM_writes (fun k => k < Nk / 2)
        (fun k idx => existsb (fun j => existsb (fun i =>
           Wdg s v k j i idx) (range (Ni / 2))) (range (Nj / 2))) Fdg sh);
        [|apply Forall_range|exact HS].
      clear S HS. intros k S Hk HS.
      apply (forM_writes (fun j => j < Nj / 2)
        (fun j idx => existsb (fun i => Wdg s v k j i idx) (range (Ni / 2)))
        Fdg sh); [|apply Forall_range|exact HS].
      clear S HS. intros j S Hj HS.
      apply (forM_writes (fun i => i < Ni / 2) (fun i => Wdg s v k j i) Fdg sh);
        [|apply Forall_range|exact HS].
      clear S HS. intros i S Hi HS. cbv zeta.
      rewrite getitem_ok by (rewrite HdV; reflexivity). rewrite bind_Ok.
      rewrite getitem_ok by (rewrite HG; bounds). rewrite bind_Ok.
      set (blk := [Rng (2 * k) (2 * k + 2); Rng (2 * j) (2 * j + 2);
                   Rng (2 * i) (2 * i + 2)]).
      assert (H1 : shape (getsel dV blk) = [2; 2; 2]).
      { cbn [getsel shape]. rewrite HdV. unfold blk. cbn [sel_shape].
        now rewrite !blk_len by lia. }
      assert (H2 : shape (getsel G (At s :: At v :: blk)) = [2; 2; 2]).
      { cbn [getsel shape]. rewrite HG. unfold blk. cbn [sel_shape].
        now rewrite !blk_len by lia. }
      destruct (zipwith_same Qcmult (getsel dV blk) (getsel G (At s :: At v :: blk)))
        as [c [Ec [Hsc Hc]]]; [congruence|].
      unfold amul. rewrite Ec, bind_Ok.
      rewrite item_ok by (rewrite HdVd; bounds). rewrite bind_Ok.
      apply setitem_scalar_writes; [rewrite HS; unfold sh; bounds|].
      rewrite HS. intros idx Hb Hsel.
      apply in_bounds_5 in Hb. destruct Hb as (x & y & z & w & u & -> & Hb).
      unpick Hsel. subst. unfold Fdg. f_equal.
      rewrite asum_222 by congruence.
      rewrite !Hc by (rewrite H1; reflexivity).
      unfold blk, block222. cbn [getsel data sel_index].
      rewrite !Nat.add_0_r. reflexivity. }
    destruct Hin as [S1 [E1 W1]]. rewrite E1, bind_Ok.
    pose proof (writes_shape _ _ _ _ W1) as HS1. rewrite HS in HS1.
    rewrite getitem_ok by (rewrite HS1; unfold sh; bounds). rewrite bind_Ok.
    destruct (zipwith_same Qcmult (getsel S1 [At s; At v; All; All; All]) dVd)
      as [c1 [Ec1 _]];
      [cbn [getsel shape]; rewrite HS1, HdVd; reflexivity|].
    unfold amul. rewrite Ec1, bind_Ok.
    rewrite getitem_ok by (rewrite HG; bounds). rewrite bind_Ok.
    destruct (zipwith_same Qcmult (getsel G [At s; At v; All; All; All]) dV)
      as [c2 [Ec2 _]];
      [cbn [getsel shape]; rewrite HG, HdV; reflexivity|].
    rewrite Ec2, bind_Ok. exists S1. split; [reflexivity|exact W1].
  - destruct Hloop as [Gd [E Wr]].
    exists Gd. split; [exact E|]. split; [now rewrite (writes_shape _ _ _ _ Wr)|].
    intros s v k j i Hs Hv Hk Hj Hi.
    rewrite (writes_hit _ _ _ _ [s; v; k; j; i] Wr);
      [reflexivity|unfold sh; cbn [shape zeros]; bounds|].
    apply existsb_range. exists s. split; [lia|].
    apply existsb_range. exists v. split; [lia|].
    apply existsb_range. exists k. split; [lia|].
    apply existsb_range. exists j. split; [lia|].
    apply existsb_range. exists i. split; [lia|].
    unfold Wdg. pick_cell.
Qed.

End DownGas.

(** ** upGas *)

Section UpGas.

Variables (X Y Z G Xu Yu Zu dV dVu : ndarray) (Ns Nv Nk Nj Ni : nat).
Hypothesis HG : shape G = [Ns; Nv; Nk; Nj; Ni].
Hypothesis EdV : Volume hull X Y Z = Ok dV.
Hypothesis HdV : shape dV = [Nk; Nj; Ni].
Hypothesis EdVu : Volume hull Xu Yu Zu = Ok dVu.
Hypothesis HdVu : shape dVu = [2 * Nk; 2 * Nj; 2 * Ni].

(** The total fine volume under the coarse cell [(k,j,i)]. *)
Let vScl (k j i : nat) : Qc :=
  block222 (fun kk jj ii => data dVu [kk; jj; ii]) k j i.

Let Fug (idx : index) : Qc :=
  match idx with
  | [s; v; kk; jj; ii] =>
      Qcdiv (Qcmult (Qcmult (data G [s; v; kk / 2; jj / 2; ii / 2])
                            (data dV [kk / 2; jj / 2; ii / 2]))
                    (Qcdiv (data dVu [kk; jj; ii])
                           (vScl (kk / 2) (jj / 2) (ii / 2))))
            (data dVu [kk; jj; ii])
  | _ => Q2Qc 0
  end.

Let Wug (s v k j i : nat) : index -> bool :=
  selected [At s; At v; Rng (2 * k) (2 * k + 2); Rng (2 * j) (2 * j + 2);
            Rng (2 * i) (2 * i + 2)].

Lemma upGas_cells :
  exists Gu, upGas hull X Y Z G Xu Yu Zu = Ok Gu /\
    shape Gu = [Ns; Nv; 2 * Nk; 2 * Nj; 2 * Ni] /\
    forall s v kk jj ii,
      s < Ns -> v < Nv -> kk < 2 * Nk -> jj < 2 * Nj -> ii < 2 * Ni ->
      data Gu [s; v; kk; jj; ii] =
      Qcdiv (Qcmult (Qcmult (data G [s; v; kk / 2; jj / 2; ii / 2])
                            (data dV [kk / 2; jj / 2; ii / 2]))
                    (Qcdiv (data dVu [kk; jj; ii])
                           (block222 (fun a b c => data dVu [a; b; c])
                                     (kk / 2) (jj / 2) (ii / 2))))
            (data dVu [kk; jj; ii]).
Proof.
  unfold upGas. rewrite HG. cbn [unpack5]. rewrite bind_Ok.
  rewrite EdV, bind_Ok, EdVu, bind_Ok.
  set (sh := [Ns; Nv; 2 * Nk; 2 * Nj; 2 * Ni]).
  loop_writes
    (fun idx => existsb (fun s => existsb (fun v => existsb (fun k =>
       existsb (fun j => existsb (fun i => Wug s v k j i idx) (range Ni))
       (range Nj)) (range Nk)) (range Nv)) (range Ns)) Fug Hloop.
  - apply (forM_writes (fun s => s < Ns)
      (fun s idx => existsb (fun v => existsb (fun k => existsb (fun j =>
         existsb (fun i => Wug s v k j i idx) (range Ni))
         (range Nj)) (range Nk)) (range Nv)) Fug sh);
      [|apply Forall_range|reflexivity].
    intros s S Hs HS.
    apply (forM_writes (fun v => v < Nv)
      (fun v idx => existsb (fun k => existsb (fun j =>
         existsb (fun i => Wug s v k j i idx) (range Ni))
         (range Nj)) (range Nk)) Fug sh);
      [|apply Forall_range|exact HS].
    clear S HS. intros v S Hv HS.
    match goal with
    | |- exists S', bind (forM ?l ?S0 ?body) _ = _ /\ _ =>
        assert (Hin : exists S1, forM l S0 body = Ok S1 /\
          writes (fun idx => existsb (fun k => existsb (fun j =>
            existsb (fun i => Wug s v k j i idx) (range Ni))
            (range Nj)) (range Nk)) Fug S0 S1)
    end.
    { apply (forM_writes (fun k => k < Nk)
        (fun k idx => existsb (fun j => existsb (fun i =>
           Wug s v k j i idx) (range Ni)) (range Nj)) Fug sh);
        [|apply Forall_range|exact HS].
      clear S HS. intros k S Hk HS.
      apply (forM_writes (fun j => j < Nj)
        (fun j idx => existsb (fun i => Wug s v k j i idx) (range Ni))
        Fug sh); [|apply Forall_range|exact HS].
      clear S HS. intros j S Hj HS.
      apply (forM_writes (fun i => i < Ni) (fun i => Wug s v k j i) Fug sh);
        [|apply Forall_range|exact HS].
      clear S HS. intros i S Hi HS. cbv zeta.
      rewrite item_ok by (rewrite HG; bounds). rewrite bind_Ok.
      rewrite item_ok by (rewrite HdV; bounds). rewrite bind_Ok.
      rewrite getitem_ok by (rewrite HdVu; reflexivity). rewrite bind_Ok.
      set (blk := [Rng (2 * k) (2 * k + 2); Rng (2 * j) (2 * j + 2);
                   Rng (2 * i) (2 * i + 2)]).
      assert (H1 : shape (getsel dVu blk) = [2; 2; 2]).
      { cbn [getsel shape]. rewrite HdVu. unfold blk. cbn [sel_shape].
        now rewrite !blk_len by lia. }
      set (QdV := Qcmult (data G [s; v; k; j; i]) (data dV [k; j; i])).
      set (QdVu := ascale QdV (adivs (getsel dVu blk) (asum (getsel dVu blk)))).
      destruct (zipwith_same Qcdiv QdVu (getsel dVu blk))
        as [dens [Ed [Hsd Hd]]]; [reflexivity|].
      unfold adiv. rewrite Ed, bind_Ok.
      assert (Hsd' : shape dens = [2; 2; 2]) by (rewrite Hsd; exact H1).
      apply setitem_writes.
      + rewrite HS. unfold sh. bounds.
      + rewrite Hsd', HS. unfold sh, blk. cbn [sel_shape].
        now rewrite !blk_len by lia.
      + rewrite HS. intros idx sub Hb Hinv Hsub.
        pose proof (sel_inv_selected _ _ _ Hinv) as Hsel.
        pose proof (sel_inv_index _ _ _ Hinv) as Hidx.
        rewrite Hsd' in Hsub. apply in_bounds_3 in Hsub.
        destruct Hsub as (a & b & c & -> & Ha & Hb' & Hc).
        rewrite Hd by (cbn [QdVu ascale adivs shape]; rewrite H1; bounds).
        unfold blk in Hidx. cbn [sel_index] in Hidx. subst idx.
        unfold Fug, QdVu, QdV, vScl. cbn [ascale adivs getsel data].
        unfold blk. cbn [sel_index].
        replace ((2 * k + a) / 2) with k by lia.
        replace ((2 * j + b) / 2) with j by lia.
        replace ((2 * i + c) / 2) with i by lia.
        rewrite asum_222 by exact H1.
        unfold block222. cbn [getsel data sel_index].
        rewrite !Nat.add_0_r. reflexivity. }
    destruct Hin as [S1 [E1 W1]]. rewrite E1, bind_Ok.
    pose proof (writes_shape _ _ _ _ W1) as HS1. rewrite HS in HS1.
    rewrite getitem_ok by (rewrite HG; bounds). rewrite bind_Ok.
    destruct (zipwith_same Qcmult (getsel G [At s; At v; All; All; All]) dV)
      as [c1 [Ec1 _]];
      [cbn [getsel shape]; rewrite HG, HdV; reflexivity|].
    unfold amul. rewrite Ec1, bind_Ok.
    rewrite getitem_ok by (rewrite HS1; unfold sh; bounds). rewrite bind_Ok.
    destruct (zipwith_same Qcmult (getsel S1 [At s; At v; All; All; All]) dVu)
      as [c2 [Ec2 _]];
      [cbn [getsel shape]; rewrite HS1, HdVu; reflexivity|].
    rewrite Ec2, bind_Ok. exists S1. split; [reflexivity|exact W1].
  - destruct Hloop as [Gu [E Wr]].
    exists Gu. split; [exact E|]. split; [now rewrite (writes_shape _ _ _ _ Wr)|].
    intros s v kk jj ii Hs Hv Hk Hj Hi.
    rewrite (writes_hit _ _ _ _ [s; v; kk; jj; ii] Wr);
      [reflexivity|unfold sh; cbn [shape zeros]; bounds|].
    apply existsb_range. exists s. split; [lia|].
    apply existsb_range. exists v. split; [lia|].
    apply existsb_range. exists (kk / 2). split; [lia|].
    apply existsb_range. exists (jj / 2). split; [lia|].
    apply existsb_range. exists (ii / 2). split; [lia|].
    unfold Wug. pick_cell.
Qed.

End UpGas.

End Gas.

(** The amount that [upGas] gives to the eight children of a coarse cell,
    in exact arithmetic. *)
Lemma redistribute (g d v1 v2 v3 v4 v5 v6 v7 v8 : Qc) :
  let S := (v1 + v2 + v3 + v4 + v5 + v6 + v7 + v8)%Qc in
  S <> Q2Qc 0 ->
  v1 <> Q2Qc 0 -> v2 <> Q2Qc 0 -> v3 <> Q2Qc 0 -> v4 <> Q2Qc 0 ->
  v5 <> Q2Qc 0 -> v6 <> Q2Qc 0 -> v7 <> Q2Qc 0 -> v8 <> Q2Qc 0 ->
  (g * d * (v1 / S) / v1 * v1 + g * d * (v2 / S) / v2 * v2
   + g * d * (v3 / S) / v3 * v3 + g * d * (v4 / S) / v4 * v4
   + g * d * (v5 / S) / v5 * v5 + g * d * (v6 / S) / v6 * v6
   + g * d * (v7 / S) / v7 * v7 + g * d * (v8 / S) / v8 * v8 = g * d)%Qc.
Proof. intros S HS H1 H2 H3 H4 H5 H6 H7 H8. unfold S in *. field. tauto. Qed.

Lemma block_pos (f : nat -> nat -> nat -> Qc) k j i :
  (forall a b c, a < 2 -> b < 2 -> c < 2 ->
                 Qclt (Q2Qc 0) (f (2 * k + a) (2 * j + b) (2 * i + c))) ->
  block222 f k j i <> Q2Qc 0.
Proof.
  intros H. apply Qc_pos_neq. unfold block222. cbv zeta.
  pose proof (H 0 0 0) as H000. pose proof (H 0 0 1) as H001.
  pose proof (H 0 1 0) as H010. pose proof (H 0 1 1) as H011.
  pose proof (H 1 0 0) as H100. pose proof (H 1 0 1) as H101.
  pose proof (H 1 1 0) as H110. pose proof (H 1 1 1) as H111.
  rewrite !Nat.add_0_r in *.
  repeat apply Qc_pos_add; auto.
Qed.

Section Totals.

Variables (G dV dVu Gu : ndarray) (s v k j i : nat).

Hypothesis Hcells : forall a b c, a < 2 -> b < 2 -> c < 2 ->
  data Gu [s; v; 2 * k + a; 2 * j + b; 2 * i + c] =
  Qcdiv (Qcmult (Qcmult (data G [s; v; k; j; i]) (data dV [k; j; i]))
                (Qcdiv (data dVu [2 * k + a; 2 * j + b; 2 * i + c])
                       (block222 (fun a b c => data dVu [a; b; c]) k j i)))
        (data dVu [2 * k + a; 2 * j + b; 2 * i + c]).

Hypothesis Hpos : forall a b c, a < 2 -> b < 2 -> c < 2 ->
  Qclt (Q2Qc 0) (data dVu [2 * k + a; 2 * j + b; 2 * i + c]).

Lemma block_total :
  block222 (fun kk jj ii =>
              Qcmult (data Gu [s; v; kk; jj; ii]) (data dVu [kk; jj; ii])) k j i
  = Qcmult (data G [s; v; k; j; i]) (data dV [k; j; i]).
Proof.
  pose proof (block_pos (fun a b c => data dVu [a; b; c]) k j i Hpos) as HS.
  pose proof (fun a b c Ha Hb Hc => Qc_pos_neq _ (Hpos a b c Ha Hb Hc)) as Hne.
  pose proof (Hcells 0 0 0) as C000. pose proof (Hcells 0 0 1) as C001.
  pose proof (Hcells 0 1 0) as C010. pose proof (Hcells 0 1 1) as C011.
  pose proof (Hcells 1 0 0) as C100. pose proof (Hcells 1 0 1) as C101.
  pose proof (Hcells 1 1 0) as C110. pose proof (Hcells 1 1 1) as C111.
  pose proof (Hne 0 0 0) as N000. pose proof (Hne 0 0 1) as N001.
  pose proof (Hne 0 1 0) as N010. pose proof (Hne 0 1 1) as N011.
  pose proof (Hne 1 0 0) as N100. pose proof (Hne 1 0 1) as N101.
  pose proof (Hne 1 1 0) as N110. pose proof (Hne 1 1 1) as N111.
  unfold block222 in *. cbv zeta in *. rewrite !Nat.add_0_r in *.
  rewrite C000, C001, C010, C011, C100, C101, C110, C111 by lia.
  apply redistribute; auto; try (apply N000 || apply N001 || apply N010
    || apply N011 || apply N100 || apply N101 || apply N110 || apply N111); lia.
Qed.

(** The same total, with the factors in the order of [downGas]. *)
Lemma block_total_comm :
  block222 (fun kk jj ii =>
              Qcmult (data dVu [kk; jj; ii]) (data Gu [s; v; kk; jj; ii])) k j i
  = Qcmult (data G [s; v; k; j; i]) (data dV [k; j; i]).
Proof.
  rewrite <- block_total. unfold block222. cbv zeta.
  repeat rewrite (Qcmult_comm (data dVu _) (data Gu _)). reflexivity.
Qed.

End Totals.

Lemma half_of_double n a : a < 2 -> (2 * n + a) / 2 = n.
Proof. lia. Qed.

(** What [upGas] computes, stated per coarse cell and child. *)
Lemma upGas_children hull X Y Z G Xu Yu Zu dV dVu Ns Nv Nk Nj Ni :
  shape G = [Ns; Nv; Nk; Nj; Ni] ->
  Volume hull X Y Z = Ok dV -> shape dV = [Nk; Nj; Ni] ->
  Volume hull Xu Yu Zu = Ok dVu -> shape dVu = [2 * Nk; 2 * Nj; 2 * Ni] ->
  exists Gu, upGas hull X Y Z G Xu Yu Zu = Ok Gu /\
    shape Gu = [Ns; Nv; 2 * Nk; 2 * Nj; 2 * Ni] /\
    forall s v k j i, s < Ns -> v < Nv -> k < Nk -> j < Nj -> i < Ni ->
    forall a b c, a < 2 -> b < 2 -> c < 2 ->
      data Gu [s; v; 2 * k + a; 2 * j + b; 2 * i + c] =
      Qcdiv (Qcmult (Qcmult (data G [s; v; k; j; i]) (data dV [k; j; i]))
                    (Qcdiv (data dVu [2 * k + a; 2 * j + b; 2 * i + c])
                           (block222 (fun a b c => data dVu [a; b; c]) k j i)))
            (data dVu [2 * k + a; 2 * j + b; 2 * i + c]).
Proof.
  intros HG EdV HdV EdVu HdVu.
  destruct (upGas_cells hull X Y Z G Xu Yu Zu dV dVu Ns Nv Nk Nj Ni
              HG EdV HdV EdVu HdVu) as [Gu [E [Hs Hc]]].
  exists Gu. split; [exact E|]. split; [exact Hs|].
  intros s v k j i Hs' Hv Hk Hj Hi a b c Ha Hb Hc'.
  rewrite Hc by lia. now rewrite !half_of_double by assumption.
Qed.

(** C1, as the spec states it, at a concrete input: a gas state of shape
    (1,1,2,2,2) is halved to shape (1,1,1,1,1), not (1,1,1,1,2); the I axis
    is halved too, and the single coarse cell accumulates all eight fine
    cells (1+...+8 = 36 with unit volumes), not a 2x2x1 block of them. *)
Lemma downGas_halves_I_too :
  result_shape (downGas unit_hull Xfine Yfine Zfine gas222 Xcoarse Ycoarse Zcoarse)
  = Some [1; 1; 1; 1; 1] /\
  result_shape (downGas unit_hull Xfine Yfine Zfine gas222 Xcoarse Ycoarse Zcoarse)
  <> Some [1; 1; 2 / 2; 2 / 2; 2] /\
  result_cell (downGas unit_hull Xfine Yfine Zfine gas222 Xcoarse Ycoarse Zcoarse)
              [0; 0; 0; 0; 0] = Some (36 # 1)%Q.
Proof.
  split; [vm_compute; reflexivity|].
  split; [vm_compute; intro H; discriminate H|].
  vm_compute. reflexivity.
Qed.

(** C1, amended: for every gas state of shape (Ns,Nv,Nk,Nj,Ni) on a fine
    grid and its coarse grid on which [Volume] returns, that is, without a
    cell whose hull raises, [downGas] halves all three logical axes K, J and
    I: the result has shape (Ns,Nv,Nk/2,Nj/2,Ni/2), and each coarse cell holds
    density*volume summed over its 2x2x2 block of fine cells, divided by the
    volume of the coarse cell. *)
Theorem downGas_halves_all_axes
    (hull : ndarray -> result Qc) (X Y Z G Xd Yd Zd dV dVd : ndarray)
    (Ns Nv Nk Nj Ni : nat) :
  shape G = [Ns; Nv; Nk; Nj; Ni] ->
  grid_shape X Y Z Nk Nj Ni ->
  grid_shape Xd Yd Zd (Nk / 2) (Nj / 2) (Ni / 2) ->
  Volume hull X Y Z = Ok dV ->
  Volume hull Xd Yd Zd = Ok dVd ->
  exists Gd,
    downGas hull X Y Z G Xd Yd Zd = Ok Gd /\
    shape Gd = [Ns; Nv; Nk / 2; Nj / 2; Ni / 2] /\
    forall s v k j i, s < Ns -> v < Nv -> k < Nk / 2 -> j < Nj / 2 -> i < Ni / 2 ->
      data Gd [s; v; k; j; i] =
      Qcdiv (block222 (fun kk jj ii =>
                         Qcmult (data dV [kk; jj; ii]) (data G [s; v; kk; jj; ii]))
                      k j i)
            (data dVd [k; j; i]).
Proof.
  intros HG HX HXd EdV EdVd.
  destruct (Volume_returned hull X Y Z Nk Nj Ni dV HX EdV) as [HdV _].
  destruct (Volume_returned hull Xd Yd Zd _ _ _ dVd HXd EdVd) as [HdVd _].
  exact (downGas_cells hull X Y Z G Xd Yd Zd dV dVd Ns Nv Nk Nj Ni
           HG EdV HdV EdVd HdVd).
Qed.

(** The amended C1 at the gas state [gas222]. *)
Lemma downGas_halves_all_axes_witness :
  exists Gd,
    downGas unit_hull Xfine Yfine Zfine gas222 Xcoarse Ycoarse Zcoarse = Ok Gd /\
    shape Gd = [1; 1; 1; 1; 1].
Proof.
  destruct (downGas_halves_all_axes unit_hull Xfine Yfine Zfine gas222
              Xcoarse Ycoarse Zcoarse (unit_volumes 2 2 2) (unit_volumes 1 1 1)
              1 1 2 2 2)
    as (Gd & E & Hs & _).
  - reflexivity.
  - repeat split; reflexivity.
  - repeat split; reflexivity.
  - reflexivity.
  - reflexivity.
  - exists Gd. split; [exact E|exact Hs].
Defined.

(** C6: on a coarse grid and its doubled grid on which [Volume] returns,
    for every coarse cell whose eight children have positive volumes,
    [upGas] redistributes the parent amount exactly: the sum over the
    children of child density times child volume is the parent density times
    the parent volume. *)
Theorem upGas_redistributes_exactly
    (hull : ndarray -> result Qc) (X Y Z G Xu Yu Zu dV dVu : ndarray)
    (Ns Nv Nk Nj Ni : nat) :
  shape G = [Ns; Nv; Nk; Nj; Ni] ->
  grid_shape X Y Z Nk Nj Ni ->
  grid_shape Xu Yu Zu (2 * Nk) (2 * Nj) (2 * Ni) ->
  Volume hull X Y Z = Ok dV ->
  Volume hull Xu Yu Zu = Ok dVu ->
  exists Gu,
    upGas hull X Y Z G Xu Yu Zu = Ok Gu /\
    shape Gu = [Ns; Nv; 2 * Nk; 2 * Nj; 2 * Ni] /\
    forall s v k j i, s < Ns -> v < Nv -> k < Nk -> j < Nj -> i < Ni ->
      (forall a b c, a < 2 -> b < 2 -> c < 2 ->
         Qclt (Q2Qc 0) (data dVu [2 * k + a; 2 * j + b; 2 * i + c])) ->
      block222 (fun kk jj ii =>
                  Qcmult (data Gu [s; v; kk; jj; ii]) (data dVu [kk; jj; ii]))
               k j i
      = Qcmult (data G [s; v; k; j; i]) (data dV [k; j; i]).
Proof.
  intros HG HX HXu EdV EdVu.
  destruct (Volume_returned hull X Y Z Nk Nj Ni dV HX EdV) as [HdV _].
  destruct (Volume_returned hull Xu Yu Zu _ _ _ dVu HXu EdVu) as [HdVu _].
  destruct (upGas_children hull X Y Z G Xu Yu Zu dV dVu Ns Nv Nk Nj Ni
              HG EdV HdV EdVu HdVu) as [Gu [E [Hs Hc]]].
  exists Gu. repeat (split; [assumption|]).
  intros s v k j i Hs' Hv Hk Hj Hi Hpos.
  apply block_total; [|exact Hpos].
  intros a b c Ha Hb Hc'. now apply Hc.
Qed.

(** Every cell of a volume array computed with [unit_hull] on the fine
    example grid is positive. *)
Lemma unit_fine_volumes_positive dVu a b c :
  Volume unit_hull Xfine Yfine Zfine = Ok dVu -> a < 2 -> b < 2 -> c < 2 ->
  Qclt (Q2Qc 0) (data dVu [a; b; c]).
Proof.
  intros E Ha Hb Hc. vm_compute in E. injection E as <-.
  destruct a as [|[|a]]; [| |lia]; destruct b as [|[|b]]; [| |lia | | |lia];
    destruct c as [|[|c]]; try lia; vm_compute; reflexivity.
Defined.

Lemma unit_coarse_volumes_positive dV :
  Volume unit_hull Xcoarse Ycoarse Zcoarse = Ok dV ->
  Qclt (Q2Qc 0) (data dV [0; 0; 0]).
Proof. intros E. vm_compute in E. injection E as <-. vm_compute. reflexivity. Defined.

(** C6 at the one-cell gas state [gas111] and its eight children. *)
Lemma upGas_redistributes_exactly_witness :
  exists dV dVu Gu,
    Volume unit_hull Xcoarse Ycoarse Zcoarse = Ok dV /\
    Volume unit_hull Xfine Yfine Zfine = Ok dVu /\
    upGas unit_hull Xcoarse Ycoarse Zcoarse gas111 Xfine Yfine Zfine = Ok Gu /\
    block222 (fun kk jj ii =>
                Qcmult (data Gu [0; 0; kk; jj; ii]) (data dVu [kk; jj; ii])) 0 0 0
    = Qcmult (data gas111 [0; 0; 0; 0; 0]) (data dV [0; 0; 0]).
Proof.
  assert (EdV : Volume unit_hull Xcoarse Ycoarse Zcoarse = Ok (unit_volumes 1 1 1))
    by reflexivity.
  assert (EdVu : Volume unit_hull Xfine Yfine Zfine = Ok (unit_volumes 2 2 2))
    by reflexivity.
  destruct (upGas_redistributes_exactly unit_hull Xcoarse Ycoarse Zcoarse gas111
              Xfine Yfine Zfine (unit_volumes 1 1 1) (unit_volumes 2 2 2)
              1 1 1 1 1)
    as (Gu & E & Hs & Hc).
  - reflexivity.
  - repeat split; reflexivity.
  - repeat split; reflexivity.
  - exact EdV.
  - exact EdVu.
  - exists (unit_volumes 1 1 1), (unit_volumes 2 2 2), Gu.
    repeat (split; [assumption|]).
    apply Hc; try lia.
    intros a b c Ha Hb Hc'.
    apply (unit_fine_volumes_positive (unit_volumes 2 2 2)); [exact EdVu|lia|lia|lia].
Defined.

(** C4: on a coarse grid and its doubled grid on which [Volume] returns
    positive cell volumes, halving the doubled gas state gives back the
    original gas state, at every coarse cell and exactly. *)
Theorem downGas_upGas_identity
    (hull : ndarray -> result Qc) (X Y Z G Xu Yu Zu dV dVu : ndarray)
    (Ns Nv Nk Nj Ni : nat) :
  shape G = [Ns; Nv; Nk; Nj; Ni] ->
  grid_shape X Y Z Nk Nj Ni ->
  grid_shape Xu Yu Zu (2 * Nk) (2 * Nj) (2 * Ni) ->
  Volume hull X Y Z = Ok dV ->
  Volume hull Xu Yu Zu = Ok dVu ->
  exists Gu Gd,
    upGas hull X Y Z G Xu Yu Zu = Ok Gu /\
    downGas hull Xu Yu Zu Gu X Y Z = Ok Gd /\
    ((forall k j i, k < Nk -> j < Nj -> i < Ni ->
        Qclt (Q2Qc 0) (data dV [k; j; i])) ->
     (forall kk jj ii, kk < 2 * Nk -> jj < 2 * Nj -> ii < 2 * Ni ->
        Qclt (Q2Qc 0) (data dVu [kk; jj; ii])) ->
     arr_eq Gd G).
Proof.
  intros HG HX HXu EdV EdVu.
  destruct (Volume_returned hull X Y Z Nk Nj Ni dV HX EdV) as [HdV _].
  destruct (Volume_returned hull Xu Yu Zu _ _ _ dVu HXu EdVu) as [HdVu _].
  destruct (upGas_children hull X Y Z G Xu Yu Zu dV dVu Ns Nv Nk Nj Ni
              HG EdV HdV EdVu HdVu) as [Gu [E [Hs Hc]]].
  assert (HdV' : shape dV = [2 * Nk / 2; 2 * Nj / 2; 2 * Ni / 2]).
  { rewrite HdV. f_equal; [lia|f_equal; [lia|f_equal; lia]]. }
  destruct (downGas_cells hull Xu Yu Zu Gu X Y Z dVu dV Ns Nv (2 * Nk) (2 * Nj)
              (2 * Ni) Hs EdVu HdVu EdV HdV') as [Gd [Ed [Hsd Hcd]]].
  exists Gu, Gd. repeat (split; [assumption|]).
  intros PdV PdVu. split.
  - rewrite Hsd, HG. f_equal. f_equal. f_equal; [lia|f_equal; [lia|f_equal; lia]].
  - intros idx Hb. rewrite Hsd in Hb.
    apply in_bounds_5 in Hb. destruct Hb as (s & v & k & j & i & -> & Hb).
    rewrite Hcd by lia.
    rewrite (block_total_comm G dV dVu Gu s v k j i).
    + apply Qcdiv_mult_l. apply Qc_pos_neq. apply PdV; lia.
    + intros a b c Ha Hb' Hc'. apply Hc; lia.
    + intros a b c Ha Hb' Hc'. apply PdVu; lia.
Qed.

(** C4 at the one-cell gas state [gas111]. *)
Lemma downGas_upGas_identity_witness :
  exists Gu Gd,
    upGas unit_hull Xcoarse Ycoarse Zcoarse gas111 Xfine Yfine Zfine = Ok Gu /\
    downGas unit_hull Xfine Yfine Zfine Gu Xcoarse Ycoarse Zcoarse = Ok Gd /\
    arr_eq Gd gas111.
Proof.
  assert (EdV : Volume unit_hull Xcoarse Ycoarse Zcoarse = Ok (unit_volumes 1 1 1))
    by reflexivity.
  assert (EdVu : Volume unit_hull Xfine Yfine Zfine = Ok (unit_volumes 2 2 2))
    by reflexivity.
  destruct (downGas_upGas_identity unit_hull Xcoarse Ycoarse Zcoarse gas111
              Xfine Yfine Zfine (unit_volumes 1 1 1) (unit_volumes 2 2 2)
              1 1 1 1 1)
    as (Gu & Gd & E & Ed & Heq).
  - reflexivity.
  - repeat split; reflexivity.
  - repeat split; reflexivity.
  - exact EdV.
  - exact EdVu.
  - exists Gu, Gd. repeat (split; [assumption|]).
    apply Heq.
    + intros k j i Hk Hj Hi.
      replace k with 0 by lia. replace j with 0 by lia. replace i with 0 by lia.
      exact (unit_coarse_volumes_positive (unit_volumes 1 1 1) EdV).
    + intros kk jj ii Hk Hj Hi.
      apply (unit_fine_volumes_positive (unit_volumes 2 2 2)); [exact EdVu|lia|lia|lia].
Defined.

(** * MaxDiv, downFlux and upFlux *)

Lemma cells_succ n : cells (n + 1) = Z.of_nat n.
Proof. unfold cells. lia. Qed.

Section MaxDivSpec.

Variables (M : ndarray) (Nd Nk Nj Ni : nat).
Hypothesis HM : shape M = [Nd; Nk + 1; Nj + 1; Ni + 1].
Hypothesis HNd : 3 <= Nd.

Lemma cell_div_ok k j i :
  k < Nk -> j < Nj -> i < Ni -> cell_div M k j i = Ok (div6 M k j i).
Proof.
  intros Hk Hj Hi. unfold cell_div, IDIR, JDIR, KDIR.
  repeat (rewrite item_ok by (rewrite HM; bounds); rewrite bind_Ok).
  reflexivity.
Qed.

Let Fdiv (idx : index) : Qc :=
  match idx with
  | [k; j; i] => div6 M k j i
  | _ => Q2Qc 0
  end.

Lemma MaxDiv_cells :
  1 <= Nk -> 1 <= Nj -> 1 <= Ni ->
  exists Div, MaxDiv M = Ok Div /\ shape Div = [Nk; Nj; Ni] /\
    forall k j i, k < Nk -> j < Nj -> i < Ni ->
      data Div [k; j; i] = div6 M k j i.
Proof.
  intros H1 H2 H3. unfold MaxDiv. rewrite HM. cbn [unpack4]. rewrite bind_Ok.
  rewrite !cells_succ.
  change [Z.of_nat Nk; Z.of_nat Nj; Z.of_nat Ni] with (map Z.of_nat [Nk; Nj; Ni]).
  rewrite zerosZ_of_nat, bind_Ok, !rangeZ_of_nat.
  set (sh := [Nk; Nj; Ni]).
  match goal with
  | |- exists D, bind (forM ?l ?S0 ?body) _ = _ /\ _ =>
      assert (Hloop : exists S1, forM l S0 body = Ok S1 /\
        writes (fun idx => existsb (fun k => existsb (fun j => existsb (fun i =>
          selected [At k; At j; At i] idx) (range Ni)) (range Nj)) (range Nk))
          Fdiv S0 S1)
  end.
  { apply (forM_writes (fun k => k < Nk)
      (fun k idx => existsb (fun j => existsb (fun i =>
         selected [At k; At j; At i] idx) (range Ni)) (range Nj)) Fdiv sh);
      [|apply Forall_range|reflexivity].
    intros k S Hk HS.
    apply (forM_writes (fun j => j < Nj)
      (fun j idx => existsb (fun i => selected [At k; At j; At i] idx) (range Ni))
      Fdiv sh); [|apply Forall_range|exact HS].
    clear S HS. intros j S Hj HS.
    apply (forM_writes (fun i => i < Ni)
      (fun i => selected [At k; At j; At i]) Fdiv sh);
      [|apply Forall_range|exact HS].
    clear S HS. intros i S Hi HS.
    rewrite cell_div_ok by assumption. rewrite bind_Ok.
    apply setitem_scalar_writes; [rewrite HS; unfold sh; bounds|].
    rewrite HS. intros idx Hb Hsel.
    apply in_bounds_3 in Hb. destruct Hb as (x & y & z & -> & Hb).
    unpick Hsel. subst. reflexivity. }
  destruct Hloop as [Div [E Wr]]. rewrite E, bind_Ok.
  pose proof (writes_shape _ _ _ _ Wr) as HS. cbn [shape zeros] in HS.
  assert (Hne : (asize Div =? 0) = false).
  { apply Nat.eqb_neq. unfold asize. rewrite HS.
    apply (asize_pos sh [0; 0; 0]). unfold sh. bounds. }
  rewrite Hne. exists Div. split; [reflexivity|]. split; [exact HS|].
  intros k j i Hk Hj Hi.
  rewrite (writes_hit _ _ _ _ [k; j; i] Wr);
    [reflexivity|unfold sh; cbn [shape zeros]; bounds|].
  apply existsb_range. exists k. split; [lia|].
  apply existsb_range. exists j. split; [lia|].
  apply existsb_range. exists i. split; [lia|].
  pick_cell.
Qed.

End MaxDivSpec.

(** ** downFlux *)

Section DownFlux.

Variables (X Y Z M Xu Yu Zu : ndarray) (Nd Nk Nj Ni : nat).
Hypothesis HM : shape M = [Nd; Nk + 1; Nj + 1; Ni + 1].
Hypothesis HNd : 3 <= Nd.

(** The coarse face [(d,k,j,i)]: the four fine faces that abut it. *)
Let Fdf (idx : index) : Qc :=
  match idx with
  | [d; k; j; i] =>
      if d =? 0 then
        asum (getsel M [At 0; Rng (2 * k) (2 * k + 2); Rng (2 * j) (2 * j + 2);
                        At (2 * i)])
      else if d =? 1 then
        asum (getsel M [At 1; Rng (2 * k) (2 * k + 2); At (2 * j);
                        Rng (2 * i) (2 * i + 2)])
      else
        asum (getsel M [At 2; At (2 * k); Rng (2 * j) (2 * j + 2);
                        Rng (2 * i) (2 * i + 2)])
  | _ => Q2Qc 0
  end.

Let Wdf (k j i : nat) (idx : index) : bool :=
  selected [At 0; At k; At j; At i] idx
  || (selected [At 0; At k; At j; At (i + 1)] idx
  || (selected [At 1; At k; At j; At i] idx
  || (selected [At 1; At k; At (j + 1); At i] idx
  || (selected [At 2; At k; At j; At i] idx
  || selected [At 2; At (k + 1); At j; At i] idx)))).

Let shD : list nat := [Nd; Nk / 2 + 1; Nj / 2 + 1; Ni / 2 + 1].

Lemma downFlux_body k j i S :
  k < Nk / 2 -> j < Nj / 2 -> i < Ni / 2 -> shape S = shD ->
  exists S',
    (let ip := 2 * i in
     let jp := 2 * j in
     let kp := 2 * k in
     let* w := getitem M [At IDIR; Rng kp (kp + 2); Rng jp (jp + 2); At ip] in
     let* Md := setitem_scalar S [At IDIR; At k; At j; At i] (asum w) in
     let* e := getitem M [At IDIR; Rng kp (kp + 2); Rng jp (jp + 2); At (ip + 2)] in
     let* Md := setitem_scalar Md [At IDIR; At k; At j; At (i + 1)] (asum e) in
     let* s := getitem M [At JDIR; Rng kp (kp + 2); At jp; Rng ip (ip + 2)] in
     let* Md := setitem_scalar Md [At JDIR; At k; At j; At i] (asum s) in
     let* n := getitem M [At JDIR; Rng kp (kp + 2); At (jp + 2); Rng ip (ip + 2)] in
     let* Md := setitem_scalar Md [At JDIR; At k; At (j + 1); At i] (asum n) in
     let* b := getitem M [At KDIR; At kp; Rng jp (jp + 2); Rng ip (ip + 2)] in
     let* Md := setitem_scalar Md [At KDIR; At k; At j; At i] (asum b) in
     let* t := getitem M [At KDIR; At (kp + 2); Rng jp (jp + 2); Rng ip (ip + 2)] in
     setitem_scalar Md [At KDIR; At (k + 1); At j; At i] (asum t)) = Ok S' /\
    writes (Wdf k j i) Fdf S S'.
Proof.
  intros Hk Hj Hi HS. cbv zeta. unfold IDIR, JDIR, KDIR, Wdf.
  rewrite getitem_ok by (rewrite HM; bounds). rewrite bind_Ok.
  apply bind_writes.
  { apply setitem_scalar_writes; [rewrite HS; unfold shD; bounds|].
    rewrite HS. intros idx Hb Hsel.
    apply in_bounds_4 in Hb. destruct Hb as (x & y & z & w & -> & Hb).
    unpick Hsel. subst. reflexivity. }
  intros S1 HS1 _. rewrite HS in HS1.
  rewrite getitem_ok by (rewrite HM; bounds). rewrite bind_Ok.
  apply bind_writes.
  { apply setitem_scalar_writes; [rewrite HS1; unfold shD; bounds|].
    rewrite HS1. intros idx Hb Hsel.
    apply in_bounds_4 in Hb. destruct Hb as (x & y & z & w & -> & Hb).
    unpick Hsel. subst. unfold Fdf. cbn [Nat.eqb].
    replace (2 * (i + 1)) with (2 * i + 2) by lia. reflexivity. }
  intros S2 HS2 _. rewrite HS1 in HS2.
  rewrite getitem_ok by (rewrite HM; bounds). rewrite bind_Ok.
  apply bind_writes.
  { apply setitem_scalar_writes; [rewrite HS2; unfold shD; bounds|].
    rewrite HS2. intros idx Hb Hsel.
    apply in_bounds_4 in Hb. destruct Hb as (x & y & z & w & -> & Hb).
    unpick Hsel. subst. reflexivity. }
  intros S3 HS3 _. rewrite HS2 in HS3.
  rewrite getitem_ok by (rewrite HM; bounds). rewrite bind_Ok.
  apply bind_writes.
  { apply setitem_scalar_writes; [rewrite HS3; unfold shD; bounds|].
    rewrite HS3. intros idx Hb Hsel.
    apply in_bounds_4 in Hb. destruct Hb as (x & y & z & w & -> & Hb).
    unpick Hsel. subst. unfold Fdf. cbn [Nat.eqb].
    replace (2 * (j + 1)) with (2 * j + 2) by lia. reflexivity. }
  intros S4 HS4 _. rewrite HS3 in HS4.
  rewrite getitem_ok by (rewrite HM; bounds). rewrite bind_Ok.
  apply bind_writes.
  { apply setitem_scalar_writes; [rewrite HS4; unfold shD; bounds|].
    rewrite HS4. intros idx Hb Hsel.
    apply in_bounds_4 in Hb. destruct Hb as (x & y & z & w & -> & Hb).
    unpick Hsel. subst. reflexivity. }
  intros S5 HS5 _. rewrite HS4 in HS5.
  rewrite getitem_ok by (rewrite HM; bounds). rewrite bind_Ok.
  apply setitem_scalar_writes; [rewrite HS5; unfold shD; bounds|].
  rewrite HS5. intros idx Hb Hsel.
  apply in_bounds_4 in Hb. destruct Hb as (x & y & z & w & -> & Hb).
  unpick Hsel. subst. unfold Fdf. cbn [Nat.eqb].
  replace (2 * (k + 1)) with (2 * k + 2) by lia. reflexivity.
Qed.

Lemma downFlux_faces :
  exists Md, downFlux X Y Z M Xu Yu Zu = Ok Md /\ shape Md = shD /\
    forall k j i, k < Nk / 2 -> j < Nj / 2 -> i < Ni / 2 ->
      data Md [0; k; j; i] = sumI M k j (2 * i) /\
      data Md [0; k; j; i + 1] = sumI M k j (2 * i + 2) /\
      data Md [1; k; j; i] = sumJ M k (2 * j) i /\
      data Md [1; k; j + 1; i] = sumJ M k (2 * j + 2) i /\
      data Md [2; k; j; i] = sumK M (2 * k) j i /\
      data Md [2; k + 1; j; i] = sumK M (2 * k + 2) j i.
Proof.
  unfold downFlux. rewrite HM. cbn [unpack4]. rewrite bind_Ok, !cells_succ.
  replace [Z.of_nat Nd; (Z.of_nat Nk / 2 + 1)%Z; (Z.of_nat Nj / 2 + 1)%Z;
           (Z.of_nat Ni / 2 + 1)%Z]
    with (map Z.of_nat shD)
    by (unfold shD; cbn [map]; repeat f_equal; lia).
  rewrite zerosZ_of_nat, bind_Ok.
  replace (Z.of_nat Nk / 2)%Z with (Z.of_nat (Nk / 2)) by lia.
  replace (Z.of_nat Nj / 2)%Z with (Z.of_nat (Nj / 2)) by lia.
  replace (Z.of_nat Ni / 2)%Z with (Z.of_nat (Ni / 2)) by lia.
  rewrite !rangeZ_of_nat.
  loop_writes
    (fun idx => existsb (fun k => existsb (fun j => existsb (fun i =>
       Wdf k j i idx) (range (Ni / 2))) (range (Nj / 2))) (range (Nk / 2)))
    Fdf Hloop.
  - apply (forM_writes (fun k => k < Nk / 2)
      (fun k idx => existsb (fun j => existsb (fun i =>
         Wdf k j i idx) (range (Ni / 2))) (range (Nj / 2))) Fdf shD);
      [|apply Forall_range|reflexivity].
    intros k S Hk HS.
    apply (forM_writes (fun j => j < Nj / 2)
      (fun j idx => existsb (fun i => Wdf k j i idx) (range (Ni / 2))) Fdf shD);
      [|apply Forall_range|exact HS].
    clear S HS. intros j S Hj HS.
    apply (forM_writes (fun i => i < Ni / 2) (fun i => Wdf k j i) Fdf shD);
      [|apply Forall_range|exact HS].
    clear S HS. intros i S Hi HS.
    now apply downFlux_body.
  - destruct Hloop as [Md [E Wr]].
    exists Md. split; [exact E|]. split; [now rewrite (writes_shape _ _ _ _ Wr)|].
    intros k j i Hk Hj Hi.
    assert (Hcov : forall idx, in_bounds idx shD = true -> Wdf k j i idx = true ->
                               data Md idx = Fdf idx).
    { intros idx Hb Hw. apply (writes_hit _ _ _ _ idx Wr); [exact Hb|].
      apply existsb_range. exists k. split; [lia|].
      apply existsb_range. exists j. split; [lia|].
      apply existsb_range. exists i. split; [lia|]. exact Hw. }
    assert (HI : forall i', i' <= Ni ->
      asum (getsel M [At 0; Rng (2 * k) (2 * k + 2); Rng (2 * j) (2 * j + 2); At i'])
      = sumI M k j i').
    { intros i' Hi'. rewrite asum_22.
      - cbn [getsel data sel_index]. now rewrite !Nat.add_0_r.
      - cbn [getsel shape]. rewrite HM. cbn [sel_shape]. now rewrite !blk_len by lia. }
    assert (HJ : forall j', j' <= Nj ->
      asum (getsel M [At 1; Rng (2 * k) (2 * k + 2); At j'; Rng (2 * i) (2 * i + 2)])
      = sumJ M k j' i).
    { intros j' Hj'. rewrite asum_22.
      - cbn [getsel data sel_index]. now rewrite !Nat.add_0_r.
      - cbn [getsel shape]. rewrite HM. cbn [sel_shape]. now rewrite !blk_len by lia. }
    assert (HK : forall k', k' <= Nk ->
      asum (getsel M [At 2; At k'; Rng (2 * j) (2 * j + 2); Rng (2 * i) (2 * i + 2)])
      = sumK M k' j i).
    { intros k' Hk'. rewrite asum_22.
      - cbn [getsel data sel_index]. now rewrite !Nat.add_0_r.
      - cbn [getsel shape]. rewrite HM. cbn [sel_shape]. now rewrite !blk_len by lia. }
    repeat split.
    + rewrite Hcov; [unfold Fdf; cbn [Nat.eqb]; apply HI; lia
                    |unfold shD; bounds|unfold Wdf; orb_pick].
    + rewrite Hcov; [unfold Fdf; cbn [Nat.eqb];
                     replace (2 * (i + 1)) with (2 * i + 2) by lia; apply HI; lia
                    |unfold shD; bounds|unfold Wdf; orb_pick].
    + rewrite Hcov; [unfold Fdf; cbn [Nat.eqb]; apply HJ; lia
                    |unfold shD; bounds|unfold Wdf; orb_pick].
    + rewrite Hcov; [unfold Fdf; cbn [Nat.eqb];
                     replace (2 * (j + 1)) with (2 * j + 2) by lia; apply HJ; lia
                    |unfold shD; bounds|unfold Wdf; orb_pick].
    + rewrite Hcov; [unfold Fdf; cbn [Nat.eqb]; apply HK; lia
                    |unfold shD; bounds|unfold Wdf; orb_pick].
    + rewrite Hcov; [unfold Fdf; cbn [Nat.eqb];
                     replace (2 * (k + 1)) with (2 * k + 2) by lia; apply HK; lia
                    |unfold shD; bounds|unfold Wdf; orb_pick].
Qed.

End DownFlux.

(** The fluxes through the faces of a coarse cell add up to the divergences
    of its eight fine cells: the fluxes through the inner fine faces
    cancel. *)
Lemma coarse_div_telescopes M k j i :
  Qcminus (Qcplus (Qcminus (Qcplus (Qcminus
    (sumI M k j (2 * i + 2)) (sumI M k j (2 * i)))
    (sumJ M k (2 * j + 2) i)) (sumJ M k (2 * j) i))
    (sumK M (2 * k + 2) j i)) (sumK M (2 * k) j i)
  = block222 (div6 M) k j i.
Proof.
  unfold block222, div6, sumI, sumJ, sumK. cbv zeta.
  replace (2 * k + 1 + 1) with (2 * k + 2) by lia.
  replace (2 * j + 1 + 1) with (2 * j + 2) by lia.
  replace (2 * i + 1 + 1) with (2 * i + 2) by lia.
  ring.
Qed.

Lemma block222_zero (f : nat -> nat -> nat -> Qc) k j i :
  (forall a b c, a < 2 -> b < 2 -> c < 2 ->
                 f (2 * k + a) (2 * j + b) (2 * i + c) = Q2Qc 0) ->
  block222 f k j i = Q2Qc 0.
Proof.
  intros H. unfold block222. cbv zeta.
  pose proof (H 0 0 0) as H000. pose proof (H 0 0 1) as H001.
  pose proof (H 0 1 0) as H010. pose proof (H 0 1 1) as H011.
  pose proof (H 1 0 0) as H100. pose proof (H 1 0 1) as H101.
  pose proof (H 1 1 0) as H110. pose proof (H 1 1 1) as H111.
  rewrite !Nat.add_0_r in *.
  rewrite H000, H001, H010, H011, H100, H101, H110, H111 by lia.
  apply Qc_is_canon. reflexivity.
Qed.

(** What [downFlux] followed by [MaxDiv] computes at every coarse cell. *)
Lemma downFlux_divergence X Y Z M Xu Yu Zu Nd Nk Nj Ni :
  shape M = [Nd; Nk + 1; Nj + 1; Ni + 1] -> 3 <= Nd ->
  2 <= Nk -> 2 <= Nj -> 2 <= Ni ->
  exists Md DivC,
    downFlux X Y Z M Xu Yu Zu = Ok Md /\ MaxDiv Md = Ok DivC /\
    shape DivC = [Nk / 2; Nj / 2; Ni / 2] /\
    forall k j i, k < Nk / 2 -> j < Nj / 2 -> i < Ni / 2 ->
      data Md [IDIR; k; j; i] = sumI M k j (2 * i) /\
      data Md [IDIR; k; j; i + 1] = sumI M k j (2 * i + 2) /\
      data Md [JDIR; k; j; i] = sumJ M k (2 * j) i /\
      data Md [JDIR; k; j + 1; i] = sumJ M k (2 * j + 2) i /\
      data Md [KDIR; k; j; i] = sumK M (2 * k) j i /\
      data Md [KDIR; k + 1; j; i] = sumK M (2 * k + 2) j i /\
      data DivC [k; j; i] = block222 (div6 M) k j i.
Proof.
  intros HM HNd HNk HNj HNi.
  destruct (downFlux_faces X Y Z M Xu Yu Zu Nd Nk Nj Ni HM HNd)
    as [Md [E [HS Hf]]].
  destruct (MaxDiv_cells Md Nd (Nk / 2) (Nj / 2) (Ni / 2) HS HNd)
    as [DivC [Ed [HSd Hd]]]; try lia.
  exists Md, DivC. repeat (split; [assumption|]).
  intros k j i Hk Hj Hi.
  destruct (Hf k j i Hk Hj Hi) as (F1 & F2 & F3 & F4 & F5 & F6).
  unfold IDIR, JDIR, KDIR. repeat (split; [assumption|]).
  rewrite Hd by assumption. rewrite <- coarse_div_telescopes.
  unfold div6, IDIR, JDIR, KDIR. now rewrite F1, F2, F3, F4, F5, F6.
Qed.

(** C5: when the discrete divergence that [MaxDiv] computes is zero at
    every fine cell, the halved flux state, whose coarse faces hold the sums
    of the four fine faces that abut them, has zero discrete divergence at
    every coarse cell. *)
Theorem downFlux_preserves_zero_divergence
    (X Y Z M Xu Yu Zu DivF : ndarray) (Nd Nk Nj Ni : nat) :
  shape M = [Nd; Nk + 1; Nj + 1; Ni + 1] -> 3 <= Nd ->
  2 <= Nk -> 2 <= Nj -> 2 <= Ni ->
  MaxDiv M = Ok DivF ->
  (forall kk jj ii, kk < Nk -> jj < Nj -> ii < Ni ->
                    data DivF [kk; jj; ii] = Q2Qc 0) ->
  exists Md DivC,
    downFlux X Y Z M Xu Yu Zu = Ok Md /\ MaxDiv Md = Ok DivC /\
    shape DivC = [Nk / 2; Nj / 2; Ni / 2] /\
    forall k j i, k < Nk / 2 -> j < Nj / 2 -> i < Ni / 2 ->
      data Md [IDIR; k; j; i] = sumI M k j (2 * i) /\
      data Md [IDIR; k; j; i + 1] = sumI M k j (2 * i + 2) /\
      data Md [JDIR; k; j; i] = sumJ M k (2 * j) i /\
      data Md [JDIR; k; j + 1; i] = sumJ M k (2 * j + 2) i /\
      data Md [KDIR; k; j; i] = sumK M (2 * k) j i /\
      data Md [KDIR; k + 1; j; i] = sumK M (2 * k + 2) j i /\
      data DivC [k; j; i] = Q2Qc 0.
Proof.
  intros HM HNd HNk HNj HNi EF Hzero.
  destruct (MaxDiv_cells M Nd Nk Nj Ni HM HNd) as [DivF' [EF' [_ HF]]]; try lia.
  rewrite EF in EF'. injection EF' as <-.
  destruct (downFlux_divergence X Y Z M Xu Yu Zu Nd Nk Nj Ni HM HNd HNk HNj HNi)
    as (Md & DivC & E & Ed & HS & Hc).
  exists Md, DivC. repeat (split; [assumption|]).
  intros k j i Hk Hj Hi.
  destruct (Hc k j i Hk Hj Hi) as (F1 & F2 & F3 & F4 & F5 & F6 & F7).
  repeat (split; [assumption|]).
  rewrite F7. apply block222_zero.
  intros a b c Ha Hb Hc'. rewrite <- HF by lia. apply Hzero; lia.
Qed.

(** ** upFlux *)

Lemma fine_face_I_even M kk jj i k j :
  kk / 2 = k -> jj / 2 = j ->
  fine_face M [0; kk; jj; 2 * i] = Qcmult quarter (data M [0; k; j; i]).
Proof.
  intros <- <-. unfold fine_face. cbv zeta. cbn [Nat.eqb].
  replace ((2 * i) mod 2) with 0 by lia. cbn [Nat.eqb].
  now replace (2 * i / 2) with i by lia.
Qed.

Lemma fine_face_I_odd M kk jj i k j :
  kk / 2 = k -> jj / 2 = j ->
  fine_face M [0; kk; jj; 2 * i + 1]
  = Qcmult half (Qcplus (Qcmult quarter (data M [0; k; j; i]))
                        (Qcmult quarter (data M [0; k; j; i + 1]))).
Proof.
  intros <- <-. unfold fine_face. cbv zeta. cbn [Nat.eqb].
  replace ((2 * i + 1) mod 2) with 1 by lia. cbn [Nat.eqb].
  now replace ((2 * i + 1) / 2) with i by lia.
Qed.

Lemma fine_face_J_even M kk j ii k i :
  kk / 2 = k -> ii / 2 = i ->
  fine_face M [1; kk; 2 * j; ii] = Qcmult quarter (data M [1; k; j; i]).
Proof.
  intros <- <-. unfold fine_face. cbv zeta. cbn [Nat.eqb].
  replace ((2 * j) mod 2) with 0 by lia. cbn [Nat.eqb].
  now replace (2 * j / 2) with j by lia.
Qed.

Lemma fine_face_J_odd M kk j ii k i :
  kk / 2 = k -> ii / 2 = i ->
  fine_face M [1; kk; 2 * j + 1; ii]
  = Qcmult half (Qcplus (Qcmult quarter (data M [1; k; j; i]))
                        (Qcmult quarter (data M [1; k; j + 1; i]))).
Proof.
  intros <- <-. unfold fine_face. cbv zeta. cbn [Nat.eqb].
  replace ((2 * j + 1) mod 2) with 1 by lia. cbn [Nat.eqb].
  now replace ((2 * j + 1) / 2) with j by lia.
Qed.

Lemma fine_face_K_even M k jj ii j i :
  jj / 2 = j -> ii / 2 = i ->
  fine_face M [2; 2 * k; jj; ii] = Qcmult quarter (data M [2; k; j; i]).
Proof.
  intros <- <-. unfold fine_face. cbv zeta. cbn [Nat.eqb].
  replace ((2 * k) mod 2) with 0 by lia. cbn [Nat.eqb].
  now replace (2 * k / 2) with k by lia.
Qed.

Lemma fine_face_K_odd M k jj ii j i :
  jj / 2 = j -> ii / 2 = i ->
  fine_face M [2; 2 * k + 1; jj; ii]
  = Qcmult half (Qcplus (Qcmult quarter (data M [2; k; j; i]))
                        (Qcmult quarter (data M [2; k + 1; j; i]))).
Proof.
  intros <- <-. unfold fine_face. cbv zeta. cbn [Nat.eqb].
  replace ((2 * k + 1) mod 2) with 1 by lia. cbn [Nat.eqb].
  now replace ((2 * k + 1) / 2) with k by lia.
Qed.

Section UpFlux.

Variables (X Y Z M Xu Yu Zu : ndarray) (Nd Nk Nj Ni : nat).
Hypothesis HM : shape M = [Nd; Nk + 1; Nj + 1; Ni + 1].
Hypothesis HNd : 3 <= Nd.

Let shU : list nat := [Nd; 2 * Nk + 1; 2 * Nj + 1; 2 * Ni + 1].

Let Wuf (k j i : nat) (idx : index) : bool :=
  let kk := Rng (2 * k) (2 * k + 2) in
  let jj := Rng (2 * j) (2 * j + 2) in
  let ii := Rng (2 * i) (2 * i + 2) in
  selected [At 0; kk; jj; At (2 * i)] idx
  || (selected [At 0; kk; jj; At (2 * i + 2)] idx
  || (selected [At 1; kk; At (2 * j); ii] idx
  || (selected [At 1; kk; At (2 * j + 2); ii] idx
  || (selected [At 2; At (2 * k); jj; ii] idx
  || (selected [At 2; At (2 * k + 2); jj; ii] idx
  || (selected [At 0; kk; jj; At (2 * i + 1)] idx
  || (selected [At 1; kk; At (2 * j + 1); ii] idx
  || selected [At 2; At (2 * k + 1); jj; ii] idx))))))).

(** Side conditions of the stores into the doubled array. *)
Ltac shU_bounds :=
  match goal with
  | H : shape ?S = shU |- context [shape ?S] => rewrite H; unfold shU; bounds
  end.

(** A cell stored earlier in the iteration still holds its target value. *)
Ltac chase :=
  first [ eapply writes_hit; [eassumption|shU_bounds|solve [pick_cell]]
        | eapply writes_keep; [eassumption|shU_bounds|chase] ].

Ltac scalar_store :=
  apply setitem_scalar_writes; [shU_bounds|];
  match goal with
  | H : shape ?S = shU |- context [shape ?S] => rewrite H
  end;
  let idx := fresh "idx" in
  let Hb := fresh "Hb" in
  let Hsel := fresh "Hsel" in
  intros idx Hb Hsel;
  apply in_bounds_4 in Hb;
  destruct Hb as (?x & ?y & ?z & ?w & -> & Hb);
  unpick Hsel; subst.

Lemma upFlux_faces :
  exists Mu, upFlux X Y Z M Xu Yu Zu = Ok Mu /\ shape Mu = shU /\
    forall kk jj ii, kk < 2 * Nk -> jj < 2 * Nj -> ii < 2 * Ni ->
      data Mu [0; kk; jj; ii] = fine_face M [0; kk; jj; ii] /\
      data Mu [0; kk; jj; ii + 1] = fine_face M [0; kk; jj; ii + 1] /\
      data Mu [1; kk; jj; ii] = fine_face M [1; kk; jj; ii] /\
      data Mu [1; kk; jj + 1; ii] = fine_face M [1; kk; jj + 1; ii] /\
      data Mu [2; kk; jj; ii] = fine_face M [2; kk; jj; ii] /\
      data Mu [2; kk + 1; jj; ii] = fine_face M [2; kk + 1; jj; ii].
Proof.
  unfold upFlux. rewrite HM. cbn [unpack4]. rewrite bind_Ok, !cells_succ.
  replace [Z.of_nat Nd; (2 * Z.of_nat Nk + 1)%Z; (2 * Z.of_nat Nj + 1)%Z;
           (2 * Z.of_nat Ni + 1)%Z]
    with (map Z.of_nat shU)
    by (unfold shU; cbn [map]; repeat f_equal; lia).
  rewrite zerosZ_of_nat, bind_Ok, !rangeZ_of_nat.
  loop_writes
    (fun idx => existsb (fun k => existsb (fun j => existsb (fun i =>
       Wuf k j i idx) (range Ni)) (range Nj)) (range Nk))
    (fine_face M) Hloop.
  - apply (forM_writes (fun k => k < Nk)
      (fun k idx => existsb (fun j => existsb (fun i =>
         Wuf k j i idx) (range Ni)) (range Nj)) (fine_face M) shU);
      [|apply Forall_range|reflexivity].
    intros k S Hk HS.
    apply (forM_writes (fun j => j < Nj)
      (fun j idx => existsb (fun i => Wuf k j i idx) (range Ni))
      (fine_face M) shU); [|apply Forall_range|exact HS].
    clear S HS. intros j S Hj HS.
    apply (forM_writes (fun i => i < Ni) (fun i => Wuf k j i) (fine_face M) shU);
      [|apply Forall_range|exact HS].
    clear S HS. intros i S Hi HS. cbv zeta. unfold IDIR, JDIR, KDIR, Wuf.
    cbv zeta.
    (* West i face *)
    rewrite item_ok by (rewrite HM; bounds). rewrite bind_Ok.
    apply bind_writes.
    { scalar_store. symmetry. apply fine_face_I_even; lia. }
    intros S1 HS1 Hw1. rewrite HS in HS1.
    (* East i face *)
    rewrite item_ok by (rewrite HM; bounds). rewrite bind_Ok.
    apply bind_writes.
    { scalar_store. replace (2 * i + 2) with (2 * (i + 1)) by lia.
      symmetry. apply fine_face_I_even; lia. }
    intros S2 HS2 Hw2. rewrite HS1 in HS2.
    (* South j face *)
    rewrite item_ok by (rewrite HM; bounds). rewrite bind_Ok.
    apply bind_writes.
    { scalar_store. symmetry. apply fine_face_J_even; lia. }
    intros S3 HS3 Hw3. rewrite HS2 in HS3.
    (* North j face *)
    rewrite item_ok by (rewrite HM; bounds). rewrite bind_Ok.
    apply bind_writes.
    { scalar_store. replace (2 * j + 2) with (2 * (j + 1)) by lia.
      symmetry. apply fine_face_J_even; lia. }
    intros S4 HS4 Hw4. rewrite HS3 in HS4.
    (* Bottom k face *)
    rewrite item_ok by (rewrite HM; bounds). rewrite bind_Ok.
    apply bind_writes.
    { scalar_store. symmetry. apply fine_face_K_even; lia. }
    intros S5 HS5 Hw5. rewrite HS4 in HS5.
    (* Top k face *)
    rewrite item_ok by (rewrite HM; bounds). rewrite bind_Ok.
    apply bind_writes.
    { scalar_store. replace (2 * k + 2) with (2 * (k + 1)) by lia.
      symmetry. apply fine_face_K_even; lia. }
    intros S6 HS6 Hw6. rewrite HS5 in HS6.
    (* Interior i faces *)
    rewrite !getitem_ok by shU_bounds. rewrite !bind_Ok.
    match goal with
    | |- context [aadd ?a ?b] =>
        destruct (zipwith_same Qcplus a b) as [ab [Eab [Hsab Hab]]];
          [cbn [getsel shape]; reflexivity|]
    end.
    unfold aadd at 1. rewrite Eab, bind_Ok.
    assert (Hsh7 : shape ab = [2; 2]).
    { rewrite Hsab. cbn [getsel shape]. rewrite HS6. unfold shU. cbn [sel_shape].
      now rewrite !blk_len by lia. }
    apply bind_writes.
    { apply setitem_writes; [shU_bounds| |].
      - cbn [ascale shape]. rewrite Hsh7, HS6. unfold shU. cbn [sel_shape].
        now rewrite !blk_len by lia.
      - rewrite HS6. intros idx sub Hb Hinv Hsub.
        pose proof (sel_inv_index _ _ _ Hinv) as Hidx.
        cbn [ascale shape] in Hsub. rewrite Hsh7 in Hsub.
        apply in_bounds_2 in Hsub. destruct Hsub as (a & b & -> & Ha & Hb').
        cbn [sel_index] in Hidx. subst idx.
        cbn [ascale data]. rewrite Hab
          by (cbn [getsel shape]; rewrite HS6; unfold shU; cbn [sel_shape];
              rewrite !blk_len by lia; bounds).
        cbn [getsel data sel_index].
        assert (C1 : data S6 [0; 2 * k + a; 2 * j + b; 2 * i]
                     = fine_face M [0; 2 * k + a; 2 * j + b; 2 * i]) by chase.
        assert (C2 : data S6 [0; 2 * k + a; 2 * j + b; 2 * i + 2]
                     = fine_face M [0; 2 * k + a; 2 * j + b; 2 * i + 2]) by chase.
        rewrite C1, C2.
        rewrite (fine_face_I_even M _ _ i k j) by lia.
        replace (2 * i + 2) with (2 * (i + 1)) by lia.
        rewrite (fine_face_I_even M _ _ (i + 1) k j) by lia.
        symmetry. apply fine_face_I_odd; lia. }
    intros S7 HS7 Hw7. rewrite HS6 in HS7.
    (* Interior j faces *)
    rewrite !getitem_ok by shU_bounds. rewrite !bind_Ok.
    match goal with
    | |- context [aadd ?a ?b] =>
        destruct (zipwith_same Qcplus a b) as [ab8 [Eab8 [Hsab8 Hab8]]];
          [cbn [getsel shape]; reflexivity|]
    end.
    unfold aadd at 1. rewrite Eab8, bind_Ok.
    assert (Hsh8 : shape ab8 = [2; 2]).
    { rewrite Hsab8. cbn [getsel shape]. rewrite HS7. unfold shU. cbn [sel_shape].
      now rewrite !blk_len by lia. }
    apply bind_writes.
    { apply setitem_writes; [shU_bounds| |].
      - cbn [ascale shape]. rewrite Hsh8, HS7. unfold shU. cbn [sel_shape].
        now rewrite !blk_len by lia.
      - rewrite HS7. intros idx sub Hb Hinv Hsub.
        pose proof (sel_inv_index _ _ _ Hinv) as Hidx.
        cbn [ascale shape] in Hsub. rewrite Hsh8 in Hsub.
        apply in_bounds_2 in Hsub. destruct Hsub as (a & b & -> & Ha & Hb').
        cbn [sel_index] in Hidx. subst idx.
        cbn [ascale data]. rewrite Hab8
          by (cbn [getsel shape]; rewrite HS7; unfold shU; cbn [sel_shape];
              rewrite !blk_len by lia; bounds).
        cbn [getsel data sel_index].
        assert (C1 : data S7 [1; 2 * k + a; 2 * j; 2 * i + b]
                     = fine_face M [1; 2 * k + a; 2 * j; 2 * i + b]) by chase.
        assert (C2 : data S7 [1; 2 * k + a; 2 * j + 2; 2 * i + b]
                     = fine_face M [1; 2 * k + a; 2 * j + 2; 2 * i + b]) by chase.
        rewrite C1, C2.
        rewrite (fine_face_J_even M _ j _ k i) by lia.
        replace (2 * j + 2) with (2 * (j + 1)) by lia.
        rewrite (fine_face_J_even M _ (j + 1) _ k i) by lia.
        symmetry. apply fine_face_J_odd; lia. }
    intros S8 HS8 Hw8. rewrite HS7 in HS8.
    (* Interior k faces *)
    rewrite !getitem_ok by shU_bounds. rewrite !bind_Ok.
    match goal with
    | |- context [aadd ?a ?b] =>
        destruct (zipwith_same Qcplus a b) as [ab9 [Eab9 [Hsab9 Hab9]]];
          [cbn [getsel shape]; reflexivity|]
    end.
    unfold aadd at 1. rewrite Eab9, bind_Ok.
    assert (Hsh9 : shape ab9 = [2; 2]).
    { rewrite Hsab9. cbn [getsel shape]. rewrite HS8. unfold shU. cbn [sel_shape].
      now rewrite !blk_len by lia. }
    apply setitem_writes; [shU_bounds| |].
    + cbn [ascale shape]. rewrite Hsh9, HS8. unfold shU. cbn [sel_shape].
      now rewrite !blk_len by lia.
    + rewrite HS8. intros idx sub Hb Hinv Hsub.
      pose proof (sel_inv_index _ _ _ Hinv) as Hidx.
      cbn [ascale shape] in Hsub. rewrite Hsh9 in Hsub.
      apply in_bounds_2 in Hsub. destruct Hsub as (a & b & -> & Ha & Hb').
      cbn [sel_index] in Hidx. subst idx.
      cbn [ascale data]. rewrite Hab9
        by (cbn [getsel shape]; rewrite HS8; unfold shU; cbn [sel_shape];
            rewrite !blk_len by lia; bounds).
      cbn [getsel data sel_index].
      assert (C1 : data S8 [2; 2 * k; 2 * j + a; 2 * i + b]
                   = fine_face M [2; 2 * k; 2 * j + a; 2 * i + b]) by chase.
      assert (C2 : data S8 [2; 2 * k + 2; 2 * j + a; 2 * i + b]
                   = fine_face M [2; 2 * k + 2; 2 * j + a; 2 * i + b]) by chase.
      rewrite C1, C2.
      rewrite (fine_face_K_even M k _ _ j i) by lia.
      replace (2 * k + 2) with (2 * (k + 1)) by lia.
      rewrite (fine_face_K_even M (k + 1) _ _ j i) by lia.
      symmetry. apply fine_face_K_odd; lia.
  - destruct Hloop as [Mu [E Wr]].
    exists Mu. split; [exact E|]. split; [now rewrite (writes_shape _ _ _ _ Wr)|].
    intros kk jj ii Hk Hj Hi.
    assert (Hcov : forall idx, in_bounds idx shU = true ->
                     Wuf (kk / 2) (jj / 2) (ii / 2) idx = true ->
                     data Mu idx = fine_face M idx).
    { intros idx Hb Hw. apply (writes_hit _ _ _ _ idx Wr); [exact Hb|].
      apply existsb_range. exists (kk / 2). split; [lia|].
      apply existsb_range. exists (jj / 2). split; [lia|].
      apply existsb_range. exists (ii / 2). split; [lia|]. exact Hw. }
    assert (Pk : kk = 2 * (kk / 2) \/ kk = 2 * (kk / 2) + 1) by lia.
    assert (Pj : jj = 2 * (jj / 2) \/ jj = 2 * (jj / 2) + 1) by lia.
    assert (Pi : ii = 2 * (ii / 2) \/ ii = 2 * (ii / 2) + 1) by lia.
    repeat split; apply Hcov; try (unfold shU; bounds);
      unfold Wuf; cbv zeta;
      destruct Pk, Pj, Pi; orb_pick.
Qed.

End UpFlux.

Lemma mid_minus_lo (a b : Qc) :
  Qcminus (Qcmult half (Qcplus (Qcmult quarter a) (Qcmult quarter b)))
          (Qcmult quarter a)
  = Qcmult eighth (Qcminus b a).
Proof.
  rewrite half_inv, quarter_inv, eighth_inv. field. apply two_neq_0.
Qed.

Lemma hi_minus_mid (a b : Qc) :
  Qcminus (Qcmult quarter b)
          (Qcmult half (Qcplus (Qcmult quarter a) (Qcmult quarter b)))
  = Qcmult eighth (Qcminus b a).
Proof.
  rewrite half_inv, quarter_inv, eighth_inv. field. apply two_neq_0.
Qed.

(** Across a fine cell, the fluxes of [upFlux] differ by an eighth of the
    difference across the coarse cell, in each direction. *)
Lemma fine_diff_I M kk jj ii :
  Qcminus (fine_face M [0; kk; jj; ii + 1]) (fine_face M [0; kk; jj; ii])
  = Qcmult eighth (Qcminus (data M [0; kk / 2; jj / 2; ii / 2 + 1])
                           (data M [0; kk / 2; jj / 2; ii / 2])).
Proof.
  remember (ii / 2) as m eqn:Hm.
  assert (P : ii = 2 * m \/ ii = 2 * m + 1) by lia. clear Hm.
  destruct P as [-> | ->].
  - rewrite (fine_face_I_odd M kk jj m _ _ eq_refl eq_refl).
    rewrite (fine_face_I_even M kk jj m _ _ eq_refl eq_refl).
    apply mid_minus_lo.
  - replace (2 * m + 1 + 1) with (2 * (m + 1)) by lia.
    rewrite (fine_face_I_odd M kk jj m _ _ eq_refl eq_refl).
    rewrite (fine_face_I_even M kk jj (m + 1) _ _ eq_refl eq_refl).
    apply hi_minus_mid.
Qed.

Lemma fine_diff_J M kk jj ii :
  Qcminus (fine_face M [1; kk; jj + 1; ii]) (fine_face M [1; kk; jj; ii])
  = Qcmult eighth (Qcminus (data M [1; kk / 2; jj / 2 + 1; ii / 2])
                           (data M [1; kk / 2; jj / 2; ii / 2])).
Proof.
  remember (jj / 2) as m eqn:Hm.
  assert (P : jj = 2 * m \/ jj = 2 * m + 1) by lia. clear Hm.
  destruct P as [-> | ->].
  - rewrite (fine_face_J_odd M kk m ii _ _ eq_refl eq_refl).
    rewrite (fine_face_J_even M kk m ii _ _ eq_refl eq_refl).
    apply mid_minus_lo.
  - replace (2 * m + 1 + 1) with (2 * (m + 1)) by lia.
    rewrite (fine_face_J_odd M kk m ii _ _ eq_refl eq_refl).
    rewrite (fine_face_J_even M kk (m + 1) ii _ _ eq_refl eq_refl).
    apply hi_minus_mid.
Qed.

Lemma fine_diff_K M kk jj ii :
  Qcminus (fine_face M [2; kk + 1; jj; ii]) (fine_face M [2; kk; jj; ii])
  = Qcmult eighth (Qcminus (data M [2; kk / 2 + 1; jj / 2; ii / 2])
                           (data M [2; kk / 2; jj / 2; ii / 2])).
Proof.
  remember (kk / 2) as m eqn:Hm.
  assert (P : kk = 2 * m \/ kk = 2 * m + 1) by lia. clear Hm.
  destruct P as [-> | ->].
  - rewrite (fine_face_K_odd M m jj ii _ _ eq_refl eq_refl).
    rewrite (fine_face_K_even M m jj ii _ _ eq_refl eq_refl).
    apply mid_minus_lo.
  - replace (2 * m + 1 + 1) with (2 * (m + 1)) by lia.
    rewrite (fine_face_K_odd M m jj ii _ _ eq_refl eq_refl).
    rewrite (fine_face_K_even M (m + 1) jj ii _ _ eq_refl eq_refl).
    apply hi_minus_mid.
Qed.

Lemma six_faces (e w n s t b e' w' n' s' t' b' : Qc) :
  Qcminus e w = Qcmult eighth (Qcminus e' w') ->
  Qcminus n s = Qcmult eighth (Qcminus n' s') ->
  Qcminus t b = Qcmult eighth (Qcminus t' b') ->
  Qcminus (Qcplus (Qcminus (Qcplus (Qcminus e w) n) s) t) b
  = Qcmult eighth
      (Qcminus (Qcplus (Qcminus (Qcplus (Qcminus e' w') n') s') t') b').
Proof.
  intros H1 H2 H3.
  transitivity (Qcplus (Qcplus (Qcminus e w) (Qcminus n s)) (Qcminus t b));
    [ring|].
  rewrite H1, H2, H3. ring.
Qed.

(** C10: the discrete divergence that [MaxDiv] computes on the doubled flux
    state is, at every fine cell, one eighth of the divergence of the coarse
    cell that contains it; so doubling a coarse flux state without divergence
    gives a fine flux state without divergence. *)
Theorem upFlux_divergence_eighth
    (X Y Z M Xu Yu Zu : ndarray) (Nd Nk Nj Ni : nat) :
  shape M = [Nd; Nk + 1; Nj + 1; Ni + 1] -> 3 <= Nd ->
  1 <= Nk -> 1 <= Nj -> 1 <= Ni ->
  exists DivC Mu DivF,
    MaxDiv M = Ok DivC /\ upFlux X Y Z M Xu Yu Zu = Ok Mu /\
    MaxDiv Mu = Ok DivF /\ shape DivF = [2 * Nk; 2 * Nj; 2 * Ni] /\
    (forall kk jj ii, kk < 2 * Nk -> jj < 2 * Nj -> ii < 2 * Ni ->
       data DivF [kk; jj; ii]
       = Qcmult eighth (data DivC [kk / 2; jj / 2; ii / 2])) /\
    ((forall k j i, k < Nk -> j < Nj -> i < Ni ->
        data DivC [k; j; i] = Q2Qc 0) ->
     forall kk jj ii, kk < 2 * Nk -> jj < 2 * Nj -> ii < 2 * Ni ->
        data DivF [kk; jj; ii] = Q2Qc 0).
Proof.
  intros HM HNd HNk HNj HNi.
  destruct (MaxDiv_cells M Nd Nk Nj Ni HM HNd HNk HNj HNi)
    as [DivC [EC [HSC HC]]].
  destruct (upFlux_faces X Y Z M Xu Yu Zu Nd Nk Nj Ni HM HNd)
    as [Mu [EU [HSU HU]]].
  destruct (MaxDiv_cells Mu Nd (2 * Nk) (2 * Nj) (2 * Ni) HSU HNd)
    as [DivF [EF [HSF HF]]]; try lia.
  exists DivC, Mu, DivF. repeat (split; [assumption|]).
  assert (Heighth : forall kk jj ii, kk < 2 * Nk -> jj < 2 * Nj -> ii < 2 * Ni ->
            data DivF [kk; jj; ii]
            = Qcmult eighth (data DivC [kk / 2; jj / 2; ii / 2])).
  { intros kk jj ii Hk Hj Hi.
    rewrite HF by assumption. rewrite HC by lia.
    destruct (HU kk jj ii Hk Hj Hi) as (F1 & F2 & F3 & F4 & F5 & F6).
    unfold div6, IDIR, JDIR, KDIR. rewrite F1, F2, F3, F4, F5, F6.
    apply six_faces; [apply fine_diff_I|apply fine_diff_J|apply fine_diff_K]. }
  split; [exact Heighth|].
  intros Hzero kk jj ii Hk Hj Hi.
  rewrite Heighth by assumption. rewrite Hzero by lia.
  apply Qcmult_0_r.
Qed.

(** C10 at the one-cell flux state [flux_coarse], whose divergence is 13. *)
Lemma upFlux_divergence_eighth_witness :
  exists DivC Mu DivF,
    MaxDiv flux_coarse = Ok DivC /\
    upFlux Xcoarse Ycoarse Zcoarse flux_coarse Xfine Yfine Zfine = Ok Mu /\
    MaxDiv Mu = Ok DivF /\
    data DivF [1; 0; 1] = Qcmult eighth (data DivC [0; 0; 0]).
Proof.
  destruct (upFlux_divergence_eighth Xcoarse Ycoarse Zcoarse flux_coarse
              Xfine Yfine Zfine 3 1 1 1)
    as (DivC & Mu & DivF & EC & EU & EF & _ & H & _);
    [reflexivity|lia|lia|lia|lia|].
  exists DivC, Mu, DivF. repeat (split; [assumption|]).
  apply (H 1 0 1); lia.
Defined.

(** C5 at the flux state [flux_solenoidal]. *)
Lemma downFlux_preserves_zero_divergence_witness :
  exists Md DivC,
    downFlux Xfine Yfine Zfine flux_solenoidal Xcoarse Ycoarse Zcoarse = Ok Md /\
    MaxDiv Md = Ok DivC /\ data DivC [0; 0; 0] = Q2Qc 0.
Proof.
  destruct (downFlux_preserves_zero_divergence Xfine Yfine Zfine flux_solenoidal
              Xcoarse Ycoarse Zcoarse (returned (MaxDiv flux_solenoidal)) 3 2 2 2)
    as (Md & DivC & E & Ed & _ & H);
    [reflexivity|lia|lia|lia|lia|reflexivity| |].
  - intros kk jj ii Hk Hj Hi.
    destruct kk as [|[|kk]]; [| |lia]; destruct jj as [|[|jj]]; try lia;
      destruct ii as [|[|ii]]; try lia; apply Qc_is_canon; reflexivity.
  - exists Md, DivC. repeat (split; [assumption|]).
    apply (H 0 0 0); simpl; lia.
Defined.

(** * PushRestartMPI and PullRestartMPI *)

(** A loop keeps an invariant that may mention the elements already
    visited. *)
Lemma forM_prefix {A S : Type} (I : list A -> S -> Prop)
      (body : A -> S -> result S) (l : list A) (s0 : S) :
  I [] s0 ->
  (forall done t s, In t l -> I done s ->
                    exists s', body t s = Ok s' /\ I (done ++ [t]) s') ->
  exists s', forM l s0 body = Ok s' /\ I l s'.
Proof.
  intros H0 Hstep.
  assert (Hgen : forall rest done s,
            (forall t, In t rest -> In t l) -> I done s ->
            exists s', forM rest s body = Ok s' /\ I (done ++ rest) s').
  { induction rest as [|t rest IH]; intros done s Hin HI; simpl.
    - exists s. split; [reflexivity|]. now rewrite app_nil_r.
    - destruct (Hstep done t s (Hin t (or_introl eq_refl)) HI) as [s1 [E1 I1]].
      rewrite E1, bind_Ok.
      destruct (IH (done ++ [t]) s1) as [s2 [E2 I2]];
        [intros; apply Hin; now right|exact I1|].
      exists s2. split; [exact E2|]. now rewrite <- app_assoc in I2. }
  exact (Hgen l [] s0 (fun t H => H) H0).
Qed.

Lemma in_product3 a b c i j k :
  In (i, j, k) (Gampp.product3 a b c) <-> i < a /\ j < b /\ k < c.
Proof.
  unfold Gampp.product3, range. rewrite in_flat_map. split.
  - intros [i' [Hi H]]. apply in_flat_map in H. destruct H as [j' [Hj H]].
    apply in_map_iff in H. destruct H as [k' [E Hk]]. injection E as -> -> ->.
    apply in_seq in Hi, Hj, Hk. lia.
  - intros (Hi & Hj & Hk). exists i. split; [apply in_seq; lia|].
    apply in_flat_map. exists j. split; [apply in_seq; lia|].
    apply in_map_iff. exists k. split; [reflexivity|apply in_seq; lia].
Qed.

(** ** The rank that holds an index *)

Lemma rank_of_lt x N R : 1 <= R -> rank_of x N R < R.
Proof. unfold rank_of. lia. Qed.

Lemma rank_of_cell x N R :
  x < R * N -> rank_of x N R * N <= x < rank_of x N R * N + N.
Proof.
  intros H. unfold rank_of.
  assert (HN : 0 < N) by (destruct N; [lia|lia]).
  assert (Hq : x / N < R) by (apply Nat.Div0.div_lt_upper_bound; lia).
  rewrite Nat.min_l by lia.
  pose proof (Nat.div_mod_eq x N) as E.
  pose proof (Nat.mod_upper_bound x N) as U.
  lia.
Qed.

Lemma rank_of_face x N R :
  1 <= R -> x <= R * N ->
  rank_of x N R * N <= x < rank_of x N R * N + N + 1.
Proof.
  intros HR H. unfold rank_of.
  destruct N as [|N'].
  - simpl. lia.
  - set (N := S N') in *.
    pose proof (Nat.div_mod_eq x N) as E.
    pose proof (Nat.mod_upper_bound x N) as U.
    destruct (Nat.le_gt_cases (x / N) (R - 1)) as [Hle|Hgt].
    + rewrite Nat.min_l by lia. lia.
    + rewrite Nat.min_r by lia.
      assert (Hq : x / N <= R).
      { apply Nat.Div0.div_le_upper_bound. lia. }
      assert (Hq' : x / N = R) by lia.
      assert (Hx : R * N <= x) by (rewrite <- Hq' at 1; lia).
      assert (Hm : (R - 1) * N + N = R * N) by nia.
      lia.
Qed.

Lemma tile_top k R N : k < R -> k * N + N <= R * N.
Proof.
  intros H. replace (k * N + N) with (S k * N) by (simpl; lia).
  apply Nat.mul_le_mono_r. lia.
Qed.

Lemma tile_len k R N : k < R -> Nat.min (k * N + N) (R * N) - k * N = N.
Proof. intros H. pose proof (tile_top k R N H). lia. Qed.

Lemma face_tile_len k R N :
  k < R -> Nat.min (k * N + N + 1) (R * N + 1) - k * N = N + 1.
Proof. intros H. pose proof (tile_top k R N H). lia. Qed.

(** ** Files *)

Lemma datasets_copy_attrs src dst :
  Restart.datasets (Restart.copy_attrs src dst) = Restart.datasets dst.
Proof.
  unfold Restart.copy_attrs. revert dst.
  induction (Restart.attrs src) as [|kv l IH]; intros dst; simpl;
    [reflexivity|].
  now rewrite IH.
Qed.

(** Storing the view [G[ss]] into the same subscripts of an array of the
    shape of [G] stores cells of [G]. *)
Lemma setitem_getsel_writes S G ss :
  sel_ok ss (shape S) = true -> shape S = shape G ->
  exists S', setitem S ss (getsel G ss) = Ok S' /\
             writes (selected ss) (data G) S S'.
Proof.
  intros Hok Hsh. apply setitem_writes; [exact Hok| |].
  - cbn [getsel shape]. now rewrite Hsh.
  - intros idx sub Hb Hinv _. cbn [getsel data].
    now rewrite (sel_inv_index _ _ _ Hinv).
Qed.

Lemma create_dataset_fresh f name a :
  Restart.lookup name (Restart.datasets f) = None ->
  Restart.create_dataset f name a
  = Ok (Restart.mkH5 (Restart.datasets f ++ [(name, a)]) (Restart.attrs f)).
Proof. intros H. unfold Restart.create_dataset. now rewrite H. Qed.

Lemma floordiv_mul R N : 1 <= R -> Restart.floordiv (R * N) R = Ok N.
Proof.
  intros H. unfold Restart.floordiv.
  destruct (Nat.eqb_spec R 0); [lia|].
  now rewrite Nat.mul_comm, Nat.div_mul by lia.
Qed.

Section Split.

Variable genName :
  string -> nat -> nat -> nat -> nat -> nat -> nat -> Z -> string.
Variables (outid : string) (nRes : Z) (Ri Rj Rk : nat).
Variables (X Y Z G M oG oM : ndarray) (fInA : string) (G0 : option ndarray).
Variables (fs : Restart.filesystem) (fA : Restart.h5file).
Variables (Ns Nv Nkp Njp Nip : nat).

Hypothesis HRi : 1 <= Ri.
Hypothesis HRj : 1 <= Rj.
Hypothesis HRk : 1 <= Rk.
Hypothesis HG : shape G = [Ns; Nv; Rk * Nkp; Rj * Njp; Ri * Nip].
Hypothesis HoG : List.length (shape oG) = 5.
Hypothesis HG0 : forall g0, G0 = Some g0 -> List.length (shape g0) = 5.
Hypothesis HM : List.length (shape M) = 4.
Hypothesis HoM : List.length (shape oM) = 4.
Hypothesis HX : List.length (shape X) = 3.
Hypothesis HY : List.length (shape Y) = 3.
Hypothesis HZ : List.length (shape Z) = 3.
Hypothesis HfA : fs fInA = Some fA.
Hypothesis Hinj : forall i j k i' j' k',
  i < Ri -> j < Rj -> k < Rk -> i' < Ri -> j' < Rj -> k' < Rk ->
  genName outid i j k Ri Rj Rk nRes = genName outid i' j' k' Ri Rj Rk nRes ->
  i = i' /\ j = j' /\ k = k'.
Hypothesis Hfresh : forall i j k, i < Ri -> j < Rj -> k < Rk ->
  genName outid i j k Ri Rj Rk nRes <> fInA.

(** Slices without integer subscripts are legal on arrays with enough
    axes. *)
Lemma sel_ok_slices ss sh :
  forallb (fun s => match s with At _ => false | _ => true end) ss = true ->
  List.length ss <= List.length sh -> sel_ok ss sh = true.
Proof.
  revert sh. induction ss as [|s ss IH]; intros sh Hs Hl; [reflexivity|].
  destruct sh as [|d sh]; [simpl in Hl; lia|].
  simpl in Hs. apply andb_true_iff in Hs. destruct Hs as [Hs1 Hs2].
  simpl in Hl. destruct s; try discriminate Hs1; simpl; apply IH; auto; lia.
Qed.

Lemma Push_rank i j k fs0 :
  i < Ri -> j < Rj -> k < Rk ->
  exists f,
    (let fOut := genName outid i j k Ri Rj Rk nRes in
     let* oH5 := if String.eqb fOut fInA then Raise OSError
                 else Ok Restart.empty_h5 in
     let iS := i * Nip in
     let iE := iS + Nip in
     let jS := j * Njp in
     let jE := jS + Njp in
     let kS := k * Nkp in
     let kE := kS + Nkp in
     let iSg := Restart.minus_plus iS NumG in
     let iEg := iS + Nip + NumG + 1 + NumG in
     let jSg := Restart.minus_plus jS NumG in
     let jEg := jS + Njp + NumG + 1 + NumG in
     let kSg := Restart.minus_plus kS NumG in
     let kEg := kS + Nkp + NumG + 1 + NumG in
     let ghost := [Rng kSg kEg; Rng jSg jEg; Rng iSg iEg] in
     let* ijkX := getitem X ghost in
     let* ijkY := getitem Y ghost in
     let* ijkZ := getitem Z ghost in
     let* ijkG := getitem G (Restart.cell_tile kS kE jS jE iS iE) in
     let* ijkM := getitem M (Restart.face_tile kS kE jS jE iS iE) in
     let* ijkoG := getitem oG (Restart.cell_tile kS kE jS jE iS iE) in
     let* ijkoM := getitem oM (Restart.face_tile kS kE jS jE iS iE) in
     let* ijkG0 :=
       match G0 with
       | Some g0 =>
           let* t := getitem g0 (Restart.cell_tile kS kE jS jE iS iE) in
           Ok (Some t)
       | None => Ok None
       end in
     let* oH5 := Restart.create_dataset oH5 "Gas" ijkG in
     let* oH5 := Restart.create_dataset oH5 "magFlux" ijkM in
     let* oH5 := Restart.create_dataset oH5 "oGas" ijkoG in
     let* oH5 := Restart.create_dataset oH5 "omagFlux" ijkoM in
     let* oH5 :=
       match ijkG0 with
       | Some t => Restart.create_dataset oH5 "Gas0" t
       | None => Ok oH5
       end in
     let* oH5 := Restart.create_dataset oH5 "X" ijkX in
     let* oH5 := Restart.create_dataset oH5 "Y" ijkY in
     let* oH5 := Restart.create_dataset oH5 "Z" ijkZ in
     let oH5 := Restart.copy_attrs fA oH5 in
     Ok (Restart.store fs0 fOut oH5))
    = Ok (Restart.store fs0 (genName outid i j k Ri Rj Rk nRes) f) /\
    holds_tile Nkp Njp Nip G M oG oM G0 f i j k.
Proof.
  intros Hi Hj Hk. cbv zeta.
  destruct (String.eqb_spec (genName outid i j k Ri Rj Rk nRes) fInA) as [E|_];
    [exfalso; exact (Hfresh i j k Hi Hj Hk E)|].
  rewrite bind_Ok.
  rewrite (getitem_ok X) by (apply sel_ok_slices; [reflexivity|simpl; lia]).
  rewrite bind_Ok.
  rewrite (getitem_ok Y) by (apply sel_ok_slices; [reflexivity|simpl; lia]).
  rewrite bind_Ok.
  rewrite (getitem_ok Z) by (apply sel_ok_slices; [reflexivity|simpl; lia]).
  rewrite bind_Ok.
  rewrite (getitem_ok G) by (apply sel_ok_slices; [reflexivity|rewrite HG; simpl; lia]).
  rewrite bind_Ok.
  rewrite (getitem_ok M) by (apply sel_ok_slices; [reflexivity|simpl; lia]).
  rewrite bind_Ok.
  rewrite (getitem_ok oG) by (apply sel_ok_slices; [reflexivity|simpl; lia]).
  rewrite bind_Ok.
  rewrite (getitem_ok oM) by (apply sel_ok_slices; [reflexivity|simpl; lia]).
  rewrite bind_Ok.
  destruct G0 as [g0|].
  - rewrite (getitem_ok g0)
      by (apply sel_ok_slices; [reflexivity|rewrite (HG0 g0 eq_refl); simpl; lia]).
    rewrite !bind_Ok.
    repeat (rewrite create_dataset_fresh by reflexivity; rewrite bind_Ok).
    eexists. split; [reflexivity|].
    unfold holds_tile. cbv zeta. rewrite datasets_copy_attrs.
    repeat split; reflexivity.
  - rewrite !bind_Ok.
    repeat (rewrite create_dataset_fresh by reflexivity; rewrite bind_Ok).
    eexists. split; [reflexivity|].
    unfold holds_tile. cbv zeta. rewrite datasets_copy_attrs.
    repeat split; reflexivity.
Qed.

(** After the split, every rank has its file, and the file holds the tiles
    of the rank. *)
Lemma Push_files :
  exists fs',
    Restart.PushRestartMPI genName outid nRes Ri Rj Rk X Y Z G M oG oM fInA G0 fs
    = Ok fs' /\
    forall i j k, i < Ri -> j < Rj -> k < Rk ->
      exists f, fs' (genName outid i j k Ri Rj Rk nRes) = Some f /\
                holds_tile Nkp Njp Nip G M oG oM G0 f i j k.
Proof.
  unfold Restart.PushRestartMPI, Restart.open_r. rewrite HfA, bind_Ok.
  rewrite HG. cbn [unpack5]. rewrite bind_Ok.
  rewrite !floordiv_mul by assumption. rewrite !bind_Ok.
  set (l := Gampp.product3 Ri Rj Rk).
  set (I := fun (done : list (nat * nat * nat)) (fs1 : Restart.filesystem) =>
              forall i j k, In (i, j, k) done ->
                In (i, j, k) l /\
                exists f, fs1 (genName outid i j k Ri Rj Rk nRes) = Some f /\
                          holds_tile Nkp Njp Nip G M oG oM G0 f i j k).
  match goal with
  | |- exists fs', forM l fs ?body = Ok fs' /\ _ =>
      destruct (forM_prefix I body l fs) as [fs' [E HI]]
  end.
  - intros i j k [].
  - intros done [[i j] k] fs1 Hin HI.
    pose proof (proj1 (in_product3 _ _ _ _ _ _) Hin) as (Hi & Hj & Hk).
    destruct (Push_rank i j k fs1 Hi Hj Hk) as [f [Ef Hf]].
    eexists. split; [exact Ef|].
    intros i' j' k' Hin'. apply in_app_or in Hin'.
    destruct Hin' as [Hold | [Heq | []]].
    + destruct (HI i' j' k' Hold) as [Hl [f' [Ef' Hf']]].
      split; [exact Hl|].
      unfold Restart.store.
      destruct (String.eqb_spec (genName outid i' j' k' Ri Rj Rk nRes)
                                (genName outid i j k Ri Rj Rk nRes)) as [En|_].
      * pose proof (proj1 (in_product3 _ _ _ _ _ _) Hl) as (Hi' & Hj' & Hk').
        destruct (Hinj _ _ _ _ _ _ Hi' Hj' Hk' Hi Hj Hk En) as (-> & -> & ->).
        exists f. split; [reflexivity|exact Hf].
      * exists f'. split; [exact Ef'|exact Hf'].
    + injection Heq as <- <- <-. split; [exact Hin|].
      exists f. split; [|exact Hf].
      unfold Restart.store. now rewrite String.eqb_refl.
  - exists fs'. split; [exact E|].
    intros i j k Hi Hj Hk.
    apply (HI i j k). apply in_product3. auto.
Qed.

End Split.

Section Gather.

Variable genName :
  string -> nat -> nat -> nat -> nat -> nat -> nat -> Z -> string.
Variables (bStr : string) (nRes : Z) (Ri Rj Rk : nat).
Variables (G M oG oM : ndarray) (G0 : option ndarray).
Variables (fs' : Restart.filesystem).
Variables (Ns Nv Nkp Njp Nip : nat).

Let shC : list nat := [Ns; Nv; Rk * Nkp; Rj * Njp; Ri * Nip].
Let shF : list nat := [3; Rk * Nkp + 1; Rj * Njp + 1; Ri * Nip + 1].

Hypothesis HRi : 1 <= Ri.
Hypothesis HRj : 1 <= Rj.
Hypothesis HRk : 1 <= Rk.
Hypothesis HG : shape G = shC.
Hypothesis HoG : shape oG = shC.
Hypothesis HG0 : forall g0, G0 = Some g0 -> shape g0 = shC.
Hypothesis HM : shape M = shF.
Hypothesis HoM : shape oM = shF.
Hypothesis Hfiles : forall i j k, i < Ri -> j < Rj -> k < Rk ->
  exists f, fs' (genName bStr i j k Ri Rj Rk nRes) = Some f /\
            holds_tile Nkp Njp Nip G M oG oM G0 f i j k.

(** The cells and the faces that the ranks visited so far have stored. *)
Let cells_of (t : nat * nat * nat) : list sel :=
  rank_cells Nkp Njp Nip (fst (fst t)) (snd (fst t)) (snd t).

Let faces_of (t : nat * nat * nat) : list sel :=
  rank_faces Nkp Njp Nip (fst (fst t)) (snd (fst t)) (snd t).

Let Wc (done : list (nat * nat * nat)) (idx : index) : bool :=
  existsb (fun t => selected (cells_of t) idx) done.

Let Wf (done : list (nat * nat * nat)) (idx : index) : bool :=
  existsb (fun t => selected (faces_of t) idx) done.

Let gathered (done : list (nat * nat * nat)) (st : option Restart.pulled) : Prop :=
  match st with
  | None => done = []
  | Some p =>
      Restart.p_Nkp p = Nkp /\ Restart.p_Njp p = Njp /\ Restart.p_Nip p = Nip /\
      Restart.p_oH5 p = None /\
      writes (Wc done) (data G) (zeros shC) (Restart.p_G p) /\
      writes (Wc done) (data oG) (zeros shC) (Restart.p_oG p) /\
      writes (Wf done) (data M) (zeros shF) (Restart.p_M p) /\
      writes (Wf done) (data oM) (zeros shF) (Restart.p_oM p) /\
      match G0, Restart.p_G0 p with
      | Some g0, Some g' => writes (Wc done) (data g0) (zeros shC) g'
      | None, None => True
      | _, _ => False
      end
  end.

Lemma tile_shape i j k :
  i < Ri -> j < Rj -> k < Rk ->
  sel_shape (rank_cells Nkp Njp Nip i j k) shC = [Ns; Nv; Nkp; Njp; Nip].
Proof.
  intros Hi Hj Hk. unfold rank_cells, Restart.cell_tile, shC. cbn [sel_shape].
  now rewrite !tile_len by assumption.
Qed.

(** One more rank extends the stored cells by its tile. *)
Lemma store_tile (sel_of : nat * nat * nat -> list sel) F S0 S1 S2 done t :
  writes (fun idx => existsb (fun t => selected (sel_of t) idx) done) F S0 S1 ->
  writes (selected (sel_of t)) F S1 S2 ->
  writes (fun idx => existsb (fun t => selected (sel_of t) idx) (done ++ [t]))
         F S0 S2.
Proof.
  intros H1 H2.
  apply (writes_ext (fun idx =>
           existsb (fun t => selected (sel_of t) idx) done
           || selected (sel_of t) idx)).
  - intros idx. rewrite existsb_app. cbn [existsb]. now rewrite orb_false_r.
  - exact (writes_seq _ _ _ _ _ _ H1 H2).
Qed.

Lemma face_tile_shape i j k :
  i < Ri -> j < Rj -> k < Rk ->
  sel_shape (rank_faces Nkp Njp Nip i j k) shF
  = [3; Nkp + 1; Njp + 1; Nip + 1].
Proof.
  intros Hi Hj Hk. unfold rank_faces, Restart.face_tile, shF. cbn [sel_shape].
  now rewrite !face_tile_len by assumption.
Qed.

Lemma cells_ok S i j k : shape S = shC ->
  sel_ok (rank_cells Nkp Njp Nip i j k) (shape S) = true.
Proof. intros ->. reflexivity. Qed.

Lemma faces_ok S i j k : shape S = shF ->
  sel_ok (rank_faces Nkp Njp Nip i j k) (shape S) = true.
Proof. intros ->. reflexivity. Qed.

(** The state in which the arrays are allocated and no rank is stored. *)
Lemma gathered_start (p : Restart.pulled) :
  Restart.p_Nkp p = Nkp -> Restart.p_Njp p = Njp -> Restart.p_Nip p = Nip ->
  Restart.p_oH5 p = None ->
  Restart.p_G p = zeros shC -> Restart.p_oG p = zeros shC ->
  Restart.p_M p = zeros shF -> Restart.p_oM p = zeros shF ->
  Restart.p_G0 p = option_map (fun _ => zeros shC) G0 ->
  gathered [] (Some p).
Proof.
  intros H1 H2 H3 H4 H5 H6 H7 H8 H9. unfold gathered.
  rewrite H5, H6, H7, H8, H9.
  repeat (split; [first [assumption|apply writes_none]|]).
  destruct G0; cbn [option_map]; [apply writes_none|exact Logic.I].
Qed.

Lemma Pull_step done i j k st :
  i < Ri -> j < Rj -> k < Rk -> gathered done st ->
  exists f p,
    fs' (genName bStr i j k Ri Rj Rk nRes) = Some f /\
    holds_tile Nkp Njp Nip G M oG oM G0 f i j k /\
    match st with
    | Some p => Ok p
    | None =>
        let* gas := Restart.dataset f "Gas" in
        let* '(Ns, Nv, Nkp, Njp, Nip) := unpack5 (shape gas) in
        let doGas0 := match Restart.lookup "Gas0" (Restart.datasets f) with
                      | Some _ => true
                      | None => false
                      end in
        let Nk := Rk * Nkp in
        let Nj := Rj * Njp in
        let Ni := Ri * Nip in
        Ok (Restart.mkPulled Nkp Njp Nip doGas0
              (zeros [Ns; Nv; Nk; Nj; Ni])
              (zeros [Ns; Nv; Nk; Nj; Ni])
              (if doGas0 then Some (zeros [Ns; Nv; Nk; Nj; Ni]) else None)
              (zeros [3; Nk + 1; Nj + 1; Ni + 1])
              (zeros [3; Nk + 1; Nj + 1; Ni + 1])
              None)
    end = Ok p /\
    gathered done (Some p).
Proof.
  intros Hi Hj Hk HI.
  destruct (Hfiles i j k Hi Hj Hk) as [f [Ef Hf]].
  exists f. destruct st as [p|].
  - exists p. auto.
  - unfold gathered in HI. subst done.
    pose proof Hf as (HGas & _ & _ & _ & HGas0).
    unfold Restart.dataset. rewrite HGas, bind_Ok.
    cbn [getsel shape]. rewrite HG, tile_shape by assumption.
    cbn [unpack5]. rewrite bind_Ok. cbv zeta. rewrite HGas0.
    eexists. split; [exact Ef|]. split; [exact Hf|]. split; [reflexivity|].
    apply gathered_start; try reflexivity.
    cbn [Restart.p_G0]. destruct G0; reflexivity.
Qed.

Lemma Pull_assign done i j k f p :
  i < Ri -> j < Rj -> k < Rk ->
  holds_tile Nkp Njp Nip G M oG oM G0 f i j k ->
  gathered done (Some p) ->
  exists p',
    (let iS := i * Restart.p_Nip p in
     let iE := iS + Restart.p_Nip p in
     let jS := j * Restart.p_Njp p in
     let jE := jS + Restart.p_Njp p in
     let kS := k * Restart.p_Nkp p in
     let kE := kS + Restart.p_Nkp p in
     let* gas := Restart.dataset f "Gas" in
     let* G := setitem (Restart.p_G p)
                       (Restart.cell_tile kS kE jS jE iS iE) gas in
     let* ogas := Restart.dataset f "oGas" in
     let* oG := setitem (Restart.p_oG p)
                        (Restart.cell_tile kS kE jS jE iS iE) ogas in
     let* G0 :=
       match Restart.p_G0 p with
       | Some g0 =>
           let* gas0 := Restart.dataset f "Gas0" in
           let* g0' := setitem g0 (Restart.cell_tile kS kE jS jE iS iE) gas0 in
           Ok (Some g0')
       | None => Ok None
       end in
     let* flux := Restart.dataset f "magFlux" in
     let* M := setitem (Restart.p_M p)
                       (Restart.face_tile kS kE jS jE iS iE) flux in
     let* oflux := Restart.dataset f "omagFlux" in
     let* oM := setitem (Restart.p_oM p)
                        (Restart.face_tile kS kE jS jE iS iE) oflux in
     Ok (Some (Restart.mkPulled (Restart.p_Nkp p) (Restart.p_Njp p)
                 (Restart.p_Nip p) (Restart.p_doGas0 p)
                 G oG G0 M oM (Restart.p_oH5 p))))
    = Ok (Some p') /\
    gathered (done ++ [(i, j, k)]) (Some p').
Proof.
  intros Hi Hj Hk Hf HI.
  destruct Hf as (HGas & HFlux & HoGas & HoFlux & HGas0).
  destruct HI as (E1 & E2 & E3 & E4 & WG & WoG & WM & WoM & WG0).
  cbv zeta. rewrite E1, E2, E3, E4.
  change (Restart.cell_tile (k * Nkp) (k * Nkp + Nkp) (j * Njp) (j * Njp + Njp)
                            (i * Nip) (i * Nip + Nip))
    with (rank_cells Nkp Njp Nip i j k).
  change (Restart.face_tile (k * Nkp) (k * Nkp + Nkp) (j * Njp) (j * Njp + Njp)
                            (i * Nip) (i * Nip + Nip))
    with (rank_faces Nkp Njp Nip i j k).
  unfold Restart.dataset.
  (* Gas *)
  rewrite HGas, bind_Ok.
  destruct (setitem_getsel_writes (Restart.p_G p) G (rank_cells Nkp Njp Nip i j k))
    as [G1 [EG WG1]];
    [apply cells_ok; exact (writes_shape _ _ _ _ WG)
    |rewrite HG; exact (writes_shape _ _ _ _ WG)|].
  rewrite EG, bind_Ok.
  (* oGas *)
  rewrite HoGas, bind_Ok.
  destruct (setitem_getsel_writes (Restart.p_oG p) oG (rank_cells Nkp Njp Nip i j k))
    as [oG1 [EoG WoG1]];
    [apply cells_ok; exact (writes_shape _ _ _ _ WoG)
    |rewrite HoG; exact (writes_shape _ _ _ _ WoG)|].
  rewrite EoG, bind_Ok.
  (* Gas0 *)
  assert (HG0' : exists g1,
    match Restart.p_G0 p with
    | Some g0 =>
        let* gas0 :=
          match Restart.lookup "Gas0" (Restart.datasets f) with
          | Some a => Ok a
          | None => Raise KeyError
          end in
        let* g0' := setitem g0 (rank_cells Nkp Njp Nip i j k) gas0 in
        Ok (Some g0')
    | None => Ok None
    end = Ok g1 /\
    match G0, g1 with
    | Some g0, Some g' =>
        writes (Wc (done ++ [(i, j, k)])) (data g0) (zeros shC) g'
    | None, None => True
    | _, _ => False
    end).
  { destruct G0 as [g0|]; destruct (Restart.p_G0 p) as [g'|];
      try contradiction.
    - cbn [option_map] in HGas0. rewrite HGas0, bind_Ok.
      destruct (setitem_getsel_writes g' g0 (rank_cells Nkp Njp Nip i j k))
        as [g1 [Eg Wg1]];
        [apply cells_ok; exact (writes_shape _ _ _ _ WG0)
        |rewrite (HG0 g0 eq_refl); exact (writes_shape _ _ _ _ WG0)|].
      rewrite Eg, bind_Ok. exists (Some g1). split; [reflexivity|].
      exact (store_tile cells_of _ _ _ _ done (i, j, k) WG0 Wg1).
    - exists None. split; [reflexivity|exact Logic.I]. }
  destruct HG0' as [g1 [Eg1 Wg1]]. rewrite Eg1, bind_Ok.
  (* magFlux *)
  rewrite HFlux, bind_Ok.
  destruct (setitem_getsel_writes (Restart.p_M p) M (rank_faces Nkp Njp Nip i j k))
    as [M1 [EM WM1]];
    [apply faces_ok; exact (writes_shape _ _ _ _ WM)
    |rewrite HM; exact (writes_shape _ _ _ _ WM)|].
  rewrite EM, bind_Ok.
  (* omagFlux *)
  rewrite HoFlux, bind_Ok.
  destruct (setitem_getsel_writes (Restart.p_oM p) oM (rank_faces Nkp Njp Nip i j k))
    as [oM1 [EoM WoM1]];
    [apply faces_ok; exact (writes_shape _ _ _ _ WoM)
    |rewrite HoM; exact (writes_shape _ _ _ _ WoM)|].
  rewrite EoM, bind_Ok.
  eexists. split; [reflexivity|].
  unfold gathered. cbn [Restart.p_Nkp Restart.p_Njp Restart.p_Nip Restart.p_oH5
    Restart.p_G Restart.p_oG Restart.p_M Restart.p_oM Restart.p_G0].
  repeat (split; [reflexivity|]).
  split; [exact (store_tile cells_of _ _ _ _ done (i, j, k) WG WG1)|].
  split; [exact (store_tile cells_of _ _ _ _ done (i, j, k) WoG WoG1)|].
  split; [exact (store_tile faces_of _ _ _ _ done (i, j, k) WM WM1)|].
  split; [exact (store_tile faces_of _ _ _ _ done (i, j, k) WoM WoM1)|].
  exact Wg1.
Qed.

(** Every cell and every face lies in the tile of one of the ranks. *)
Lemma cells_covered idx :
  in_bounds idx shC = true -> Wc (Gampp.product3 Ri Rj Rk) idx = true.
Proof.
  intros Hb. apply in_bounds_5 in Hb.
  destruct Hb as (s & v & kk & jj & ii & -> & Hs & Hv & Hk & Hj & Hi).
  unfold Wc. apply existsb_exists.
  exists (rank_of ii Nip Ri, rank_of jj Njp Rj, rank_of kk Nkp Rk). split.
  - apply in_product3. repeat split; apply rank_of_lt; assumption.
  - pose proof (rank_of_cell kk Nkp Rk Hk). pose proof (rank_of_cell jj Njp Rj Hj).
    pose proof (rank_of_cell ii Nip Ri Hi).
    unfold cells_of, rank_cells, Restart.cell_tile. cbn [fst snd]. pick_cell.
Qed.

Lemma faces_covered idx :
  in_bounds idx shF = true -> Wf (Gampp.product3 Ri Rj Rk) idx = true.
Proof.
  intros Hb. apply in_bounds_4 in Hb.
  destruct Hb as (d & kk & jj & ii & -> & Hd & Hk & Hj & Hi).
  unfold Wf. apply existsb_exists.
  exists (rank_of ii Nip Ri, rank_of jj Njp Rj, rank_of kk Nkp Rk). split.
  - apply in_product3. repeat split; apply rank_of_lt; assumption.
  - assert (Hk' : kk <= Rk * Nkp) by lia.
    assert (Hj' : jj <= Rj * Njp) by lia.
    assert (Hi' : ii <= Ri * Nip) by lia.
    pose proof (rank_of_face kk Nkp Rk HRk Hk').
    pose proof (rank_of_face jj Njp Rj HRj Hj').
    pose proof (rank_of_face ii Nip Ri HRi Hi').
    unfold faces_of, rank_faces, Restart.face_tile. cbn [fst snd]. pick_cell.
Qed.

Lemma gathered_all W sh A B :
  shape B = sh ->
  (forall idx, in_bounds idx sh = true -> W idx = true) ->
  writes W (data B) (zeros sh) A -> arr_eq A B.
Proof.
  intros HB Hcov [Hs Hw]. split; [now rewrite Hs, HB|].
  intros idx Hb. rewrite Hs in Hb. cbn [shape zeros] in Hb, Hw.
  rewrite Hw by exact Hb. now rewrite Hcov.
Qed.

(** From the files of the split, the gather rebuilds the arrays. *)
Lemma Pull_gathers :
  exists G' M' G0' oG' oM',
    Restart.PullRestartMPI genName bStr nRes Ri Rj Rk None None fs'
    = Ok (G', M', G0', oG', oM', None) /\
    arr_eq G' G /\ arr_eq M' M /\ same_optional G0' G0 /\
    arr_eq oG' oG /\ arr_eq oM' oM.
Proof.
  unfold Restart.PullRestartMPI.
  match goal with
  | |- context [forM ?l None ?body] =>
      destruct (forM_prefix gathered body l None) as [st [E HI]]
  end.
  - reflexivity.
  - intros done [[i j] k] st Hin HI.
    pose proof (proj1 (in_product3 _ _ _ _ _ _) Hin) as (Hi & Hj & Hk).
    destruct (Pull_step done i j k st Hi Hj Hk HI) as (f & p & Ef & Hf & Ep & Hp).
    destruct (Pull_assign done i j k f p Hi Hj Hk Hf Hp) as [p' [Ep' Hp']].
    exists (Some p'). split; [|exact Hp'].
    cbv beta iota zeta. unfold Restart.open_r. rewrite Ef, bind_Ok.
    destruct st as [p0|].
    + injection Ep as ->. rewrite bind_Ok. exact Ep'.
    + cbv beta iota zeta in Ep.
      match goal with
      | |- bind ?c _ = _ => replace c with (Ok (A := Restart.pulled) p)
                              by (symmetry; exact Ep)
      end.
      rewrite bind_Ok. exact Ep'.
  - rewrite E, bind_Ok. destruct st as [p|].
    + destruct HI as (_ & _ & _ & E4 & WG & WoG & WM & WoM & WG0).
      exists (Restart.p_G p), (Restart.p_M p), (Restart.p_G0 p),
             (Restart.p_oG p), (Restart.p_oM p).
      split; [now rewrite E4|].
      split; [exact (gathered_all _ shC _ G HG cells_covered WG)|].
      split; [exact (gathered_all _ shF _ M HM faces_covered WM)|].
      split.
      { unfold same_optional. destruct G0 as [g0|];
          destruct (Restart.p_G0 p) as [g'|]; try contradiction; [|exact Logic.I].
        exact (gathered_all _ shC _ g0 (HG0 g0 eq_refl) cells_covered WG0). }
      split; [exact (gathered_all _ shC _ oG HoG cells_covered WoG)|].
      exact (gathered_all _ shF _ oM HoM faces_covered WoM).
    + exfalso. unfold gathered in HI.
      assert (Hin : In (0, 0, 0) (Gampp.product3 Ri Rj Rk))
        by (apply in_product3; lia).
      rewrite HI in Hin. exact Hin.
Qed.

End Gather.

(** C8: for every rank decomposition with at least one rank along each axis
    and the same number of cells on every rank, the split of an assembled
    restart image into the files of the ranks followed by the gather of these
    files gives back the state arrays: Gas, oGas, the optional Gas0, magFlux
    and omagFlux, the faces that two ranks share included.  The names of the
    rank files are distinct, and none is the file of the attributes. *)
Theorem restart_round_trip
    (genName : string -> nat -> nat -> nat -> nat -> nat -> nat -> Z -> string)
    (outid : string) (nRes : Z) (Ri Rj Rk : nat)
    (X Y Z G M oG oM : ndarray) (fInA : string) (G0 : option ndarray)
    (fs : Restart.filesystem) (fA : Restart.h5file)
    (Ns Nv Nkp Njp Nip : nat) :
  1 <= Ri -> 1 <= Rj -> 1 <= Rk ->
  shape G = [Ns; Nv; Rk * Nkp; Rj * Njp; Ri * Nip] ->
  shape oG = [Ns; Nv; Rk * Nkp; Rj * Njp; Ri * Nip] ->
  (forall g0, G0 = Some g0 ->
              shape g0 = [Ns; Nv; Rk * Nkp; Rj * Njp; Ri * Nip]) ->
  shape M = [3; Rk * Nkp + 1; Rj * Njp + 1; Ri * Nip + 1] ->
  shape oM = [3; Rk * Nkp + 1; Rj * Njp + 1; Ri * Nip + 1] ->
  List.length (shape X) = 3 -> List.length (shape Y) = 3 ->
  List.length (shape Z) = 3 ->
  fs fInA = Some fA ->
  (forall i j k i' j' k',
     i < Ri -> j < Rj -> k < Rk -> i' < Ri -> j' < Rj -> k' < Rk ->
     genName outid i j k Ri Rj Rk nRes = genName outid i' j' k' Ri Rj Rk nRes ->
     i = i' /\ j = j' /\ k = k') ->
  (forall i j k, i < Ri -> j < Rj -> k < Rk ->
     genName outid i j k Ri Rj Rk nRes <> fInA) ->
  exists fs',
    Restart.PushRestartMPI genName outid nRes Ri Rj Rk X Y Z G M oG oM fInA G0 fs
    = Ok fs' /\
    exists G' M' G0' oG' oM',
      Restart.PullRestartMPI genName outid nRes Ri Rj Rk None None fs'
      = Ok (G', M', G0', oG', oM', None) /\
      arr_eq G' G /\ arr_eq M' M /\ same_optional G0' G0 /\
      arr_eq oG' oG /\ arr_eq oM' oM.
Proof.
  intros HRi HRj HRk HG HoG HG0 HM HoM HX HY HZ HfA Hinj Hfresh.
  destruct (Push_files genName outid nRes Ri Rj Rk X Y Z G M oG oM fInA G0 fs fA
              Ns Nv Nkp Njp Nip) as [fs' [E Hfiles]]; try assumption.
  - now rewrite HoG.
  - intros g0 Hg0. now rewrite (HG0 g0 Hg0).
  - now rewrite HM.
  - now rewrite HoM.
  - exists fs'. split; [exact E|].
    exact (Pull_gathers genName outid nRes Ri Rj Rk G M oG oM G0 fs'
             Ns Nv Nkp Njp Nip HRi HRj HRk HG HoG HG0 HM HoM Hfiles).
Qed.

(** C8 at an image of two cells split over two ranks along I. *)
Lemma restart_round_trip_witness :
  exists fs',
    Restart.PushRestartMPI genName_res "out" 7 2 1 1
      (axis_grid 2 1 1 2) (axis_grid 1 1 1 2) (axis_grid 0 1 1 2)
      (image_gas 1) (image_flux 1) (image_gas 20) (image_flux 20)
      "in.h5" (Some (image_gas 40)) attrs_only = Ok fs' /\
    exists G' M' G0' oG' oM',
      Restart.PullRestartMPI genName_res "out" 7 2 1 1 None None fs'
      = Ok (G', M', G0', oG', oM', None) /\
      arr_eq G' (image_gas 1) /\ arr_eq M' (image_flux 1) /\
      same_optional G0' (Some (image_gas 40)) /\
      arr_eq oG' (image_gas 20) /\ arr_eq oM' (image_flux 20).
Proof.
  apply (restart_round_trip genName_res "out" 7 2 1 1
           (axis_grid 2 1 1 2) (axis_grid 1 1 1 2) (axis_grid 0 1 1 2)
           (image_gas 1) (image_flux 1) (image_gas 20) (image_flux 20)
           "in.h5" (Some (image_gas 40)) attrs_only
           (Restart.mkH5 [] [("UnitsID", "CODE")]%string) 1 1 1 1 1);
    try reflexivity; try lia.
  - intros g0 Hg0. injection Hg0 as <-. reflexivity.
  - intros i j k i' j' k' Hi Hj Hk Hi' Hj' Hk' E.
    assert (j = 0) by lia. assert (j' = 0) by lia.
    assert (k = 0) by lia. assert (k' = 0) by lia. subst.
    destruct i as [|[|i]]; [| |lia]; destruct i' as [|[|i']]; try lia;
      try (repeat split; reflexivity);
      vm_compute in E; discriminate E.
  - intros i j k Hi Hj Hk E.
    assert (j = 0) by lia. assert (k = 0) by lia. subst.
    destruct i as [|[|i]]; [| |lia]; vm_compute in E; discriminate E.
Defined.

(** * GetVar, GetVarParallel and GetSlice *)

(** C2 at a failing input: two rank files along I hold D = 1 and D = 3.
    With the scale factor 2.0 the sequential mode of [GetVar] returns the
    unscaled values 1 and 3; the assembled array times the scale factor, which
    the concurrent mode returns, holds 2 and 6. *)
Lemma GetVar_sequential_drops_scale :
  let seq_read := Gampp.GetVar genName_gam two_rank_files pipe_sequential []
                               "D" (Some 0%Z) (Some two) true in
  let par_read := Gampp.GetVar genName_gam two_rank_files pipe_parallel [0; 1]
                               "D" (Some 0%Z) (Some two) true in
  result_shape seq_read = Some [2; 1; 1] /\
  result_cell seq_read [0; 0; 0] = Some (1 # 1)%Q /\
  result_cell seq_read [1; 0; 0] = Some (3 # 1)%Q /\
  result_cell par_read [0; 0; 0] = Some (2 # 1)%Q /\
  result_cell par_read [1; 0; 0] = Some (6 # 1)%Q.
Proof. cbv zeta. repeat split; vm_compute; reflexivity. Qed.

(** C3 at a failing input: for the same rank files and the same arguments,
    scale factor 2.0 included, the sequential mode and the concurrent mode
    return different arrays, for each completion order of the two reads. *)
Lemma sequential_and_concurrent_differ_when_scaled :
  let read gp order := Gampp.GetVar genName_gam two_rank_files gp order
                                 "D" (Some 0%Z) (Some two) true in
  result_cell (read pipe_sequential []) [1; 0; 0] = Some (3 # 1)%Q /\
  result_cell (read pipe_parallel [0; 1]) [1; 0; 0] = Some (6 # 1)%Q /\
  result_cell (read pipe_parallel [1; 0]) [1; 0; 0] = Some (6 # 1)%Q /\
  result_cell (read pipe_sequential []) [1; 0; 0]
  <> result_cell (read pipe_parallel [0; 1]) [1; 0; 0].
Proof.
  cbv zeta. repeat split; try (vm_compute; reflexivity).
  vm_compute. intro H. discriminate H.
Qed.

(** ** The two read modes on every set of rank files *)

Lemma as_completed_map {A B : Type} (f : A -> B) order l :
  Gampp.as_completed order (map f l) = map f (Gampp.as_completed order l).
Proof.
  unfold Gampp.as_completed. induction order as [|n order IH]; simpl; [reflexivity|].
  rewrite map_app, IH. f_equal. rewrite nth_error_map.
  destruct (nth_error l n); reflexivity.
Qed.

Lemma as_completed_in {A : Type} order (l : list A) x :
  In x (Gampp.as_completed order l) -> In x l.
Proof.
  unfold Gampp.as_completed. rewrite in_flat_map. intros [n [_ H]].
  destruct (nth_error l n) as [y|] eqn:E; [|contradiction].
  destruct H as [<-|[]]. eapply nth_error_In; eauto.
Qed.

Lemma as_completed_from {A : Type} (pre l : list A) :
  flat_map (fun n => match nth_error (pre ++ l) n with
                     | Some f => [f]
                     | None => []
                     end) (seq (List.length pre) (List.length l)) = l.
Proof.
  revert pre. induction l as [|x l IH]; intros pre; simpl; [reflexivity|].
  rewrite nth_error_app2 by lia. rewrite Nat.sub_diag. simpl. f_equal.
  specialize (IH (pre ++ [x])). rewrite <- app_assoc in IH. simpl in IH.
  rewrite length_app in IH. simpl in IH.
  replace (List.length pre + 1) with (S (List.length pre)) in IH by lia.
  exact IH.
Qed.

(** Workers that finish in the order of submission. *)
Lemma as_completed_all {A : Type} (l : list A) :
  Gampp.as_completed (range (List.length l)) l = l.
Proof. exact (as_completed_from [] l). Qed.

Lemma as_completed_perm {A : Type} order (l : list A) :
  Permutation order (range (List.length l)) ->
  Permutation (Gampp.as_completed order l) l.
Proof.
  intros H.
  apply Permutation_trans with (Gampp.as_completed (range (List.length l)) l).
  - unfold Gampp.as_completed. now apply Permutation_flat_map.
  - rewrite as_completed_all. apply Permutation_refl.
Qed.

Lemma existsb_perm {A : Type} (f : A -> bool) l l' :
  Permutation l l' -> existsb f l = existsb f l'.
Proof.
  intros H. induction H; simpl; try congruence.
  destruct (f x), (f y); reflexivity.
Qed.

Lemma forM_collect {A : Type} (l acc : list A) :
  forM (map Ok l) acc (fun future datasets => let* r := future in Ok (datasets ++ [r]))
  = Ok (acc ++ l).
Proof.
  revert acc. induction l as [|x l IH]; intros acc; simpl.
  - now rewrite app_nil_r.
  - rewrite IH, <- app_assoc. reflexivity.
Qed.

Lemma forM_map {A B S : Type} (f : A -> B) l (s : S) body :
  forM (map f l) s body = forM l s (fun t => body (f t)).
Proof.
  revert s. induction l as [|x l IH]; intros s; simpl; [reflexivity|].
  destruct (body (f x) s); simpl; [apply IH|reflexivity].
Qed.

(** An index lies in the tile of one rank only. *)
Lemma tile_unique d i i' x :
  i * d <= x < i * d + d -> i' * d <= x < i' * d + d -> i = i'.
Proof.
  intros H H'.
  destruct (Nat.lt_trichotomy i i') as [L|[E|L]]; [|exact E|].
  - pose proof (Nat.mul_le_mono_r (S i) i' d L). simpl in *. lia.
  - pose proof (Nat.mul_le_mono_r (S i') i d L). simpl in *. lia.
Qed.

Section Modes.

Variable genName : string -> nat -> nat -> nat -> nat -> nat -> nat -> string.
Variable PullVar : string -> string -> option Z -> result ndarray.
Variable gp : Gampp.GameraPipe.
Variable vID : string.
Variable sID : option Z.

(** The dataset in the file of each rank. *)
Variable D : nat * nat * nat -> ndarray.

Let ranks : list (nat * nat * nat) :=
  Gampp.product3 (Gampp.Ri gp) (Gampp.Rj gp) (Gampp.Rk gp).

Let path (t : nat * nat * nat) : string :=
  let '(i, j, k) := t in
  (Gampp.fdir gp ++ "/" ++ genName (Gampp.ftag gp) i j k
                 (Gampp.Ri gp) (Gampp.Rj gp) (Gampp.Rk gp))%string.

Let tile_of (t : nat * nat * nat) : list sel :=
  let '(i, j, k) := t in Gampp.tile gp i j k.

(** A 3D pipe over rank files, as [GameraPipe] sets it up: the global
    extents are the rank counts times the extents of one rank. *)
Hypothesis Hmpi : Gampp.isMPI gp = true.
Hypothesis H3D : Gampp.is2D gp = false.
Hypothesis HNi : Gampp.Ni gp = Gampp.Ri gp * Gampp.dNi gp.
Hypothesis HNj : Gampp.Nj gp = Gampp.Rj gp * Gampp.dNj gp.
Hypothesis HNk : Gampp.Nk gp = Gampp.Rk gp * Gampp.dNk gp.

(** Every rank file holds the variable, in the shape of one tile. *)
Hypothesis Hread : forall t, In t ranks -> PullVar (path t) vID sID = Ok (D t).
Hypothesis Hshape : forall t, In t ranks ->
  shape (D t) = [Gampp.dNi gp; Gampp.dNj gp; Gampp.dNk gp].

(** The assembled array: each cell holds the value of the rank whose tile
    it lies in. *)
Let assembled (idx : index) : Qc :=
  match find (fun t => selected (tile_of t) idx) ranks with
  | Some t => match sel_inv (tile_of t) idx with
              | Some sub => data (D t) sub
              | None => Q2Qc 0
              end
  | None => Q2Qc 0
  end.

Lemma tiles_disjoint t t' idx :
  selected (tile_of t) idx = true -> selected (tile_of t') idx = true -> t = t'.
Proof.
  destruct t as [[i j] k], t' as [[i' j'] k'].
  unfold tile_of, Gampp.tile. cbv zeta. rewrite H3D. intros H H'.
  pose proof (selected_length _ _ H) as L.
  destruct idx as [|x [|y [|z rest]]]; simpl in L; try lia.
  unpick H. unpick H'.
  f_equal; [f_equal|]; eapply tile_unique; eassumption.
Qed.

Lemma tile_store t S :
  In t ranks -> shape S = [Gampp.Ni gp; Gampp.Nj gp; Gampp.Nk gp] ->
  exists S', setitem S (tile_of t) (D t) = Ok S' /\
             writes (selected (tile_of t)) assembled S S'.
Proof.
  intros Ht HS. apply setitem_writes.
  - destruct t as [[i j] k]. unfold tile_of, Gampp.tile. cbv zeta.
    rewrite H3D, HS. reflexivity.
  - rewrite (Hshape t Ht), HS. destruct t as [[i j] k].
    apply in_product3 in Ht. destruct Ht as (Hi & Hj & Hk).
    unfold tile_of, Gampp.tile. cbv zeta. rewrite H3D, HNi, HNj, HNk.
    cbn [sel_shape]. now rewrite !tile_len by assumption.
  - intros idx sub _ Hsel _. unfold assembled.
    destruct (find (fun t0 => selected (tile_of t0) idx) ranks) as [t'|] eqn:E.
    + apply find_some in E. destruct E as [_ E].
      rewrite (tiles_disjoint t' t idx E (sel_inv_selected _ _ _ Hsel)).
      now rewrite Hsel.
    + pose proof (find_none _ _ E t Ht) as N. cbv beta in N.
      rewrite (sel_inv_selected _ _ _ Hsel) in N. discriminate N.
Qed.

(** The tiles of the ranks stored one after the other, in any order. *)
Lemma tiles_stored l :
  Forall (fun t => In t ranks) l ->
  exists V, forM l (Gampp.alloc_V gp) (fun t V => setitem V (tile_of t) (D t)) = Ok V /\
            writes (fun idx => existsb (fun t => selected (tile_of t) idx) l)
                   assembled (Gampp.alloc_V gp) V.
Proof.
  intros Hl.
  apply (forM_writes (fun t => In t ranks) (fun t => selected (tile_of t)) assembled
                     [Gampp.Ni gp; Gampp.Nj gp; Gampp.Nk gp]).
  - intros t S Ht HS. now apply tile_store.
  - exact Hl.
  - unfold Gampp.alloc_V. now rewrite H3D.
Qed.

(** The sequential loop of [GetVar]. *)
Lemma GetVar_sequential_loop order vScl doVerb :
  Gampp.GetVar genName PullVar (with_doParallel false gp) order vID sID vScl doVerb
  = forM ranks (Gampp.alloc_V gp) (fun t V => setitem V (tile_of t) (D t)).
Proof.
  unfold Gampp.GetVar. cbn [with_doParallel Gampp.isMPI Gampp.doParallel
    Gampp.Ri Gampp.Rj Gampp.Rk Gampp.fdir Gampp.ftag].
  rewrite andb_false_r. fold ranks.
  apply forM_ext. intros [[i j] k] V Ht.
  rewrite Hmpi.
  pose proof (Hread _ Ht) as R. unfold path in R. rewrite R, bind_Ok.
  reflexivity.
Qed.

(** The loops of [GetVarParallel]. *)
Lemma GetVar_parallel_loops order vScl doVerb :
  Gampp.nWorkers gp <> 0 ->
  Gampp.GetVar genName PullVar (with_doParallel true gp) order vID sID vScl doVerb
  = let* V := forM (Gampp.as_completed order ranks) (Gampp.alloc_V gp)
                   (fun t V => setitem V (tile_of t) (D t)) in
    match vScl with
    | Some c => Ok (ascale c V)
    | None => Ok V
    end.
Proof.
  intros Hw. unfold Gampp.GetVar, Gampp.GetVarParallel.
  cbn [with_doParallel Gampp.isMPI Gampp.doParallel Gampp.nWorkers
    Gampp.Ri Gampp.Rj Gampp.Rk Gampp.fdir Gampp.ftag].
  rewrite Hmpi. cbn [andb]. fold ranks.
  rewrite (proj2 (Nat.eqb_neq _ _) Hw), bind_Ok.
  rewrite map_map.
  rewrite (map_ext_in _ (fun t => Ok (D t, t))).
  2:{ intros [[i j] k] Ht. unfold Gampp.PullVarLoc.
      pose proof (Hread _ Ht) as R. unfold path in R. now rewrite R. }
  rewrite <- (map_map (fun t => (D t, t)) Ok).
  rewrite as_completed_map, forM_collect, bind_Ok. cbn [app].
  rewrite as_completed_map, forM_map.
  f_equal. change (Gampp.alloc_V (with_doParallel true gp)) with (Gampp.alloc_V gp).
  apply forM_ext. intros [[i j] k] V _. reflexivity.
Qed.

End Modes.

(** For every 3D pipe over rank files that hold the variable in tiles, every
    pool width of at least one worker and every order in which the reads
    complete, the sequential mode returns the assembled array whether or not
    a scale factor is given, and the concurrent mode returns the same
    assembled array, times the scale factor when one is given. *)
Lemma GetVar_modes
    (genName : string -> nat -> nat -> nat -> nat -> nat -> nat -> string)
    (PullVar : string -> string -> option Z -> result ndarray)
    (gp : Gampp.GameraPipe) (vID : string) (sID : option Z)
    (D : nat * nat * nat -> ndarray) (order : list nat) (vScl : option Qc)
    (doVerb : bool) :
  let ranks := Gampp.product3 (Gampp.Ri gp) (Gampp.Rj gp) (Gampp.Rk gp) in
  Gampp.isMPI gp = true -> Gampp.is2D gp = false ->
  Gampp.Ni gp = Gampp.Ri gp * Gampp.dNi gp ->
  Gampp.Nj gp = Gampp.Rj gp * Gampp.dNj gp ->
  Gampp.Nk gp = Gampp.Rk gp * Gampp.dNk gp ->
  (forall i j k, In (i, j, k) ranks ->
     PullVar (Gampp.fdir gp ++ "/" ++ genName (Gampp.ftag gp) i j k
                (Gampp.Ri gp) (Gampp.Rj gp) (Gampp.Rk gp))%string vID sID
     = Ok (D (i, j, k))) ->
  (forall t, In t ranks ->
     shape (D t) = [Gampp.dNi gp; Gampp.dNj gp; Gampp.dNk gp]) ->
  Gampp.nWorkers gp <> 0 ->
  Permutation order (range (List.length ranks)) ->
  exists Vs Vp,
    Gampp.GetVar genName PullVar (with_doParallel false gp) order vID sID vScl doVerb
    = Ok Vs /\
    Gampp.GetVar genName PullVar (with_doParallel true gp) order vID sID vScl doVerb
    = Ok (match vScl with Some c => ascale c Vp | None => Vp end) /\
    arr_eq Vs Vp.
Proof.
  intros ranks Hmpi H3D HNi HNj HNk Hread Hshape Hw Hperm.
  assert (Hread' : forall t, In t ranks ->
            PullVar (let '(i, j, k) := t in
                     (Gampp.fdir gp ++ "/" ++ genName (Gampp.ftag gp) i j k
                        (Gampp.Ri gp) (Gampp.Rj gp) (Gampp.Rk gp))%string) vID sID
            = Ok (D t))
    by (intros [[i j] k] Ht; now apply Hread).
  pose proof (as_completed_perm order ranks Hperm) as Hp.
  destruct (tiles_stored gp D H3D HNi HNj HNk Hshape ranks) as [Vs [Es Ws]].
  { apply Forall_forall. auto. }
  destruct (tiles_stored gp D H3D HNi HNj HNk Hshape
              (Gampp.as_completed order ranks)) as [Vp [Ep Wp]].
  { apply Forall_forall. intros t Ht. eapply as_completed_in; eauto. }
  exists Vs, Vp. split; [|split].
  - rewrite (GetVar_sequential_loop genName PullVar gp vID sID D Hmpi Hread').
    exact Es.
  - rewrite (GetVar_parallel_loops genName PullVar gp vID sID D Hmpi Hread')
      by exact Hw.
    fold ranks. rewrite Ep, bind_Ok. now destruct vScl.
  - destruct Ws as [Hs1 Hd1], Wp as [Hs2 Hd2]. split; [congruence|].
    intros idx Hb. rewrite Hs1 in Hb.
    rewrite Hd1, Hd2 by exact Hb.
    now rewrite (existsb_perm _ _ _ Hp).
Qed.

(** ** GetSlice *)

Section Slices.

Variable genName : string -> nat -> nat -> nat -> nat -> nat -> nat -> string.
Variable PullVar : string -> string -> option Z -> result ndarray.
Variable gp : Gampp.GameraPipe.

Let sDirs : list string := ["IDIR"; "JDIR"; "KDIR"]%string.





End Slices.



(** * Fields without cells *)

Lemma forM_skip {A S : Type} (body : A -> S -> result S) l s :
  (forall t s', body t s' = Ok s') -> forM l s body = Ok s.
Proof.
  intros H. induction l as [|x l IH]; simpl; [reflexivity|].
  now rewrite H, bind_Ok.
Qed.

(** An array with an axis of extent zero has no cells. *)
Lemma indices_empty sh : In 0 sh -> indices sh = [].
Proof.
  induction sh as [|n sh IH]; intros H; [contradiction|].
  destruct H as [->|H]; [reflexivity|].
  simpl. rewrite (IH H). induction (seq 0 n) as [|x l IHl]; simpl; auto.
Qed.

Lemma zerosZ_negative dims : In (-1)%Z dims -> zerosZ dims = Raise ValueError.
Proof.
  intros H. unfold zerosZ.
  destruct (forallb (fun d => (0 <=? d)%Z) dims) eqn:E; [|reflexivity].
  rewrite forallb_forall in E. specialize (E _ H). discriminate E.
Qed.

Lemma zerosZ_below_zero dims d :
  In d dims -> (d < 0)%Z -> zerosZ dims = Raise ValueError.
Proof.
  intros H Hd. unfold zerosZ.
  destruct (forallb (fun d => (0 <=? d)%Z) dims) eqn:E; [|reflexivity].
  rewrite forallb_forall in E. specialize (E _ H). apply Z.leb_le in E. lia.
Qed.

(** X6: on a flux state of shape (Nd,Nkc,Njc,Nic) without cells, where one
    of Nkc, Njc, Nic is 0 or 1, [MaxDiv] raises [ValueError] and returns no
    divergence array. *)
Theorem MaxDiv_without_cells (M : ndarray) (Nd Nkc Njc Nic : nat) :
  shape M = [Nd; Nkc; Njc; Nic] ->
  Nkc <= 1 \/ Njc <= 1 \/ Nic <= 1 ->
  MaxDiv M = Raise ValueError.
Proof.
  intros HM Hempty. unfold MaxDiv. rewrite HM. cbn [unpack4]. rewrite bind_Ok.
  destruct (Nat.eq_dec Nkc 0) as [->|Hk].
  { rewrite zerosZ_negative by (left; reflexivity). reflexivity. }
  destruct (Nat.eq_dec Njc 0) as [->|Hj].
  { rewrite zerosZ_negative by (right; left; reflexivity). reflexivity. }
  destruct (Nat.eq_dec Nic 0) as [->|Hi].
  { rewrite zerosZ_negative by (right; right; left; reflexivity). reflexivity. }
  replace Nkc with (Nkc - 1 + 1) by lia.
  replace Njc with (Njc - 1 + 1) by lia.
  replace Nic with (Nic - 1 + 1) by lia.
  rewrite !cells_succ.
  change [Z.of_nat (Nkc - 1); Z.of_nat (Njc - 1); Z.of_nat (Nic - 1)]
    with (map Z.of_nat [Nkc - 1; Njc - 1; Nic - 1]).
  rewrite zerosZ_of_nat, bind_Ok, !rangeZ_of_nat.
  assert (Hloop :
    forM (range (Nkc - 1)) (zeros [Nkc - 1; Njc - 1; Nic - 1])
      (fun k Div =>
         forM (range (Njc - 1)) Div (fun j Div =>
           forM (range (Nic - 1)) Div (fun i Div =>
             let* d := cell_div M k j i in
             setitem_scalar Div [At k; At j; At i] d)))
    = Ok (zeros [Nkc - 1; Njc - 1; Nic - 1])).
  { destruct Hempty as [H|[H|H]].
    - replace (Nkc - 1) with 0 by lia. reflexivity.
    - apply forM_skip. intros k S. replace (Njc - 1) with 0 by lia. reflexivity.
    - apply forM_skip. intros k S. apply forM_skip. intros j S'.
      replace (Nic - 1) with 0 by lia. reflexivity. }
  rewrite Hloop, bind_Ok. unfold asize. cbn [shape zeros].
  rewrite indices_empty; [reflexivity|].
  destruct Hempty as [H|[H|H]].
  - left. lia.
  - right. left. lia.
  - right. right. left. lia.
Qed.

Lemma MaxDiv_without_cells_witness :
  MaxDiv (zeros [3; 1; 5; 5]) = Raise ValueError.
Proof.
  apply (MaxDiv_without_cells (zeros [3; 1; 5; 5]) 3 1 5 5 eq_refl).
  left. apply le_n.
Defined.

(** * Volume and the totals of downGas and upGas *)

Section VolumeLayers.

Variable hull : ndarray -> result Qc.

(** When the hull raises, [Volume] raises the same exception: on a grid
    with a cell, the hull of the first cell is taken before anything is
    stored. *)
Lemma Volume_hull_raises Xg Yg Zg Nk Nj Ni e :
  (forall pts, hull pts = Raise e) ->
  grid_shape Xg Yg Zg Nk Nj Ni -> 1 <= Nk -> 1 <= Nj -> 1 <= Ni ->
  Volume hull Xg Yg Zg = Raise e.
Proof.
  intros Hhull Hg HNk HNj HNi. rewrite (Volume_start _ _ _ _ _ _ _ Hg). cbv zeta.
  destruct Hg as (HX & HY & HZ). unfold NumG in *.
  destruct Nj as [|Nj']; [lia|]. destruct Ni as [|Ni']; [lia|].
  unfold range. cbn [seq forM].
  assert (Hflat : forall A,
    shape A = [Nk + 2 * 4 + 1; S Nj' + 2 * 4 + 1; S Ni' + 2 * 4 + 1] ->
    shape (aflatten
      (getsel (getsel A [Rng 4 (Nk + 2 * 4 + 1 - 4); Rng 4 (S Nj' + 2 * 4 + 1 - 4);
                         Rng 4 (S Ni' + 2 * 4 + 1 - 4)])
              [Rng 0 (0 + 2); Rng 0 (0 + 2); Rng 0 (0 + 2)])) = [8]).
  { intros A HA. cbn [aflatten shape]. unfold asize. cbn [getsel shape].
    rewrite HA. cbn [sel_shape].
    replace (Nat.min (0 + 2) (Nat.min (Nk + 2 * 4 + 1 - 4) (Nk + 2 * 4 + 1) - 4) - 0)
      with 2 by lia.
    replace (Nat.min (0 + 2) (Nat.min (S Nj' + 2 * 4 + 1 - 4) (S Nj' + 2 * 4 + 1) - 4) - 0)
      with 2 by lia.
    replace (Nat.min (0 + 2) (Nat.min (S Ni' + 2 * 4 + 1 - 4) (S Ni' + 2 * 4 + 1) - 4) - 0)
      with 2 by lia.
    reflexivity. }
  rewrite getitem_ok by (cbn [getsel shape]; rewrite HX; reflexivity).
  rewrite bind_Ok.
  match goal with
  | |- context [setitem ?p [All; At 0] ?b] =>
      destruct (setitem_ok_shape p [All; At 0] b) as [p1 [E1 H1]]
  end; [reflexivity|rewrite (Hflat Xg HX); reflexivity|].
  rewrite E1, bind_Ok. cbn [shape zeros] in H1.
  rewrite getitem_ok by (cbn [getsel shape]; rewrite HY; reflexivity).
  rewrite bind_Ok.
  match goal with
  | |- context [setitem p1 [All; At 1] ?b] =>
      destruct (setitem_ok_shape p1 [All; At 1] b) as [p2 [E2 H2]]
  end; [rewrite H1; reflexivity|rewrite (Hflat Yg HY), H1; reflexivity|].
  rewrite E2, bind_Ok. rewrite H1 in H2.
  rewrite getitem_ok by (cbn [getsel shape]; rewrite HZ; reflexivity).
  rewrite bind_Ok.
  match goal with
  | |- context [setitem p2 [All; At 2] ?b] =>
      destruct (setitem_ok_shape p2 [All; At 2] b) as [p3 [E3 H3]]
  end; [rewrite H2; reflexivity|rewrite (Hflat Zg HZ), H2; reflexivity|].
  rewrite E3, bind_Ok, Hhull. reflexivity.
Qed.

(** A grid whose nodes have a single layer in k has no cell to take a hull
    of: four points are stored where eight are expected. *)
Lemma Volume_flat Xg Yg Zg Nj Ni :
  grid_shape Xg Yg Zg 0 Nj Ni -> 1 <= Nj -> 1 <= Ni ->
  Volume hull Xg Yg Zg = Raise ValueError.
Proof.
  intros (HX & HY & HZ) HNj HNi. unfold Volume, strip_ghosts.
  rewrite HX, HY, HZ. cbn [unpack3]. rewrite bind_Ok.
  rewrite !getitem_ok by (rewrite ?HX, ?HY, ?HZ; reflexivity). rewrite !bind_Ok.
  unfold NumG in *.
  replace (Z.of_nat (0 + 2 * 4 + 1) - 2 * Z.of_nat 4 - 1)%Z with (Z.of_nat 0) by lia.
  replace (Z.of_nat (Nj + 2 * 4 + 1) - 2 * Z.of_nat 4 - 1)%Z with (Z.of_nat Nj) by lia.
  replace (Z.of_nat (Ni + 2 * 4 + 1) - 2 * Z.of_nat 4 - 1)%Z with (Z.of_nat Ni) by lia.
  change [Z.of_nat 0; Z.of_nat Nj; Z.of_nat Ni] with (map Z.of_nat [0; Nj; Ni]).
  rewrite zerosZ_of_nat, bind_Ok, !rangeZ_of_nat.
  destruct Nj as [|Nj']; [lia|]. destruct Ni as [|Ni']; [lia|].
  unfold range. cbn [seq forM].
  rewrite getitem_ok by (cbn [getsel shape]; rewrite HX; reflexivity).
  rewrite bind_Ok.
  match goal with
  | |- context [setitem ?p [All; At 0] ?b] =>
      assert (Hset : setitem p [All; At 0] b = Raise ValueError)
  end.
  { unfold setitem. cbn [shape zeros sel_ok sel_shape Nat.ltb Nat.leb andb].
    cbn [aflatten shape]. unfold asize. cbn [getsel shape]. rewrite HX.
    cbn [sel_shape].
    replace (Nat.min (0 + 2) (Nat.min (0 + 2 * 4 + 1 - 4) (0 + 2 * 4 + 1) - 4) - 0)
      with 1 by lia.
    replace (Nat.min (0 + 2) (Nat.min (S Nj' + 2 * 4 + 1 - 4) (S Nj' + 2 * 4 + 1) - 4) - 0)
      with 2 by lia.
    replace (Nat.min (0 + 2) (Nat.min (S Ni' + 2 * 4 + 1 - 4) (S Ni' + 2 * 4 + 1) - 4) - 0)
      with 2 by lia.
    reflexivity. }
  rewrite Hset. reflexivity.
Qed.

End VolumeLayers.

(** On the example grids, with a hull that raises as on the nodes of a flat
    cell: [Volume] raises, and so do [downGas] and [upGas], which call it. *)
Lemma rescale_degenerate_grid :
  Volume flat_hull Xfine Yfine Zfine = Raise QhullError /\
  downGas flat_hull Xfine Yfine Zfine gas222 Xcoarse Ycoarse Zcoarse
  = Raise QhullError /\
  upGas flat_hull Xcoarse Ycoarse Zcoarse gas111 Xfine Yfine Zfine
  = Raise QhullError.
Proof.
  assert (H : forall Nk Nj Ni, 1 <= Nk -> 1 <= Nj -> 1 <= Ni ->
            Volume flat_hull (axis_grid 2 Nk Nj Ni) (axis_grid 1 Nk Nj Ni)
                   (axis_grid 0 Nk Nj Ni) = Raise QhullError).
  { intros Nk Nj Ni HNk HNj HNi.
    apply (Volume_hull_raises flat_hull _ _ _ Nk Nj Ni); try assumption;
      [reflexivity|repeat split; reflexivity]. }
  split; [apply H; lia|].
  split.
  - unfold downGas. cbn [shape gas222 unpack5]. rewrite bind_Ok.
    unfold Xfine, Yfine, Zfine. rewrite H by lia. reflexivity.
  - unfold upGas. cbn [shape gas111 unpack5]. rewrite bind_Ok.
    unfold Xcoarse, Ycoarse, Zcoarse. rewrite H by lia. reflexivity.
Qed.

(** ** Sums over the cells of an array *)

Local Open Scope Qc_scope.

Definition sumL {A : Type} (l : list A) (f : A -> Qc) : Qc :=
  fold_right (fun x acc => f x + acc) 0 l.

Lemma sumL_app {A : Type} (l1 l2 : list A) f :
  sumL (l1 ++ l2) f = sumL l1 f + sumL l2 f.
Proof.
  induction l1 as [|x l1 IH]; simpl.
  - now rewrite Qcplus_0_l.
  - rewrite IH. apply Qcplus_assoc.
Qed.

Lemma sumL_ext {A : Type} (l : list A) f g :
  (forall x, In x l -> f x = g x) -> sumL l f = sumL l g.
Proof.
  intros H. induction l as [|x l IH]; simpl; [reflexivity|].
  rewrite H by now left. f_equal. apply IH. intros; apply H; now right.
Qed.

Lemma sumL_map {A B : Type} (h : A -> B) (l : list A) f :
  sumL (map h l) f = sumL l (fun x => f (h x)).
Proof. induction l as [|x l IH]; simpl; [reflexivity|]. now rewrite IH. Qed.

Lemma sumL_flat_map {A B : Type} (h : A -> list B) (l : list A) f :
  sumL (flat_map h l) f = sumL l (fun x => sumL (h x) f).
Proof.
  induction l as [|x l IH]; simpl; [reflexivity|]. now rewrite sumL_app, IH.
Qed.

Lemma sumL_add {A : Type} (l : list A) f g :
  sumL l (fun x => f x + g x) = sumL l f + sumL l g.
Proof.
  induction l as [|x l IH]; simpl; [now rewrite Qcplus_0_l|]. rewrite IH. ring.
Qed.

(** A sum over [2n] indices, two by two. *)
Lemma sumL_pairs n f :
  sumL (seq 0 (2 * n)) f
  = sumL (seq 0 n) (fun k => f (2 * k)%nat + f (2 * k + 1)%nat).
Proof.
  induction n as [|n IH]; [reflexivity|].
  replace (2 * S n)%nat with (2 * n + 2)%nat by lia.
  rewrite seq_app, sumL_app, IH. rewrite (seq_S n 0), sumL_app.
  f_equal. cbn [Nat.add seq sumL fold_right].
  replace (S (2 * n)) with (2 * n + 1)%nat by lia. ring.
Qed.

Lemma asum_cells a : asum a = sumL (indices (shape a)) (data a).
Proof. reflexivity. Qed.

Lemma sumL_indices_cons n sh f :
  sumL (indices (n :: sh)) f
  = sumL (seq 0 n) (fun k => sumL (indices sh) (fun idx => f (k :: idx))).
Proof.
  cbn [indices]. rewrite sumL_flat_map. apply sumL_ext. intros k _.
  apply sumL_map.
Qed.

Definition sum3 (a b c : nat) (f : nat -> nat -> nat -> Qc) : Qc :=
  sumL (seq 0 a) (fun k => sumL (seq 0 b) (fun j => sumL (seq 0 c) (fun i => f k j i))).

Lemma sum3_ext a b c f g :
  (forall k j i, (k < a)%nat -> (j < b)%nat -> (i < c)%nat -> f k j i = g k j i) ->
  sum3 a b c f = sum3 a b c g.
Proof.
  intros H. unfold sum3.
  apply sumL_ext. intros k Hk. apply in_seq in Hk.
  apply sumL_ext. intros j Hj. apply in_seq in Hj.
  apply sumL_ext. intros i Hi. apply in_seq in Hi.
  apply H; lia.
Qed.

Lemma asum_3 A a b c :
  shape A = [a; b; c] -> asum A = sum3 a b c (fun k j i => data A [k; j; i]).
Proof.
  intros H. rewrite asum_cells, H, sumL_indices_cons. unfold sum3.
  apply sumL_ext. intros k _. rewrite sumL_indices_cons.
  apply sumL_ext. intros j _. rewrite sumL_indices_cons.
  apply sumL_ext. intros i _. cbn [indices sumL fold_right].
  apply Qcplus_0_r.
Qed.

(** The sum over the fine cells is the sum over the coarse cells of the
    sums over their 2x2x2 blocks. *)
Lemma sum3_blocks a b c f :
  sum3 (2 * a) (2 * b) (2 * c) f = sum3 a b c (block222 f).
Proof.
  unfold sum3. rewrite sumL_pairs.
  apply sumL_ext. intros k _. cbv beta.
  rewrite <- sumL_add. rewrite sumL_pairs.
  apply sumL_ext. intros j _. cbv beta.
  rewrite <- !sumL_add. rewrite sumL_pairs.
  apply sumL_ext. intros i _. cbv beta.
  unfold block222. cbv zeta. ring.
Qed.

Close Scope Qc_scope.

Lemma total_cells G dV s v Ns Nv a b c :
  shape G = [Ns; Nv; a; b; c] -> shape dV = [a; b; c] -> s < Ns -> v < Nv ->
  total G dV s v
  = Ok (sum3 a b c (fun k j i => Qcmult (data G [s; v; k; j; i]) (data dV [k; j; i]))).
Proof.
  intros HG HdV Hs Hv. unfold total.
  rewrite getitem_ok by (rewrite HG; bounds). rewrite bind_Ok.
  assert (Hsh : shape (getsel G [At s; At v; All; All; All]) = shape dV)
    by (cbn [getsel shape]; now rewrite HG, HdV).
  destruct (zipwith_same Qcmult _ _ Hsh) as [p [Ep [Hsp Hp]]].
  unfold amul. rewrite Ep, bind_Ok. f_equal.
  rewrite Hsh, HdV in Hsp. rewrite Hsh, HdV in Hp.
  rewrite (asum_3 p a b c Hsp). apply sum3_ext. intros k j i Hk Hj Hi.
  rewrite Hp by bounds. reflexivity.
Qed.

Local Open Scope Qc_scope.

Lemma block222_comm (f g : nat -> nat -> nat -> Qc) k j i :
  block222 (fun a b c => f a b c * g a b c) k j i
  = block222 (fun a b c => g a b c * f a b c) k j i.
Proof. unfold block222. cbv zeta. ring. Qed.

Lemma div_then_mult (x y : Qc) : y <> 0 -> x / y * y = x.
Proof. intros H. rewrite Qcmult_comm. now apply Qcmult_div_r. Qed.

Close Scope Qc_scope.

(** X13: [Volume] computes the hull of the first layer of cells only and
    gives every layer in K the same volumes: whenever it returns on a grid of
    Nk by Nj by Ni cells, that is, when the hull of no cell raises, the
    result has shape (Nk,Nj,Ni) and dV[k,j,i] = dV[0,j,i]. *)
Theorem Volume_constant_along_K
    (hull : ndarray -> result Qc) (Xg Yg Zg dV : ndarray) (Nk Nj Ni : nat) :
  grid_shape Xg Yg Zg Nk Nj Ni ->
  Volume hull Xg Yg Zg = Ok dV ->
  shape dV = [Nk; Nj; Ni] /\
  forall k j i, k < Nk -> j < Nj -> i < Ni ->
    data dV [k; j; i] = data dV [0; j; i].
Proof.
  intros Hg E.
  destruct (Volume_returned hull Xg Yg Zg Nk Nj Ni dV Hg E) as [Hs Hlay].
  split; [exact Hs|]. intros k j i _ _ _. apply Hlay.
Qed.

Lemma Volume_constant_along_K_witness :
  Volume unit_hull Xfine Yfine Zfine = Ok (unit_volumes 2 2 2) /\
  shape (unit_volumes 2 2 2) = [2; 2; 2] /\
  forall k j i, k < 2 -> j < 2 -> i < 2 ->
    data (unit_volumes 2 2 2) [k; j; i] = data (unit_volumes 2 2 2) [0; j; i].
Proof.
  split; [reflexivity|].
  apply (Volume_constant_along_K unit_hull Xfine Yfine Zfine (unit_volumes 2 2 2)
           2 2 2).
  - repeat split; reflexivity.
  - reflexivity.
Defined.

(** X14: a grid without a layer of cells in K, whose node arrays have a
    single layer between the ghosts, makes [Volume] raise [ValueError] as soon
    as it has a cell in J and I: the hull needs eight nodes and gets four. *)
Theorem Volume_needs_a_layer_of_cells
    (hull : ndarray -> result Qc) (Xg Yg Zg : ndarray) (Nj Ni : nat) :
  grid_shape Xg Yg Zg 0 Nj Ni -> 1 <= Nj -> 1 <= Ni ->
  Volume hull Xg Yg Zg = Raise ValueError.
Proof. exact (Volume_flat hull Xg Yg Zg Nj Ni). Qed.

Lemma Volume_needs_a_layer_of_cells_witness :
  Volume unit_hull (axis_grid 2 0 1 1) (axis_grid 1 0 1 1) (axis_grid 0 0 1 1)
  = Raise ValueError.
Proof.
  apply (Volume_needs_a_layer_of_cells unit_hull _ _ _ 1 1).
  - repeat split; reflexivity.
  - lia.
  - lia.
Defined.

(** X15: the two totals that [downGas] prints to test conservation are
    equal in exact arithmetic: on a fine grid of even extents and its coarse
    grid on which [Volume] returns, and when no coarse cell has volume zero,
    density*volume summed over the coarse state is density*volume summed over
    the fine state, for every species and variable. *)
Theorem downGas_conserves_totals
    (hull : ndarray -> result Qc) (X Y Z G Xd Yd Zd dV dVd : ndarray)
    (Ns Nv Nk Nj Ni : nat) :
  shape G = [Ns; Nv; 2 * Nk; 2 * Nj; 2 * Ni] ->
  grid_shape X Y Z (2 * Nk) (2 * Nj) (2 * Ni) ->
  grid_shape Xd Yd Zd Nk Nj Ni ->
  Volume hull X Y Z = Ok dV ->
  Volume hull Xd Yd Zd = Ok dVd ->
  exists Gd,
    downGas hull X Y Z G Xd Yd Zd = Ok Gd /\
    ((forall k j i, k < Nk -> j < Nj -> i < Ni -> data dVd [k; j; i] <> Q2Qc 0) ->
     forall s v, s < Ns -> v < Nv ->
       exists t, total Gd dVd s v = Ok t /\ total G dV s v = Ok t).
Proof.
  intros HG HX HXd EdV EdVd.
  destruct (Volume_returned hull X Y Z _ _ _ dV HX EdV) as [HdV _].
  destruct (Volume_returned hull Xd Yd Zd _ _ _ dVd HXd EdVd) as [HdVd _].
  assert (HdVd' : shape dVd = [2 * Nk / 2; 2 * Nj / 2; 2 * Ni / 2]).
  { rewrite HdVd. f_equal; [lia|f_equal; [lia|f_equal; lia]]. }
  destruct (downGas_cells hull X Y Z G Xd Yd Zd dV dVd Ns Nv (2 * Nk) (2 * Nj)
              (2 * Ni) HG EdV HdV EdVd HdVd') as [Gd [E [Hs Hc]]].
  replace (2 * Nk / 2) with Nk in Hs, Hc by lia.
  replace (2 * Nj / 2) with Nj in Hs, Hc by lia.
  replace (2 * Ni / 2) with Ni in Hs, Hc by lia.
  exists Gd. split; [exact E|].
  intros Hne s v Hs' Hv.
  rewrite (total_cells Gd dVd s v Ns Nv Nk Nj Ni Hs HdVd Hs' Hv).
  rewrite (total_cells G dV s v Ns Nv _ _ _ HG HdV Hs' Hv).
  eexists. split; [reflexivity|]. f_equal.
  rewrite sum3_blocks. symmetry. apply sum3_ext. intros k j i Hk Hj Hi.
  rewrite Hc by assumption.
  rewrite div_then_mult by (apply Hne; assumption).
  apply block222_comm.
Qed.

Lemma downGas_conserves_totals_witness :
  exists Gd,
    downGas unit_hull Xfine Yfine Zfine gas222 Xcoarse Ycoarse Zcoarse = Ok Gd /\
    exists t, total Gd (unit_volumes 1 1 1) 0 0 = Ok t /\
              total gas222 (unit_volumes 2 2 2) 0 0 = Ok t.
Proof.
  assert (EdVd : Volume unit_hull Xcoarse Ycoarse Zcoarse = Ok (unit_volumes 1 1 1))
    by reflexivity.
  destruct (downGas_conserves_totals unit_hull Xfine Yfine Zfine gas222
              Xcoarse Ycoarse Zcoarse (unit_volumes 2 2 2) (unit_volumes 1 1 1)
              1 1 1 1 1 eq_refl)
    as (Gd & E & H).
  - repeat split; reflexivity.
  - repeat split; reflexivity.
  - reflexivity.
  - exact EdVd.
  - exists Gd. split; [exact E|].
    apply H; [|lia|lia].
    intros k j i Hk Hj Hi. apply Qc_pos_neq.
    replace k with 0 by lia. replace j with 0 by lia. replace i with 0 by lia.
    exact (unit_coarse_volumes_positive (unit_volumes 1 1 1) EdVd).
Defined.

(** X16: the two totals that [upGas] prints to test conservation are
    equal in exact arithmetic: on a coarse grid and its doubled grid on which
    [Volume] returns, and when every fine cell has a positive volume,
    density*volume summed over the doubled state is density*volume summed
    over the coarse state, for every species and variable. *)
Theorem upGas_conserves_totals
    (hull : ndarray -> result Qc) (X Y Z G Xu Yu Zu dV dVu : ndarray)
    (Ns Nv Nk Nj Ni : nat) :
  shape G = [Ns; Nv; Nk; Nj; Ni] ->
  grid_shape X Y Z Nk Nj Ni ->
  grid_shape Xu Yu Zu (2 * Nk) (2 * Nj) (2 * Ni) ->
  Volume hull X Y Z = Ok dV ->
  Volume hull Xu Yu Zu = Ok dVu ->
  exists Gu,
    upGas hull X Y Z G Xu Yu Zu = Ok Gu /\
    ((forall kk jj ii, kk < 2 * Nk -> jj < 2 * Nj -> ii < 2 * Ni ->
        Qclt (Q2Qc 0) (data dVu [kk; jj; ii])) ->
     forall s v, s < Ns -> v < Nv ->
       exists t, total G dV s v = Ok t /\ total Gu dVu s v = Ok t).
Proof.
  intros HG HX HXu EdV EdVu.
  destruct (Volume_returned hull X Y Z Nk Nj Ni dV HX EdV) as [HdV _].
  destruct (Volume_returned hull Xu Yu Zu _ _ _ dVu HXu EdVu) as [HdVu _].
  destruct (upGas_children hull X Y Z G Xu Yu Zu dV dVu Ns Nv Nk Nj Ni
              HG EdV HdV EdVu HdVu) as [Gu [E [Hs Hc]]].
  exists Gu. split; [exact E|].
  intros Hpos s v Hs' Hv.
  rewrite (total_cells G dV s v Ns Nv Nk Nj Ni HG HdV Hs' Hv).
  rewrite (total_cells Gu dVu s v Ns Nv _ _ _ Hs HdVu Hs' Hv).
  eexists. split; [reflexivity|]. f_equal.
  rewrite sum3_blocks. apply sum3_ext. intros k j i Hk Hj Hi.
  apply (block_total G dV dVu Gu s v k j i).
  - intros a b c Ha Hb Hc'. now apply Hc.
  - intros a b c Ha Hb Hc'. apply Hpos; lia.
Qed.

Lemma upGas_conserves_totals_witness :
  exists Gu,
    upGas unit_hull Xcoarse Ycoarse Zcoarse gas111 Xfine Yfine Zfine = Ok Gu /\
    exists t, total gas111 (unit_volumes 1 1 1) 0 0 = Ok t /\
              total Gu (unit_volumes 2 2 2) 0 0 = Ok t.
Proof.
  assert (EdVu : Volume unit_hull Xfine Yfine Zfine = Ok (unit_volumes 2 2 2))
    by reflexivity.
  destruct (upGas_conserves_totals unit_hull Xcoarse Ycoarse Zcoarse gas111
              Xfine Yfine Zfine (unit_volumes 1 1 1) (unit_volumes 2 2 2)
              1 1 1 1 1 eq_refl)
    as (Gu & E & H).
  - repeat split; reflexivity.
  - repeat split; reflexivity.
  - reflexivity.
  - exact EdVu.
  - exists Gu. split; [exact E|].
    apply H; [|lia|lia].
    intros kk jj ii Hk Hj Hi.
    apply (unit_fine_volumes_positive (unit_volumes 2 2 2)); [exact EdVu|lia|lia|lia].
Defined.

(** * upMIX and downMIX *)

Section Mix.

Variable Q : ndarray.

Let Fup (idx : index) : Qc :=
  match idx with
  | [ii; jj] => data Q [ii / 2; jj / 2]
  | _ => Q2Qc 0
  end.

Let Wup (j i : nat) : index -> bool :=
  selected [Rng (2 * i) (2 * i + 2); Rng (2 * j) (2 * j + 2)].

Lemma upMIX_spec Ni Nj :
  shape Q = [Ni; Nj] ->
  exists Qr, upMIX Q = Ok Qr /\ shape Qr = [2 * Ni; 2 * Nj] /\
    forall ii jj, ii < 2 * Ni -> jj < 2 * Nj ->
      data Qr [ii; jj] = data Q [ii / 2; jj / 2].
Proof.
  intros HQ. unfold upMIX. rewrite HQ. cbn [unpack2]. rewrite bind_Ok.
  set (sh := [2 * Ni; 2 * Nj]).
  loop_writes
    (fun idx => existsb (fun j => existsb (fun i => Wup j i idx) (range Ni))
                        (range Nj)) Fup Hloop.
  - apply (forM_writes (fun j => j < Nj)
      (fun j idx => existsb (fun i => Wup j i idx) (range Ni)) Fup sh);
      [|apply Forall_range|reflexivity].
    intros j S Hj HS.
    apply (forM_writes (fun i => i < Ni) (fun i => Wup j i) Fup sh);
      [|apply Forall_range|exact HS].
    clear S HS. intros i S Hi HS.
    rewrite item_ok by (rewrite HQ; bounds). rewrite bind_Ok.
    apply setitem_scalar_writes; [rewrite HS; unfold sh; bounds|].
    rewrite HS. intros idx Hb Hsel.
    apply in_bounds_2 in Hb. destruct Hb as (x & y & -> & Hb).
    unpick Hsel. unfold Fup. repeat f_equal; lia.
  - destruct Hloop as [Qr [E Wr]].
    exists Qr. split; [exact E|]. split; [now rewrite (writes_shape _ _ _ _ Wr)|].
    intros ii jj Hi Hj.
    rewrite (writes_hit _ _ _ _ [ii; jj] Wr);
      [reflexivity|unfold sh; cbn [shape zeros]; bounds|].
    apply existsb_range. exists (jj / 2). split; [lia|].
    apply existsb_range. exists (ii / 2). split; [lia|].
    unfold Wup. pick_cell.
Qed.

Let Fdown (idx : index) : Qc :=
  match idx with
  | [i; j] =>
      Qcdiv (Qcplus (Qcplus (Qcplus (data Q [2 * i; 2 * j])
                                    (data Q [2 * i; 2 * j + 1]))
                            (data Q [2 * i + 1; 2 * j]))
                    (data Q [2 * i + 1; 2 * j + 1]))
            (Qc_of_nat 4)
  | _ => Q2Qc 0
  end.

Lemma downMIX_spec Ni Nj :
  shape Q = [Ni; Nj] ->
  exists Qr, downMIX Q = Ok Qr /\ shape Qr = [Ni / 2; Nj / 2] /\
    forall i j, i < Ni / 2 -> j < Nj / 2 ->
      data Qr [i; j] =
      Qcdiv (Qcplus (Qcplus (Qcplus (data Q [2 * i; 2 * j])
                                    (data Q [2 * i; 2 * j + 1]))
                            (data Q [2 * i + 1; 2 * j]))
                    (data Q [2 * i + 1; 2 * j + 1]))
            (Qc_of_nat 4).
Proof.
  intros HQ. unfold downMIX. rewrite HQ. cbn [unpack2]. rewrite bind_Ok.
  set (sh := [Ni / 2; Nj / 2]).
  loop_writes
    (fun idx => existsb (fun j => existsb (fun i => selected [At i; At j] idx)
                                          (range (Ni / 2))) (range (Nj / 2)))
    Fdown Hloop.
  - apply (forM_writes (fun j => j < Nj / 2)
      (fun j idx => existsb (fun i => selected [At i; At j] idx) (range (Ni / 2)))
      Fdown sh); [|apply Forall_range|reflexivity].
    intros j S Hj HS.
    apply (forM_writes (fun i => i < Ni / 2) (fun i => selected [At i; At j])
                       Fdown sh); [|apply Forall_range|exact HS].
    clear S HS. intros i S Hi HS. cbv zeta.
    rewrite getitem_ok by (rewrite HQ; bounds). rewrite bind_Ok.
    apply setitem_scalar_writes; [rewrite HS; unfold sh; bounds|].
    rewrite HS. intros idx Hb Hsel.
    apply in_bounds_2 in Hb. destruct Hb as (x & y & -> & Hb).
    unpick Hsel. subst. unfold Fdown, amean, asize.
    assert (Hblk : shape (getsel Q [Rng (2 * i) (2 * i + 2);
                                    Rng (2 * j) (2 * j + 2)]) = [2; 2]).
    { cbn [getsel shape]. rewrite HQ. cbn [sel_shape]. f_equal; [lia|f_equal; lia]. }
    rewrite (asum_22 _ Hblk), Hblk.
    cbn [getsel data sel_index indices]. rewrite !Nat.add_0_r. reflexivity.
  - destruct Hloop as [Qr [E Wr]].
    exists Qr. split; [exact E|]. split; [now rewrite (writes_shape _ _ _ _ Wr)|].
    intros i j Hi Hj.
    rewrite (writes_hit _ _ _ _ [i; j] Wr);
      [reflexivity|unfold sh; cbn [shape zeros]; bounds|].
    apply existsb_range. exists j. split; [lia|].
    apply existsb_range. exists i. split; [lia|].
    pick_cell.
Qed.

End Mix.

Local Open Scope Qc_scope.

Lemma mean_of_four (q : Qc) : (q + q + q + q) / Qc_of_nat 4 = q.
Proof.
  rewrite four_eq. field. intro H. apply (f_equal this) in H.
  vm_compute in H. discriminate H.
Qed.

Close Scope Qc_scope.

(** X1: [upMIX] copies each cell of a matrix of shape (Ni,Nj) to the 2x2
    block of cells that it covers in the result, of shape (2Ni,2Nj). *)
Theorem upMIX_replicates_cells (Q : ndarray) (Ni Nj : nat) :
  shape Q = [Ni; Nj] ->
  exists Qr, upMIX Q = Ok Qr /\ shape Qr = [2 * Ni; 2 * Nj] /\
    forall ii jj, ii < 2 * Ni -> jj < 2 * Nj ->
      data Qr [ii; jj] = data Q [ii / 2; jj / 2].
Proof. exact (upMIX_spec Q Ni Nj). Qed.

Lemma upMIX_replicates_cells_witness :
  exists Qr, upMIX mat32 = Ok Qr /\ shape Qr = [6; 4] /\
    forall ii jj, ii < 6 -> jj < 4 -> data Qr [ii; jj] = data mat32 [ii / 2; jj / 2].
Proof. exact (upMIX_replicates_cells mat32 3 2 eq_refl). Defined.

(** X2: [downMIX] of a matrix of shape (Ni,Nj) has shape (Ni//2,Nj//2) and
    holds in each cell the mean of the 2x2 block that the cell covers; the
    last row or column of an odd extent is left out. *)
Theorem downMIX_block_means (Q : ndarray) (Ni Nj : nat) :
  shape Q = [Ni; Nj] ->
  exists Qr, downMIX Q = Ok Qr /\ shape Qr = [Ni / 2; Nj / 2] /\
    forall i j, i < Ni / 2 -> j < Nj / 2 ->
      data Qr [i; j] =
      Qcdiv (Qcplus (Qcplus (Qcplus (data Q [2 * i; 2 * j])
                                    (data Q [2 * i; 2 * j + 1]))
                            (data Q [2 * i + 1; 2 * j]))
                    (data Q [2 * i + 1; 2 * j + 1]))
            (Qc_of_nat 4).
Proof. exact (downMIX_spec Q Ni Nj). Qed.

Lemma downMIX_block_means_witness :
  exists Qr, downMIX mat32 = Ok Qr /\ shape Qr = [1; 1] /\
    this (data Qr [0; 0]) = (5 # 2)%Q.
Proof.
  destruct (downMIX_block_means mat32 3 2 eq_refl) as [Qr [E [Hs Hc]]].
  exists Qr. split; [exact E|]. split; [exact Hs|].
  rewrite (Hc 0 0) by (vm_compute; lia). vm_compute. reflexivity.
Defined.

(** X3: in exact arithmetic, halving after doubling is the identity:
    [downMIX (upMIX Q)] is [Q], for every matrix [Q]. *)
Theorem downMIX_upMIX_identity (Q : ndarray) (Ni Nj : nat) :
  shape Q = [Ni; Nj] ->
  exists Qu Qd, upMIX Q = Ok Qu /\ downMIX Qu = Ok Qd /\ arr_eq Qd Q.
Proof.
  intros HQ.
  destruct (upMIX_spec Q Ni Nj HQ) as [Qu [Eu [Hsu Hcu]]].
  destruct (downMIX_spec Qu (2 * Ni) (2 * Nj) Hsu) as [Qd [Ed [Hsd Hcd]]].
  assert (Hi : 2 * Ni / 2 = Ni) by lia.
  assert (Hj : 2 * Nj / 2 = Nj) by lia.
  rewrite Hi, Hj in Hsd, Hcd.
  exists Qu, Qd. split; [exact Eu|]. split; [exact Ed|].
  split; [congruence|].
  intros idx Hb. rewrite Hsd in Hb.
  apply in_bounds_2 in Hb. destruct Hb as (i & j & -> & Hi' & Hj').
  rewrite Hcd by assumption. rewrite !Hcu by lia.
  replace (2 * i / 2) with i by lia. replace ((2 * i + 1) / 2) with i by lia.
  replace (2 * j / 2) with j by lia. replace ((2 * j + 1) / 2) with j by lia.
  apply mean_of_four.
Qed.

Lemma downMIX_upMIX_identity_witness :
  exists Qu Qd, upMIX mat32 = Ok Qu /\ downMIX Qu = Ok Qd /\ arr_eq Qd mat32.
Proof. exact (downMIX_upMIX_identity mat32 3 2 eq_refl). Defined.

(** * The RCM variables *)

Lemma in_bounds_1 idx a :
  in_bounds idx [a] = true -> exists x, idx = [x] /\ x < a.
Proof.
  intros H. pose proof (in_bounds_length _ _ H) as L.
  destruct idx as [|x [|? ?]]; try discriminate L.
  simpl in H. rewrite andb_true_iff, Nat.ltb_lt in H.
  exists x. intuition.
Qed.

Lemma wrap_index_in z dim :
  (0 <= z < Z.of_nat dim)%Z -> Gampp.wrap_index z dim = Ok (Z.to_nat z).
Proof.
  intros H. unfold Gampp.wrap_index.
  replace ((0 <=? z)%Z && (z <? Z.of_nat dim)%Z) with true; [reflexivity|].
  symmetry. apply andb_true_iff. split; [apply Z.leb_le|apply Z.ltb_lt]; lia.
Qed.

Lemma wrap_index_neg z dim :
  (- Z.of_nat dim <= z < 0)%Z ->
  Gampp.wrap_index z dim = Ok (Z.to_nat (z + Z.of_nat dim)).
Proof.
  intros H. unfold Gampp.wrap_index.
  replace ((0 <=? z)%Z && (z <? Z.of_nat dim)%Z) with false.
  - replace ((- Z.of_nat dim <=? z)%Z && (z <? 0)%Z) with true; [reflexivity|].
    symmetry. apply andb_true_iff. split; [apply Z.leb_le|apply Z.ltb_lt]; lia.
  - symmetry. apply andb_false_iff. left. apply Z.leb_gt. lia.
Qed.

Lemma wrap_index_out z dim :
  (z < - Z.of_nat dim \/ Z.of_nat dim <= z)%Z ->
  Gampp.wrap_index z dim = Raise IndexError.
Proof.
  intros H. unfold Gampp.wrap_index.
  replace ((0 <=? z)%Z && (z <? Z.of_nat dim)%Z) with false.
  - replace ((- Z.of_nat dim <=? z)%Z && (z <? 0)%Z) with false; [reflexivity|].
    symmetry. apply andb_false_iff.
    destruct H; [left; apply Z.leb_gt|right; apply Z.ltb_ge]; lia.
  - symmetry. apply andb_false_iff.
    destruct H; [left; apply Z.leb_gt|right; apply Z.ltb_ge]; lia.
Qed.

Section RCM1D.

Variable Q : ndarray.

Let F1 (idx : index) : Qc :=
  match idx with
  | [ii; j] => data Q [ii / 2; j]
  | _ => Q2Qc 0
  end.

Lemma upRCM1D_spec Ni Nj :
  shape Q = [Ni; Nj] ->
  exists Qr, upRCM1D Q = Ok Qr /\ shape Qr = [Ni * 2; Nj] /\
    forall ii j, ii < Ni * 2 -> j < Nj -> data Qr [ii; j] = data Q [ii / 2; j].
Proof.
  intros HQ. unfold upRCM1D. rewrite HQ. cbn [unpack2]. rewrite bind_Ok.
  set (sh := [Ni * 2; Nj]).
  loop_writes
    (fun idx => existsb (fun j => existsb (fun i =>
       selected [Rng (2 * i) (2 * i + 2); At j] idx) (range Ni)) (range Nj))
    F1 Hloop.
  - apply (forM_writes (fun j => j < Nj)
      (fun j idx => existsb (fun i =>
         selected [Rng (2 * i) (2 * i + 2); At j] idx) (range Ni)) F1 sh);
      [|apply Forall_range|reflexivity].
    intros j S Hj HS.
    apply (forM_writes (fun i => i < Ni)
      (fun i => selected [Rng (2 * i) (2 * i + 2); At j]) F1 sh);
      [|apply Forall_range|exact HS].
    clear S HS. intros i S Hi HS.
    rewrite item_ok by (rewrite HQ; bounds). rewrite bind_Ok. cbv zeta.
    apply setitem_scalar_writes; [rewrite HS; unfold sh; bounds|].
    rewrite HS. intros idx Hb Hsel.
    apply in_bounds_2 in Hb. destruct Hb as (x & y & -> & Hb).
    unpick Hsel. subst. unfold F1. repeat f_equal; lia.
  - destruct Hloop as [Qr [E Wr]].
    exists Qr. split; [exact E|]. split; [now rewrite (writes_shape _ _ _ _ Wr)|].
    intros ii j Hi Hj.
    rewrite (writes_hit _ _ _ _ [ii; j] Wr);
      [reflexivity|unfold sh; cbn [shape zeros]; bounds|].
    apply existsb_range. exists j. split; [lia|].
    apply existsb_range. exists (ii / 2). split; [lia|].
    pick_cell.
Qed.

End RCM1D.

Section RCM1Dw.

Variable Q : ndarray.

(** The rows of the result of [upRCM1Dw]: the doubled rows of [Q] without
    its last two, then row 0 of [Q] twice. *)
Let Fw (Ni : nat) (idx : index) : Qc :=
  match idx with
  | [r; j] => data Q [(if r <? 2 * Ni - 4 then r / 2 else 0); j]
  | _ => Q2Qc 0
  end.

Lemma upRCM1Dw_spec Ni Nj :
  shape Q = [Ni; Nj] -> 3 <= Ni ->
  exists Qr, upRCM1Dw Q = Ok Qr /\ shape Qr = [2 * Ni - 2; Nj] /\
    forall r j, r < 2 * Ni - 2 -> j < Nj ->
      data Qr [r; j] = data Q [(if r <? 2 * Ni - 4 then r / 2 else 0); j].
Proof.
  intros HQ HNi. unfold upRCM1Dw. rewrite HQ. cbn [unpack2]. rewrite bind_Ok.
  cbv zeta.
  replace [((Z.of_nat Ni - 2) * 2 + 2)%Z; Z.of_nat Nj]
    with (map Z.of_nat [2 * Ni - 2; Nj]) by (cbn [map]; repeat f_equal; lia).
  rewrite zerosZ_of_nat, bind_Ok. cbn [shape zeros hd].
  replace (slice_bound (-2) Ni) with (Ni - 2)
    by (unfold slice_bound; change (-2 <? 0)%Z with true; cbv iota; lia).
  replace (slice_bound ((Z.of_nat Ni - 2) * 2 + 2 - 2) (2 * Ni - 2))
    with (2 * Ni - 4)
    by (unfold slice_bound;
        replace ((Z.of_nat Ni - 2) * 2 + 2 - 2 <? 0)%Z with false
          by (symmetry; apply Z.ltb_ge; lia); lia).
  rewrite (wrap_index_in ((Z.of_nat Ni - 2) * 2 + 2 - 2)) by lia.
  rewrite (wrap_index_in ((Z.of_nat Ni - 2) * 2 + 2 - 1)) by lia.
  replace (Z.to_nat ((Z.of_nat Ni - 2) * 2 + 2 - 2)) with (2 * Ni - 4) by lia.
  replace (Z.to_nat ((Z.of_nat Ni - 2) * 2 + 2 - 1)) with (2 * Ni - 3) by lia.
  rewrite getitem_ok by (rewrite HQ; reflexivity). rewrite bind_Ok.
  set (head := getsel Q [Rng 0 (Ni - 2); All]).
  assert (Hhead : shape head = [Ni - 2; Nj]).
  { unfold head. cbn [getsel shape]. rewrite HQ. cbn [sel_shape].
    f_equal. lia. }
  destruct (upRCM1D_spec head (Ni - 2) Nj Hhead) as [up [Eup [Hsup Hup]]].
  rewrite Eup, bind_Ok.
  set (sh := [2 * Ni - 2; Nj]).
  set (W1 := selected [Rng 0 (2 * Ni - 4); All]).
  set (W2 := selected [At (2 * Ni - 4); All]).
  set (W3 := selected [At (2 * Ni - 3); All]).
  assert (Hall : exists Qr,
    (let* Qr := setitem (zeros sh) [Rng 0 (2 * Ni - 4); All] up in
     let* row0 := getitem Qr [At 0; All] in
     let* Qr0 := setitem Qr [At (2 * Ni - 4); All] row0 in
     let* row1 := getitem Qr0 [At 1; All] in
     setitem Qr0 [At (2 * Ni - 3); All] row1) = Ok Qr /\
    writes (fun idx => W1 idx || (W2 idx || W3 idx)) (Fw Ni) (zeros sh) Qr).
  { apply bind_writes.
    { apply setitem_writes; [reflexivity| |].
      - rewrite Hsup. cbn [shape zeros sel_shape]. unfold sh. cbn [sel_shape].
        f_equal. lia.
      - intros idx sub _ Hinv Hsub. rewrite Hsup in Hsub.
        apply in_bounds_2 in Hsub. destruct Hsub as (a & b & -> & Ha & Hb).
        apply sel_inv_index in Hinv. cbn [sel_index] in Hinv. subst idx.
        rewrite Hup by lia. unfold head. cbn [getsel data sel_index].
        unfold Fw. cbn [Nat.add].
        replace (a <? 2 * Ni - 4) with true by (symmetry; apply Nat.ltb_lt; lia).
        reflexivity. }
    intros Qr1 HS1 Hw1. cbn [shape zeros] in HS1.
    rewrite getitem_ok by (rewrite HS1; unfold sh; bounds). rewrite bind_Ok.
    apply bind_writes.
    { apply setitem_writes; [rewrite HS1; unfold sh; bounds| |].
      - cbn [getsel shape]. rewrite HS1. reflexivity.
      - intros idx sub _ Hinv Hsub. cbn [getsel shape] in Hsub.
        rewrite HS1 in Hsub. unfold sh in Hsub. cbn [sel_shape] in Hsub.
        apply in_bounds_1 in Hsub. destruct Hsub as (b & -> & Hb).
        apply sel_inv_index in Hinv. cbn [sel_index] in Hinv. subst idx.
        cbn [getsel data sel_index].
        rewrite (writes_hit _ _ _ _ [0; b] Hw1);
          [|cbn [shape zeros]; unfold sh; bounds|unfold W1; pick_cell].
        unfold Fw.
        replace (0 <? 2 * Ni - 4) with true by (symmetry; apply Nat.ltb_lt; lia).
        replace (2 * Ni - 4 <? 2 * Ni - 4) with false
          by (symmetry; apply Nat.ltb_ge; lia).
        reflexivity. }
    intros Qr2 HS2 Hw2. rewrite HS1 in HS2.
    rewrite getitem_ok by (rewrite HS2; unfold sh; bounds). rewrite bind_Ok.
    apply setitem_writes; [rewrite HS2; unfold sh; bounds| |].
    - cbn [getsel shape]. rewrite HS2. reflexivity.
    - intros idx sub _ Hinv Hsub. cbn [getsel shape] in Hsub.
      rewrite HS2 in Hsub. unfold sh in Hsub. cbn [sel_shape] in Hsub.
      apply in_bounds_1 in Hsub. destruct Hsub as (b & -> & Hb).
      apply sel_inv_index in Hinv. cbn [sel_index] in Hinv. subst idx.
      cbn [getsel data sel_index].
      rewrite (writes_keep _ _ _ _ [1; b] Hw2);
        [|rewrite HS1; unfold sh; bounds|].
      + unfold Fw.
        replace (1 <? 2 * Ni - 4) with true by (symmetry; apply Nat.ltb_lt; lia).
        replace (2 * Ni - 3 <? 2 * Ni - 4) with false
          by (symmetry; apply Nat.ltb_ge; lia).
        reflexivity.
      + apply (writes_hit _ _ _ _ [1; b] Hw1);
          [cbn [shape zeros]; unfold sh; bounds|unfold W1; pick_cell]. }
  destruct Hall as [Qr [E Wr]].
  exists Qr. split; [exact E|]. split; [now rewrite (writes_shape _ _ _ _ Wr)|].
  intros r j Hr Hj.
  rewrite (writes_hit _ _ _ _ [r; j] Wr);
    [reflexivity|cbn [shape zeros]; unfold sh; bounds|].
  destruct (Nat.lt_ge_cases r (2 * Ni - 4)) as [L|G].
  - apply orb_true_iff. left. unfold W1. pick_cell.
  - apply orb_true_iff. right. apply orb_true_iff.
    destruct (Nat.eq_dec r (2 * Ni - 4)) as [->|Hne].
    + left. unfold W2. pick_cell.
    + right. unfold W3. pick_cell.
Qed.

End RCM1Dw.

(** A vector stored as the column of a matrix of one column. *)
Lemma column_of Q n :
  shape Q = [n] ->
  exists Q2D, setitem (zeros [n; 1]) [All; At 0] Q = Ok Q2D /\
    shape Q2D = [n; 1] /\ forall i, i < n -> data Q2D [i; 0] = data Q [i].
Proof.
  intros HQ.
  destruct (setitem_writes (zeros [n; 1]) [All; At 0] Q
              (fun idx => data Q [hd 0 idx])) as [Q2D [E Wr]].
  - reflexivity.
  - rewrite HQ. reflexivity.
  - intros idx sub _ Hinv Hsub. rewrite HQ in Hsub.
    apply in_bounds_1 in Hsub. destruct Hsub as (a & -> & Ha).
    apply sel_inv_index in Hinv. cbn [sel_index] in Hinv. now subst idx.
  - exists Q2D. split; [exact E|]. split; [exact (writes_shape _ _ _ _ Wr)|].
    intros i Hi.
    rewrite (writes_hit _ _ _ _ [i; 0] Wr); [reflexivity|cbn [shape zeros]; bounds|pick_cell].
Qed.

Section RCMCpl.

Variable Q : ndarray.

Let F3 (idx : index) : Qc :=
  match idx with
  | [n; ii; j] => data Q [n; ii / 2; j]
  | _ => Q2Qc 0
  end.

Lemma upRCMCpl_3D N Nk Ni Nj :
  shape Q = [Nk; Ni; Nj] ->
  exists Qr, upRCMCpl Q N = Ok Qr /\ shape Qr = [Nk; Ni * 2; Nj] /\
    forall n ii j, n < Nk -> ii < Ni * 2 -> j < Nj ->
      data Qr [n; ii; j] = data Q [n; ii / 2; j].
Proof.
  intros HQ. unfold upRCMCpl. rewrite HQ. cbn [List.length Nat.leb unpack3].
  rewrite bind_Ok.
  set (sh := [Nk; Ni * 2; Nj]).
  loop_writes (fun idx => existsb (fun n => selected [At n; All; All] idx) (range Nk))
              F3 Hloop.
  - apply (forM_writes (fun n => n < Nk) (fun n => selected [At n; All; All]) F3 sh);
      [|apply Forall_range|reflexivity].
    intros n S Hn HS.
    rewrite getitem_ok by (rewrite HQ; bounds). rewrite bind_Ok.
    set (Qn := getsel Q [At n; All; All]).
    assert (HQn : shape Qn = [Ni; Nj])
      by (unfold Qn; cbn [getsel shape]; now rewrite HQ).
    destruct (upRCM1D_spec Qn Ni Nj HQn) as [up [Eup [Hsup Hup]]].
    rewrite Eup, bind_Ok.
    apply setitem_writes; [rewrite HS; unfold sh; bounds| |].
    + rewrite Hsup, HS. reflexivity.
    + intros idx sub _ Hinv Hsub. rewrite Hsup in Hsub.
      apply in_bounds_2 in Hsub. destruct Hsub as (a & b & -> & Ha & Hb).
      apply sel_inv_index in Hinv. cbn [sel_index] in Hinv. subst idx.
      rewrite Hup by assumption. reflexivity.
  - destruct Hloop as [Qr [E Wr]].
    exists Qr. split; [exact E|]. split; [now rewrite (writes_shape _ _ _ _ Wr)|].
    intros n ii j Hn Hi Hj.
    rewrite (writes_hit _ _ _ _ [n; ii; j] Wr);
      [reflexivity|unfold sh; cbn [shape zeros]; bounds|].
    apply existsb_range. exists n. split; [lia|]. pick_cell.
Qed.

Lemma upRCMCpl_2D N Ni Nj :
  shape Q = [Ni; Nj] ->
  exists Qr, upRCMCpl Q N = Ok Qr /\ shape Qr = [Ni * 2; Nj] /\
    forall ii j, ii < Ni * 2 -> j < Nj -> data Qr [ii; j] = data Q [ii / 2; j].
Proof.
  intros HQ. unfold upRCMCpl. rewrite HQ. cbn [List.length Nat.leb Nat.eqb].
  now apply upRCM1D_spec.
Qed.

Lemma upRCMCpl_1D_doubled n :
  shape Q = [n] ->
  exists Qr, upRCMCpl Q (Z.of_nat n) = Ok Qr /\ shape Qr = [n * 2] /\
    forall ii, ii < n * 2 -> data Qr [ii] = data Q [ii / 2].
Proof.
  intros HQ. unfold upRCMCpl. rewrite HQ. cbn [List.length Nat.leb Nat.eqb hd].
  rewrite Z.eqb_refl.
  change [Z.of_nat n; 1%Z] with (map Z.of_nat [n; 1]).
  rewrite zerosZ_of_nat, bind_Ok.
  destruct (column_of Q n HQ) as [Q2D [E2 [Hs2 Hc2]]].
  rewrite E2, bind_Ok.
  destruct (upRCM1D_spec Q2D n 1 Hs2) as [Qr2D [Er [Hsr Hcr]]].
  rewrite Er, bind_Ok.
  rewrite getitem_ok by (rewrite Hsr; bounds).
  eexists. split; [reflexivity|]. split.
  - cbn [getsel shape]. now rewrite Hsr.
  - intros ii Hii. cbn [getsel data sel_index].
    rewrite Hcr by lia. apply Hc2. lia.
Qed.

Lemma upRCMCpl_1D_kept N n :
  shape Q = [n] -> Z.of_nat n <> N -> upRCMCpl Q N = Ok Q.
Proof.
  intros HQ HN. unfold upRCMCpl. rewrite HQ. cbn [List.length Nat.leb Nat.eqb hd].
  now rewrite (proj2 (Z.eqb_neq _ _) HN).
Qed.

End RCMCpl.

(** ** Short inputs of upRCM1Dw *)

Lemma zero_store W S S' :
  (forall idx, in_bounds idx (shape S) = true -> data S idx = Q2Qc 0) ->
  writes W (fun _ => Q2Qc 0) S S' ->
  forall idx, in_bounds idx (shape S') = true -> data S' idx = Q2Qc 0.
Proof.
  intros H0 [Hs Hd] idx Hb. rewrite Hs in Hb. rewrite Hd by exact Hb.
  destruct (W idx); [reflexivity|now apply H0].
Qed.

Lemma no_rows_selected ss lo idx sub :
  sel_inv (Rng lo lo :: ss) idx = Some sub -> False.
Proof.
  intros H. apply sel_inv_selected in H.
  destruct idx as [|x idx]; [discriminate H|].
  apply selected_cons in H. destruct H as [H _]. cbv [sel_has] in H. lia.
Qed.

Lemma upRCM1Dw_no_rows Q Nj :
  shape Q = [0; Nj] -> upRCM1Dw Q = Raise ValueError.
Proof.
  intros HQ. unfold upRCM1Dw. rewrite HQ. cbn [unpack2]. rewrite bind_Ok.
  cbv zeta.
  rewrite (zerosZ_below_zero _ ((Z.of_nat 0 - 2) * 2 + 2)%Z);
    [reflexivity|left; reflexivity|reflexivity].
Qed.

Lemma upRCM1Dw_one_row Q Nj :
  shape Q = [1; Nj] -> upRCM1Dw Q = Raise IndexError.
Proof.
  intros HQ. unfold upRCM1Dw. rewrite HQ. cbn [unpack2]. rewrite bind_Ok.
  cbv zeta.
  change [((Z.of_nat 1 - 2) * 2 + 2)%Z; Z.of_nat Nj] with (map Z.of_nat [0; Nj]).
  rewrite zerosZ_of_nat, bind_Ok. cbn [shape zeros hd].
  change (slice_bound (-2) 1) with 0.
  change (slice_bound ((Z.of_nat 1 - 2) * 2 + 2 - 2) 0) with 0.
  rewrite getitem_ok by (rewrite HQ; reflexivity). rewrite bind_Ok.
  set (head := getsel Q [Rng 0 0; All]).
  assert (Hhead : shape head = [0; Nj])
    by (unfold head; cbn [getsel shape]; now rewrite HQ).
  destruct (upRCM1D_spec head 0 Nj Hhead) as [up [Eup [Hsup _]]].
  rewrite Eup, bind_Ok.
  destruct (setitem_ok_shape (zeros [0; Nj]) [Rng 0 0; All] up) as [Qr [E Hs]].
  - reflexivity.
  - rewrite Hsup. apply assignable_same.
  - rewrite E, bind_Ok. unfold getitem. rewrite Hs. reflexivity.
Qed.

Lemma upRCM1Dw_two_rows Q Nj :
  shape Q = [2; Nj] ->
  exists Qr, upRCM1Dw Q = Ok Qr /\ arr_eq Qr (zeros [2; Nj]).
Proof.
  intros HQ. unfold upRCM1Dw. rewrite HQ. cbn [unpack2]. rewrite bind_Ok.
  cbv zeta.
  change [((Z.of_nat 2 - 2) * 2 + 2)%Z; Z.of_nat Nj] with (map Z.of_nat [2; Nj]).
  rewrite zerosZ_of_nat, bind_Ok. cbn [shape zeros hd].
  change (slice_bound (-2) 2) with 0.
  change (slice_bound ((Z.of_nat 2 - 2) * 2 + 2 - 2) 2) with 0.
  change (Gampp.wrap_index ((Z.of_nat 2 - 2) * 2 + 2 - 2) 2) with (@Ok nat 0).
  change (Gampp.wrap_index ((Z.of_nat 2 - 2) * 2 + 2 - 1) 2) with (@Ok nat 1).
  rewrite getitem_ok by (rewrite HQ; reflexivity). rewrite bind_Ok.
  set (head := getsel Q [Rng 0 0; All]).
  assert (Hhead : shape head = [0; Nj])
    by (unfold head; cbn [getsel shape]; now rewrite HQ).
  destruct (upRCM1D_spec head 0 Nj Hhead) as [up [Eup [Hsup _]]].
  rewrite Eup, bind_Ok.
  set (Z0 := fun _ : index => Q2Qc 0).
  destruct (setitem_writes (zeros [2; Nj]) [Rng 0 0; All] up Z0) as [Q1 [E1 W1]].
  { reflexivity. }
  { rewrite Hsup. reflexivity. }
  { intros idx sub _ Hinv _. destruct (no_rows_selected _ _ _ _ Hinv). }
  rewrite E1, bind_Ok.
  assert (H1 : forall idx, in_bounds idx (shape Q1) = true -> data Q1 idx = Q2Qc 0)
    by exact (zero_store _ (zeros [2; Nj]) _ (fun _ _ => eq_refl) W1).
  pose proof (writes_shape _ _ _ _ W1) as Hs1. cbn [shape zeros] in Hs1.
  rewrite getitem_ok by (rewrite Hs1; reflexivity). rewrite !bind_Ok.
  destruct (setitem_writes Q1 [At 0; All] (getsel Q1 [At 0; All]) Z0) as [Q2 [E2 W2]].
  { rewrite Hs1. reflexivity. }
  { reflexivity. }
  { intros idx sub _ _ Hsub. cbn [getsel shape] in Hsub. rewrite Hs1 in Hsub.
    cbn [sel_shape] in Hsub. apply in_bounds_1 in Hsub.
    destruct Hsub as (b & -> & Hb). cbn [getsel data sel_index].
    apply H1. rewrite Hs1. bounds. }
  rewrite E2, bind_Ok.
  assert (H2 : forall idx, in_bounds idx (shape Q2) = true -> data Q2 idx = Q2Qc 0)
    by exact (zero_store _ _ _ H1 W2).
  pose proof (writes_shape _ _ _ _ W2) as Hs2. rewrite Hs1 in Hs2.
  rewrite getitem_ok by (rewrite Hs2; reflexivity). rewrite !bind_Ok.
  destruct (setitem_writes Q2 [At 1; All] (getsel Q2 [At 1; All]) Z0) as [Q3 [E3 W3]].
  { rewrite Hs2. reflexivity. }
  { reflexivity. }
  { intros idx sub _ _ Hsub. cbn [getsel shape] in Hsub. rewrite Hs2 in Hsub.
    cbn [sel_shape] in Hsub. apply in_bounds_1 in Hsub.
    destruct Hsub as (b & -> & Hb). cbn [getsel data sel_index].
    apply H2. rewrite Hs2. bounds. }
  exists Q3. split; [exact E3|].
  pose proof (writes_shape _ _ _ _ W3) as Hs3. rewrite Hs2 in Hs3.
  split; [exact Hs3|].
  intros idx Hb. exact (zero_store _ _ _ H2 W3 idx Hb).
Qed.

(** ** upRCM *)

Lemma assignable_rows a q b d :
  a <> b -> a <> 1 -> assignable [a; q] [b; d] = false.
Proof.
  intros Hab Ha. unfold assignable. cbn [List.length Nat.sub strip_ones pad repeat app].
  cbn [Nat.leb andb bc_dims].
  destruct (q =? d), (q =? 1), (d =? 1);
    rewrite ?(proj2 (Nat.eqb_neq _ _) Hab), ?(proj2 (Nat.eqb_neq _ _) Ha);
    try reflexivity;
    destruct (b =? 1); try reflexivity;
    cbn [list_eqb]; now rewrite (proj2 (Nat.eqb_neq _ _) Hab).
Qed.

Section RCM.

Variable Q : ndarray.

Let F3w (q1 : nat) (idx : index) : Qc :=
  match idx with
  | [n; r; j] => data Q [n; (if r <? 2 * q1 - 4 then r / 2 else 0); j]
  | _ => Q2Qc 0
  end.

Lemma upRCM_3D Nk0 Nk q1 q2 :
  shape Q = [Nk; q1; q2] -> 3 <= q1 ->
  exists Qr, upRCM Q (Z.of_nat q2) (Z.of_nat q1) Nk0 = Ok Qr /\
    shape Qr = [Nk; 2 * q1 - 2; q2] /\
    forall n r j, n < Nk -> r < 2 * q1 - 2 -> j < q2 ->
      data Qr [n; r; j] = data Q [n; (if r <? 2 * q1 - 4 then r / 2 else 0); j].
Proof.
  intros HQ Hq. unfold upRCM. rewrite HQ. cbn [List.length Nat.leb hd].
  replace [Z.of_nat Nk; ((Z.of_nat q1 - 2) * 2 + 2)%Z; Z.of_nat q2]
    with (map Z.of_nat [Nk; 2 * q1 - 2; q2])
    by (cbn [map]; repeat f_equal; lia).
  rewrite zerosZ_of_nat, bind_Ok.
  set (sh := [Nk; 2 * q1 - 2; q2]).
  loop_writes (fun idx => existsb (fun n => selected [At n; All; All] idx) (range Nk))
              (F3w q1) Hloop.
  - apply (forM_writes (fun n => n < Nk) (fun n => selected [At n; All; All])
                       (F3w q1) sh); [|apply Forall_range|reflexivity].
    intros n S Hn HS.
    rewrite getitem_ok by (rewrite HQ; bounds). rewrite bind_Ok.
    set (Qn := getsel Q [At n; All; All]).
    assert (HQn : shape Qn = [q1; q2])
      by (unfold Qn; cbn [getsel shape]; now rewrite HQ).
    destruct (upRCM1Dw_spec Qn q1 q2 HQn Hq) as [up [Eup [Hsup Hup]]].
    rewrite Eup, bind_Ok.
    apply setitem_writes; [rewrite HS; unfold sh; bounds| |].
    + rewrite Hsup, HS. reflexivity.
    + intros idx sub _ Hinv Hsub. rewrite Hsup in Hsub.
      apply in_bounds_2 in Hsub. destruct Hsub as (a & b & -> & Ha & Hb).
      apply sel_inv_index in Hinv. cbn [sel_index] in Hinv. subst idx.
      rewrite Hup by assumption. reflexivity.
  - destruct Hloop as [Qr [E Wr]].
    exists Qr. split; [exact E|]. split; [now rewrite (writes_shape _ _ _ _ Wr)|].
    intros n r j Hn Hr Hj.
    rewrite (writes_hit _ _ _ _ [n; r; j] Wr);
      [reflexivity|unfold sh; cbn [shape zeros]; bounds|].
    apply existsb_range. exists n. split; [lia|]. pick_cell.
Qed.

Lemma upRCM_defaults_3D Nk q1 q2 :
  shape Q = [Nk; q1; q2] -> 1 <= Nk ->
  upRCM Q 1 1 1 = Raise (if q1 =? 1 then IndexError else ValueError).
Proof.
  intros HQ HNk. unfold upRCM. rewrite HQ. cbn [List.length Nat.leb hd].
  change [Z.of_nat Nk; ((1 - 2) * 2 + 2)%Z; 1%Z] with (map Z.of_nat [Nk; 0; 1]).
  rewrite zerosZ_of_nat, bind_Ok.
  destruct Nk as [|Nk']; [lia|].
  unfold range. cbn [seq forM].
  rewrite getitem_ok by (rewrite HQ; bounds). rewrite bind_Ok.
  set (Qn := getsel Q [At 0; All; All]).
  assert (HQn : shape Qn = [q1; q2])
    by (unfold Qn; cbn [getsel shape]; now rewrite HQ).
  destruct q1 as [|[|[|q]]].
  - now rewrite (upRCM1Dw_no_rows Qn q2 HQn).
  - now rewrite (upRCM1Dw_one_row Qn q2 HQn).
  - destruct (upRCM1Dw_two_rows Qn q2 HQn) as [up [Eup [Hsup _]]].
    rewrite Eup, bind_Ok. unfold setitem. cbn [shape zeros sel_ok sel_shape].
    replace (0 <? S Nk') with true by (symmetry; apply Nat.ltb_lt; lia).
    cbn [andb]. rewrite Hsup. cbn [shape zeros].
    rewrite assignable_rows by lia. reflexivity.
  - destruct (upRCM1Dw_spec Qn (S (S (S q))) q2 HQn) as [up [Eup [Hsup _]]]; [lia|].
    rewrite Eup, bind_Ok. unfold setitem. cbn [shape zeros sel_ok sel_shape].
    replace (0 <? S Nk') with true by (symmetry; apply Nat.ltb_lt; lia).
    cbn [andb]. rewrite Hsup.
    rewrite assignable_rows by lia. reflexivity.
Qed.

End RCM.

(** X7: for a matrix [Q] of shape (Ni,Nj) with Ni >= 3, [upRCM1Dw] returns
    shape (2Ni-2,Nj): the rows of [Q] without its last two, each twice, and
    then row 0 of [Q] twice more as the wrap; the last two rows of [Q] are
    not used. *)
Theorem upRCM1Dw_wraps_first_row (Q : ndarray) (Ni Nj : nat) :
  shape Q = [Ni; Nj] -> 3 <= Ni ->
  exists Qr, upRCM1Dw Q = Ok Qr /\ shape Qr = [2 * Ni - 2; Nj] /\
    forall r j, r < 2 * Ni - 2 -> j < Nj ->
      data Qr [r; j] = data Q [(if r <? 2 * Ni - 4 then r / 2 else 0); j].
Proof. exact (upRCM1Dw_spec Q Ni Nj). Qed.

Lemma upRCM1Dw_wraps_first_row_witness :
  exists Qr, upRCM1Dw mat43 = Ok Qr /\ shape Qr = [6; 3] /\
    data Qr [3; 2] = data mat43 [1; 2] /\ data Qr [5; 2] = data mat43 [0; 2].
Proof.
  destruct (upRCM1Dw_wraps_first_row mat43 4 3 eq_refl) as [Qr [E [Hs Hc]]].
  - lia.
  - exists Qr. split; [exact E|]. split; [exact Hs|].
    split; [apply (Hc 3 2); lia|apply (Hc 5 2); lia].
Defined.

(** X8: on a matrix with fewer than three rows [upRCM1Dw] does not wrap
    anything: without rows it raises [ValueError], with one row it raises
    [IndexError], and with two rows it returns zeros of shape (2,Nj). *)
Theorem upRCM1Dw_short_input (Q : ndarray) (Ni Nj : nat) :
  shape Q = [Ni; Nj] ->
  (Ni = 0 -> upRCM1Dw Q = Raise ValueError) /\
  (Ni = 1 -> upRCM1Dw Q = Raise IndexError) /\
  (Ni = 2 -> exists Qr, upRCM1Dw Q = Ok Qr /\ arr_eq Qr (zeros [2; Nj])).
Proof.
  intros HQ. repeat split; intros ->.
  - now apply upRCM1Dw_no_rows with (Nj := Nj).
  - now apply upRCM1Dw_one_row with (Nj := Nj).
  - destruct (upRCM1Dw_two_rows Q Nj HQ) as [Qr [E [Hs Hd]]].
    exists Qr. split; [exact E|]. split; assumption.
Qed.

Lemma upRCM1Dw_short_input_witness :
  exists Qr, upRCM1Dw mat22 = Ok Qr /\ arr_eq Qr (zeros [2; 2]).
Proof.
  destruct (upRCM1Dw_short_input mat22 2 2 eq_refl) as (_ & _ & H).
  exact (H eq_refl).
Defined.

(** X9: [upRCMCpl] doubles the first axis of a 2D array and the middle axis
    of a 3D array, and no other axis: every row is stored twice.  The 2x2
    array of the docstring gives a 4x2 array, not the 3x3 array shown there. *)
Theorem upRCMCpl_doubles_rows (Q : ndarray) (N : Z) :
  (forall Ni Nj, shape Q = [Ni; Nj] ->
     exists Qr, upRCMCpl Q N = Ok Qr /\ shape Qr = [Ni * 2; Nj] /\
       forall ii j, ii < Ni * 2 -> j < Nj ->
         data Qr [ii; j] = data Q [ii / 2; j]) /\
  (forall Nk Ni Nj, shape Q = [Nk; Ni; Nj] ->
     exists Qr, upRCMCpl Q N = Ok Qr /\ shape Qr = [Nk; Ni * 2; Nj] /\
       forall n ii j, n < Nk -> ii < Ni * 2 -> j < Nj ->
         data Qr [n; ii; j] = data Q [n; ii / 2; j]).
Proof.
  split.
  - intros Ni Nj HQ. now apply upRCMCpl_2D.
  - intros Nk Ni Nj HQ. now apply upRCMCpl_3D.
Qed.

Lemma upRCMCpl_doubles_rows_witness :
  exists Qr, upRCMCpl mat22 1 = Ok Qr /\ shape Qr = [4; 2] /\
    data Qr [1; 0] = Qc_of_nat 1 /\ data Qr [1; 1] = Qc_of_nat 2 /\
    data Qr [2; 0] = Qc_of_nat 3 /\ data Qr [3; 1] = Qc_of_nat 4.
Proof.
  destruct (upRCMCpl_doubles_rows mat22 1) as [H2 _].
  destruct (H2 2 2 eq_refl) as [Qr [E [Hs Hc]]].
  exists Qr. split; [exact E|]. split; [exact Hs|].
  rewrite (Hc 1 0), (Hc 1 1), (Hc 2 0), (Hc 3 1) by lia.
  repeat split; reflexivity.
Defined.

(** X10: [upRCMCpl] doubles a 1D array, entry by entry, only when its
    length is the argument [N]; a 1D array of any other length is returned as
    it is. *)
Theorem upRCMCpl_vector (Q : ndarray) (N : Z) (n : nat) :
  shape Q = [n] ->
  (Z.of_nat n = N ->
     exists Qr, upRCMCpl Q N = Ok Qr /\ shape Qr = [n * 2] /\
       forall ii, ii < n * 2 -> data Qr [ii] = data Q [ii / 2]) /\
  (Z.of_nat n <> N -> upRCMCpl Q N = Ok Q).
Proof.
  intros HQ. split.
  - intros <-. now apply upRCMCpl_1D_doubled.
  - intros HN. now apply upRCMCpl_1D_kept with (n := n).
Qed.

Lemma upRCMCpl_vector_witness :
  (exists Qr, upRCMCpl vec4 4 = Ok Qr /\ shape Qr = [8] /\
     data Qr [5] = data vec4 [2]) /\
  upRCMCpl vec4 1 = Ok vec4.
Proof.
  destruct (upRCMCpl_vector vec4 4 4 eq_refl) as [H _].
  destruct (H eq_refl) as [Qr [E [Hs Hc]]].
  destruct (upRCMCpl_vector vec4 1 4 eq_refl) as [_ H'].
  split.
  - exists Qr. split; [exact E|]. split; [exact Hs|]. apply (Hc 5). lia.
  - apply H'. discriminate.
Defined.

(** X11: for a 3D array of shape (Nk,Nj,Ni) with Nj >= 3, [upRCM] called
    with the extents Ni and Nj of the array returns shape (Nk,2Nj-2,Ni):
    every slice along the first axis is upscaled and wrapped as
    [upRCM1Dw] does. *)
Theorem upRCM_slices (Q : ndarray) (Nk0 : Z) (Nk q1 q2 : nat) :
  shape Q = [Nk; q1; q2] -> 3 <= q1 ->
  exists Qr, upRCM Q (Z.of_nat q2) (Z.of_nat q1) Nk0 = Ok Qr /\
    shape Qr = [Nk; 2 * q1 - 2; q2] /\
    forall n r j, n < Nk -> r < 2 * q1 - 2 -> j < q2 ->
      data Qr [n; r; j] = data Q [n; (if r <? 2 * q1 - 4 then r / 2 else 0); j].
Proof. exact (upRCM_3D Q Nk0 Nk q1 q2). Qed.

Lemma upRCM_slices_witness :
  exists Qr, upRCM cube243 3 4 1 = Ok Qr /\ shape Qr = [2; 6; 3] /\
    data Qr [1; 4; 2] = data cube243 [1; 0; 2].
Proof.
  destruct (upRCM_slices cube243 1 2 4 3 eq_refl) as [Qr [E [Hs Hc]]].
  - lia.
  - exists Qr. split; [exact E|]. split; [exact Hs|]. apply (Hc 1 4 2); lia.
Defined.

(** X12: with its default arguments Ni = Nj = Nk = 1, [upRCM] raises on
    every 3D array that has a slice: the result array is allocated with no
    rows, and no upscaled slice fits into it. *)
Theorem upRCM_default_arguments_raise (Q : ndarray) (Nk q1 q2 : nat) :
  shape Q = [Nk; q1; q2] -> 1 <= Nk ->
  upRCM Q 1 1 1 = Raise (if q1 =? 1 then IndexError else ValueError).
Proof. exact (upRCM_defaults_3D Q Nk q1 q2). Qed.

Lemma upRCM_default_arguments_raise_witness :
  upRCM cube243 1 1 1 = Raise ValueError.
Proof.
  apply (upRCM_default_arguments_raise cube243 2 4 3 eq_refl). lia.
Defined.

(** * Restart files: what is left alone, and what makes the calls fail *)

Lemma bind_Ok_inv {A B : Type} (c : result A) (k : A -> result B) b :
  bind c k = Ok b -> exists a, c = Ok a /\ k a = Ok b.
Proof. destruct c as [a|e]; simpl; [eauto|discriminate]. Qed.

(** A loop that returns has kept every invariant that its returning
    iterations keep. *)
Lemma forM_Ok_inv {A S : Type} (I : S -> Prop) (body : A -> S -> result S) l :
  (forall t s s', In t l -> I s -> body t s = Ok s' -> I s') ->
  forall s s', I s -> forM l s body = Ok s' -> I s'.
Proof.
  induction l as [|x l IH]; intros Hbody s s' HI E; simpl in E.
  - now injection E as <-.
  - apply bind_Ok_inv in E. destruct E as [s1 [E1 E2]].
    apply (IH (fun t a b Ht => Hbody t a b (or_intror Ht)) s1 s');
      [|exact E2].
    apply (Hbody x s s1); [now left|exact HI|exact E1].
Qed.

(** A loop with an iteration that raises in every state raises. *)
Lemma forM_raises {A S : Type} (body : A -> S -> result S) l t :
  In t l -> (forall s, exists e, body t s = Raise e) ->
  forall s, exists e, forM l s body = Raise e.
Proof.
  induction l as [|x l IH]; intros Hin Ht s; [contradiction|]. simpl.
  destruct Hin as [->|Hin].
  - destruct (Ht s) as [e E]. exists e. now rewrite E.
  - destruct (body x s) as [s1|e]; simpl; [now apply IH|now exists e].
Qed.

Lemma product3_empty a b c :
  a = 0 \/ b = 0 \/ c = 0 -> Gampp.product3 a b c = [].
Proof.
  intros H. destruct (Gampp.product3 a b c) as [|[[i j] k] l] eqn:E; [reflexivity|].
  assert (Hin : In (i, j, k) (Gampp.product3 a b c)) by (rewrite E; now left).
  apply in_product3 in Hin. lia.
Qed.

(** X17: [PushRestartMPI] writes the files of the ranks and nothing else:
    when it returns, every path that is not the name of a rank file holds
    what it held before. *)
Theorem PushRestartMPI_keeps_other_files
    (genName : string -> nat -> nat -> nat -> nat -> nat -> nat -> Z -> string)
    (outid : string) (nRes : Z) (Ri Rj Rk : nat) (X Y Z G M oG oM : ndarray)
    (fInA : string) (G0 : option ndarray) (fs fs' : Restart.filesystem)
    (path : string) :
  Restart.PushRestartMPI genName outid nRes Ri Rj Rk X Y Z G M oG oM fInA G0 fs
  = Ok fs' ->
  (forall i j k, i < Ri -> j < Rj -> k < Rk ->
                 genName outid i j k Ri Rj Rk nRes <> path) ->
  fs' path = fs path.
Proof.
  intros E Hpath. unfold Restart.PushRestartMPI in E.
  apply bind_Ok_inv in E. destruct E as [iH5 [_ E]].
  apply bind_Ok_inv in E. destruct E as [[[[[Ns Nv] Nk] Nj] Ni] [_ E]].
  apply bind_Ok_inv in E. destruct E as [Nkp [_ E]].
  apply bind_Ok_inv in E. destruct E as [Njp [_ E]].
  apply bind_Ok_inv in E. destruct E as [Nip [_ E]].
  revert E.
  apply (forM_Ok_inv (fun fs1 : Restart.filesystem => fs1 path = fs path));
    [|reflexivity].
  intros [[i j] k] fs1 fs2 Hin HI Ebody.
  apply in_product3 in Hin. destruct Hin as (Hi & Hj & Hk).
  cbv zeta in Ebody.
  repeat (apply bind_Ok_inv in Ebody; destruct Ebody as [? [_ Ebody]]).
  injection Ebody as <-. unfold Restart.store.
  destruct (String.eqb_spec path (genName outid i j k Ri Rj Rk nRes)) as [->|_];
    [|exact HI].
  exfalso. exact (Hpath i j k Hi Hj Hk eq_refl).
Qed.

(** X18: [PullRestartMPI] never returns arrays gathered from an incomplete
    set of rank files: when the file of one rank is missing, the call
    raises. *)
Theorem PullRestartMPI_missing_rank_file
    (genName : string -> nat -> nat -> nat -> nat -> nat -> nat -> Z -> string)
    (bStr : string) (nRes : Z) (Ri Rj Rk : nat) (dIn : option string)
    (oH5 : option Restart.h5file) (fs : Restart.filesystem) (i j k : nat) :
  i < Ri -> j < Rj -> k < Rk ->
  fs (match dIn with
      | Some d => (d ++ "/" ++ genName bStr i j k Ri Rj Rk nRes)%string
      | None => genName bStr i j k Ri Rj Rk nRes
      end) = None ->
  exists e, Restart.PullRestartMPI genName bStr nRes Ri Rj Rk dIn oH5 fs = Raise e.
Proof.
  intros Hi Hj Hk Hnone. unfold Restart.PullRestartMPI.
  match goal with
  | |- exists e, bind (forM ?l ?s0 ?body) _ = _ =>
      assert (R : exists e, forM l s0 body = Raise e)
  end.
  { apply forM_raises with (t := (i, j, k)).
    - apply in_product3. auto.
    - intros st. exists OSError. cbv zeta. unfold Restart.open_r.
      now rewrite Hnone. }
  destruct R as [e E]. exists e. now rewrite E.
Qed.

(** X19: with a rank count of zero along an axis there is no rank file to
    split into or to gather from: [PushRestartMPI] raises
    [ZeroDivisionError] when it divides the extents of a 5D gas state, and
    [PullRestartMPI] raises [UnboundLocalError], since no file sets its
    arrays. *)
Theorem restart_without_ranks
    (genName : string -> nat -> nat -> nat -> nat -> nat -> nat -> Z -> string)
    (outid : string) (nRes : Z) (Ri Rj Rk : nat) (X Y Z G M oG oM : ndarray)
    (fInA : string) (G0 : option ndarray) (dIn : option string)
    (oH5 : option Restart.h5file) (fs : Restart.filesystem)
    (fA : Restart.h5file) (Ns Nv Nk Nj Ni : nat) :
  Ri = 0 \/ Rj = 0 \/ Rk = 0 ->
  (fs fInA = Some fA -> shape G = [Ns; Nv; Nk; Nj; Ni] ->
   Restart.PushRestartMPI genName outid nRes Ri Rj Rk X Y Z G M oG oM fInA G0 fs
   = Raise ZeroDivisionError) /\
  Restart.PullRestartMPI genName outid nRes Ri Rj Rk dIn oH5 fs
  = Raise UnboundLocalError.
Proof.
  intros HR. split.
  - intros HfA HG. unfold Restart.PushRestartMPI, Restart.open_r.
    rewrite HfA, bind_Ok, HG. cbn [unpack5]. rewrite bind_Ok.
    unfold Restart.floordiv.
    destruct (Nat.eqb_spec Rk 0) as [_|Hk]; [reflexivity|]. rewrite bind_Ok.
    destruct (Nat.eqb_spec Rj 0) as [_|Hj]; [reflexivity|]. rewrite bind_Ok.
    destruct (Nat.eqb_spec Ri 0) as [_|Hi]; [reflexivity|]. lia.
  - unfold Restart.PullRestartMPI. now rewrite (product3_empty Ri Rj Rk HR).
Qed.

Lemma PushRestartMPI_keeps_other_files_witness :
  exists fs',
    Restart.PushRestartMPI genName_res "out" 7 2 1 1
      (axis_grid 2 1 1 2) (axis_grid 1 1 1 2) (axis_grid 0 1 1 2)
      (image_gas 1) (image_flux 1) (image_gas 20) (image_flux 20)
      "in.h5" (Some (image_gas 40)) attrs_only = Ok fs' /\
    fs' "in.h5"%string = attrs_only "in.h5"%string /\
    fs' "other.h5"%string = attrs_only "other.h5"%string.
Proof.
  destruct (Push_files genName_res "out" 7 2 1 1
              (axis_grid 2 1 1 2) (axis_grid 1 1 1 2) (axis_grid 0 1 1 2)
              (image_gas 1) (image_flux 1) (image_gas 20) (image_flux 20)
              "in.h5" (Some (image_gas 40)) attrs_only
              (Restart.mkH5 [] [("UnitsID", "CODE")]%string) 1 1 1 1 1)
    as [fs' [E _]]; try reflexivity; try lia.
  - intros g0 Hg0. injection Hg0 as <-. reflexivity.
  - intros i j k i' j' k' Hi Hj Hk Hi' Hj' Hk' En.
    assert (j = 0) by lia. assert (j' = 0) by lia.
    assert (k = 0) by lia. assert (k' = 0) by lia. subst.
    destruct i as [|[|i]]; [| |lia]; destruct i' as [|[|i']]; try lia;
      try (repeat split; reflexivity);
      vm_compute in En; discriminate En.
  - intros i j k Hi Hj Hk En.
    assert (j = 0) by lia. assert (k = 0) by lia. subst.
    destruct i as [|[|i]]; [| |lia]; vm_compute in En; discriminate En.
  - exists fs'. split; [exact E|].
    split; apply (PushRestartMPI_keeps_other_files _ _ _ _ _ _ _ _ _ _ _ _ _ _ _
                    _ _ _ E);
      intros i j k Hi Hj Hk En;
      assert (j = 0) by lia; assert (k = 0) by lia; subst;
      (destruct i as [|[|i]]; [| |lia]; vm_compute in En; discriminate En).
Defined.

Lemma PullRestartMPI_missing_rank_file_witness :
  exists e, Restart.PullRestartMPI genName_res "out" 7 2 1 1 None None attrs_only
            = Raise e.
Proof.
  apply (PullRestartMPI_missing_rank_file genName_res "out" 7 2 1 1 None None
           attrs_only 1 0 0); try lia. reflexivity.
Defined.

Lemma restart_without_ranks_witness :
  Restart.PushRestartMPI genName_res "out" 7 0 1 1
    (axis_grid 2 1 1 2) (axis_grid 1 1 1 2) (axis_grid 0 1 1 2)
    (image_gas 1) (image_flux 1) (image_gas 20) (image_flux 20)
    "in.h5" None attrs_only = Raise ZeroDivisionError /\
  Restart.PullRestartMPI genName_res "out" 7 0 1 1 None None attrs_only
  = Raise UnboundLocalError.
Proof.
  destruct (restart_without_ranks genName_res "out" 7 0 1 1
              (axis_grid 2 1 1 2) (axis_grid 1 1 1 2) (axis_grid 0 1 1 2)
              (image_gas 1) (image_flux 1) (image_gas 20) (image_flux 20)
              "in.h5" None None None attrs_only
              (Restart.mkH5 [] [("UnitsID", "CODE")]%string) 1 1 1 1 2)
    as [Hpush Hpull].
  - left. reflexivity.
  - split; [exact (Hpush eq_refl eq_refl)|exact Hpull].
Defined.

(** * Halving after doubling *)

(** X4: in exact arithmetic, for every plain 4D accumulator field [G],
    [downVolt (upVolt G)] is [G]: the mean of the four copies of a cell is
    the cell. *)
Theorem downVolt_upVolt_identity (G : ndarray) (Nd Nk Nj Ni : nat) :
  shape G = [Nd; Nk; Nj; Ni] ->
  exists Gu Gd, upVolt G = Ok Gu /\ downVolt Gu = Ok Gd /\ arr_eq Gd G.
Proof.
  intros HG.
  destruct (upVolt_4d_spec G Nd Nk Nj Ni HG) as [Gu [Eu [Hsu Hcu]]].
  destruct (downVolt_4d_spec Gu Nd (2 * Nk) (2 * Nj) Ni Hsu) as [Gd [Ed [Hsd Hcd]]].
  assert (Hk : 2 * Nk / 2 = Nk) by lia.
  assert (Hj : 2 * Nj / 2 = Nj) by lia.
  rewrite Hk, Hj in Hsd, Hcd.
  exists Gu, Gd. split; [unfold upVolt; now rewrite Eu|]. split; [exact Ed|].
  split; [congruence|].
  intros idx Hb. rewrite Hsd in Hb.
  apply in_bounds_4 in Hb. destruct Hb as (d & k & j & i & -> & Hd & Hk' & Hj' & Hi).
  rewrite Hcd by assumption. rewrite !Hcu by lia.
  replace (2 * k / 2) with k by lia. replace ((2 * k + 1) / 2) with k by lia.
  replace (2 * j / 2) with j by lia. replace ((2 * j + 1) / 2) with j by lia.
  apply mean_of_four.
Qed.

Lemma downVolt_upVolt_identity_witness :
  exists Gu Gd, upVolt volt4 = Ok Gu /\ downVolt Gu = Ok Gd /\ arr_eq Gd volt4.
Proof. exact (downVolt_upVolt_identity volt4 1 2 4 1 eq_refl). Defined.

Local Open Scope Qc_scope.

Lemma four_quarters (m : Qc) :
  quarter * m + quarter * m + quarter * m + quarter * m = m.
Proof. rewrite quarter_inv. field. apply two_neq_0. Qed.

Close Scope Qc_scope.

Section FluxRoundTrip.

Variables (X Y Z M Xu Yu Zu Mu : ndarray) (Nd Nk Nj Ni : nat).

Hypothesis HMu : forall kk jj ii, kk < 2 * Nk -> jj < 2 * Nj -> ii < 2 * Ni ->
  data Mu [0; kk; jj; ii] = fine_face M [0; kk; jj; ii] /\
  data Mu [0; kk; jj; ii + 1] = fine_face M [0; kk; jj; ii + 1] /\
  data Mu [1; kk; jj; ii] = fine_face M [1; kk; jj; ii] /\
  data Mu [1; kk; jj + 1; ii] = fine_face M [1; kk; jj + 1; ii] /\
  data Mu [2; kk; jj; ii] = fine_face M [2; kk; jj; ii] /\
  data Mu [2; kk + 1; jj; ii] = fine_face M [2; kk + 1; jj; ii].

(** The fine faces that lie on a coarse face hold a quarter of its flux. *)
Lemma on_coarse_I kk jj i :
  kk < 2 * Nk -> jj < 2 * Nj -> i <= Ni -> 1 <= Ni ->
  data Mu [0; kk; jj; 2 * i] = Qcmult quarter (data M [0; kk / 2; jj / 2; i]).
Proof.
  intros Hk Hj Hi HN. rewrite <- (fine_face_I_even M kk jj i) by reflexivity.
  destruct (Nat.eq_dec i Ni) as [->|Hne].
  - destruct (HMu kk jj (2 * Ni - 1)) as (_ & F & _); try lia.
    now replace (2 * Ni - 1 + 1) with (2 * Ni) in F by lia.
  - destruct (HMu kk jj (2 * i)) as (F & _); try lia. exact F.
Qed.

Lemma on_coarse_J kk j ii :
  kk < 2 * Nk -> j <= Nj -> ii < 2 * Ni -> 1 <= Nj ->
  data Mu [1; kk; 2 * j; ii] = Qcmult quarter (data M [1; kk / 2; j; ii / 2]).
Proof.
  intros Hk Hj Hi HN. rewrite <- (fine_face_J_even M kk j ii) by reflexivity.
  destruct (Nat.eq_dec j Nj) as [->|Hne].
  - destruct (HMu kk (2 * Nj - 1) ii) as (_ & _ & _ & F & _); try lia.
    now replace (2 * Nj - 1 + 1) with (2 * Nj) in F by lia.
  - destruct (HMu kk (2 * j) ii) as (_ & _ & F & _); try lia. exact F.
Qed.

Lemma on_coarse_K k jj ii :
  k <= Nk -> jj < 2 * Nj -> ii < 2 * Ni -> 1 <= Nk ->
  data Mu [2; 2 * k; jj; ii] = Qcmult quarter (data M [2; k; jj / 2; ii / 2]).
Proof.
  intros Hk Hj Hi HN. rewrite <- (fine_face_K_even M k jj ii) by reflexivity.
  destruct (Nat.eq_dec k Nk) as [->|Hne].
  - destruct (HMu (2 * Nk - 1) jj ii) as (_ & _ & _ & _ & _ & F); try lia.
    now replace (2 * Nk - 1 + 1) with (2 * Nk) in F by lia.
  - destruct (HMu (2 * k) jj ii) as (_ & _ & _ & _ & F & _); try lia. exact F.
Qed.

Lemma sumI_on_coarse k j i :
  k < Nk -> j < Nj -> i <= Ni -> 1 <= Ni ->
  sumI Mu k j (2 * i) = data M [0; k; j; i].
Proof.
  intros Hk Hj Hi HN. unfold sumI, IDIR.
  rewrite !on_coarse_I by lia.
  replace (2 * k / 2) with k by lia. replace ((2 * k + 1) / 2) with k by lia.
  replace (2 * j / 2) with j by lia. replace ((2 * j + 1) / 2) with j by lia.
  apply four_quarters.
Qed.

Lemma sumJ_on_coarse k j i :
  k < Nk -> j <= Nj -> i < Ni -> 1 <= Nj ->
  sumJ Mu k (2 * j) i = data M [1; k; j; i].
Proof.
  intros Hk Hj Hi HN. unfold sumJ, JDIR.
  rewrite !on_coarse_J by lia.
  replace (2 * k / 2) with k by lia. replace ((2 * k + 1) / 2) with k by lia.
  replace (2 * i / 2) with i by lia. replace ((2 * i + 1) / 2) with i by lia.
  apply four_quarters.
Qed.

Lemma sumK_on_coarse k j i :
  k <= Nk -> j < Nj -> i < Ni -> 1 <= Nk ->
  sumK Mu (2 * k) j i = data M [2; k; j; i].
Proof.
  intros Hk Hj Hi HN. unfold sumK, KDIR.
  rewrite !on_coarse_K by lia.
  replace (2 * j / 2) with j by lia. replace ((2 * j + 1) / 2) with j by lia.
  replace (2 * i / 2) with i by lia. replace ((2 * i + 1) / 2) with i by lia.
  apply four_quarters.
Qed.

End FluxRoundTrip.

(** X5: in exact arithmetic, for every face-flux state [M] with three
    components, halving the doubled state gives back the flux of every face
    of every cell:
    [downFlux (upFlux M)] has the shape of [M] and agrees with [M] on the six
    faces of each cell. *)
Theorem downFlux_upFlux_identity
    (X Y Z M Xu Yu Zu : ndarray) (Nd Nk Nj Ni : nat) :
  shape M = [Nd; Nk + 1; Nj + 1; Ni + 1] -> 3 <= Nd ->
  exists Mu Md,
    upFlux X Y Z M Xu Yu Zu = Ok Mu /\ downFlux Xu Yu Zu Mu X Y Z = Ok Md /\
    shape Md = shape M /\
    forall k j i, k < Nk -> j < Nj -> i < Ni ->
      data Md [IDIR; k; j; i] = data M [IDIR; k; j; i] /\
      data Md [IDIR; k; j; i + 1] = data M [IDIR; k; j; i + 1] /\
      data Md [JDIR; k; j; i] = data M [JDIR; k; j; i] /\
      data Md [JDIR; k; j + 1; i] = data M [JDIR; k; j + 1; i] /\
      data Md [KDIR; k; j; i] = data M [KDIR; k; j; i] /\
      data Md [KDIR; k + 1; j; i] = data M [KDIR; k + 1; j; i].
Proof.
  intros HM HNd.
  destruct (upFlux_faces X Y Z M Xu Yu Zu Nd Nk Nj Ni HM HNd) as [Mu [Eu [Hsu Hu]]].
  destruct (downFlux_faces Xu Yu Zu Mu X Y Z Nd (2 * Nk) (2 * Nj) (2 * Ni) Hsu HNd)
    as [Md [Ed [Hsd Hd]]].
  exists Mu, Md. split; [exact Eu|]. split; [exact Ed|].
  split.
  { rewrite Hsd, HM. repeat f_equal; lia. }
  intros k j i Hk Hj Hi.
  destruct (Hd k j i) as (F1 & F2 & F3 & F4 & F5 & F6); try lia.
  unfold IDIR, JDIR, KDIR. rewrite F1, F2, F3, F4, F5, F6.
  replace (2 * i + 2) with (2 * (i + 1)) by lia.
  replace (2 * j + 2) with (2 * (j + 1)) by lia.
  replace (2 * k + 2) with (2 * (k + 1)) by lia.
  repeat split.
  - apply (sumI_on_coarse M Mu Nk Nj Ni Hu); lia.
  - apply (sumI_on_coarse M Mu Nk Nj Ni Hu); lia.
  - apply (sumJ_on_coarse M Mu Nk Nj Ni Hu); lia.
  - apply (sumJ_on_coarse M Mu Nk Nj Ni Hu); lia.
  - apply (sumK_on_coarse M Mu Nk Nj Ni Hu); lia.
  - apply (sumK_on_coarse M Mu Nk Nj Ni Hu); lia.
Qed.

Lemma downFlux_upFlux_identity_witness :
  exists Mu Md,
    upFlux Xcoarse Ycoarse Zcoarse flux_coarse Xfine Yfine Zfine = Ok Mu /\
    downFlux Xfine Yfine Zfine Mu Xcoarse Ycoarse Zcoarse = Ok Md /\
    shape Md = shape flux_coarse /\
    data Md [KDIR; 1; 0; 0] = data flux_coarse [KDIR; 1; 0; 0].
Proof.
  destruct (downFlux_upFlux_identity Xcoarse Ycoarse Zcoarse flux_coarse
              Xfine Yfine Zfine 3 1 1 1 eq_refl (le_n 3))
    as (Mu & Md & Eu & Ed & Hs & Hc).
  exists Mu, Md. split; [exact Eu|]. split; [exact Ed|]. split; [exact Hs|].
  destruct (Hc 0 0 0) as (_ & _ & _ & _ & _ & F); [lia..|]. exact F.
Defined.

(** * GameraPipe: what the readers return *)

(** ** Index arithmetic of tiles *)

Lemma div_tile i d a : a < d -> (i * d + a) / d = i.
Proof.
  intros H. symmetry. apply (Nat.div_unique (i * d + a) d i a); lia.
Qed.

Lemma mod_tile i d a : a < d -> (i * d + a) mod d = a.
Proof.
  intros H. symmetry. apply (Nat.mod_unique (i * d + a) d i a); lia.
Qed.

Lemma in_its_tile x d R :
  x < R * d -> x / d < R /\ x / d * d <= x < x / d * d + d.
Proof.
  intros H. assert (Hd : d <> 0) by (intros ->; lia).
  pose proof (Nat.div_mod_eq x d) as E.
  pose proof (Nat.mod_upper_bound x d Hd) as U.
  split.
  - apply Nat.Div0.div_lt_upper_bound. lia.
  - lia.
Qed.

(** ** Stores keep the shape *)

Lemma setitem_shape_inv a ss b a' : setitem a ss b = Ok a' -> shape a' = shape a.
Proof.
  unfold setitem. destruct (sel_ok ss (shape a)); [|discriminate].
  destruct (assignable _ _); [|discriminate]. now intros [= <-].
Qed.

Section Shape.

Variable genName : string -> nat -> nat -> nat -> nat -> nat -> nat -> string.
Variable PullVar : string -> string -> option Z -> result ndarray.
Variable gp : Gampp.GameraPipe.

Lemma GetVar_shape_inv order vID sID vScl doVerb V :
  Gampp.GetVar genName PullVar gp order vID sID vScl doVerb = Ok V ->
  shape V = shape (Gampp.alloc_V gp).
Proof.
  unfold Gampp.GetVar.
  destruct (Gampp.isMPI gp && Gampp.doParallel gp).
  - unfold Gampp.GetVarParallel. intros E.
    apply bind_Ok_inv in E. destruct E as [_ [_ E]].
    apply bind_Ok_inv in E. destruct E as [datasets [_ E]].
    apply bind_Ok_inv in E. destruct E as [V0 [E0 E]].
    assert (H0 : shape V0 = shape (Gampp.alloc_V gp)).
    { revert E0. apply (forM_Ok_inv (fun S => shape S = shape (Gampp.alloc_V gp)));
        [|reflexivity].
      intros [dataset [[i j] k]] S S' _ HS Eb.
      now rewrite (setitem_shape_inv _ _ _ _ Eb). }
    destruct vScl; injection E as <-; exact H0.
  - apply (forM_Ok_inv (fun S => shape S = shape (Gampp.alloc_V gp)));
      [|reflexivity].
    intros [[i j] k] S S' _ HS Eb.
    apply bind_Ok_inv in Eb. destruct Eb as [dataset [_ Eb]].
    now rewrite (setitem_shape_inv _ _ _ _ Eb).
Qed.

End Shape.

(** X20: when [GetVar] returns, in the sequential or in the concurrent
    mode and whatever the rank files hold, the array has the global shape of
    the pipe: (Ni,Nj) for a 2D pipe and (Ni,Nj,Nk) otherwise. *)
Theorem GetVar_returns_global_shape
    (genName : string -> nat -> nat -> nat -> nat -> nat -> nat -> string)
    (PullVar : string -> string -> option Z -> result ndarray)
    (gp : Gampp.GameraPipe) (order : list nat) (vID : string) (sID : option Z)
    (vScl : option Qc) (doVerb : bool) (V : ndarray) :
  Gampp.GetVar genName PullVar gp order vID sID vScl doVerb = Ok V ->
  shape V = if Gampp.is2D gp then [Gampp.Ni gp; Gampp.Nj gp]
            else [Gampp.Ni gp; Gampp.Nj gp; Gampp.Nk gp].
Proof.
  intros E. rewrite (GetVar_shape_inv _ _ _ _ _ _ _ _ _ E).
  unfold Gampp.alloc_V. now destruct (Gampp.is2D gp).
Qed.

Lemma GetVar_returns_global_shape_witness :
  shape (returned (Gampp.GetVar genName_gam two_rank_files pipe_parallel [1; 0]
                                "D" (Some 0%Z) (Some two) true)) = [2; 1; 1].
Proof.
  destruct (Gampp.GetVar genName_gam two_rank_files pipe_parallel [1; 0]
                         "D" (Some 0%Z) (Some two) true) as [V|e] eqn:E.
  - exact (GetVar_returns_global_shape _ _ _ _ _ _ _ _ _ E).
  - vm_compute in E. discriminate E.
Defined.

(** ** The assembled array, cell by cell *)

Section Assembly.

Variable genName : string -> nat -> nat -> nat -> nat -> nat -> nat -> string.
Variable PullVar : string -> string -> option Z -> result ndarray.
Variable gp : Gampp.GameraPipe.
Variable vID : string.
Variable sID : option Z.
Variable D : nat * nat * nat -> ndarray.

Let ranks : list (nat * nat * nat) :=
  Gampp.product3 (Gampp.Ri gp) (Gampp.Rj gp) (Gampp.Rk gp).

Let tile_of (t : nat * nat * nat) : list sel :=
  let '(i, j, k) := t in Gampp.tile gp i j k.

Hypothesis H3D : Gampp.is2D gp = false.
Hypothesis HNi : Gampp.Ni gp = Gampp.Ri gp * Gampp.dNi gp.
Hypothesis HNj : Gampp.Nj gp = Gampp.Rj gp * Gampp.dNj gp.
Hypothesis HNk : Gampp.Nk gp = Gampp.Rk gp * Gampp.dNk gp.
Hypothesis Hshape : forall t, In t ranks ->
  shape (D t) = [Gampp.dNi gp; Gampp.dNj gp; Gampp.dNk gp].

(** The cell [(x,y,z)] of the assembled array: the cell of the dataset of
    the rank whose tile holds it. *)
Let assembled (idx : index) : Qc :=
  match idx with
  | [x; y; z] =>
      data (D (x / Gampp.dNi gp, y / Gampp.dNj gp, z / Gampp.dNk gp))
           [x mod Gampp.dNi gp; y mod Gampp.dNj gp; z mod Gampp.dNk gp]
  | _ => Q2Qc 0
  end.

Lemma tile_assembled t S :
  In t ranks -> shape S = [Gampp.Ni gp; Gampp.Nj gp; Gampp.Nk gp] ->
  exists S', setitem S (tile_of t) (D t) = Ok S' /\
             writes (selected (tile_of t)) assembled S S'.
Proof.
  intros Ht HS. pose proof (Hshape t Ht) as HD. destruct t as [[i j] k].
  apply in_product3 in Ht. destruct Ht as (Hi & Hj & Hk).
  unfold tile_of, Gampp.tile. cbv zeta. rewrite H3D.
  apply setitem_writes.
  - rewrite HS. reflexivity.
  - rewrite HD, HS, HNi, HNj, HNk. cbn [sel_shape].
    now rewrite !tile_len by assumption.
  - intros idx sub _ Hinv Hsub. rewrite HD in Hsub.
    apply in_bounds_3 in Hsub. destruct Hsub as (a & b & c & -> & Ha & Hb & Hc).
    apply sel_inv_index in Hinv. cbn [sel_index] in Hinv. subst idx.
    unfold assembled. now rewrite !div_tile, !mod_tile by assumption.
Qed.

Lemma tiles_assembled l :
  Forall (fun t => In t ranks) l ->
  exists V, forM l (Gampp.alloc_V gp) (fun t V => setitem V (tile_of t) (D t)) = Ok V /\
            writes (fun idx => existsb (fun t => selected (tile_of t) idx) l)
                   assembled (Gampp.alloc_V gp) V.
Proof.
  intros Hl.
  apply (forM_writes (fun t => In t ranks) (fun t => selected (tile_of t)) assembled
                     [Gampp.Ni gp; Gampp.Nj gp; Gampp.Nk gp]).
  - intros t S Ht HS. now apply tile_assembled.
  - exact Hl.
  - unfold Gampp.alloc_V. now rewrite H3D.
Qed.

Lemma cell_covered x y z :
  x < Gampp.Ni gp -> y < Gampp.Nj gp -> z < Gampp.Nk gp ->
  existsb (fun t => selected (tile_of t) [x; y; z]) ranks = true.
Proof.
  intros Hx Hy Hz. rewrite HNi in Hx. rewrite HNj in Hy. rewrite HNk in Hz.
  destruct (in_its_tile _ _ _ Hx) as [Ri' Tx].
  destruct (in_its_tile _ _ _ Hy) as [Rj' Ty].
  destruct (in_its_tile _ _ _ Hz) as [Rk' Tz].
  apply existsb_exists.
  exists (x / Gampp.dNi gp, y / Gampp.dNj gp, z / Gampp.dNk gp).
  split; [apply in_product3; auto|].
  unfold tile_of, Gampp.tile. cbv zeta. rewrite H3D. pick_cell.
Qed.

(** The files that the sequential mode reads. *)
Hypothesis Hseq : Gampp.isMPI gp && Gampp.doParallel gp = false.
Hypothesis Hread : forall i j k, In (i, j, k) ranks ->
  PullVar (if Gampp.isMPI gp
           then (Gampp.fdir gp ++ "/" ++ genName (Gampp.ftag gp) i j k
                   (Gampp.Ri gp) (Gampp.Rj gp) (Gampp.Rk gp))%string
           else (Gampp.fdir gp ++ "/" ++ Gampp.ftag gp ++ ".h5")%string) vID sID
  = Ok (D (i, j, k)).

Lemma GetVar_sequential_cells order vScl doVerb :
  exists V, Gampp.GetVar genName PullVar gp order vID sID vScl doVerb = Ok V /\
    shape V = [Gampp.Ni gp; Gampp.Nj gp; Gampp.Nk gp] /\
    forall x y z, x < Gampp.Ni gp -> y < Gampp.Nj gp -> z < Gampp.Nk gp ->
      data V [x; y; z]
      = data (D (x / Gampp.dNi gp, y / Gampp.dNj gp, z / Gampp.dNk gp))
             [x mod Gampp.dNi gp; y mod Gampp.dNj gp; z mod Gampp.dNk gp].
Proof.
  destruct (tiles_assembled ranks) as [V [E Wr]].
  { apply Forall_forall. auto. }
  exists V. split.
  - unfold Gampp.GetVar. rewrite Hseq. fold ranks. rewrite <- E.
    apply forM_ext. intros [[i j] k] S Ht. cbv zeta.
    now rewrite (Hread i j k Ht), bind_Ok.
  - assert (Hs : shape V = [Gampp.Ni gp; Gampp.Nj gp; Gampp.Nk gp]).
    { rewrite (writes_shape _ _ _ _ Wr). unfold Gampp.alloc_V. now rewrite H3D. }
    split; [exact Hs|].
    intros x y z Hx Hy Hz.
    rewrite (writes_hit _ _ _ _ [x; y; z] Wr); [reflexivity| |].
    + unfold Gampp.alloc_V. rewrite H3D. cbn [shape zeros]. bounds.
    + now apply cell_covered.
Qed.

End Assembly.

(** X21: the sequential mode of [GetVar] on a 3D pipe, over rank files or
    over one serial file, returns the assembled array: the cell (x,y,z) holds
    the cell (x mod dNi, y mod dNj, z mod dNk) of the dataset of rank
    (x // dNi, y // dNj, z // dNk), whatever the scale factor. *)
Theorem GetVar_assembles_tiles
    (genName : string -> nat -> nat -> nat -> nat -> nat -> nat -> string)
    (PullVar : string -> string -> option Z -> result ndarray)
    (gp : Gampp.GameraPipe) (vID : string) (sID : option Z)
    (D : nat * nat * nat -> ndarray) (order : list nat) (vScl : option Qc)
    (doVerb : bool) :
  let ranks := Gampp.product3 (Gampp.Ri gp) (Gampp.Rj gp) (Gampp.Rk gp) in
  Gampp.is2D gp = false ->
  Gampp.Ni gp = Gampp.Ri gp * Gampp.dNi gp ->
  Gampp.Nj gp = Gampp.Rj gp * Gampp.dNj gp ->
  Gampp.Nk gp = Gampp.Rk gp * Gampp.dNk gp ->
  (forall t, In t ranks ->
     shape (D t) = [Gampp.dNi gp; Gampp.dNj gp; Gampp.dNk gp]) ->
  Gampp.isMPI gp && Gampp.doParallel gp = false ->
  (forall i j k, In (i, j, k) ranks ->
     PullVar (if Gampp.isMPI gp
              then (Gampp.fdir gp ++ "/" ++ genName (Gampp.ftag gp) i j k
                      (Gampp.Ri gp) (Gampp.Rj gp) (Gampp.Rk gp))%string
              else (Gampp.fdir gp ++ "/" ++ Gampp.ftag gp ++ ".h5")%string)
             vID sID
     = Ok (D (i, j, k))) ->
  exists V, Gampp.GetVar genName PullVar gp order vID sID vScl doVerb = Ok V /\
    shape V = [Gampp.Ni gp; Gampp.Nj gp; Gampp.Nk gp] /\
    forall x y z, x < Gampp.Ni gp -> y < Gampp.Nj gp -> z < Gampp.Nk gp ->
      data V [x; y; z]
      = data (D (x / Gampp.dNi gp, y / Gampp.dNj gp, z / Gampp.dNk gp))
             [x mod Gampp.dNi gp; y mod Gampp.dNj gp; z mod Gampp.dNk gp].
Proof.
  intros ranks H3D HNi HNj HNk Hshape Hseq Hread.
  exact (GetVar_sequential_cells genName PullVar gp vID sID D H3D HNi HNj HNk
           Hshape Hseq Hread order vScl doVerb).
Qed.

Lemma two_rank_reads i j k :
  In (i, j, k) (Gampp.product3 2 1 1) ->
  two_rank_files ("run" ++ "/" ++ genName_gam "msphere" i j k 2 1 1)%string
                 "D" (Some 0%Z)
  = Ok (two_rank_data (i, j, k)).
Proof.
  intros H. apply in_product3 in H. destruct H as (Hi & Hj & Hk).
  assert (j = 0) by lia. assert (k = 0) by lia. subst.
  destruct i as [|[|i]]; [reflexivity|reflexivity|lia].
Defined.

Lemma two_rank_shapes t :
  In t (Gampp.product3 2 1 1) -> shape (two_rank_data t) = [1; 1; 1].
Proof. destruct t as [[i j] k]. reflexivity. Defined.

Lemma GetVar_assembles_tiles_witness :
  exists V, Gampp.GetVar genName_gam two_rank_files pipe_sequential []
                         "D" (Some 0%Z) (Some two) true = Ok V /\
    shape V = [2; 1; 1] /\ data V [1; 0; 0] = Qc_of_nat 3.
Proof.
  destruct (GetVar_assembles_tiles genName_gam two_rank_files pipe_sequential
              "D" (Some 0%Z) two_rank_data [] (Some two) true
              eq_refl eq_refl eq_refl eq_refl two_rank_shapes eq_refl
              two_rank_reads) as [V [E [Hs Hc]]].
  exists V. split; [exact E|]. split; [exact Hs|].
  rewrite (Hc 1 0 0) by (cbn; lia). reflexivity.
Defined.

(** X22: for every 3D pipe over rank files that hold the variable in
    tiles, every pool of at least one worker and every order in which the
    reads complete, the concurrent mode of [GetVar] returns the array that
    the sequential mode returns, times the scale factor when one is given;
    the sequential mode returns the same array with and without a scale
    factor. *)
Theorem GetVar_concurrent_is_scaled_sequential
    (genName : string -> nat -> nat -> nat -> nat -> nat -> nat -> string)
    (PullVar : string -> string -> option Z -> result ndarray)
    (gp : Gampp.GameraPipe) (vID : string) (sID : option Z)
    (D : nat * nat * nat -> ndarray) (order : list nat) (vScl : option Qc)
    (doVerb : bool) :
  let ranks := Gampp.product3 (Gampp.Ri gp) (Gampp.Rj gp) (Gampp.Rk gp) in
  Gampp.isMPI gp = true -> Gampp.is2D gp = false ->
  Gampp.Ni gp = Gampp.Ri gp * Gampp.dNi gp ->
  Gampp.Nj gp = Gampp.Rj gp * Gampp.dNj gp ->
  Gampp.Nk gp = Gampp.Rk gp * Gampp.dNk gp ->
  (forall i j k, In (i, j, k) ranks ->
     PullVar (Gampp.fdir gp ++ "/" ++ genName (Gampp.ftag gp) i j k
                (Gampp.Ri gp) (Gampp.Rj gp) (Gampp.Rk gp))%string vID sID
     = Ok (D (i, j, k))) ->
  (forall t, In t ranks ->
     shape (D t) = [Gampp.dNi gp; Gampp.dNj gp; Gampp.dNk gp]) ->
  Gampp.nWorkers gp <> 0 ->
  Permutation order (range (List.length ranks)) ->
  exists Vs Vp,
    Gampp.GetVar genName PullVar (with_doParallel false gp) order vID sID vScl doVerb
    = Ok Vs /\
    Gampp.GetVar genName PullVar (with_doParallel true gp) order vID sID vScl doVerb
    = Ok (match vScl with Some c => ascale c Vp | None => Vp end) /\
    arr_eq Vs Vp.
Proof.
  intros ranks Hmpi H3D HNi HNj HNk Hread Hshape Hw Hperm.
  exact (GetVar_modes genName PullVar gp vID sID D order vScl doVerb
           Hmpi H3D HNi HNj HNk Hread Hshape Hw Hperm).
Qed.

Lemma GetVar_concurrent_is_scaled_sequential_witness :
  exists Vs Vp,
    Gampp.GetVar genName_gam two_rank_files pipe_sequential [1; 0]
                 "D" (Some 0%Z) (Some two) true = Ok Vs /\
    Gampp.GetVar genName_gam two_rank_files pipe_parallel [1; 0]
                 "D" (Some 0%Z) (Some two) true = Ok (ascale two Vp) /\
    arr_eq Vs Vp.
Proof.
  apply (GetVar_concurrent_is_scaled_sequential genName_gam two_rank_files
           pipe_parallel "D" (Some 0%Z) two_rank_data [1; 0] (Some two) true
           eq_refl eq_refl eq_refl eq_refl eq_refl two_rank_reads two_rank_shapes).
  - discriminate.
  - apply perm_swap.
Defined.

(** ** A read that fails *)

Section FailedRead.

Variable genName : string -> nat -> nat -> nat -> nat -> nat -> nat -> string.
Variable PullVar : string -> string -> option Z -> result ndarray.
Variable gp : Gampp.GameraPipe.

Let ranks : list (nat * nat * nat) :=
  Gampp.product3 (Gampp.Ri gp) (Gampp.Rj gp) (Gampp.Rk gp).

Lemma GetVar_read_raises order vID sID vScl doVerb i j k e0 :
  In (i, j, k) ranks ->
  PullVar (if Gampp.isMPI gp
           then (Gampp.fdir gp ++ "/" ++ genName (Gampp.ftag gp) i j k
                   (Gampp.Ri gp) (Gampp.Rj gp) (Gampp.Rk gp))%string
           else (Gampp.fdir gp ++ "/" ++ Gampp.ftag gp ++ ".h5")%string) vID sID
  = Raise e0 ->
  Permutation order (range (List.length ranks)) ->
  exists e, Gampp.GetVar genName PullVar gp order vID sID vScl doVerb = Raise e.
Proof.
  intros Hin Hread Hperm. unfold Gampp.GetVar.
  destruct (Gampp.isMPI gp) eqn:Hmpi; cbn [andb].
  2:{ apply forM_raises with (t := (i, j, k)); [exact Hin|].
      intros S. exists e0. cbv zeta. now rewrite Hread. }
  destruct (Gampp.doParallel gp).
  2:{ apply forM_raises with (t := (i, j, k)); [exact Hin|].
      intros S. exists e0. cbv zeta. now rewrite Hread. }
  unfold Gampp.GetVarParallel. fold ranks.
  destruct (Gampp.nWorkers gp =? 0); [now exists ValueError|].
  rewrite bind_Ok.
  match goal with
  | |- exists e, bind (forM ?l ?s0 ?body) _ = _ =>
      assert (R : exists e, forM l s0 body = Raise e)
  end.
  { apply forM_raises with (t := @Raise (ndarray * (nat * nat * nat)) e0).
    - apply (Permutation_in (l := map (fun '(fIn, loc) =>
                 Gampp.PullVarLoc PullVar fIn vID sID loc)
               (map (fun '(i, j, k) =>
                  ((Gampp.fdir gp ++ "/" ++ genName (Gampp.ftag gp) i j k
                      (Gampp.Ri gp) (Gampp.Rj gp) (Gampp.Rk gp))%string,
                   (i, j, k))) ranks))).
      + apply Permutation_sym. apply as_completed_perm.
        now rewrite !length_map.
      + rewrite map_map. apply in_map_iff. exists (i, j, k).
        split; [|exact Hin]. unfold Gampp.PullVarLoc. now rewrite Hread.
    - intros S. now exists e0. }
  destruct R as [e E]. exists e. now rewrite E.
Qed.

End FailedRead.

(** X23: [GetVar] does not return an array put together from some of the
    rank files: when the read of one rank file raises, the call raises, in
    the sequential mode and, once every read has completed, in the concurrent
    mode. *)
Theorem GetVar_failed_read
    (genName : string -> nat -> nat -> nat -> nat -> nat -> nat -> string)
    (PullVar : string -> string -> option Z -> result ndarray)
    (gp : Gampp.GameraPipe) (order : list nat) (vID : string) (sID : option Z)
    (vScl : option Qc) (doVerb : bool) (i j k : nat) (e0 : exn) :
  let ranks := Gampp.product3 (Gampp.Ri gp) (Gampp.Rj gp) (Gampp.Rk gp) in
  In (i, j, k) ranks ->
  PullVar (if Gampp.isMPI gp
           then (Gampp.fdir gp ++ "/" ++ genName (Gampp.ftag gp) i j k
                   (Gampp.Ri gp) (Gampp.Rj gp) (Gampp.Rk gp))%string
           else (Gampp.fdir gp ++ "/" ++ Gampp.ftag gp ++ ".h5")%string) vID sID
  = Raise e0 ->
  Permutation order (range (List.length ranks)) ->
  exists e, Gampp.GetVar genName PullVar gp order vID sID vScl doVerb = Raise e.
Proof.
  intros ranks. exact (GetVar_read_raises genName PullVar gp order vID sID vScl
                         doVerb i j k e0).
Qed.

Lemma GetVar_failed_read_witness :
  exists e, Gampp.GetVar genName_gam two_rank_files pipe_three [2; 0; 1]
                         "D" (Some 0%Z) None true = Raise e.
Proof.
  apply (GetVar_failed_read genName_gam two_rank_files pipe_three [2; 0; 1]
           "D" (Some 0%Z) None true 1 0 0 OSError).
  - apply in_product3. cbn. lia.
  - reflexivity.
  - apply Permutation_sym.
    apply (perm_trans (l' := [0; 2; 1])); [apply perm_skip; apply perm_swap|].
    apply perm_swap.
Defined.

(** ** GetSlice *)

Section SliceIndex.

Variable genName : string -> nat -> nat -> nat -> nat -> nat -> nat -> string.
Variable PullVar : string -> string -> option Z -> result ndarray.
Variable gp : Gampp.GameraPipe.

Lemma GetSlice_plane order vID sID ijkdir n vScl doVerb V N0 N1 N2 :
  Gampp.GetVar genName PullVar gp order vID sID vScl false = Ok V ->
  shape V = [N0; N1; N2] ->
  In ijkdir ["IDIR"; "JDIR"; "KDIR"]%string ->
  snd (Gampp.GetSlice genName PullVar gp order vID sID ijkdir n vScl doVerb)
  = let* m := Gampp.wrap_index (n - 1) (slice_extent ijkdir N0 N1 N2) in
    Ok (getsel V (slice_plane ijkdir m)).
Proof.
  intros EV HV Hdir. unfold Gampp.GetSlice. cbv zeta.
  assert (Hup : Gampp.upper ijkdir = ijkdir)
    by (destruct Hdir as [<-|[<-|[<-|[]]]]; reflexivity).
  rewrite Hup.
  replace (existsb (String.eqb ijkdir) ["IDIR"; "JDIR"; "KDIR"]%string) with true
    by (destruct Hdir as [<-|[<-|[<-|[]]]]; reflexivity).
  cbn [negb]. rewrite EV, HV. unfold slice_plane, slice_extent.
  destruct Hdir as [<-|[<-|[<-|[]]]];
    repeat match goal with
           | |- context [String.eqb ?a ?b] =>
               let v := eval vm_compute in (String.eqb a b) in
               change (String.eqb a b) with v
           end; cbv iota;
    (destruct (Gampp.wrap_index (n - 1) _) as [m|e] eqn:Ew;
       [|reflexivity]);
    rewrite !bind_Ok;
    (rewrite getitem_ok;
       [rewrite bind_Ok; destruct doVerb; reflexivity|]);
    rewrite HV; cbn [sel_ok];
    unfold Gampp.wrap_index in Ew;
    repeat match type of Ew with
           | (if ?c then _ else _) = _ => destruct c eqn:?; try discriminate Ew
           end;
    injection Ew as <-;
    repeat match goal with
           | H : (_ && _)%bool = true |- _ =>
               apply andb_true_iff in H; destruct H as [? ?]
           | H : (_ <=? _)%Z = true |- _ => apply Z.leb_le in H
           | H : (_ <? _)%Z = true |- _ => apply Z.ltb_lt in H
           end;
    rewrite ?andb_true_r; apply Nat.ltb_lt; lia.
Qed.

End SliceIndex.

Lemma wrap_index_raises z d e : Gampp.wrap_index z d = Raise e -> e = IndexError.
Proof.
  unfold Gampp.wrap_index.
  destruct (_ && _); [discriminate|]. destruct (_ && _); [discriminate|].
  now intros [= <-].
Qed.

(** X24: [GetSlice] turns its 1-based index [n] into [n - 1] and hands it
    to the array: along an axis of extent N, an index from 1 to N selects the
    plane [n - 1]; an index from 1 - N to 0 does not fail but selects the
    plane [N + n - 1], counted from the end, so that 0 selects the last plane;
    every other index raises [IndexError]. *)
Theorem GetSlice_index
    (genName : string -> nat -> nat -> nat -> nat -> nat -> nat -> string)
    (PullVar : string -> string -> option Z -> result ndarray)
    (gp : Gampp.GameraPipe) (order : list nat) (vID : string) (sID : option Z)
    (ijkdir : string) (n : Z) (vScl : option Qc) (doVerb : bool)
    (V : ndarray) (N0 N1 N2 : nat) :
  let N := Z.of_nat (slice_extent ijkdir N0 N1 N2) in
  let slice := snd (Gampp.GetSlice genName PullVar gp order vID sID ijkdir n
                                   vScl doVerb) in
  Gampp.GetVar genName PullVar gp order vID sID vScl false = Ok V ->
  shape V = [N0; N1; N2] ->
  In ijkdir ["IDIR"; "JDIR"; "KDIR"]%string ->
  ((1 <= n <= N)%Z ->
     slice = Ok (getsel V (slice_plane ijkdir (Z.to_nat (n - 1))))) /\
  ((1 - N <= n <= 0)%Z ->
     slice = Ok (getsel V (slice_plane ijkdir (Z.to_nat (N + n - 1))))) /\
  ((n < 1 - N \/ N < n)%Z -> slice = Raise IndexError).
Proof.
  intros N slice EV HV Hdir. unfold slice.
  rewrite (GetSlice_plane genName PullVar gp order vID sID ijkdir n vScl doVerb
             V N0 N1 N2 EV HV Hdir).
  fold N. repeat split; intros Hn.
  - rewrite wrap_index_in by (unfold N in Hn; lia). reflexivity.
  - rewrite wrap_index_neg by (unfold N in Hn; lia). rewrite bind_Ok.
    do 3 f_equal. unfold N. lia.
  - rewrite wrap_index_out by (unfold N in Hn; lia). reflexivity.
Qed.

Lemma GetSlice_index_witness :
  snd (Gampp.GetSlice genName_gam two_rank_files pipe_sequential []
                      "D" (Some 0%Z) "IDIR" 0 None true)
  = Ok (getsel (returned (Gampp.GetVar genName_gam two_rank_files pipe_sequential
                                       [] "D" (Some 0%Z) None false))
               [At 1; All; All]) /\
  snd (Gampp.GetSlice genName_gam two_rank_files pipe_sequential []
                      "D" (Some 0%Z) "IDIR" 3 None true)
  = Raise IndexError.
Proof.
  destruct (Gampp.GetVar genName_gam two_rank_files pipe_sequential []
                         "D" (Some 0%Z) None false) as [V|e] eqn:E;
    [|vm_compute in E; discriminate E].
  assert (Hs : shape V = [2; 1; 1])
    by (vm_compute in E; injection E as <-; reflexivity).
  cbn [returned]. split.
  - destruct (GetSlice_index genName_gam two_rank_files pipe_sequential []
                "D" (Some 0%Z) "IDIR" 0 None true V 2 1 1 E Hs) as (_ & H & _).
    + left. reflexivity.
    + apply H. vm_compute. split; discriminate.
  - destruct (GetSlice_index genName_gam two_rank_files pipe_sequential []
                "D" (Some 0%Z) "IDIR" 3 None true V 2 1 1 E Hs) as (_ & _ & H).
    + left. reflexivity.
    + apply H. right. reflexivity.
Defined.

(** X25: on a 2D pipe [GetSlice] never returns a slice: when [GetVar]
    returns its 2D array, every direction and every index raise
    [IndexError], since each direction subscripts three axes. *)
Theorem GetSlice_on_2D_pipe
    (genName : string -> nat -> nat -> nat -> nat -> nat -> nat -> string)
    (PullVar : string -> string -> option Z -> result ndarray)
    (gp : Gampp.GameraPipe) (order : list nat) (vID : string) (sID : option Z)
    (ijkdir : string) (n : Z) (vScl : option Qc) (doVerb : bool) :
  Gampp.is2D gp = true ->
  snd (Gampp.GetSlice genName PullVar gp order vID sID ijkdir n vScl doVerb)
  = match Gampp.GetVar genName PullVar gp order vID sID vScl false with
    | Ok _ => Raise IndexError
    | Raise e => Raise e
    end.
Proof.
  intros H2D. unfold Gampp.GetSlice. cbv zeta.
  destruct (Gampp.GetVar genName PullVar gp order vID sID vScl false)
    as [V|e] eqn:EV.
  2:{ destruct (negb _); reflexivity. }
  pose proof (GetVar_shape_inv _ _ _ _ _ _ _ _ _ EV) as HV.
  unfold Gampp.alloc_V in HV. rewrite H2D in HV. cbn [shape zeros] in HV.
  assert (Hwrap : forall d (k : nat -> result (ndarray * string)),
            (forall m, k m = Raise IndexError) ->
            bind (Gampp.wrap_index (n - 1) d) k = Raise IndexError).
  { intros d k Hk. destruct (Gampp.wrap_index (n - 1) d) as [m|e] eqn:Ew.
    - rewrite bind_Ok. apply Hk.
    - now rewrite (wrap_index_raises _ _ _ Ew). }
  destruct (existsb (String.eqb (Gampp.upper ijkdir)) ["IDIR"; "JDIR"; "KDIR"]%string)
    eqn:Hd; cbn [negb].
  - cbn [existsb] in Hd. rewrite !orb_true_iff, !String.eqb_eq in Hd.
    destruct Hd as [->|[->|[->|Hd]]]; [| | |discriminate Hd];
      repeat match goal with
             | |- context [String.eqb ?a ?b] =>
                 let v := eval vm_compute in (String.eqb a b) in
                 change (String.eqb a b) with v
             end; cbv iota; rewrite HV.
    + rewrite Hwrap; [reflexivity|].
      intros m. unfold getitem. rewrite HV. cbn [sel_ok].
      now rewrite andb_false_r.
    + rewrite Hwrap; [reflexivity|].
      intros m. unfold getitem. rewrite HV. cbn [sel_ok].
      now rewrite andb_false_r.
    + reflexivity.
  - change (String.eqb "IDIR" "IDIR") with true. cbv iota. rewrite HV.
    rewrite Hwrap; [reflexivity|].
    intros m. unfold getitem. rewrite HV. cbn [sel_ok].
    now rewrite andb_false_r.
Qed.

Lemma GetSlice_on_2D_pipe_witness :
  snd (Gampp.GetSlice genName_gam flat_file pipe_2D [] "D" None "jdir" 1 None true)
  = Raise IndexError.
Proof.
  rewrite (GetSlice_on_2D_pipe genName_gam flat_file pipe_2D [] "D" None "jdir" 1
             None true eq_refl).
  reflexivity.
Defined.

(** * GameraPipe.GetGrid *)

Section Grid.

Variable genName : string -> nat -> nat -> nat -> nat -> nat -> nat -> string.
Variable PullVar : string -> string -> option Z -> result ndarray.
Variable gp : Gampp.GameraPipe.
Variable PullVarLoc_row :
  string -> ndarray -> nat * nat * nat -> result (ndarray * (nat * nat * nat)).

(** The global node arrays and cell volumes that the rank files hold in
    tiles. *)
Variables (Xg Yg Zg dVg : ndarray).

Let ranks : list (nat * nat * nat) :=
  Gampp.product3 (Gampp.Ri gp) (Gampp.Rj gp) (Gampp.Rk gp).

Let nodes_of (t : nat * nat * nat) : list sel :=
  let '(i, j, k) := t in Gampp.node_tile gp i j k.

Let cells_of (t : nat * nat * nat) : list sel :=
  let '(i, j, k) := t in Gampp.tile gp i j k.

Let shN : list nat := [Gampp.Ni gp + 1; Gampp.Nj gp + 1; Gampp.Nk gp + 1].
Let shC : list nat := [Gampp.Ni gp; Gampp.Nj gp; Gampp.Nk gp].

Hypothesis H3D : Gampp.is2D gp = false.
Hypothesis HRi : 1 <= Gampp.Ri gp.
Hypothesis HRj : 1 <= Gampp.Rj gp.
Hypothesis HRk : 1 <= Gampp.Rk gp.
Hypothesis HNi : Gampp.Ni gp = Gampp.Ri gp * Gampp.dNi gp.
Hypothesis HNj : Gampp.Nj gp = Gampp.Rj gp * Gampp.dNj gp.
Hypothesis HNk : Gampp.Nk gp = Gampp.Rk gp * Gampp.dNk gp.

Lemma node_store Ag t S :
  shape Ag = shN -> shape S = shN ->
  exists S', setitem S (nodes_of t) (getsel Ag (nodes_of t)) = Ok S' /\
             writes (selected (nodes_of t)) (data Ag) S S'.
Proof.
  intros HA HS. apply setitem_getsel_writes; [|congruence].
  destruct t as [[i j] k]. unfold nodes_of, Gampp.node_tile. cbv zeta.
  rewrite H3D, HS. reflexivity.
Qed.

Lemma cell_store Ag t S :
  shape Ag = shC -> shape S = shC ->
  exists S', setitem S (cells_of t) (getsel Ag (cells_of t)) = Ok S' /\
             writes (selected (cells_of t)) (data Ag) S S'.
Proof.
  intros HA HS. apply setitem_getsel_writes; [|congruence].
  destruct t as [[i j] k]. unfold cells_of, Gampp.tile. cbv zeta.
  rewrite H3D, HS. reflexivity.
Qed.

Lemma grid_nodes_covered l idx :
  (forall t, In t ranks -> In t l) -> in_bounds idx shN = true ->
  existsb (fun t => selected (nodes_of t) idx) l = true.
Proof.
  clear genName PullVar PullVarLoc_row Xg Yg Zg dVg.
  intros Hl Hb. apply in_bounds_3 in Hb.
  destruct Hb as (x & y & z & -> & Hx & Hy & Hz).
  apply existsb_exists.
  exists (rank_of x (Gampp.dNi gp) (Gampp.Ri gp),
          rank_of y (Gampp.dNj gp) (Gampp.Rj gp),
          rank_of z (Gampp.dNk gp) (Gampp.Rk gp)).
  split.
  - apply Hl. apply in_product3. repeat split; apply rank_of_lt; assumption.
  - assert (Hx' : x <= Gampp.Ri gp * Gampp.dNi gp) by lia.
    assert (Hy' : y <= Gampp.Rj gp * Gampp.dNj gp) by lia.
    assert (Hz' : z <= Gampp.Rk gp * Gampp.dNk gp) by lia.
    pose proof (rank_of_face x _ _ HRi Hx').
    pose proof (rank_of_face y _ _ HRj Hy').
    pose proof (rank_of_face z _ _ HRk Hz').
    unfold nodes_of, Gampp.node_tile. cbv zeta. rewrite H3D. pick_cell.
Qed.

Lemma grid_cells_covered l idx :
  (forall t, In t ranks -> In t l) -> in_bounds idx shC = true ->
  existsb (fun t => selected (cells_of t) idx) l = true.
Proof.
  clear genName PullVar PullVarLoc_row Xg Yg Zg dVg.
  intros Hl Hb. apply in_bounds_3 in Hb.
  destruct Hb as (x & y & z & -> & Hx & Hy & Hz).
  rewrite HNi in Hx. rewrite HNj in Hy. rewrite HNk in Hz.
  apply existsb_exists.
  exists (rank_of x (Gampp.dNi gp) (Gampp.Ri gp),
          rank_of y (Gampp.dNj gp) (Gampp.Rj gp),
          rank_of z (Gampp.dNk gp) (Gampp.Rk gp)).
  split.
  - apply Hl. apply in_product3. repeat split; apply rank_of_lt; assumption.
  - pose proof (rank_of_cell x _ _ Hx). pose proof (rank_of_cell y _ _ Hy).
    pose proof (rank_of_cell z _ _ Hz).
    unfold cells_of, Gampp.tile. cbv zeta. rewrite H3D. pick_cell.
Qed.

Hypothesis HXg : shape Xg = shN.
Hypothesis HYg : shape Yg = shN.
Hypothesis HZg : shape Zg = shN.
Hypothesis HdVg : shape dVg = shC.

(** *** The sequential reader *)

Section Sequential.

Hypothesis Hseq : Gampp.isMPI gp && Gampp.doParallel gp = false.

Let path (t : nat * nat * nat) : string :=
  let '(i, j, k) := t in
  if Gampp.isMPI gp
  then (Gampp.fdir gp ++ "/" ++ genName (Gampp.ftag gp) i j k
          (Gampp.Ri gp) (Gampp.Rj gp) (Gampp.Rk gp))%string
  else (Gampp.fdir gp ++ "/" ++ Gampp.ftag gp ++ ".h5")%string.

Hypothesis HreadX : forall t, In t ranks ->
  PullVar (path t) "X" None = Ok (getsel Xg (nodes_of t)).
Hypothesis HreadY : forall t, In t ranks ->
  PullVar (path t) "Y" None = Ok (getsel Yg (nodes_of t)).
Hypothesis HreadZ : forall t, In t ranks ->
  PullVar (path t) "Z" None = Ok (getsel Zg (nodes_of t)).
Hypothesis HreaddV : forall t, In t ranks ->
  PullVar (path t) "dV" None = Ok (getsel dVg (cells_of t)).

Let Wn (done : list (nat * nat * nat)) (idx : index) : bool :=
  existsb (fun t => selected (nodes_of t) idx) done.
Let Wc (done : list (nat * nat * nat)) (idx : index) : bool :=
  existsb (fun t => selected (cells_of t) idx) done.

Let read (done : list (nat * nat * nat))
    (st : ndarray * ndarray * ndarray * ndarray) : Prop :=
  let '(X, Y, Z, dV) := st in
  writes (Wn done) (data Xg) (zeros shN) X /\
  writes (Wn done) (data Yg) (zeros shN) Y /\
  writes (Wn done) (data Zg) (zeros shN) Z /\
  writes (Wc done) (data dVg) (zeros shC) dV.

Lemma GetGrid_sequential_3D oX oY oZ doVerbose g :
  Gampp.gridLoaded g = false ->
  exists X Y Z dV,
    Gampp.GetGrid genName PullVar gp PullVarLoc_row oX oY oZ doVerbose g
    = ([], Ok (Gampp.mkGrid (Some X) (Some Y) (Some Z) (Some dV) true)) /\
    arr_eq X Xg /\ arr_eq Y Yg /\ arr_eq Z Zg /\ arr_eq dV dVg.
Proof.
  intros Hload. unfold Gampp.GetGrid. rewrite Hload. cbn [negb].
  rewrite Hseq, H3D. fold ranks.
  match goal with
  | |- context [forM ranks ?s0 ?body] =>
      destruct (forM_prefix read body ranks s0) as [[[[X Y] Z] dV] [E HI]]
  end.
  - repeat split; intros idx _; reflexivity.
  - intros done [[i j] k] [[[X Y] Z] dV] Hin (HX & HY & HZ & HdV).
    pose proof (HreadX _ Hin) as RX. pose proof (HreadY _ Hin) as RY.
    pose proof (HreadZ _ Hin) as RZ. pose proof (HreaddV _ Hin) as RdV.
    unfold path, nodes_of, cells_of in RX, RY, RZ, RdV.
    cbv zeta. rewrite RX, bind_Ok.
    destruct (node_store Xg (i, j, k) X HXg (writes_shape _ _ _ _ HX))
      as [X' [EX WX]].
    unfold nodes_of in EX. rewrite EX, bind_Ok.
    rewrite RY, bind_Ok.
    destruct (node_store Yg (i, j, k) Y HYg (writes_shape _ _ _ _ HY))
      as [Y' [EY WY]].
    unfold nodes_of in EY. rewrite EY, bind_Ok.
    rewrite RZ, bind_Ok.
    destruct (node_store Zg (i, j, k) Z HZg (writes_shape _ _ _ _ HZ))
      as [Z' [EZ WZ]].
    unfold nodes_of in EZ. rewrite EZ, bind_Ok.
    rewrite RdV, bind_Ok.
    destruct (cell_store dVg (i, j, k) dV HdVg (writes_shape _ _ _ _ HdV))
      as [dV' [EdV WdV]].
    unfold cells_of in EdV. rewrite EdV, bind_Ok.
    eexists. split; [reflexivity|].
    unfold read, Wn, Wc.
    split; [exact (store_tile nodes_of _ _ _ _ _ _ HX WX)|].
    split; [exact (store_tile nodes_of _ _ _ _ _ _ HY WY)|].
    split; [exact (store_tile nodes_of _ _ _ _ _ _ HZ WZ)|].
    exact (store_tile cells_of _ _ _ _ _ _ HdV WdV).
  - destruct HI as (HX & HY & HZ & HdV).
    exists X, Y, Z, dV. split.
    + rewrite E, bind_Ok. cbn [bind Gampp.gridX Gampp.gridY Gampp.gridZ
                                 Gampp.griddV Gampp.gridLoaded].
      reflexivity.
    + split; [|split; [|split]].
      * apply (gathered_all (Wn ranks) shN); [exact HXg| |exact HX].
        intros idx Hb. now apply grid_nodes_covered.
      * apply (gathered_all (Wn ranks) shN); [exact HYg| |exact HY].
        intros idx Hb. now apply grid_nodes_covered.
      * apply (gathered_all (Wn ranks) shN); [exact HZg| |exact HZ].
        intros idx Hb. now apply grid_nodes_covered.
      * apply (gathered_all (Wc ranks) shC); [exact HdVg| |exact HdV].
        intros idx Hb. now apply grid_cells_covered.
Qed.

End Sequential.

(** *** The concurrent reader *)

Section Concurrent.

Hypothesis Hmpi : Gampp.isMPI gp = true.
Hypothesis Hpar : Gampp.doParallel gp = true.
Hypothesis Hw : Gampp.nWorkers gp <> 0.

Let mpath (t : nat * nat * nat) : string :=
  let '(i, j, k) := t in
  (Gampp.fdir gp ++ "/" ++ genName (Gampp.ftag gp) i j k
     (Gampp.Ri gp) (Gampp.Rj gp) (Gampp.Rk gp))%string.

Lemma read_coord_nodes vID Ag order :
  shape Ag = shN ->
  (forall t, In t ranks ->
     PullVar (mpath t) vID None = Ok (getsel Ag (nodes_of t))) ->
  Permutation order (range (List.length ranks)) ->
  exists A,
    Gampp.read_coord genName gp
      (fun fIn loc => Gampp.PullVarLoc PullVar fIn vID None loc) order (zeros shN)
    = Ok A /\ arr_eq A Ag.
Proof.
  intros HA Hread Hperm. unfold Gampp.read_coord. fold ranks.
  rewrite (proj2 (Nat.eqb_neq _ _) Hw), bind_Ok.
  rewrite map_map.
  rewrite (map_ext_in _ (fun t => Ok (getsel Ag (nodes_of t), t))).
  2:{ intros [[i j] k] Ht. unfold Gampp.PullVarLoc.
      pose proof (Hread _ Ht) as R. unfold mpath in R. now rewrite R. }
  rewrite <- (map_map (fun t => (getsel Ag (nodes_of t), t)) Ok).
  rewrite as_completed_map, forM_collect, bind_Ok. cbn [app].
  rewrite as_completed_map, forM_map.
  set (l := Gampp.as_completed order ranks).
  destruct (forM_writes (fun _ : nat * nat * nat => True)
              (fun t => selected (nodes_of t)) (data Ag) shN
              (fun t data => setitem data (nodes_of t) (getsel Ag (nodes_of t))))
    with (l := l) (S := zeros shN) as [A [E Wr]].
  - intros t S _ HS. now apply node_store.
  - apply Forall_forall. auto.
  - reflexivity.
  - exists A. split.
    + rewrite <- E. apply forM_ext. intros [[i j] k] S _. reflexivity.
    + apply (gathered_all
               (fun idx => existsb (fun t => selected (nodes_of t) idx) l) shN);
        [exact HA| |exact Wr].
      intros idx Hb. apply grid_nodes_covered; [|exact Hb].
      intros t Ht. unfold l.
      apply (Permutation_in t (Permutation_sym (as_completed_perm order ranks Hperm))).
      exact Ht.
Qed.

Hypothesis HreadX : forall t, In t ranks ->
  PullVar (mpath t) "X" None = Ok (getsel Xg (nodes_of t)).
Hypothesis HreadY : forall t, In t ranks ->
  PullVar (mpath t) "Y" None = Ok (getsel Yg (nodes_of t)).
Hypothesis HreadZ : forall t, In t ranks ->
  PullVar (mpath t) "Z" None = Ok (getsel Zg (nodes_of t)).

Lemma GetGrid_concurrent_3D oX oY oZ doVerbose g :
  Gampp.gridLoaded g = false ->
  Permutation oX (range (List.length ranks)) ->
  Permutation oY (range (List.length ranks)) ->
  Permutation oZ (range (List.length ranks)) ->
  exists X Y Z,
    Gampp.GetGrid genName PullVar gp PullVarLoc_row oX oY oZ doVerbose g
    = ([], Ok (Gampp.mkGrid (Some X) (Some Y) (Some Z) (Gampp.griddV g) true)) /\
    arr_eq X Xg /\ arr_eq Y Yg /\ arr_eq Z Zg.
Proof.
  intros Hload PX PY PZ. unfold Gampp.GetGrid. rewrite Hload. cbn [negb].
  rewrite Hmpi, Hpar. cbn [andb]. unfold Gampp.GetGridParallel. rewrite H3D.
  destruct (read_coord_nodes "X" Xg oX HXg HreadX PX) as [X [EX AX]].
  destruct (read_coord_nodes "Y" Yg oY HYg HreadY PY) as [Y [EY AY]].
  destruct (read_coord_nodes "Z" Zg oZ HZg HreadZ PZ) as [Z [EZ AZ]].
  exists X, Y, Z. fold shN. rewrite EX, bind_Ok, EY, bind_Ok, EZ, bind_Ok.
  split; [reflexivity|]. auto.
Qed.

End Concurrent.

End Grid.

(** X26: the sequential mode of [GetGrid] on a 3D pipe whose grid is not yet
    loaded, over rank files (or one serial file) that hold the tiles of the
    global node arrays and of the global cell volumes, returns the grid with
    [X], [Y], [Z] and [dV] equal to the global arrays and with [gridLoaded]
    set. *)
Theorem GetGrid_assembles_grid
    (genName : string -> nat -> nat -> nat -> nat -> nat -> nat -> string)
    (PullVar : string -> string -> option Z -> result ndarray)
    (gp : Gampp.GameraPipe)
    (PullVarLoc_row :
       string -> ndarray -> nat * nat * nat -> result (ndarray * (nat * nat * nat)))
    (Xg Yg Zg dVg : ndarray) (oX oY oZ : list nat) (doVerbose : bool)
    (g : Gampp.grid) :
  let ranks := Gampp.product3 (Gampp.Ri gp) (Gampp.Rj gp) (Gampp.Rk gp) in
  let shN := [Gampp.Ni gp + 1; Gampp.Nj gp + 1; Gampp.Nk gp + 1] in
  let path := fun i j k =>
    if Gampp.isMPI gp
    then (Gampp.fdir gp ++ "/" ++ genName (Gampp.ftag gp) i j k
            (Gampp.Ri gp) (Gampp.Rj gp) (Gampp.Rk gp))%string
    else (Gampp.fdir gp ++ "/" ++ Gampp.ftag gp ++ ".h5")%string in
  Gampp.is2D gp = false ->
  1 <= Gampp.Ri gp -> 1 <= Gampp.Rj gp -> 1 <= Gampp.Rk gp ->
  Gampp.Ni gp = Gampp.Ri gp * Gampp.dNi gp ->
  Gampp.Nj gp = Gampp.Rj gp * Gampp.dNj gp ->
  Gampp.Nk gp = Gampp.Rk gp * Gampp.dNk gp ->
  shape Xg = shN -> shape Yg = shN -> shape Zg = shN ->
  shape dVg = [Gampp.Ni gp; Gampp.Nj gp; Gampp.Nk gp] ->
  Gampp.isMPI gp && Gampp.doParallel gp = false ->
  (forall i j k, In (i, j, k) ranks ->
     PullVar (path i j k) "X"%string None = Ok (getsel Xg (Gampp.node_tile gp i j k)) /\
     PullVar (path i j k) "Y"%string None = Ok (getsel Yg (Gampp.node_tile gp i j k)) /\
     PullVar (path i j k) "Z"%string None = Ok (getsel Zg (Gampp.node_tile gp i j k)) /\
     PullVar (path i j k) "dV"%string None = Ok (getsel dVg (Gampp.tile gp i j k))) ->
  Gampp.gridLoaded g = false ->
  exists X Y Z dV,
    snd (Gampp.GetGrid genName PullVar gp PullVarLoc_row oX oY oZ doVerbose g)
    = Ok (Gampp.mkGrid (Some X) (Some Y) (Some Z) (Some dV) true) /\
    arr_eq X Xg /\ arr_eq Y Yg /\ arr_eq Z Zg /\ arr_eq dV dVg.
Proof.
  intros ranks shN path H3D HRi HRj HRk HNi HNj HNk HXg HYg HZg HdVg Hseq Hread Hg.
  assert (Hall : exists X Y Z dV,
            Gampp.GetGrid genName PullVar gp PullVarLoc_row oX oY oZ doVerbose g
            = ([], Ok (Gampp.mkGrid (Some X) (Some Y) (Some Z) (Some dV) true)) /\
            arr_eq X Xg /\ arr_eq Y Yg /\ arr_eq Z Zg /\ arr_eq dV dVg).
  { apply (GetGrid_sequential_3D genName PullVar gp PullVarLoc_row Xg Yg Zg dVg
             H3D HRi HRj HRk HNi HNj HNk HXg HYg HZg HdVg Hseq);
      try exact Hg; intros [[i j] k] Ht; apply (Hread i j k Ht). }
  destruct Hall as (X & Y & Z & dV & E & H).
  exists X, Y, Z, dV. rewrite E. split; [reflexivity|exact H].
Qed.

Lemma grid_reads (PullVar : string -> string -> option Z -> result ndarray)
    (gp : Gampp.GameraPipe) i j k :
  gp = pipe_sequential \/ gp = pipe_parallel ->
  PullVar = grid_files ->
  In (i, j, k) (Gampp.product3 2 1 1) ->
  let path := ("run" ++ "/" ++ genName_gam "msphere" i j k 2 1 1)%string in
  PullVar path "X"%string None = Ok (getsel grid_X (Gampp.node_tile gp i j k)) /\
  PullVar path "Y"%string None = Ok (getsel grid_Y (Gampp.node_tile gp i j k)) /\
  PullVar path "Z"%string None = Ok (getsel grid_Z (Gampp.node_tile gp i j k)) /\
  PullVar path "dV"%string None = Ok (getsel grid_dV (Gampp.tile gp i j k)).
Proof.
  intros Hgp -> H. apply in_product3 in H. destruct H as (Hi & Hj & Hk).
  assert (j = 0) by lia. assert (k = 0) by lia. subst j k.
  destruct Hgp as [-> | ->];
    (destruct i as [|[|i]]; [repeat split; reflexivity|repeat split; reflexivity|lia]).
Defined.

Lemma GetGrid_assembles_grid_witness :
  exists X Y Z dV,
    snd (Gampp.GetGrid genName_gam grid_files pipe_sequential row_reader [] [] []
                       false Gampp.no_grid)
    = Ok (Gampp.mkGrid (Some X) (Some Y) (Some Z) (Some dV) true) /\
    arr_eq X grid_X /\ arr_eq Y grid_Y /\ arr_eq Z grid_Z /\ arr_eq dV grid_dV.
Proof.
  apply (GetGrid_assembles_grid genName_gam grid_files pipe_sequential row_reader
           grid_X grid_Y grid_Z grid_dV [] [] [] false Gampp.no_grid);
    try reflexivity; try (cbn; lia).
  intros i j k Ht.
  exact (grid_reads grid_files pipe_sequential i j k (or_introl eq_refl) eq_refl Ht).
Defined.

(** X27: the concurrent mode of [GetGrid] (an MPI pipe with [doParallel] and
    at least one worker) on a 3D pipe whose grid is not yet loaded returns
    [X], [Y] and [Z] equal to the global node arrays, in whatever orders the
    reads of the three pools complete, and sets [gridLoaded]; it reads no
    cell volumes: [dV] is left as it was, unset on a new pipe. *)
Theorem GetGrid_concurrent_reads_no_volumes
    (genName : string -> nat -> nat -> nat -> nat -> nat -> nat -> string)
    (PullVar : string -> string -> option Z -> result ndarray)
    (gp : Gampp.GameraPipe)
    (PullVarLoc_row :
       string -> ndarray -> nat * nat * nat -> result (ndarray * (nat * nat * nat)))
    (Xg Yg Zg : ndarray) (oX oY oZ : list nat) (doVerbose : bool)
    (g : Gampp.grid) :
  let ranks := Gampp.product3 (Gampp.Ri gp) (Gampp.Rj gp) (Gampp.Rk gp) in
  let shN := [Gampp.Ni gp + 1; Gampp.Nj gp + 1; Gampp.Nk gp + 1] in
  let path := fun i j k =>
    (Gampp.fdir gp ++ "/" ++ genName (Gampp.ftag gp) i j k
       (Gampp.Ri gp) (Gampp.Rj gp) (Gampp.Rk gp))%string in
  Gampp.is2D gp = false ->
  1 <= Gampp.Ri gp -> 1 <= Gampp.Rj gp -> 1 <= Gampp.Rk gp ->
  Gampp.Ni gp = Gampp.Ri gp * Gampp.dNi gp ->
  Gampp.Nj gp = Gampp.Rj gp * Gampp.dNj gp ->
  Gampp.Nk gp = Gampp.Rk gp * Gampp.dNk gp ->
  shape Xg = shN -> shape Yg = shN -> shape Zg = shN ->
  Gampp.isMPI gp = true -> Gampp.doParallel gp = true ->
  Gampp.nWorkers gp <> 0 ->
  (forall i j k, In (i, j, k) ranks ->
     PullVar (path i j k) "X"%string None = Ok (getsel Xg (Gampp.node_tile gp i j k)) /\
     PullVar (path i j k) "Y"%string None = Ok (getsel Yg (Gampp.node_tile gp i j k)) /\
     PullVar (path i j k) "Z"%string None = Ok (getsel Zg (Gampp.node_tile gp i j k))) ->
  Gampp.gridLoaded g = false ->
  Permutation oX (range (List.length ranks)) ->
  Permutation oY (range (List.length ranks)) ->
  Permutation oZ (range (List.length ranks)) ->
  exists X Y Z,
    Gampp.GetGrid genName PullVar gp PullVarLoc_row oX oY oZ doVerbose g
    = ([], Ok (Gampp.mkGrid (Some X) (Some Y) (Some Z) (Gampp.griddV g) true)) /\
    arr_eq X Xg /\ arr_eq Y Yg /\ arr_eq Z Zg.
Proof.
  intros ranks shN path H3D HRi HRj HRk HNi HNj HNk HXg HYg HZg Hmpi Hpar Hw
         Hread Hg PX PY PZ.
  apply (GetGrid_concurrent_3D genName PullVar gp PullVarLoc_row Xg Yg Zg
           H3D HRi HRj HRk HNi HNj HNk HXg HYg HZg Hmpi Hpar Hw);
    try assumption; intros [[i j] k] Ht; apply (Hread i j k Ht).
Qed.

Lemma GetGrid_concurrent_reads_no_volumes_witness :
  exists X Y Z,
    Gampp.GetGrid genName_gam grid_files pipe_parallel row_reader
                  [1; 0] [0; 1] [1; 0] true Gampp.no_grid
    = ([], Ok (Gampp.mkGrid (Some X) (Some Y) (Some Z) None true)) /\
    arr_eq X grid_X /\ arr_eq Y grid_Y /\ arr_eq Z grid_Z.
Proof.
  apply (GetGrid_concurrent_reads_no_volumes genName_gam grid_files pipe_parallel
           row_reader grid_X grid_Y grid_Z [1; 0] [0; 1] [1; 0] true Gampp.no_grid);
    try reflexivity; try (cbn; lia); try discriminate;
    try (apply perm_swap); try (apply Permutation_refl).
  intros i j k Ht.
  destruct (grid_reads grid_files pipe_parallel i j k (or_intror eq_refl) eq_refl Ht)
    as (HX & HY & HZ & _).
  repeat split; assumption.
Defined.

(** *** Loading once *)

(** X28: a call of [GetGrid] that returns leaves the grid marked as loaded,
    and every later call on that pipe, whatever the files then hold and
    whatever the read mode, reads nothing: it prints [Grid Previously Loaded]
    and leaves the grid as it is. *)
Theorem GetGrid_loads_once
    (genName genName' : string -> nat -> nat -> nat -> nat -> nat -> nat -> string)
    (PullVar PullVar' : string -> string -> option Z -> result ndarray)
    (gp : Gampp.GameraPipe)
    (PullVarLoc_row PullVarLoc_row' :
       string -> ndarray -> nat * nat * nat -> result (ndarray * (nat * nat * nat)))
    (oX oY oZ oX' oY' oZ' : list nat) (doVerbose doVerbose' : bool)
    (g g' : Gampp.grid) (out : list string) :
  Gampp.GetGrid genName PullVar gp PullVarLoc_row oX oY oZ doVerbose g
  = (out, Ok g') ->
  Gampp.gridLoaded g' = true /\
  Gampp.GetGrid genName' PullVar' gp PullVarLoc_row' oX' oY' oZ' doVerbose' g'
  = (["Grid Previously Loaded"%string], Ok g').
Proof.
  intros H. unfold Gampp.GetGrid in H.
  assert (L : exists X Y Z dV, g' = Gampp.mkGrid X Y Z dV true).
  { destruct (Gampp.gridLoaded g); cbn [negb] in H; cbv iota in H.
    - injection H as _ H. subst g'. now eexists _, _, _, _.
    - match type of H with
      | (_, bind ?c _) = _ => destruct c as [g1|e]
      end; [|discriminate H].
      rewrite bind_Ok in H. injection H as _ H. subst g'. now eexists _, _, _, _. }
  destruct L as (X & Y & Z & dV & ->). split; reflexivity.
Qed.

Lemma GetGrid_loads_once_witness :
  exists g',
    Gampp.GetGrid genName_gam grid_files pipe_sequential row_reader [] [] [] false
                  Gampp.no_grid = ([], Ok g') /\
    Gampp.gridLoaded g' = true /\
    Gampp.GetGrid genName_gam no_files pipe_sequential row_reader [] [] [] true g'
    = (["Grid Previously Loaded"%string], Ok g').
Proof.
  eexists. split; [reflexivity|].
  apply (GetGrid_loads_once genName_gam genName_gam grid_files no_files
           pipe_sequential row_reader row_reader [] [] [] [] [] [] false true
           Gampp.no_grid _ []).
  reflexivity.
Defined.

(** *** The concurrent reader on a 2D pipe *)

Lemma collect_length {A : Type} (l : list (result A)) :
  forall acc ds,
    forM l acc (fun future datasets => let* r := future in Ok (datasets ++ [r]))
    = Ok ds ->
    List.length ds = List.length acc + List.length l.
Proof.
  induction l as [|x l IH]; intros acc ds H; cbn [forM] in H.
  - injection H as <-. cbn. lia.
  - destruct x as [r|e]; [|discriminate H]. rewrite !bind_Ok in H.
    apply IH in H. rewrite H, length_app. cbn. lia.
Qed.

Lemma product3_length a b c :
  1 <= a -> 1 <= b -> 1 <= c -> 1 <= List.length (Gampp.product3 a b c).
Proof.
  intros Ha Hb Hc.
  assert (H : In (0, 0, 0) (Gampp.product3 a b c)) by (apply in_product3; lia).
  destruct (Gampp.product3 a b c); [destruct H|cbn; lia].
Qed.

Section Concurrent2D.

Variable genName : string -> nat -> nat -> nat -> nat -> nat -> nat -> string.
Variable PullVar : string -> string -> option Z -> result ndarray.
Variable gp : Gampp.GameraPipe.
Variable PullVarLoc_row :
  string -> ndarray -> nat * nat * nat -> result (ndarray * (nat * nat * nat)).

Hypothesis H2D : Gampp.is2D gp = true.
Hypothesis HRi : 1 <= Gampp.Ri gp.
Hypothesis HRj : 1 <= Gampp.Rj gp.
Hypothesis HRk : 1 <= Gampp.Rk gp.

(** The rows of a 2D array take no tile of two slices. *)
Lemma read_coord_row submit order data n :
  shape data = [n] ->
  Permutation order
    (range (List.length (Gampp.product3 (Gampp.Ri gp) (Gampp.Rj gp) (Gampp.Rk gp)))) ->
  exists e, Gampp.read_coord genName gp submit order data = Raise e.
Proof.
  intros Hd Hperm. unfold Gampp.read_coord.
  destruct (Gampp.nWorkers gp =? 0); [now exists ValueError|]. rewrite bind_Ok.
  match goal with
  | |- context [forM (Gampp.as_completed order ?f) [] ?b] =>
      set (futures := f);
      destruct (forM (Gampp.as_completed order futures) [] b) as [ds|e] eqn:E
  end; [|now exists e].
  rewrite bind_Ok. apply collect_length in E.
  assert (Hlen : List.length futures
                 = List.length (Gampp.product3 (Gampp.Ri gp) (Gampp.Rj gp)
                                               (Gampp.Rk gp)))
    by (unfold futures; now rewrite !length_map).
  rewrite <- Hlen in Hperm.
  rewrite (Permutation_length (as_completed_perm order futures Hperm)), Hlen in E.
  pose proof (product3_length _ _ _ HRi HRj HRk) as Hpos.
  destruct ds as [|[dataset [[i j] k]] ds]; [cbn in E; lia|].
  cbn [forM]. unfold setitem, Gampp.node_tile. cbv zeta.
  rewrite H2D, Hd. cbn [sel_ok]. rewrite bind_Raise. now exists IndexError.
Qed.

Lemma GetGridParallel_2D oX oY oZ doVerbose g :
  Permutation oX
    (range (List.length (Gampp.product3 (Gampp.Ri gp) (Gampp.Rj gp) (Gampp.Rk gp)))) ->
  (exists e, Gampp.GetGridParallel genName PullVar gp PullVarLoc_row
               oX oY oZ doVerbose g = Raise e) /\
  (Gampp.Ni gp <> 1 ->
   Gampp.GetGridParallel genName PullVar gp PullVarLoc_row oX oY oZ doVerbose g
   = Raise ValueError).
Proof.
  intros Hperm. unfold Gampp.GetGridParallel. rewrite H2D. cbv zeta.
  unfold Gampp.unpack_rows. cbn [shape zeros].
  rewrite (Nat.add_1_r (Gampp.Ni gp)).
  destruct (Gampp.Ni gp) as [|[|n]] eqn:EN.
  - split; [exists ValueError|intros _]; reflexivity.
  - rewrite bind_Ok. split; [|intros C; now destruct C].
    destruct (read_coord_row
                (fun fIn loc =>
                   PullVarLoc_row fIn (getsel (zeros [2; Gampp.Nj gp + 1]) [At 1]) loc)
                oX (getsel (zeros [2; Gampp.Nj gp + 1]) [At 0])
                (Gampp.Nj gp + 1) eq_refl Hperm) as [e E].
    exists e. rewrite E. reflexivity.
  - split; [exists ValueError|intros _]; reflexivity.
Qed.

End Concurrent2D.

(** X29: on a 2D pipe with at least one rank file whose grid is not yet
    loaded, the concurrent mode of [GetGrid] never returns a grid: it raises.
    Unless the pipe has exactly one cell along I the exception is the
    [ValueError] of unpacking a coordinate array into [data, vID]. *)
Theorem GetGrid_concurrent_2D_raises
    (genName : string -> nat -> nat -> nat -> nat -> nat -> nat -> string)
    (PullVar : string -> string -> option Z -> result ndarray)
    (gp : Gampp.GameraPipe)
    (PullVarLoc_row :
       string -> ndarray -> nat * nat * nat -> result (ndarray * (nat * nat * nat)))
    (oX oY oZ : list nat) (doVerbose : bool) (g : Gampp.grid) :
  Gampp.is2D gp = true ->
  Gampp.isMPI gp = true -> Gampp.doParallel gp = true ->
  1 <= Gampp.Ri gp -> 1 <= Gampp.Rj gp -> 1 <= Gampp.Rk gp ->
  Gampp.gridLoaded g = false ->
  Permutation oX
    (range (List.length (Gampp.product3 (Gampp.Ri gp) (Gampp.Rj gp) (Gampp.Rk gp)))) ->
  (exists e,
     Gampp.GetGrid genName PullVar gp PullVarLoc_row oX oY oZ doVerbose g
     = ([], Raise e)) /\
  (Gampp.Ni gp <> 1 ->
   Gampp.GetGrid genName PullVar gp PullVarLoc_row oX oY oZ doVerbose g
   = ([], Raise ValueError)).
Proof.
  intros H2D Hmpi Hpar HRi HRj HRk Hg Hperm.
  destruct (GetGridParallel_2D genName PullVar gp PullVarLoc_row H2D HRi HRj HRk
              oX oY oZ doVerbose g Hperm) as [[e E] HV].
  unfold Gampp.GetGrid. rewrite Hg, Hmpi, Hpar. cbn [negb andb]. split.
  - exists e. now rewrite E.
  - intros HN. now rewrite (HV HN).
Qed.

Lemma GetGrid_concurrent_2D_raises_witness :
  Gampp.GetGrid genName_gam grid_files pipe_2D_parallel row_echo [0] [0] [0] false
                Gampp.no_grid
  = ([], Raise IndexError).
Proof.
  destruct (GetGrid_concurrent_2D_raises genName_gam grid_files pipe_2D_parallel
              row_echo [0] [0] [0] false Gampp.no_grid) as [[e E] _];
    try reflexivity; try (cbn; lia).
Defined.

(** * GamsphPipe.EggSlice *)

Section Egg.

Variable Q : ndarray.
Variables (Ni Nj Nk : nat).
Hypothesis HQ : shape Q = [Ni; Nj; Nk].

Lemma column_plane jp m :
  jp < Nj -> m < Nk ->
  Magsphere.column Q jp (Z.of_nat m) = Ok (getsel Q [All; At jp; At m]).
Proof.
  intros Hj Hm. unfold Magsphere.column. rewrite HQ.
  rewrite wrap_index_in by lia. rewrite bind_Ok, Nat2Z.id.
  apply getitem_ok. rewrite HQ. bounds.
Qed.

Variables (ku1 ku2 kl1 kl2 : nat).
Hypothesis Hku1 : ku1 < Nk.
Hypothesis Hku2 : ku2 < Nk.
Hypothesis Hkl1 : kl1 < Nk.
Hypothesis Hkl2 : kl2 < Nk.

Let Fegg (idx : index) : Qc :=
  match idx with
  | [i; j] =>
      if Nj <=? j
      then Qcmult half (Qcplus (data Q [i; 2 * Nj - j - 1; kl1])
                               (data Q [i; 2 * Nj - j - 1; kl2]))
      else Qcmult half (Qcplus (data Q [i; j; ku1]) (data Q [i; j; ku2]))
  | _ => Q2Qc 0
  end.

Lemma average_column S j jp m1 m2 :
  shape S = [Ni; 2 * Nj] -> j < 2 * Nj -> jp < Nj -> m1 < Nk -> m2 < Nk ->
  (forall i, i < Ni ->
     Qcmult half (Qcplus (data Q [i; jp; m1]) (data Q [i; jp; m2])) = Fegg [i; j]) ->
  exists S',
    (let* a := Magsphere.column Q jp (Z.of_nat m1) in
     let* b := Magsphere.column Q jp (Z.of_nat m2) in
     let* ab := aadd a b in
     setitem S [All; At j] (ascale half ab)) = Ok S' /\
    writes (selected [All; At j]) Fegg S S'.
Proof.
  intros HS Hj Hjp Hm1 Hm2 HF.
  rewrite !column_plane by assumption. rewrite !bind_Ok.
  assert (Hc : forall m, shape (getsel Q [All; At jp; At m]) = [Ni])
    by (intros m; cbn [getsel shape]; rewrite HQ; reflexivity).
  destruct (zipwith_same Qcplus (getsel Q [All; At jp; At m1])
              (getsel Q [All; At jp; At m2])) as (ab & Eab & Hab & Dab);
    [now rewrite !Hc|].
  unfold aadd. rewrite Eab, bind_Ok. rewrite Hc in Hab, Dab.
  apply setitem_writes.
  - rewrite HS. bounds.
  - cbn [ascale shape]. rewrite Hab, HS. reflexivity.
  - rewrite HS. intros idx sub Hb Hinv Hsub.
    apply in_bounds_2 in Hb. destruct Hb as (x & y & -> & Hx & Hy).
    cbn [ascale shape data] in Hsub |- *. rewrite Hab in Hsub.
    pose proof Hsub as Hsub'.
    apply in_bounds_1 in Hsub. destruct Hsub as (i & -> & Hi).
    rewrite (Dab _ Hsub').
    cbn [sel_inv] in Hinv.
    destruct (y =? j) eqn:Ey; [|discriminate Hinv].
    apply Nat.eqb_eq in Ey. subst y.
    cbn in Hinv. injection Hinv as <-.
    cbn [getsel data sel_index]. apply HF. exact Hi.
Qed.

Lemma egg_loop :
  exists Qk,
    forM (range (2 * Nj)) (zeros [Ni; 2 * Nj]) (fun j Qk =>
      if Nj <=? j then
        let jp := 2 * Nj - j - 1 in
        let* a := Magsphere.column Q jp (Z.of_nat kl1) in
        let* b := Magsphere.column Q jp (Z.of_nat kl2) in
        let* ab := aadd a b in
        setitem Qk [All; At j] (ascale half ab)
      else
        let jp := j in
        let* a := Magsphere.column Q jp (Z.of_nat ku1) in
        let* b := Magsphere.column Q jp (Z.of_nat ku2) in
        let* ab := aadd a b in
        setitem Qk [All; At j] (ascale half ab)) = Ok Qk /\
    shape Qk = [Ni; 2 * Nj] /\
    forall i j, i < Ni -> j < Nj ->
      data Qk [i; j]
      = Qcmult half (Qcplus (data Q [i; j; ku1]) (data Q [i; j; ku2])) /\
      data Qk [i; 2 * Nj - 1 - j]
      = Qcmult half (Qcplus (data Q [i; j; kl1]) (data Q [i; j; kl2])).
Proof.
  set (sh := [Ni; 2 * Nj]).
  loop_writes
    (fun idx => existsb (fun j => selected [All; At j] idx) (range (2 * Nj)))
    Fegg Hloop.
  - apply (forM_writes (fun j => j < 2 * Nj) (fun j => selected [All; At j])
                       Fegg sh); [|apply Forall_range|reflexivity].
    intros j S Hj HS. destruct (Nj <=? j) eqn:E; cbv zeta.
    + apply Nat.leb_le in E.
      apply average_column; try assumption; try lia.
      intros i Hi. unfold Fegg.
      replace (Nj <=? j) with true by (symmetry; apply Nat.leb_le; lia).
      reflexivity.
    + apply Nat.leb_gt in E.
      apply average_column; try assumption; try lia.
      intros i Hi. unfold Fegg.
      replace (Nj <=? j) with false by (symmetry; apply Nat.leb_gt; lia).
      reflexivity.
  - destruct Hloop as [Qk [E Wr]].
    exists Qk. split; [exact E|]. split; [now rewrite (writes_shape _ _ _ _ Wr)|].
    intros i j Hi Hj.
    assert (Hcell : forall y, y < 2 * Nj -> data Qk [i; y] = Fegg [i; y]).
    { intros y Hy.
      rewrite (writes_hit _ _ _ _ [i; y] Wr);
        [reflexivity|unfold sh; cbn [shape zeros]; bounds|].
      apply existsb_range. exists y. split; [lia|]. pick_cell. }
    split.
    + rewrite Hcell by lia. unfold Fegg.
      replace (Nj <=? j) with false by (symmetry; apply Nat.leb_gt; lia).
      reflexivity.
    + rewrite Hcell by lia. unfold Fegg.
      replace (Nj <=? 2 * Nj - 1 - j) with true by (symmetry; apply Nat.leb_le; lia).
      replace (2 * Nj - (2 * Nj - 1 - j) - 1) with j by lia.
      reflexivity.
Qed.

End Egg.

Lemma half_extent (Nk g : nat) :
  2 * g <= Nk ->
  ((Z.of_nat Nk - 2 * Z.of_nat g) / 2)%Z = Z.of_nat ((Nk - 2 * g) / 2) /\
  ((Z.of_nat Nk - 2 * Z.of_nat g) / 4)%Z = Z.of_nat ((Nk - 2 * g) / 4).
Proof.
  intros H. split; rewrite Nat2Z.inj_div, Nat2Z.inj_sub by lia; f_equal; lia.
Qed.

(** X30: on a 3D pipe whose [GetVar] returns the array [Q], with [g] ghost
    cells and at least two (for [doEq]) or four (otherwise) other cells along
    K, [EggSlice] returns an array of shape (Ni, 2*Nj): column j of the upper
    half holds the mean of the K planes ku1 and ku2 of column j of [Q], and
    column 2*Nj-1-j of the lower half the mean of the planes kl1 and kl2.
    With [doEq] the planes are Nk-g-1, g, g+Nk2-1 and g+Nk2, otherwise
    g+Nk4-1, g+Nk4, g+3*Nk4-1 and g+3*Nk4; Nk2 and Nk4 are (Nk-2g)//2 and
    (Nk-2g)//4. *)
Theorem EggSlice_averages_planes
    (genName : string -> nat -> nat -> nat -> nat -> nat -> nat -> string)
    (PullVar : string -> string -> option Z -> result ndarray)
    (gp : Gampp.GameraPipe) (order : list nat) (vID : string) (sID : option Z)
    (vScl : option Qc) (doEq doVerb : bool) (g : nat) (Q : ndarray) :
  Gampp.is2D gp = false ->
  Gampp.GetVar genName PullVar gp order vID sID vScl doVerb = Ok Q ->
  (if doEq then 2 else 4) + 2 * g <= Gampp.Nk gp ->
  let '(ku1, ku2, kl1, kl2) := egg_planes (Gampp.Nk gp) g doEq in
  exists Qk,
    Magsphere.EggSlice genName PullVar gp order vID sID vScl doEq doVerb
                       (Z.of_nat g) = Ok Qk /\
    shape Qk = [Gampp.Ni gp; 2 * Gampp.Nj gp] /\
    forall i j, i < Gampp.Ni gp -> j < Gampp.Nj gp ->
      data Qk [i; j]
      = Qcmult half (Qcplus (data Q [i; j; ku1]) (data Q [i; j; ku2])) /\
      data Qk [i; 2 * Gampp.Nj gp - 1 - j]
      = Qcmult half (Qcplus (data Q [i; j; kl1]) (data Q [i; j; kl2])).
Proof.
  intros H3D EQ Hk.
  pose proof (GetVar_shape_inv _ _ _ _ _ _ _ _ _ EQ) as HQ.
  unfold Gampp.alloc_V in HQ. rewrite H3D in HQ. cbn [shape zeros] in HQ.
  destruct (half_extent (Gampp.Nk gp) g) as [E2 E4]; [destruct doEq; lia|].
  unfold Magsphere.EggSlice. rewrite EQ, bind_Ok. cbv zeta. rewrite E2, E4.
  unfold egg_planes. cbv zeta.
  destruct doEq; cbv beta iota.
  - replace (Z.of_nat (Gampp.Nk gp) - Z.of_nat g - 1)%Z
      with (Z.of_nat (Gampp.Nk gp - g - 1)) by lia.
    replace (Z.of_nat g + Z.of_nat ((Gampp.Nk gp - 2 * g) / 2) - 1)%Z
      with (Z.of_nat (g + (Gampp.Nk gp - 2 * g) / 2 - 1)) by lia.
    replace (Z.of_nat g + Z.of_nat ((Gampp.Nk gp - 2 * g) / 2))%Z
      with (Z.of_nat (g + (Gampp.Nk gp - 2 * g) / 2)) by lia.
    apply (egg_loop Q _ _ _ HQ); lia.
  - replace (Z.of_nat g + Z.of_nat ((Gampp.Nk gp - 2 * g) / 4) - 1)%Z
      with (Z.of_nat (g + (Gampp.Nk gp - 2 * g) / 4 - 1)) by lia.
    replace (Z.of_nat g + Z.of_nat ((Gampp.Nk gp - 2 * g) / 4))%Z
      with (Z.of_nat (g + (Gampp.Nk gp - 2 * g) / 4)) by lia.
    replace (Z.of_nat g + 3 * Z.of_nat ((Gampp.Nk gp - 2 * g) / 4) - 1)%Z
      with (Z.of_nat (g + 3 * ((Gampp.Nk gp - 2 * g) / 4) - 1)) by lia.
    replace (Z.of_nat g + 3 * Z.of_nat ((Gampp.Nk gp - 2 * g) / 4))%Z
      with (Z.of_nat (g + 3 * ((Gampp.Nk gp - 2 * g) / 4))) by lia.
    apply (egg_loop Q _ _ _ HQ); lia.
Qed.

Lemma EggSlice_averages_planes_witness :
  exists Qk,
    Magsphere.EggSlice genName_gam egg_file pipe_egg [] "D" None None false true 0
    = Ok Qk /\
    shape Qk = [1; 4] /\
    this (data Qk [0; 1]) = (21 # 2)%Q /\ this (data Qk [0; 2]) = (25 # 2)%Q.
Proof.
  destruct (EggSlice_averages_planes genName_gam egg_file pipe_egg [] "D" None
              None false true 0 _ eq_refl eq_refl (le_n 4))
    as [Qk [E [Hs Hc]]].
  exists Qk. split; [exact E|]. split; [exact Hs|].
  destruct (Hc 0 1) as [Hu Hl]; [cbn; lia|cbn; lia|].
  change (2 * Gampp.Nj pipe_egg - 1 - 1) with 2 in Hl.
  rewrite Hu, Hl. split; vm_compute; reflexivity.
Defined.

